(* ===== verification/_CoqProject ===== *)
-Q . S2P
Prelude.v
GoStd.v
Sha256.v
Lexer.v
Parser.v
Interpreter.v
Entity.v
Interfaces.v
Identity.v
Job.v
Store.v
Future.v
Profile.v
Evaluate.v
Reconcile.v
Scheduler.v
SchedulerFacts.v
SchedulerProps.v
SchedulerLoop.v
SchedulerWitness.v
SchedulerSpec.v
SchedulerRemoval.v
ProcessConfig.v
Hardware.v
Config.v
Activation.v
Executor.v
PodmanEngine.v
Resources.v
Controller.v
ControllerLive.v
Certificate.v
Client.v
LogTransport.v
Startup.v
System.v
