(* ===== verification/Prelude.v ===== *)
(** * Verification of flotta-device-worker-ng

    The device worker enrols and registers with an operator, fetches
    configurations, and keeps the workloads of the last one running: pods on
    podman, deployments on k8s, with activation conditions on metrics, CPU
    limits, cron activations and restarts.  This library models its own Go code
    (vendored packages, mocks and tests left out) and proves what its components
    do.  Every file opens with the sources it models; names are those of the
    source where Rocq allows.

    ** The program and the files

    Basis.
    - [Prelude]: tactics and hints; [GoStd]: errors, fixed-width integers,
      [float32] as executable IEEE 754, and the string functions the code uses;
      [Sha256]: an executable SHA-256; [Entity]: the data types of
      [internal/entity], the hash and the identifier of a workload, messages;
      [Interfaces]: effects as calls on an abstract world in a state monad, the
      interfaces [common.Executor] and [common.ResourceManager], clock, cron and
      the order of a range over a map, as classes; [Identity]: [Hash()] and
      [ID()] as calls that range over maps, and the workloads [FixedPod] for
      which every call gives the same identifier.

    Activation conditions ([internal/configuration/interpreter]).
    - [Lexer] refines a reference tokenizer; [Parser] is sound and complete for a
      grammar and always returns; [Interpreter] computes the logical meaning of
      an expression, and errs exactly where a check of its text and of the
      kinds of the metrics says.

    Jobs and their scheduler ([internal/scheduler], [internal/entity]).
    - [Job]: the state of a job, its hooks, timers and builder.
    - [Store]: the slice of jobs, with the aliasing that a deletion inside a
      loop over it exposes, and [substract].
    - [Future]: a goroutine and the future that polls it, as interleaved steps
      that refine a value that is or is not there.
    - [Profile]: evaluator, metric server and profile manager
      ([internal/profile]), a loop over channels that can block.
    - [Evaluate]: the evaluation of the conditions of a job, over maps whose
      order is unspecified, against a reference that has no order.
    - [Reconcile]: the functions that bring a workload to its target, against
      the interfaces only, with a class [Engine] for an engine that works.
    - [Scheduler]: one definition per case of the [select] and the relation
      [step]; [SchedulerFacts]: the invariant and its preservation;
      [SchedulerProps], [SchedulerLoop]: the theorems; [SchedulerWitness]: the
      theorems applied to a scheduler that runs; [SchedulerSpec]: an abstract
      machine of managed workloads and busy identifiers, which the scheduler
      refines step by step; [SchedulerRemoval]: marked jobs leave the store.

    Outside the scheduler.
    - [Hardware], [Config]: the records exchanged with the operator, their
      translation ([internal/client/http/mapper.go]) and the configuration
      manager ([internal/configuration/manager.go]).
    - [Executor]: routing to podman or k8s and both executors
      ([internal/executor]); [PodmanEngine]: they implement [Reconcile.Engine]
      when podman behaves as documented, so that the chain from the reconciler
      to the bindings reaches its target.
    - [Resources]: the resource manager ([internal/resources]), which implements
      [Interfaces.ResourceManager]; a limit that is set is the one read back.
    - [Controller]: enrolment, registration and operation
      ([internal/edge/controller.go]), as handlers and the relation [ctl_step];
      [ControllerLive]: the requests made when the operator accepts; [Certificate] ([internal/certificate]) and [Client]
      ([internal/client/http]) are the two sides it calls; [LogTransport]: the
      round tripper that logs.
    - [ProcessConfig]: flags, environment and configuration file
      ([configuration/config.go]); [Startup]: the command ([cmd/root.go]), from
      its flags to the started components and its shutdown.

    Compositions.
    - [Activation]: from the texts of the conditions and the metrics to the
      target of a job, through parser, interpreter, configuration manager,
      profile manager and scheduler.
    - [System]: a configuration from the operator's answer to the jobs of the
      scheduler.

    ** How the code is modelled

    A goroutine with a [select] is a record with its variables and channels, one
    definition per case, and a step relation with the guards of the cases;
    executions are its reflexive transitive closure.  Values shared between
    goroutines (jobs) live in a heap and are read through locations; a job read
    by a reconciliation in progress is a [JobRef], whose fields are read again
    at each access.  What a call of a library or of another goroutine answers is
    left to the world, so that theorems hold for every answer; documented
    behaviour is a class of laws ([Engine], [PodmanLaws], [KernelLaws],
    [CryptoLaws], [FileLaws], [CronLaws], [MonotonicClock], [ViperLaws],
    [Accepting], [Unobserved]), and every theorem that uses one is applied to an
    instance.  A panic, a nil dereference and an
    index out of range are the result [None] or a state of their own.  A range
    over a map visits the entries in an order given by [MapOrder].

    Identifiers hash maps in the order of their ranges, so that two calls of
    [ID()] can differ ([Entity.ID_unstable]).  Where the code calls it again and
    again on one workload ([Config], [System], [PodmanEngine]) calls are calls
    of [Identity.ID_call], or the workloads are [FixedPod]s; the scheduler is
    proved for any type of workloads with one identifier each
    ([Entity.Workload]), and [Executor] names pods by the identifier of one
    order.  Bodies of HTTP messages are readers in a memory, consumed by reading
    ([LogTransport]).

    Fuel appears in the lexer and the parser only: two more than the bytes of
    the text, which [Parser.parse_total] proves enough.

    ** What the theorems show

    - The scheduler: which jobs a configuration adds, keeps and marks
      ([input_spec]), at most one reconciliation per workload
      ([reconcile_single_flight]), when a job is removed and when a
      reconciliation starts, what an evaluation sets, distinct identifiers,
      marked jobs leave the store after as many cycles as their place in it
      ([removal_completes]), the refinement of an abstract machine
      ([scheduler_refines]) and what it gives ([workloads_kept]); and where it stops or forgets
      ([heartbeat_deadlock], [inactive_job_never_removed],
      [relisted_stays_marked], [resource_attempt_lost]).
    - Reconciliation: the order of the calls whatever changes meanwhile, and
      that the target is reached.
    - Conditions: total, sound and complete parsing; evaluation as meaning; the
      target of a job from the texts of its conditions ([activation]).
    - The edge: the order of requests and that operation is reached, renewal of
      the certificate and what it writes (not checking the write of the
      certificate, [write_error_dropped]), the certificate of each request, what
      an unexpected answer does, and that logging is transparent.
    - The process: what the flags do ([bindFlags_spec], [server_address]) and
      where they do nothing ([server_flag_ignored]), the identifier of the
      device, and what a started device never does
      ([heartbeats_without_workloads], [interrupt_never_exits]).
    - Data: translations lose nothing or say when they crash; the hash of a
      configuration does not depend on the order of workloads with distinct and
      fixed identifiers; limits survive being written and read.

    ** Not modelled

    Log lines other than those of [LogTransport] and the encoder settings of the
    logger; the printing of entities, tokens and expressions ([String] through
    JSON), which only the log reads and the hash of a configuration, where it is
    a parameter; the HTTP and TLS transport and the
    I/O of the metric server; [main.go], which only calls the command; the
    collection of hardware data, which is commented out; mocks and tests.
    Buffered sends of the configuration manager are messages in order: that they
    can block a goroutine whose receiver is stuck is not modelled.  Signals are
    one action of the command. *)
From stdpp Require Export base gmap strings list fin_maps numbers.
From Stdlib Require Export ZArith Ascii.

(** Every file works with stdpp's list and map notations; arithmetic on Go
    integers is in [Z] and marked [%Z]. *)
#[export] Set Default Goal Selector "!".

(** ** Hint database *)
Create HintDb flotta.

(** ** Tactics *)

(** Boolean tests of the context as propositions. *)
Ltac bool_to_prop :=
  repeat match goal with
  | H : _ && _ = true |- _ => apply andb_true_iff in H as [? ?]
  | H : _ || _ = false |- _ => apply orb_false_iff in H as [? ?]
  | H : negb _ = true |- _ => apply negb_true_iff in H
  | H : negb _ = false |- _ => apply negb_false_iff in H
  | H : bool_decide _ = true |- _ => apply bool_decide_eq_true in H
  | H : bool_decide _ = false |- _ => apply bool_decide_eq_false in H
  | H : (_ <=? _)%Z = true |- _ => apply Z.leb_le in H
  | H : (_ <=? _)%Z = false |- _ => apply Z.leb_gt in H
  | H : (_ <? _)%Z = true |- _ => apply Z.ltb_lt in H
  | H : (_ <? _)%Z = false |- _ => apply Z.ltb_ge in H
  | H : (_ =? _)%Z = true |- _ => apply Z.eqb_eq in H
  | H : (_ =? _)%Z = false |- _ => apply Z.eqb_neq in H
  end.

(** A list whose images are distinct has one element per image. *)
Lemma NoDup_map_inj {A B} (f : A → B) l x y :
  NoDup (map f l) → x ∈ l → y ∈ l → f x = f y → x = y.
Proof.
  intros Hd [a Ha]%list_elem_of_lookup_1 [b Hb]%list_elem_of_lookup_1 Hf.
  assert (a = b) as ->; [|congruence].
  eapply (NoDup_lookup (map f l)); [exact Hd | |]; rewrite list_lookup_fmap, ?Ha, ?Hb; simpl; [done|by rewrite Hf].
Qed.

(** The last element of a list with a given identifier. *)
Definition last_with {X} (idx : X → string) (l : list X) (k : string) : option X :=
  list.last (filter (λ x, idx x = k) l).

Lemma last_with_snoc {X} (idx : X → string) l x k :
  last_with idx (l ++ [x]) k = if decide (idx x = k) then Some x else last_with idx l k.
Proof.
  unfold last_with. rewrite list.filter_app, list.filter_cons, list.filter_nil.
  destruct (decide (idx x = k)); [by rewrite list.last_snoc | by rewrite app_nil_r].
Qed.

Lemma last_with_None {X} (idx : X → string) l k : last_with idx l k = None ↔ k ∉ map idx l.
Proof.
  unfold last_with. rewrite list.last_None. induction l as [|x l IH]; simpl.
  - split; [intros _; apply not_elem_of_nil | done].
  - rewrite list.filter_cons, not_elem_of_cons. case_decide; naive_solver.
Qed.

Lemma last_with_Some {X} (idx : X → string) l k x :
  last_with idx l k = Some x → x ∈ l ∧ idx x = k.
Proof.
  unfold last_with. intros Hx. apply list.last_Some_elem_of in Hx.
  by apply list_elem_of_filter in Hx as [? ?].
Qed.

Lemma last_with_unique {X} (idx : X → string) l x :
  NoDup (map idx l) → x ∈ l → last_with idx l (idx x) = Some x.
Proof.
  intros Hd Hx. destruct (last_with idx l (idx x)) as [y|] eqn:E.
  - apply last_with_Some in E as [Hy Hi].
    f_equal. by apply (NoDup_map_inj idx l).
  - apply last_with_None in E as []. by apply (list_elem_of_fmap_2 idx).
Qed.

(** A loop that stops at the first step that fails. *)
Fixpoint fold_option {A B} (f : B → A → option B) (acc : B) (l : list A) : option B :=
  match l with
  | [] => Some acc
  | x :: l' => match f acc x with Some acc' => fold_option f acc' l' | None => None end
  end.

Lemma fold_option_snoc {A B} (f : B → A → option B) acc l x :
  fold_option f acc (l ++ [x]) = match fold_option f acc l with Some acc' => f acc' x | None => None end.
Proof.
  revert acc. induction l as [|y l IH]; intros acc; simpl; [by destruct (f acc x)|].
  by destruct (f acc y).
Qed.

(** A loop that appends the image of each element. *)
Lemma fold_option_append {A B} (f : A → option B) acc l :
  fold_option (λ ys x, match f x with Some y => Some (ys ++ [y]) | None => None end) acc l =
  (λ ys, acc ++ ys) <$> mapM f l.
Proof.
  revert acc. induction l as [|x l IH]; intros acc; simpl; [by rewrite app_nil_r|].
  destruct (f x) as [y|]; simpl; [|done]. rewrite IH. destruct (mapM f l); simpl; [|done].
  by rewrite <-app_assoc.
Qed.

(** The elements of a list of pointers that are not nil. *)
Definition somes {A} (l : list (option A)) : list A := omap id l.
