(* ===== verification/GoStd.v ===== *)
(** * The parts of Go and of its standard library the program relies on

    Fixed-width integers, slice expressions, [float32] (IEEE 754 binary32
    through the executable [SpecFloat]), the decimal fragment of
    [strconv.ParseFloat], and the string helpers of [strings]. *)
From Stdlib Require Import SpecFloat.
From S2P Require Import Prelude.

(** ** Errors

    A package-level error value (compared by identity, here by name), an error
    made on the spot, and the error of [fmt.Errorf] with [%w]. *)
Inductive error : Set :=
  | sentinel (name : string)
  | errorString (msg : string)
  | wrapError (msg : string) (inner : error).

#[export] Instance error_eq_dec : EqDecision error.
Proof. solve_decision. Defined.

(** [errors.Is(err, target)] for a package-level target. *)
Fixpoint errors_Is (err : error) (target : string) : bool :=
  match err with
  | sentinel name => bool_decide (name = target)
  | errorString _ => false
  | wrapError _ inner => errors_Is inner target
  end.

(** [err.Error()]: a package-level error is named by its text, and [wrapError]
    carries the whole text that [fmt.Errorf] formats. *)
Definition error_text (err : error) : string :=
  match err with
  | sentinel name => name
  | errorString msg => msg
  | wrapError msg _ => msg
  end.

(** ** Integers *)

(** Conversion to [uint64] and to [int64] (two's complement wrap-around). *)
Definition to_uint64 (z : Z) : Z := z mod 2 ^ 64.
Definition to_int64 (z : Z) : Z := (z + 2 ^ 63) mod 2 ^ 64 - 2 ^ 63.

(** ** Slices: [l[lo:hi]], [None] is the bounds-check panic *)
Definition go_slice {A} (l : list A) (lo hi : Z) : option (list A) :=
  if ((0 <=? lo) && (lo <=? hi) && (hi <=? Z.of_nat (length l)))%Z
  then Some (take (Z.to_nat (hi - lo)) (drop (Z.to_nat lo) l))
  else None.

(** ** float64, which the program never computes with *)
Definition float64 : Set := spec_float.

(** ** float32 *)
Definition float32 : Set := spec_float.
Definition prec32 : Z := 24.
Definition emax32 : Z := 128.

#[export] Instance spec_float_eq_dec : EqDecision spec_float.
Proof. solve_decision. Defined.

(** [float32(z)] for an integer [z]: round to nearest, ties to even. *)
Definition float32_of_int (z : Z) : float32 := binary_normalize prec32 emax32 z 0 false.

Definition float32_mul (x y : float32) : float32 := SFmul prec32 emax32 x y.
Definition float32_lt (x y : float32) : bool := SFltb x y.
Definition float32_le (x y : float32) : bool := SFleb x y.
Definition float32_eq (x y : float32) : bool := SFeqb x y.

Definition is_digit (c : ascii) : bool :=
  let n := N_of_ascii c in ((48 <=? n) && (n <=? 57))%N.
Definition digit_val (c : ascii) : Z := Z.of_N (N_of_ascii c) - 48.

(** Decimal literal [digits[.digits]]: mantissa and number of fractional digits. *)
Fixpoint parse_fraction (m : Z) (k : nat) (s : list ascii) : option (Z * nat) :=
  match s with
  | [] => Some (m, k)
  | c :: s' => if is_digit c then parse_fraction (10 * m + digit_val c) (S k) s' else None
  end.

Fixpoint parse_integral (m : Z) (s : list ascii) : option (Z * nat) :=
  match s with
  | [] => Some (m, 0)
  | c :: s' =>
      if is_digit c then parse_integral (10 * m + digit_val c) s'
      else if bool_decide (c = "."%char) then parse_fraction m 0 s'
      else None
  end.

(** The value nearest to [m / 10^k]. *)
Definition decimal_to_float32 (m : Z) (k : nat) : float32 :=
  match m with
  | Zpos p => SFdiv prec32 emax32 (S754_finite false p 0)
                (S754_finite false (Z.to_pos (10 ^ Z.of_nat k)) 0)
  | _ => S754_zero false
  end.

(** [strconv.ParseFloat(s, 32)] followed by the conversion to [float32], on the
    decimal literals without sign and exponent, the only ones the lexer makes
    (a literal starts with a digit).  [None] is the error result: a syntax
    error, or a value that rounds to infinity. *)
Definition ParseFloat32 (s : list ascii) : option float32 :=
  match s with
  | c :: _ =>
      if is_digit c then
        match parse_integral 0 s with
        | Some (m, k) =>
            match decimal_to_float32 m k with
            | S754_infinity _ | S754_nan => None
            | f => Some f
            end
        | None => None
        end
      else None
  | [] => None
  end.

(** ** Strings *)

(** [strings.Split(s, sep)] for a one-character separator: the pieces between
    the separators, at least one. *)
Fixpoint strings_Split (sep : ascii) (s : string) : list string :=
  match s with
  | EmptyString => [EmptyString]
  | String c s' =>
      if bool_decide (c = sep) then EmptyString :: strings_Split sep s'
      else match strings_Split sep s' with
           | p :: ps => String c p :: ps
           | [] => [String c EmptyString]
           end
  end.

(** [strings.Join(l, sep)] *)
Definition strings_Join (l : list string) (sep : string) : string := Strings.String.concat sep l.

(** [strings.ReplaceAll(s, old, new)] for single characters. *)
Fixpoint strings_ReplaceAll (s : string) (old new : ascii) : string :=
  match s with
  | EmptyString => EmptyString
  | String c s' => String (if bool_decide (c = old) then new else c) (strings_ReplaceAll s' old new)
  end.

(** [strings.ToUpper], [strings.ToLower] on ASCII text. *)
Definition ascii_ToUpper (c : ascii) : ascii :=
  let n := N_of_ascii c in if (97 <=? n)%N && (n <=? 122)%N then ascii_of_N (n - 32) else c.
Definition ascii_ToLower (c : ascii) : ascii :=
  let n := N_of_ascii c in if (65 <=? n)%N && (n <=? 90)%N then ascii_of_N (n + 32) else c.
Fixpoint strings_map (f : ascii → ascii) (s : string) : string :=
  match s with EmptyString => EmptyString | String c s' => String (f c) (strings_map f s') end.
Definition strings_ToUpper : string → string := strings_map ascii_ToUpper.
Definition strings_ToLower : string → string := strings_map ascii_ToLower.

(** [strings.Contains(s, c)] for a single character. *)
Fixpoint strings_ContainsChar (s : string) (c : ascii) : bool :=
  match s with EmptyString => false | String x s' => bool_decide (x = c) || strings_ContainsChar s' c end.

(** [path.Clean] of a rooted path, on its elements: empty and dot elements are
    dropped, a dot-dot element removes the one before it. *)
Fixpoint clean_elements (done l : list string) : list string :=
  match l with
  | [] => done
  | e :: l' =>
      if bool_decide (e = ""%string) || bool_decide (e = "."%string) then clean_elements done l'
      else if bool_decide (e = ".."%string) then clean_elements (removelast done) l'
      else clean_elements (done ++ [e]) l'
  end.

(** [path.Join("/", s)] *)
Definition path_Join_root (s : string) : string :=
  String "/" (strings_Join (clean_elements [] (strings_Split "/" s)) "/").

Lemma Split_nonempty sep s : strings_Split sep s ≠ [].
Proof. destruct s; simpl; [done|]. repeat case_match; done. Qed.

(** [Split] and [Join] are inverse. *)
Lemma Join_Split sep s : strings_Join (strings_Split sep s) (String sep EmptyString) = s.
Proof.
  unfold strings_Join. induction s as [|c s IH]; [done|]. simpl. case_bool_decide as Hc.
  - subst c. pose proof (Split_nonempty sep s). destruct (strings_Split sep s); [done|].
    by rewrite <-IH.
  - pose proof (Split_nonempty sep s). destruct (strings_Split sep s) as [|p [|q l]]; [done| |].
    + simpl in *. by subst.
    + rewrite <-IH. done.
Qed.

(** ** Facts of the string functions *)
Lemma ToLower_dash c : ascii_ToLower c = "-"%char ↔ c = "-"%char.
Proof. destruct c as [[] [] [] [] [] [] [] []]; vm_compute; split; congruence. Qed.

Lemma ToLower_ContainsDash s : strings_ContainsChar (strings_ToLower s) "-" = strings_ContainsChar s "-".
Proof.
  induction s as [|c s IH]; [done|]. unfold strings_ToLower in *. simpl. rewrite IH.
  by rewrite (bool_decide_ext _ _ (ToLower_dash c)).
Qed.

Lemma ReplaceAll_ContainsNew s old new c :
  c ≠ new → c ≠ old → strings_ContainsChar (strings_ReplaceAll s old new) c = strings_ContainsChar s c.
Proof.
  intros Hn Ho. induction s as [|x s IH]; [done|]. simpl. rewrite IH. f_equal.
  destruct (decide (x = old)) as [->|Hx]; [|by rewrite (bool_decide_eq_false_2 (x = old))].
  rewrite (bool_decide_eq_true_2 (old = old)) by done. by rewrite !bool_decide_eq_false_2.
Qed.

Lemma ReplaceAll_ContainsOld s old new :
  old ≠ new → strings_ContainsChar (strings_ReplaceAll s old new) old = false.
Proof.
  intros Hn. induction s as [|x s IH]; [done|]. simpl. rewrite IH, orb_false_r.
  destruct (decide (x = old)) as [->|Hx].
  - rewrite (bool_decide_eq_true_2 (old = old)) by done. by apply bool_decide_eq_false_2.
  - rewrite (bool_decide_eq_false_2 (x = old)) by done. by apply bool_decide_eq_false_2.
Qed.

Lemma ReplaceAll_absent s old new : strings_ContainsChar s old = false → strings_ReplaceAll s old new = s.
Proof.
  induction s as [|x s IH]; [done|]. simpl. intros [Hx Hs]%orb_false_iff.
  apply bool_decide_eq_false in Hx. rewrite bool_decide_eq_false_2, IH by done. done.
Qed.
