(* ===== verification/Lexer.v ===== *)
(** * The lexer of condition expressions

    [internal/configuration/interpreter/token.go] and [lexer.go]: the token
    type, the one-character look-ahead scanner over the source bytes, and the
    theorem that it implements a tokenizer over the list of remaining bytes. *)
From Stdlib Require Import Strings.String.
From stdpp Require Import ssreflect.
From S2P Require Import Prelude GoStd.
Local Open Scope string_scope.
Local Open Scope list_scope.
Local Open Scope Z_scope.

(** ** Tokens *)
Inductive Token : Set :=
  | ILLEGAL | EOL
  | LPAREN | RPAREN | PERCENT | DEC
  | AND | EQUALS | NOT_EQUALS | DIV | GTE | GREATER | LTE | LESS | OR
  | STRING | NUMBER | NIL.

#[export] Instance Token_eq_dec : EqDecision Token.
Proof. solve_decision. Defined.

(** [Token.String], the table [tokenNames]. *)
Definition Token_String (t : Token) : string :=
  match t with
  | ILLEGAL => "illegal" | EOL => "EOL"
  | LPAREN => "(" | RPAREN => ")" | PERCENT => "%" | DEC => "-"
  | AND => "&&" | DIV => "/" | EQUALS => "==" | NOT_EQUALS => "!="
  | GTE => ">=" | GREATER => ">" | LTE => "<=" | LESS => "<" | OR => "||"
  | STRING => "string" | NUMBER => "number" | NIL => "nil"
  end.

(** ** Character classes *)
Definition NUL : ascii := "000"%char.
Definition TAB : ascii := "009"%char.
Definition code (c : ascii) : Z := Z.of_N (N_of_ascii c).

Definition isAlpha (c : ascii) : bool :=
  ((97 <=? code c) && (code c <=? 122)) || ((65 <=? code c) && (code c <=? 90)).
Definition isSymbol (c : ascii) : bool :=
  bool_decide (c = "_"%char) || bool_decide (c = "%"%char).
Definition isDigit (c : ascii) : bool := (48 <=? code c) && (code c <=? 57).

Definition is_blank (c : ascii) : bool :=
  bool_decide (c = " "%char) || bool_decide (c = TAB).
Definition is_name_char (c : ascii) : bool := isAlpha c || isDigit c || isSymbol c.
Definition is_number_char (c : ascii) : bool := isDigit c || bool_decide (c = "."%char).

(** ** State *)
Record lexer := Lexer {
  src : list ascii;
  ch : ascii;
  offset : Z;
  pos : Z;
  nextPos : Z
}.

(** [lexer.next] *)
Definition next (l : lexer) : lexer :=
  match src l !! Z.to_nat (offset l) with
  | Some c => Lexer (src l) c (offset l + 1) (nextPos l) (nextPos l + 1)
  | None =>
      if bool_decide (ch l = NUL)
      then Lexer (src l) (ch l) (offset l) (nextPos l) (nextPos l)
      else Lexer (src l) NUL (offset l + 1) (nextPos l) (nextPos l + 1)
  end.

Definition newLexer (s : list ascii) : lexer := next (Lexer s NUL 0 0 0).

(** [for p(l.ch) { l.next() }]; the fuel is the number of bytes left. *)
Fixpoint next_while (p : ascii → bool) (fuel : nat) (l : lexer) : lexer :=
  match fuel with
  | O => l
  | S fuel' => if p (ch l) then next_while p fuel' (next l) else l
  end.

Definition bytes_left (l : lexer) : nat := S (Z.to_nat (Z.of_nat (length (src l)) - offset l)).

(** The loop of the number case: the bytes read and the number of dots. *)
Fixpoint scan_number (fuel : nat) (l : lexer) (chars : list ascii) (dots : nat)
    : list ascii * nat * lexer :=
  match fuel with
  | O => (chars, dots, l)
  | S fuel' =>
      if is_number_char (ch l) then
        scan_number fuel' (next l) (chars ++ [ch l])
          (if bool_decide (ch l = "."%char) then S dots else dots)
      else (chars, dots, l)
  end.

(** The punctuation cases of [Scan]: [c] is the byte read, [l] the lexer after it. *)
Definition scan_two (l : lexer) (second : ascii) (yes no : Token) : Token * string * lexer :=
  if bool_decide (ch l = second) then (yes, "", next l) else (no, "", l).

Definition scan_punct (c : ascii) (l : lexer) : Token * string * lexer :=
  if bool_decide (c = "("%char) then (LPAREN, "", l)
  else if bool_decide (c = ")"%char) then (RPAREN, "", l)
  else if bool_decide (c = "-"%char) then (DEC, "", l)
  else if bool_decide (c = "!"%char) then scan_two l "=" NOT_EQUALS ILLEGAL
  else if bool_decide (c = "="%char) then scan_two l "=" EQUALS ILLEGAL
  else if bool_decide (c = "<"%char) then scan_two l "=" LTE LESS
  else if bool_decide (c = ">"%char) then scan_two l "=" GTE GREATER
  else if bool_decide (c = "&"%char) then scan_two l "&" AND ILLEGAL
  else if bool_decide (c = "|"%char) then scan_two l "|" OR ILLEGAL
  else (ILLEGAL, "unexpected char", l).

(** The keyword case of [Scan], after the first byte of the name: the name is
    the slice [l.src[start : l.offset-1]]; [None] is its failed bounds check. *)
Definition scan_name (l : lexer) : option (string * lexer) :=
  let start := offset l - 2 in
  let l' := next_while is_name_char (bytes_left l) l in
  name ← go_slice (src l') start (offset l' - 1);
  Some (string_of_list_ascii name, l').

(** [lexer.Scan]: position, token, value and the advanced lexer. *)
Definition Scan (l0 : lexer) : option (Z * Token * string * lexer) :=
  let l := next_while is_blank (bytes_left l0) l0 in
  if bool_decide (ch l = NUL) then Some (pos l, EOL, "", l)
  else if isAlpha (ch l) || isSymbol (ch l) then
    '(name, l') ← scan_name (next l);
    Some (pos l, (if bool_decide (name = "nil") then NIL else STRING), name, l')
  else if isDigit (ch l) then
    let '(chars, dots, l') := scan_number (bytes_left (next l)) (next l) [ch l] 0 in
    Some (pos l', (if (1 <? Z.of_nat dots) then ILLEGAL else NUMBER),
          string_of_list_ascii chars, l')
  else
    let '(tok, val, l') := scan_punct (ch l) (next l) in
    Some (pos l', tok, val, l').

(** ** Reference tokenizer on the remaining bytes *)

(** The bytes [Scan] can still see: up to the end or the first NUL byte. *)
Fixpoint until_nul (s : list ascii) : list ascii :=
  match s with
  | [] => []
  | c :: s' => if bool_decide (c = NUL) then [] else c :: until_nul s'
  end.

Definition remaining (l : lexer) : list ascii :=
  if bool_decide (ch l = NUL) then []
  else ch l :: until_nul (drop (Z.to_nat (offset l)) (src l)).

Fixpoint span (p : ascii → bool) (s : list ascii) : list ascii * list ascii :=
  match s with
  | [] => ([], [])
  | c :: s' => if p c then let '(a, b) := span p s' in (c :: a, b) else ([], s)
  end.

Definition count_dots (s : list ascii) : nat :=
  length (filter (λ c, c = "."%char) s).

Definition two_spec (s : list ascii) (second : ascii) (yes no : Token)
    : Token * string * list ascii :=
  match s with
  | c :: s' => if bool_decide (c = second) then (yes, "", s') else (no, "", s)
  | [] => (no, "", [])
  end.

Definition punct_spec (c : ascii) (s : list ascii) : Token * string * list ascii :=
  if bool_decide (c = "("%char) then (LPAREN, "", s)
  else if bool_decide (c = ")"%char) then (RPAREN, "", s)
  else if bool_decide (c = "-"%char) then (DEC, "", s)
  else if bool_decide (c = "!"%char) then two_spec s "=" NOT_EQUALS ILLEGAL
  else if bool_decide (c = "="%char) then two_spec s "=" EQUALS ILLEGAL
  else if bool_decide (c = "<"%char) then two_spec s "=" LTE LESS
  else if bool_decide (c = ">"%char) then two_spec s "=" GTE GREATER
  else if bool_decide (c = "&"%char) then two_spec s "&" AND ILLEGAL
  else if bool_decide (c = "|"%char) then two_spec s "|" OR ILLEGAL
  else (ILLEGAL, "unexpected char", s).

Definition token_spec (s : list ascii) : Token * string * list ascii :=
  match snd (span is_blank s) with
  | [] => (EOL, "", [])
  | c :: s =>
      if isAlpha c || isSymbol c then
        let '(a, b) := span is_name_char s in
        let name := string_of_list_ascii (c :: a) in
        ((if bool_decide (name = "nil") then NIL else STRING), name, b)
      else if isDigit c then
        let '(a, b) := span is_number_char s in
        ((if (1 <? Z.of_nat (count_dots a)) then ILLEGAL else NUMBER),
         string_of_list_ascii (c :: a), b)
      else punct_spec c s
  end.

(** ** Invariant and refinement *)

(** When the current byte is not NUL it is the one before [offset]. *)
Definition lexer_wf (l : lexer) : Prop :=
  0 ≤ offset l ≤ Z.of_nat (length (src l)) + 1 ∧
  (ch l ≠ NUL → 1 ≤ offset l ∧ src l !! Z.to_nat (offset l - 1) = Some (ch l)).

Lemma until_nul_prefix s : until_nul s `prefix_of` s.
Proof.
  induction s as [|c s IH]; simpl; [done|].
  case_bool_decide; [apply prefix_nil | by apply prefix_cons].
Qed.

Lemma span_app p s : fst (span p s) ++ snd (span p s) = s.
Proof.
  induction s as [|c s IH]; simpl; [done|].
  destruct (p c); [|done]. destruct (span p s); simpl in *. by rw IH.
Qed.

Lemma span_length p s : (length (snd (span p s)) ≤ length s)%nat.
Proof. rw -{2}(span_app p s) length_app. lia. Qed.

Lemma next_src l : src (next l) = src l.
Proof. unfold next. by repeat case_match. Qed.

Lemma next_step l :
  lexer_wf l → ch l ≠ NUL →
  lexer_wf (next l) ∧ offset (next l) = offset l + 1 ∧
  remaining l = ch l :: remaining (next l).
Proof.
  intros [Hb Hc] Hn. destruct (Hc Hn) as [H1 Hl].
  assert (Hrem : remaining l = ch l :: until_nul (drop (Z.to_nat (offset l)) (src l))).
  { unfold remaining. by rw bool_decide_eq_false_2. }
  rw Hrem. unfold next.
  destruct (src l !! Z.to_nat (offset l)) as [c|] eqn:E; simpl.
  - pose proof (lookup_lt_Some _ _ _ E).
    split_and!; [split; simpl; [lia|] | done |].
    { intros _. split; [lia|]. by replace (offset l + 1 - 1) with (offset l) by lia. }
    f_equal. rw (drop_S _ c) //. unfold remaining; simpl.
    case_bool_decide; [done|]. do 2 f_equal. f_equal. lia.
  - apply lookup_ge_None in E.
    rw bool_decide_eq_false_2 //=. split_and!; [|done|].
    { split; simpl; [|done].
      pose proof (lookup_lt_Some _ _ _ Hl). lia. }
    rw drop_ge //.
Qed.

Lemma remaining_nil l : ch l = NUL → remaining l = [].
Proof. intros H. unfold remaining. by rw bool_decide_eq_true_2. Qed.

Lemma remaining_cons l : ch l ≠ NUL → ∃ s, remaining l = ch l :: s.
Proof. intros H. unfold remaining. rw bool_decide_eq_false_2 //. eauto. Qed.

(** The bytes still visible are at the current position of the source. *)
Lemma remaining_source l :
  lexer_wf l → ch l ≠ NUL →
  remaining l `prefix_of` drop (Z.to_nat (offset l - 1)) (src l).
Proof.
  intros [Hb Hc] Hn. destruct (Hc Hn) as [H1 Hl].
  rw (drop_S _ (ch l)) //. unfold remaining. rw bool_decide_eq_false_2 //.
  apply prefix_cons. replace (S (Z.to_nat (offset l - 1))) with (Z.to_nat (offset l)) by lia.
  apply until_nul_prefix.
Qed.

Lemma remaining_bound l : lexer_wf l → (length (remaining l) ≤ bytes_left l)%nat.
Proof.
  intros [Hb Hc]. unfold remaining, bytes_left. case_bool_decide; simpl; [lia|].
  pose proof (prefix_length _ _ (until_nul_prefix (drop (Z.to_nat (offset l)) (src l)))) as H1.
  rw length_drop in H1. lia.
Qed.

Lemma next_while_spec p fuel l :
  p NUL = false → lexer_wf l → (length (remaining l) ≤ fuel)%nat →
  let l' := next_while p fuel l in
  lexer_wf l' ∧ src l' = src l ∧
  offset l' = offset l + Z.of_nat (length (fst (span p (remaining l)))) ∧
  remaining l' = snd (span p (remaining l)).
Proof.
  intros Hp. revert l. induction fuel as [|fuel IH]; intros l Hwf Hlen; simpl.
  - destruct (remaining l) eqn:E; simpl in *; [|lia]. split_and!; try done; lia.
  - destruct (decide (ch l = NUL)) as [Hn|Hn].
    + rw Hn Hp (remaining_nil l Hn) /=. split_and!; try done; lia.
    + destruct (next_step l Hwf Hn) as (Hwf' & Hoff & Hrem).
      rw Hrem /=. destruct (p (ch l)) eqn:Epc.
      * destruct (IH (next l)) as (? & ? & Ho & Hr); [done | rw Hrem /= in Hlen; lia |].
        destruct (span p (remaining (next l))) as [a b]. simpl in *.
        split_and!; [done | by rw -(next_src l) | lia | done].
      * split_and!; try done; simpl; lia.
Qed.

Lemma count_dots_cons c s :
  count_dots (c :: s) = (if bool_decide (c = "."%char) then S (count_dots s) else count_dots s).
Proof. unfold count_dots. rw filter_cons. case_bool_decide; case_decide; done. Qed.

Lemma scan_number_spec fuel l chars dots :
  lexer_wf l → (length (remaining l) ≤ fuel)%nat →
  let '(chars', dots', l') := scan_number fuel l chars dots in
  let '(a, b) := span is_number_char (remaining l) in
  chars' = chars ++ a ∧ dots' = (dots + count_dots a)%nat ∧
  lexer_wf l' ∧ src l' = src l ∧ remaining l' = b.
Proof.
  revert l chars dots. induction fuel as [|fuel IH]; intros l chars dots Hwf Hlen; simpl.
  - destruct (remaining l) eqn:E; simpl in *; [|lia].
    rw app_nil_r. split_and!; try done.
  - destruct (decide (ch l = NUL)) as [Hn|Hn].
    + rw Hn (remaining_nil l Hn) /= app_nil_r.
      split_and!; try done; auto using remaining_nil; change (count_dots []) with O; lia.
    + destruct (next_step l Hwf Hn) as (Hwf' & Hoff & Hrem).
      rw Hrem /=. destruct (is_number_char (ch l)) eqn:Epc.
      * specialize (IH (next l) (chars ++ [ch l])
          (if bool_decide (ch l = "."%char) then S dots else dots)).
        destruct (scan_number _ _ _ _) as [[chars' dots'] l'].
        destruct (span is_number_char (remaining (next l))) as [a b].
        destruct IH as (-> & -> & ? & ? & ?); [done | rw Hrem /= in Hlen; lia |].
        rw count_dots_cons -app_assoc next_src in H0 |- *.
        split_and!; try done. case_bool_decide; lia.
      * rw app_nil_r. split_and!; try done; auto using remaining_nil; change (count_dots []) with O; lia.
Qed.

Lemma scan_two_spec l second yes no :
  lexer_wf l → second ≠ NUL →
  let '(t, v, l') := scan_two l second yes no in
  lexer_wf l' ∧ src l' = src l ∧ (t, v, remaining l') = two_spec (remaining l) second yes no.
Proof.
  intros Hwf Hs. unfold scan_two. destruct (decide (ch l = NUL)) as [Hn|Hn].
  - rw (remaining_nil l Hn) bool_decide_eq_false_2 /=; last congruence.
    by rw (remaining_nil l Hn).
  - destruct (next_step l Hwf Hn) as (? & ? & Hrem). rw Hrem /=.
    case_bool_decide; [by rw next_src | by rw Hrem].
Qed.

Lemma scan_punct_spec c l :
  lexer_wf l →
  let '(t, v, l') := scan_punct c l in
  lexer_wf l' ∧ src l' = src l ∧ (t, v, remaining l') = punct_spec c (remaining l).
Proof.
  intros Hwf. unfold scan_punct, punct_spec.
  repeat (case_bool_decide; [first [done | by apply scan_two_spec] |]). done.
Qed.

Lemma newLexer_wf s : lexer_wf (newLexer s) ∧ remaining (newLexer s) = until_nul s.
Proof.
  unfold newLexer, next; simpl. destruct s as [|c s]; simpl.
  - split; [split; simpl; [lia | done] | done].
  - split; [split; simpl; [lia | intros _; split; [lia | done]] |].
    unfold remaining; simpl. by rw drop_0.
Qed.

(** The name slice is in bounds and is the bytes of the name. *)
Lemma scan_name_spec l :
  lexer_wf l → ch l ≠ NUL →
  ∃ l', scan_name (next l) =
          Some (string_of_list_ascii (ch l :: fst (span is_name_char (remaining (next l)))), l') ∧
    lexer_wf l' ∧ src l' = src l ∧ remaining l' = snd (span is_name_char (remaining (next l))).
Proof.
  intros Hwf Hn. destruct (next_step l Hwf Hn) as (Hwf2 & Hoff & Hrem).
  destruct (remaining_source l Hwf Hn) as [t Ht].
  destruct (next_while_spec is_name_char (bytes_left (next l)) (next l) eq_refl Hwf2
    (remaining_bound _ Hwf2)) as (Hwf3 & Hs3 & Ho3 & Hr3).
  pose proof (span_app is_name_char (remaining (next l))) as Hsp.
  unfold scan_name. rw next_src in Hs3.
  set (l' := next_while _ _ _) in *. destruct (span is_name_char _) as [a b]; simpl in *.
  exists l'. split_and!; [|done..].
  destruct Hwf as [Hb Hc]. destruct (Hc Hn) as [H1 Hl%lookup_lt_Some].
  rw Hs3 Ho3 Hoff.
  unfold go_slice.
  pose proof (f_equal length Ht) as Hlen.
  rw Hrem -Hsp length_drop !length_app /= !length_app in Hlen.
  rw !(proj2 (Z.leb_le _ _)); try lia. simpl.
  replace (offset l + 1 - 2) with (offset l - 1) by lia. rw Ht Hrem -Hsp.
  replace (Z.to_nat _) with (length (ch l :: a)) by (simpl; lia).
  by rw /= -app_assoc take_app_length.
Qed.

(** [Scan] never fails a bounds check, keeps the invariant and returns the
    token of the reference tokenizer. *)
Lemma Scan_refines l :
  lexer_wf l →
  ∃ p t v l', Scan l = Some (p, t, v, l') ∧ lexer_wf l' ∧ src l' = src l ∧
    (t, v, remaining l') = token_spec (remaining l).
Proof.
  intros Hwf0. unfold Scan, token_spec.
  destruct (next_while_spec is_blank (bytes_left l) l eq_refl Hwf0 (remaining_bound l Hwf0))
    as (Hwf & Hsrc & _ & Hrem).
  rw -Hrem. set (l1 := next_while is_blank (bytes_left l) l) in *.
  case_bool_decide as Hn.
  { rw (remaining_nil l1 Hn). eexists _, _, _, _. split_and!; [done | done | done |].
    by rw (remaining_nil l1 Hn). }
  destruct (next_step l1 Hwf Hn) as (Hwf2 & _ & Hrem2). rw Hrem2.
  destruct (isAlpha _ || isSymbol _); [|destruct (isDigit _)].
  - destruct (scan_name_spec l1 Hwf Hn) as (l3 & -> & Hwf3 & Hs3 & Hr3).
    eexists _, _, _, _. split_and!; [reflexivity | done | congruence |].
    rw Hr3. by destruct (span is_name_char _).
  - pose proof (scan_number_spec (bytes_left (next l1)) (next l1) [ch l1] 0 Hwf2
      (remaining_bound _ Hwf2)) as Hsc.
    destruct (scan_number _ _ _ _) as [[chars dots] l3], (span is_number_char _) as [a b].
    destruct Hsc as (-> & -> & Hwf3 & Hs3 & <-). rw next_src in Hs3.
    eexists _, _, _, _. split_and!; [reflexivity | done | congruence | done].
  - pose proof (scan_punct_spec (ch l1) (next l1) Hwf2) as Hsc. rw next_src in Hsc.
    destruct (scan_punct _ _) as [[t' v'] l3]. destruct Hsc as (? & ? & <-).
    eexists _, _, _, _. split_and!; [done | done | congruence | done].
Qed.

(** ** Consequences used by the parser *)

(** Every token but the end of line consumes at least one byte. *)
Lemma token_spec_consumes s t v s' :
  token_spec s = (t, v, s') →
  (t = EOL ∧ s' = []) ∨ (t ≠ EOL ∧ (length s' < length s)%nat).
Proof.
  unfold token_spec. pose proof (span_length is_blank s) as Hb.
  destruct (span is_blank s).2 as [|c s1]; simpl in *; [intros; left; by simplify_eq|].
  intros H. right. destruct (isAlpha c || isSymbol c); [|destruct (isDigit c)].
  - pose proof (span_length is_name_char s1) as Hs. destruct (span is_name_char s1).
    simplify_eq/=. split; [by case_bool_decide | lia].
  - pose proof (span_length is_number_char s1) as Hs. destruct (span is_number_char s1).
    simplify_eq/=. split; [by case_match | lia].
  - unfold punct_spec, two_spec in H. repeat case_match; simplify_eq/=; split; (done || lia).
Qed.

(** Only bytes of the numeric alphabet follow the first digit of a number. *)
Lemma span_all p s : Forall (λ c, p c = true) (fst (span p s)).
Proof.
  induction s as [|c s IH]; simpl; [constructor|].
  destruct (p c) eqn:E; [|constructor]. destruct (span p s); simpl in *. by constructor.
Qed.

Lemma parse_fraction_digits m k s :
  Forall (λ c, isDigit c = true) s → is_Some (parse_fraction m k s).
Proof.
  intros H. revert m k. induction H as [|c s Hc Hs IH]; intros m k; simpl; [eauto|].
  assert (is_digit c = true) as ->; [|apply IH].
  unfold isDigit, code in Hc. unfold is_digit. bool_to_prop.
  apply andb_true_iff; split; apply N.leb_le; lia.
Qed.

Lemma parse_integral_total m s :
  Forall (λ c, is_number_char c = true) s → (count_dots s ≤ 1)%nat →
  is_Some (parse_integral m s).
Proof.
  intros H. revert m. induction H as [|c s Hc Hs IH]; intros m Hd; simpl; [eauto|].
  rw count_dots_cons in Hd. unfold is_number_char in Hc.
  destruct (is_digit c) eqn:Ed; [apply IH; case_bool_decide; lia|].
  case_bool_decide as Hdot.
  - apply parse_fraction_digits. apply Forall_forall. intros d Hin.
    pose proof (proj1 (Forall_forall _ _) Hs d Hin) as Hd'. simpl in Hd'.
    unfold is_number_char in Hd'. apply orb_true_iff in Hd' as [?|Hdd]; [done|].
    apply bool_decide_eq_true in Hdd as ->. exfalso.
    assert ("."%char ∈ filter (λ c, c = "."%char) s) as Hf by (apply list_elem_of_filter; split; [done | by apply list_elem_of_In]).
    unfold count_dots in Hd.
    destruct (filter _ s); [by apply not_elem_of_nil in Hf | simpl in Hd; lia].
  - exfalso. rw orb_false_r in Hc. unfold isDigit, code in Hc. unfold is_digit in Ed.
    apply andb_true_iff in Hc as [?%Z.leb_le ?%Z.leb_le].
    apply andb_false_iff in Ed as [Ed|Ed]; apply N.leb_gt in Ed; lia.
Qed.

(** A NUMBER token is a decimal literal: [ParseFloat] has no syntax error on it. *)
Lemma number_token_decimal s v s' :
  token_spec s = (NUMBER, v, s') →
  ∃ c r m, list_ascii_of_string v = c :: r ∧ is_digit c = true ∧
           parse_integral 0 (list_ascii_of_string v) = Some m.
Proof.
  unfold token_spec. destruct (span is_blank s).2 as [|c s1]; [done|].
  destruct (isAlpha c || isSymbol c).
  { destruct (span _ _). intros [=]. by case_bool_decide. }
  destruct (isDigit c) eqn:Ed.
  - pose proof (span_all is_number_char s1) as Ha. destruct (span _ _) as [a b]. simpl in *.
    intros H. case_match eqn:Hd; simplify_eq/=. rw list_ascii_of_string_of_list_ascii.
    assert (is_Some (parse_integral 0 (c :: a))) as [m Hm].
    { apply parse_integral_total; [constructor; [|done]|].
      - unfold is_number_char. by rw Ed.
      - apply Z.ltb_ge in Hd. rw count_dots_cons. case_bool_decide; [|lia].
        by subst c. }
    exists c, a, m. split_and!; [done | | done].
    unfold isDigit, code in Ed. unfold is_digit.
    apply andb_true_iff in Ed as [?%Z.leb_le ?%Z.leb_le].
    apply andb_true_iff; split; apply N.leb_le; lia.
  - unfold punct_spec, two_spec. intros H. by repeat case_match; simplify_eq.
Qed.

(** C23: from any well-formed lexer, which [newLexer] is and [Scan] keeps,
    [Scan] never fails the bounds check of the name slice and returns the token
    and the value of the reference tokenizer on the bytes that remain; what
    remains afterwards is what the tokenizer leaves. *)
Theorem Scan_correct l :
  lexer_wf l →
  ∃ p t v l', Scan l = Some (p, t, v, l') ∧ lexer_wf l' ∧
    (t, v, remaining l') = token_spec (remaining l).
Proof.
  intros Hwf. destruct (Scan_refines l Hwf) as (p & t & v & l' & ? & ? & _ & ?). eauto 10.
Qed.

Lemma Scan_correct_witness :
  ∃ p t v l', Scan (newLexer (list_ascii_of_string "cpu1 >= 2")) = Some (p, t, v, l') ∧
    lexer_wf l' ∧ (t, v, remaining l') =
      token_spec (remaining (newLexer (list_ascii_of_string "cpu1 >= 2"))).
Proof. apply Scan_correct. apply newLexer_wf. Defined.

(** the character [%] is a name: no text has the token [PERCENT], and
    [cpu == 23%] ends with a number and a string. *)
Theorem percent_is_a_string :
  (∀ s, (token_spec s).1.1 ≠ PERCENT) ∧
  token_spec (list_ascii_of_string "23%") = (NUMBER, "23", list_ascii_of_string "%") ∧
  token_spec (list_ascii_of_string "%") = (STRING, "%", []).
Proof.
  split; [|by split]. intros s. unfold token_spec. destruct (span is_blank s).2 as [|c s1]; [done|].
  unfold punct_spec, two_spec. by repeat case_match; simplify_eq/=.
Qed.
