(* ===== verification/Parser.v ===== *)
(** * The parser of condition expressions

    [internal/configuration/interpreter/expr.go] (the syntax tree) and
    [parser.go]: a recursive-descent parser that panics with a [*ParseError]
    recovered by [parse].  The panic is the [PErr] result of a small parser
    monad; the recursion through parentheses is on a fuel, proved sufficient. *)
From Stdlib Require Import Strings.String.
From stdpp Require Import ssreflect pretty.
From S2P Require Import Prelude GoStd Lexer.
Local Open Scope string_scope.
Local Open Scope list_scope.

(** ** Syntax trees (expr.go) *)
Inductive Expr : Set :=
  | LiteralExpr (Name : string)
  | NilExpr
  | NumExpr (Value : float32)
  | UnaryExpr (Op : Token) (Right : Expr)
  | ValueExpr (Left Right : Expr)
  | CompExpr (Left : Expr) (Op : Token) (Right : Expr)
  | LogicExpr (Left : Expr) (Op : Token) (Right : Expr)
  | GroupExpr (e : Expr).

#[export] Instance Expr_eq_dec : EqDecision Expr.
Proof. solve_decision. Defined.

(** ** Parser state and monad *)
Record ParseError := MkParseError { Position : Z; Message : string }.

#[export] Instance ParseError_eq_dec : EqDecision ParseError.
Proof. solve_decision. Defined.

Record parser := Parser {
  p_lexer : lexer;
  p_pos : Z;
  p_tok : Token;
  p_val : string
}.

(** [PErr] is the panic with a [*ParseError]; [PCrash] any other panic (which
    [parse] does not recover), [PFuel] an exhausted fuel. *)
Inductive presult (A : Type) : Type :=
  | POk (a : A) (p : parser)
  | PErr (e : ParseError)
  | PCrash
  | PFuel.
Arguments POk {A} _ _.
Arguments PErr {A} _.
Arguments PCrash {A}.
Arguments PFuel {A}.

Definition P (A : Type) : Type := parser → presult A.

#[export] Instance P_ret : MRet P := λ A a p, POk a p.
#[export] Instance P_bind : MBind P := λ A B f m p,
  match m p with
  | POk a p' => f a p'
  | PErr e => PErr e
  | PCrash => PCrash
  | PFuel => PFuel
  end.

Definition get : P parser := λ p, POk p p.

(** [panic(p.errorf(...))] *)
Definition errorf {A} (message : string) : P A :=
  λ p, PErr (MkParseError (p_pos p) message).

(** [parser.next] *)
Definition p_next : P unit := λ p,
  match Scan (p_lexer p) with
  | None => PCrash
  | Some (pos, tok, val, l) =>
      let p' := Parser l pos tok val in
      if bool_decide (tok = ILLEGAL) then errorf val p' else POk tt p'
  end.

(** [parser.matches] and [parser.expect] on the current token. *)
Definition matches (ops : list Token) (p : parser) : bool := bool_decide (p_tok p ∈ ops).

(** [%s] of a [[]Token]: the names between brackets, separated by spaces. *)
Definition tokens_String (ts : list Token) : string :=
  "[" +:+ String.concat " " (map Token_String ts) +:+ "]".

Definition expect (ts : list Token) : P unit := λ p,
  if matches ts p then POk tt p
  else errorf ("expected " +:+ tokens_String ts +:+ " instead of " +:+ Token_String (p_tok p)) p.

Definition consume (t : Token) (msg : string) : P unit := λ p,
  if matches [t] p then p_next p else errorf msg p.

(** ** The parser *)
Section rules.
(** [p.expression()], called between parentheses. *)
Context (expression : P Expr).

Definition primary : P Expr :=
  p ← get;
  match p_tok p with
  | STRING => p_next ;; mret (LiteralExpr (p_val p))
  | NIL => p_next ;; mret NilExpr
  | NUMBER =>
      match ParseFloat32 (list_ascii_of_string (p_val p)) with
      | None => errorf ("expected number instead of '" +:+ p_val p +:+ "'")
      | Some value => p_next ;; mret (NumExpr value)
      end
  | LPAREN =>
      p_next ;;
      expr ← expression;
      consume RPAREN "expect ')' after expression" ;;
      mret (GroupExpr expr)
  | t => errorf ("unknown token '" +:+ Token_String t +:+ "'")
  end.

Definition unary : P Expr :=
  p ← get;
  if matches [DEC] p then
    p_next ;; expect [NUMBER] ;;
    right ← primary;
    mret (UnaryExpr (p_tok p) right)
  else expect [NUMBER; NIL] ;; primary.

Definition value : P Expr :=
  expr ← unary;
  p ← get;
  if matches [STRING] p then
    right ← primary;
    mret (ValueExpr expr right)
  else mret expr.

Definition comparison_ops : list Token := [GREATER; GTE; LESS; LTE; EQUALS; NOT_EQUALS].

Definition compare : P Expr :=
  expr ← primary;
  p ← get;
  if matches comparison_ops p then
    p_next ;;
    right ← value;
    mret (CompExpr expr (p_tok p) right)
  else mret expr.

(** The [for p.matches(AND)] loop returns at the end of its first iteration. *)
Definition and_ : P Expr :=
  expr ← compare;
  p ← get;
  if matches [AND] p then
    p_next ;;
    right ← compare;
    mret (LogicExpr expr AND right)
  else if matches [OR; RPAREN; EOL] p then mret expr
  else errorf ("expecting OR RPAREN or EOL instead of '" +:+ Token_String (p_tok p) +:+ "'").

(** One test of the loop [for p.matches(OR)]; [again] is the next one. *)
Definition or_body (again : Expr → P Expr) (expr : Expr) : P Expr :=
  p ← get;
  if matches [OR] p then
    p_next ;;
    right ← and_;
    again (LogicExpr expr OR right)
  else mret expr.

Fixpoint or_loop (fuel : nat) : Expr → P Expr :=
  or_body (match fuel with O => λ _ _, PFuel | S fuel' => or_loop fuel' end).

Definition or_ (fuel : nat) : P Expr := and_ ≫= or_loop fuel.
End rules.

Fixpoint expression (fuel : nat) : P Expr :=
  match fuel with
  | O => λ _, PFuel
  | S fuel' => or_ (expression fuel') fuel'
  end.

(** [parse]: what the caller gets.  Any other panic is raised
    again by the type assertion of the deferred function. *)
Inductive parse_result : Type :=
  | Parsed (e : Expr)
  | ParseFailed (e : ParseError)
  | ParseCrash
  | ParseFuel.

Definition parse_fuel (s : list ascii) : nat := S (S (length s)).

Definition parse (s : list ascii) : parse_result :=
  match (p_next ;; expression (parse_fuel s)) (Parser (newLexer s) 0 ILLEGAL "") with
  | POk e _ => Parsed e
  | PErr e => ParseFailed e
  | PCrash => ParseCrash
  | PFuel => ParseFuel
  end.

Example parse_ex1 :
  parse (list_ascii_of_string "cpu < 23%") =
  Parsed (CompExpr (LiteralExpr "cpu") LESS
            (ValueExpr (NumExpr (float32_of_int 23)) (LiteralExpr "%"))).
Proof. reflexivity. Qed.


Example parse_ex2 :
  parse (list_ascii_of_string "name == 2  description != 2") =
  ParseFailed (MkParseError 25 "expecting OR RPAREN or EOL instead of '!='").
Proof. reflexivity. Qed.

(** ** The token stream *)
Definition tokv : Set := Token * string.

Fixpoint tokens_fuel (n : nat) (s : list ascii) : list tokv :=
  match n with
  | O => []
  | S n' =>
      let '(t, v, s') := token_spec s in
      match t with
      | EOL | ILLEGAL => [(t, v)]
      | _ => (t, v) :: tokens_fuel n' s'
      end
  end.

(** The tokens of a source text, up to the end of line or an illegal token. *)
Definition tokens (s : list ascii) : list tokv := tokens_fuel (S (length s)) s.

Definition last_token (t : Token) : bool := bool_decide (t ∈ [EOL; ILLEGAL]).

Lemma tokens_fuel_enough n s :
  (length s < n)%nat →
  tokens_fuel n s =
    let '(t, v, s') := token_spec s in
    (t, v) :: (if last_token t then [] else tokens s').
Proof.
  revert s. induction n as [n IH] using lt_wf_ind. intros s Hn.
  destruct n as [|n]; [lia|]. simpl.
  destruct (token_spec s) as [[t v] s'] eqn:E.
  destruct (token_spec_consumes _ _ _ _ E) as [[-> ->]|[Ht Hs]]; [done|].
  destruct t; simpl; try done; f_equal; unfold tokens;
    rw !IH //; lia.
Qed.

Lemma tokens_unfold s :
  tokens s =
    let '(t, v, s') := token_spec s in
    (t, v) :: (if last_token t then [] else tokens s').
Proof. apply tokens_fuel_enough. lia. Qed.

(** What the parser can still see: the current token and those to scan. *)
Definition stream (p : parser) : list tokv :=
  (p_tok p, p_val p) ::
  (if last_token (p_tok p) then [] else tokens (remaining (p_lexer p))).

Definition parser_wf (p : parser) : Prop :=
  lexer_wf (p_lexer p) ∧ p_tok p ≠ ILLEGAL.

(** [p_next] on any current token but the end of line drops it. *)
Lemma p_next_spec p :
  lexer_wf (p_lexer p) →
  match p_next p with
  | POk _ p' =>
      parser_wf p' ∧ stream p' = tokens (remaining (p_lexer p))
  | PErr _ => ∃ v, tokens (remaining (p_lexer p)) = [(ILLEGAL, v)]
  | _ => False
  end.
Proof.
  intros Hwf. unfold p_next.
  destruct (Scan_refines _ Hwf) as (q & t & v & l' & -> & Hwf' & _ & Ht).
  rw tokens_unfold -Ht. case_bool_decide as Hi; simpl.
  - subst t. eauto.
  - done.
Qed.

Lemma stream_next p :
  last_token (p_tok p) = false →
  stream p = (p_tok p, p_val p) :: tokens (remaining (p_lexer p)).
Proof. intros H. unfold stream. by rw H. Qed.

(** ** Grammar accepted by the parser

    The grammar in the comment at the top of [parser.go], with the difference
    the code makes: a conjunction has at most one [&&]. *)
Inductive g_primary : list tokv → Expr → Prop :=
  | g_string v : g_primary [(STRING, v)] (LiteralExpr v)
  | g_nil v : g_primary [(NIL, v)] NilExpr
  | g_number v f :
      ParseFloat32 (list_ascii_of_string v) = Some f → g_primary [(NUMBER, v)] (NumExpr f)
  | g_group v v' ts e :
      g_or ts e → g_primary ((LPAREN, v) :: ts ++ [(RPAREN, v')]) (GroupExpr e)
with g_unary : list tokv → Expr → Prop :=
  | g_minus v v' f :
      ParseFloat32 (list_ascii_of_string v') = Some f →
      g_unary [(DEC, v); (NUMBER, v')] (UnaryExpr DEC (NumExpr f))
  | g_plain t v e : t ∈ [NUMBER; NIL] → g_primary [(t, v)] e → g_unary [(t, v)] e
with g_value : list tokv → Expr → Prop :=
  | g_bare ts e : g_unary ts e → g_value ts e
  | g_unit ts e v : g_unary ts e → g_value (ts ++ [(STRING, v)]) (ValueExpr e (LiteralExpr v))
with g_compare : list tokv → Expr → Prop :=
  | g_single ts e : g_primary ts e → g_compare ts e
  | g_comp ts1 e1 op v ts2 e2 :
      g_primary ts1 e1 → op ∈ comparison_ops → g_value ts2 e2 →
      g_compare (ts1 ++ (op, v) :: ts2) (CompExpr e1 op e2)
with g_and : list tokv → Expr → Prop :=
  | g_one ts e : g_compare ts e → g_and ts e
  | g_two ts1 e1 v ts2 e2 :
      g_compare ts1 e1 → g_compare ts2 e2 →
      g_and (ts1 ++ (AND, v) :: ts2) (LogicExpr e1 AND e2)
with g_or : list tokv → Expr → Prop :=
  | g_disj ts1 e1 ts2 e2 : g_and ts1 e1 → g_ors e1 ts2 e2 → g_or (ts1 ++ ts2) e2
with g_ors : Expr → list tokv → Expr → Prop :=
  | g_end e : g_ors e [] e
  | g_more e v ts1 e1 ts2 e2 :
      g_and ts1 e1 → g_ors (LogicExpr e OR e1) ts2 e2 →
      g_ors e ((OR, v) :: ts1 ++ ts2) e2.
#[export] Hint Constructors g_primary g_unary g_value g_compare g_and g_or g_ors : flotta.

(** ** Soundness and totality

    [yields n m G]: with at most [n] tokens left, [m] neither crashes nor runs
    out of fuel, and on success it consumed tokens related to its result by [G]. *)
Definition yields {A} (n : nat) (m : P A) (G : list tokv → A → Prop) : Prop :=
  ∀ p, parser_wf p → (length (stream p) ≤ n)%nat →
  match m p with
  | POk a p' => parser_wf p' ∧ ∃ ts, stream p = ts ++ stream p' ∧ G ts a
  | PErr _ => True
  | _ => False
  end.

Lemma yields_ret {A} n (a : A) (G : list tokv → A → Prop) : G [] a → yields n (mret a) G.
Proof. intros HG p Hp _. simpl. split; [done|]. by exists []. Qed.

Lemma yields_bind {A B} n (m : P A) (f : A → P B) G1 G2 :
  yields n m G1 →
  (∀ a ts, G1 ts a → yields (n - length ts) (f a) (λ ts' b, G2 (ts ++ ts') b)) →
  yields n (m ≫= f) G2.
Proof.
  intros Hm Hf p Hp Hn. specialize (Hm p Hp Hn). unfold mbind, P_bind.
  destruct (m p) as [a p'| | |]; [|done..]. destruct Hm as (Hp' & ts & Hts & HG).
  specialize (Hf a ts HG p' Hp'). rw Hts length_app in Hn.
  specialize (Hf ltac:(lia)).
  destruct (f a p') as [b p''| | |]; [|done..]. destruct Hf as (Hp'' & ts' & Hts' & HG').
  split; [done|]. exists (ts ++ ts'). by rw Hts Hts' app_assoc.
Qed.

Lemma yields_weaken {A} n n' (m : P A) (G G' : list tokv → A → Prop) :
  (n' ≤ n)%nat → (∀ ts a, G ts a → G' ts a) → yields n m G → yields n' m G'.
Proof.
  intros Hle HG Hm p Hp Hn. specialize (Hm p Hp ltac:(lia)).
  destruct (m p); [|done..]. destruct Hm as (? & ts & ? & ?). eauto.
Qed.

Lemma yields_error {A} n msg (G : list tokv → A → Prop) : yields n (errorf msg) G.
Proof. by intros p _ _. Qed.

(** Reading the current token, and testing it. *)
Lemma yields_get {A} n (f : parser → P A) G :
  (∀ q, parser_wf q → (length (stream q) ≤ n)%nat →
     match f q q with
     | POk a p' => parser_wf p' ∧ ∃ ts, stream q = ts ++ stream p' ∧ G ts a
     | PErr _ => True
     | _ => False
     end) →
  yields n (get ≫= f) G.
Proof. intros H p Hp Hn. unfold mbind, P_bind, get. by apply H. Qed.

Lemma matches_true ops p : matches ops p = true → p_tok p ∈ ops.
Proof. unfold matches. apply bool_decide_eq_true. Qed.

(** Consuming the current token [p_tok q] and going on with [m]. *)
Lemma after_next {A} n (m : P A) (G G' : list tokv → A → Prop) q :
  parser_wf q → (length (stream q) ≤ n)%nat → last_token (p_tok q) = false →
  yields (n - 1) m G →
  (∀ ts a, G ts a → G' ((p_tok q, p_val q) :: ts) a) →
  match (p_next ;; m) q with
  | POk a p' => parser_wf p' ∧ ∃ ts, stream q = ts ++ stream p' ∧ G' ts a
  | PErr _ => True
  | _ => False
  end.
Proof.
  intros [Hwf Hill] Hn Ht Hm HG. unfold mbind, P_bind.
  pose proof (p_next_spec q Hwf) as Hnext. rw (stream_next q Ht) /= in Hn |- *.
  destruct (p_next q) as [[] q'| | |]; [|done..]. destruct Hnext as [Hq' Hs]. rw -Hs in Hn |- *.
  specialize (Hm q' Hq' ltac:(lia)). destruct (m q'); [|done..].
  destruct Hm as (? & ts & -> & ?). split; [done|]. exists ((p_tok q, p_val q) :: ts). auto.
Qed.

Lemma p_next_yields n p :
  parser_wf p → (length (stream p) ≤ n)%nat → last_token (p_tok p) = false →
  match p_next p with
  | POk _ p' => parser_wf p' ∧ stream p = (p_tok p, p_val p) :: stream p'
  | PErr _ => True
  | _ => False
  end.
Proof.
  intros [Hwf _] _ Ht. pose proof (p_next_spec p Hwf) as Hnext.
  destruct (p_next p) as [[] p'| | |]; [|done..]. destruct Hnext as [? ->].
  by rw stream_next.
Qed.

Lemma consume_yields n t msg :
  last_token t = false → yields n (consume t msg) (λ ts _, ∃ v, ts = [(t, v)]).
Proof.
  intros Ht p Hp Hn. unfold consume. destruct (matches [t] p) eqn:Em; [|done].
  apply matches_true, list_elem_of_singleton in Em. subst t.
  pose proof (p_next_yields n p Hp Hn Ht) as H.
  destruct (p_next p) as [[] p'| | |]; [|done..]. destruct H as [? ->].
  split; [done|]. eexists [_]. eauto.
Qed.

(** Consuming the current token and returning a result made from it. *)
Lemma after_next_ret {A} n (a : A) (G : list tokv → A → Prop) q :
  parser_wf q → (length (stream q) ≤ n)%nat → last_token (p_tok q) = false →
  G [(p_tok q, p_val q)] a →
  match (p_next ;; mret a) q with
  | POk a p' => parser_wf p' ∧ ∃ ts, stream q = ts ++ stream p' ∧ G ts a
  | PErr _ => True
  | _ => False
  end.
Proof.
  intros Hq Hn Ht HG.
  apply (after_next n (mret a) (λ ts e, ts = [] ∧ e = a)); try done.
  - by apply yields_ret.
  - by intros ts e [-> ->].
Qed.

Lemma comparison_not_last t : t ∈ comparison_ops → last_token t = false.
Proof.
  unfold comparison_ops. intros H.
  repeat (apply elem_of_cons in H as [->|H]; [done|]). by apply not_elem_of_nil in H.
Qed.

Section soundness.
Context (n : nat) (expression : P Expr).
Context (Hexpr : yields n expression g_or).

Lemma primary_sound : yields (S n) (primary expression) g_primary.
Proof.
  apply yields_get. intros q Hq Hn. pose proof (after_next_ret (A := Expr) (S n)) as Hret.
  destruct (p_tok q) eqn:Et; try done.
  - apply (after_next (S n) _ (λ ts e, ∃ ts' v' e',
      ts = ts' ++ [(RPAREN, v')] ∧ g_or ts' e' ∧ e = GroupExpr e')); rw ?Et //.
    + eapply yields_bind; [apply (yields_weaken n _ _ g_or); [lia|done|apply Hexpr]|].
      intros e ts He. eapply yields_bind; [by apply consume_yields|].
      intros [] ts' [v' ->]. apply yields_ret. rw app_nil_r. naive_solver.
    + intros ts e (ts' & v' & e' & -> & Hor & ->). auto with flotta.
  - apply Hret; rw ?Et //. auto with flotta.
  - destruct (ParseFloat32 _) as [f|] eqn:Ef; [|done].
    apply Hret; rw ?Et //. auto with flotta.
  - apply Hret; rw ?Et //. auto with flotta.
Qed.

(** [expect] tells the first token the continuation consumes. *)
Lemma expect_yields {A} k ops (m : P A) (G : list tokv → A → Prop) :
  (∀ ts a, G ts a → ts ≠ []) → yields k m G →
  yields k (expect ops ;; m) (λ ts a, G ts a ∧ ∃ t v ts', ts = (t, v) :: ts' ∧ t ∈ ops).
Proof.
  intros Hne Hm p Hp Hn. unfold mbind, P_bind, expect.
  destruct (matches ops p) eqn:Em; [|done]. apply matches_true in Em.
  specialize (Hm p Hp Hn). destruct (m p) as [a p'| | |]; try done.
  destruct Hm as (? & ts & Hts & HG). split; [done|]. exists ts. split_and!; try done.
  destruct ts as [|[t v] ts]; [by apply Hne in HG|].
  unfold stream at 1 in Hts. injection Hts as <- <- _. eauto.
Qed.

Lemma g_primary_nonempty ts e : g_primary ts e → ts ≠ [].
Proof. by destruct 1. Qed.

Lemma unary_sound : yields (S n) (unary expression) g_unary.
Proof.
  apply yields_get. intros q Hq Hn. destruct (matches [DEC] q) eqn:Em.
  - apply matches_true, list_elem_of_singleton in Em.
    apply (after_next (S n) _ (λ ts e, ∃ v f,
      ts = [(NUMBER, v)] ∧ ParseFloat32 (list_ascii_of_string v) = Some f ∧
      e = UnaryExpr DEC (NumExpr f))); rw ?Em //.
    + eapply yields_weaken; [| |apply (expect_yields (S n) [NUMBER] _ (λ ts e,
        ∃ e', g_primary ts e' ∧ e = UnaryExpr DEC e'))]; [lia| | |].
      * intros ts e [(e' & He & ->) (t & v & ts' & -> & Ht)].
        apply list_elem_of_singleton in Ht as ->.
        inversion He; subst. eauto.
      * intros ts e (e' & He & _). by eapply g_primary_nonempty.
      * eapply yields_bind; [apply primary_sound|].
        intros e ts He. apply yields_ret. rw app_nil_r. eauto.
    + intros ts e (v & f & -> & Hf & ->). by constructor.
  - assert (yields (S n) (expect [NUMBER; NIL] ;; primary expression) g_unary) as H;
      [|by apply H].
    eapply yields_weaken; [done| |apply expect_yields; [apply g_primary_nonempty|apply primary_sound]].
    intros ts e [He (t & v & ts' & -> & Ht)].
    assert (ts' = []) as ->; [|by constructor].
    apply elem_of_cons in Ht as [->|Ht]; [|apply list_elem_of_singleton in Ht as ->]; by inversion He.
Qed.

(** The branch taken on the next token when no token of [ops] is there. *)
Lemma yields_if {A} k ops (yes no : parser → P A) (G : list tokv → A → Prop) :
  (∀ q, parser_wf q → (length (stream q) ≤ k)%nat → p_tok q ∈ ops →
     match yes q q with
     | POk a p' => parser_wf p' ∧ ∃ ts, stream q = ts ++ stream p' ∧ G ts a
     | PErr _ => True
     | _ => False
     end) →
  (∀ q, yields k (no q) G) →
  yields k (p ← get; if matches ops p then yes p else no p) G.
Proof.
  intros Hyes Hno. apply yields_get. intros q Hq Hn.
  destruct (matches ops q) eqn:Em; [apply Hyes; auto using matches_true | by apply Hno].
Qed.

Lemma value_sound : yields (S n) (value expression) g_value.
Proof.
  eapply yields_bind; [apply unary_sound|]. intros e ts He.
  apply yields_if.
  - intros q Hq Hn Et%list_elem_of_singleton.
    assert (yields (S n - length ts)
      (right ← primary expression; mret (ValueExpr e right))
      (λ ts' e', ∃ r, g_primary ts' r ∧ e' = ValueExpr e r)) as H.
    { eapply yields_bind; [apply (yields_weaken (S n) _ _ g_primary); [lia|done|apply primary_sound]|].
      intros r ts' Hr. apply yields_ret. rw app_nil_r. eauto. }
    specialize (H q Hq Hn). unfold stream at 1 in H. rw Et in H.
    unfold stream at 1. rw Et.
    destruct ((right ← primary expression; mret (ValueExpr e right)) q); [|done..]. destruct H as (? & ts' & Hts & r & Hr & ->).
    split; [done|]. exists ts'. split; [done|].
    inversion Hr; subst; try done; simplify_eq/=. by constructor.
  - intros q. apply yields_ret. rw app_nil_r. by constructor.
Qed.

Lemma compare_sound : yields (S n) (compare expression) g_compare.
Proof.
  eapply yields_bind; [apply primary_sound|]. intros e ts He.
  apply yields_if.
  - intros q Hq Hn Et.
    apply (after_next (S n - length ts) _ (λ ts' e', ∃ r, g_value ts' r ∧ e' = CompExpr e (p_tok q) r));
      [done|done|by apply comparison_not_last| |].
    + eapply yields_bind; [apply (yields_weaken (S n) _ _ g_value); [lia|done|apply value_sound]|].
      intros r ts' Hr. apply yields_ret. rw app_nil_r. eauto.
    + intros ts' e' (r & Hr & ->). by constructor.
  - intros q. apply yields_ret. rw app_nil_r. by constructor.
Qed.

Lemma and_sound : yields (S n) (and_ expression) g_and.
Proof.
  eapply yields_bind; [apply compare_sound|]. intros e ts He.
  apply yields_if.
  - intros q Hq Hn Et%list_elem_of_singleton.
    apply (after_next (S n - length ts) _ (λ ts' e', ∃ r, g_compare ts' r ∧ e' = LogicExpr e AND r));
      rw ?Et //.
    + eapply yields_bind; [apply (yields_weaken (S n) _ _ g_compare); [lia|done|apply compare_sound]|].
      intros r ts' Hr. apply yields_ret. rw app_nil_r. eauto.
    + intros ts' e' (r & Hr & ->). by constructor.
  - intros q. case_match; [|apply yields_error]. apply yields_ret. rw app_nil_r. by constructor.
Qed.

Lemma g_compare_nonempty ts e : g_compare ts e → ts ≠ [].
Proof. destruct 1 as [ts e H|]; [by destruct H|]. by destruct ts1. Qed.

Lemma g_and_nonempty ts e : g_and ts e → ts ≠ [].
Proof.
  destruct 1 as [ts e H|ts1 e1 v ts2 e2 H1 H2]; [by apply g_compare_nonempty in H|].
  by destruct ts1.
Qed.

Lemma or_loop_sound fuel k e :
  (k ≤ S n)%nat → (k ≤ fuel)%nat → yields k (or_loop expression fuel e) (g_ors e).
Proof.
  revert k e. induction fuel as [|fuel IH]; intros k e Hkn Hk; apply yields_if.
  2, 4: intros q; apply yields_ret; constructor.
  { intros q _ Hn. unfold stream in Hn. simpl in Hn. lia. }
  intros q Hq Hn Et%list_elem_of_singleton.
  apply (after_next k _ (λ ts e', ∃ ts1 e1 ts2, ts = ts1 ++ ts2 ∧ g_and ts1 e1 ∧
    g_ors (LogicExpr e OR e1) ts2 e')); rw ?Et //.
  - eapply yields_bind; [apply (yields_weaken (S n) _ _ g_and); [lia|done|apply and_sound]|].
    intros r ts Hr. eapply yields_weaken; [| |apply (IH (k - 1 - length ts)%nat)]; [done| |lia|lia].
    intros ts' e' Hors. naive_solver.
  - intros ts e' (ts1 & e1 & ts2 & -> & ? & ?). by constructor 2 with e1.
Qed.

Lemma or_sound : yields (S n) (or_ expression n) g_or.
Proof.
  eapply yields_bind; [apply and_sound|]. intros e ts He.
  pose proof (g_and_nonempty ts e He). destruct ts as [|x ts]; [done|].
  eapply yields_weaken; [| |apply (or_loop_sound n (S n - length (x :: ts))%nat)]; simpl; try lia.
  intros ts' e' Hors. by apply (g_disj (x :: ts) e).
Qed.
End soundness.

Lemma expression_sound n : yields n (expression n) g_or.
Proof.
  induction n as [|n IH]; [|by apply or_sound].
  intros p _ Hn. unfold stream in Hn. simpl in Hn. lia.
Qed.

(** The number of tokens of a text is at most one more than its bytes. *)
Lemma tokens_length s : (length (tokens s) ≤ S (length s))%nat.
Proof.
  induction s as [s IH] using (induction_ltof1 _ length). unfold ltof in IH.
  rw tokens_unfold. destruct (token_spec s) as [[t v] s'] eqn:E.
  destruct (token_spec_consumes _ _ _ _ E) as [[-> _]|[_ Hlt]]; simpl; [lia|].
  specialize (IH s' Hlt). destruct (last_token t); simpl; lia.
Qed.

Lemma until_nul_length s : (length (until_nul s) ≤ length s)%nat.
Proof. apply prefix_length, until_nul_prefix. Qed.

(** What [parse] does first: scan one token. *)
Lemma parse_first s :
  match p_next (Parser (newLexer s) 0 ILLEGAL "") with
  | POk _ p => parser_wf p ∧ stream p = tokens (until_nul s) ∧ (length (stream p) ≤ parse_fuel s)%nat
  | PErr _ => ∃ v, tokens (until_nul s) = [(ILLEGAL, v)]
  | _ => False
  end.
Proof.
  destruct (newLexer_wf s) as [Hwf Hrem].
  pose proof (p_next_spec (Parser (newLexer s) 0 ILLEGAL "") Hwf) as H. simpl in H.
  rw Hrem in H. destruct (p_next _); try done. destruct H as [? ->].
  split_and!; try done. pose proof (tokens_length (until_nul s)).
  pose proof (until_nul_length s). unfold parse_fuel. lia.
Qed.

(** ** Completeness *)
(** Case analysis on the membership of a token in a concrete list. *)
Ltac token_cases H :=
  repeat (apply elem_of_cons in H as [->|H]); [..|by apply not_elem_of_nil in H];
  try compute_done.

Definition nonlast (x : tokv) : Prop := last_token x.1 = false.

(** The token after the construct is there and is not illegal. *)
Definition head_ok (rest : list tokv) : Prop :=
  match rest with (t, _) :: _ => t ≠ ILLEGAL | [] => False end.

Definition head_in (ts : list Token) (rest : list tokv) : Prop :=
  match rest with (t, _) :: _ => t ∈ ts | [] => False end.

Definition head_not_in (ts : list Token) (rest : list tokv) : Prop :=
  match rest with (t, _) :: _ => t ∉ ts | [] => False end.

Lemma tokens_init s ts rest : tokens s = ts ++ rest → rest ≠ [] → Forall nonlast ts.
Proof.
  revert ts. induction s as [s IH] using (induction_ltof1 _ length). unfold ltof in IH.
  intros ts. rw tokens_unfold. destruct (token_spec s) as [[t v] s'] eqn:E.
  destruct ts as [|x ts]; [done|]. intros [= <- Ht] Hr.
  destruct (token_spec_consumes _ _ _ _ E) as [[-> _]|[_ Hlt]].
  { simpl in Ht. by destruct ts, rest. }
  destruct (last_token t) eqn:El; [by destruct ts, rest|].
  constructor; [done|]. by apply (IH s').
Qed.

Lemma stream_init p ts rest : stream p = ts ++ rest → rest ≠ [] → Forall nonlast ts.
Proof.
  unfold stream. destruct ts as [|x ts]; [done|]. intros [= <- Ht] Hr.
  destruct (last_token (p_tok p)) eqn:E; [by destruct ts, rest|].
  constructor; [done|]. by eapply tokens_init.
Qed.

Lemma head_ok_app ts rest : Forall nonlast ts → head_ok rest → head_ok (ts ++ rest).
Proof. by destruct 1 as [|[t v] ts Ht]; [|intros _; destruct t]. Qed.

Lemma stream_head p t v l : stream p = (t, v) :: l → p_tok p = t ∧ p_val p = v.
Proof. unfold stream. by intros [= -> -> _]. Qed.

Lemma step_next p x rest :
  parser_wf p → stream p = x :: rest → head_ok rest →
  ∃ p', p_next p = POk tt p' ∧ parser_wf p' ∧ stream p' = rest.
Proof.
  intros [Hwf _] Hs Hr. pose proof (p_next_spec p Hwf) as H. unfold stream in Hs.
  injection Hs as Hx Ht. destruct (last_token (p_tok p)); [by subst rest|].
  rw Ht in H. destruct (p_next p) as [[] p'|e| |]; try done.
  - exists p'. destruct H. done.
  - by destruct H as [v ->].
Qed.

(** [accepts m ts a rest]: on the tokens [ts] followed by [rest], [m] returns
    [a] and leaves [rest]. *)
Definition accepts {A} (m : P A) (ts : list tokv) (a : A) (rest : list tokv) : Prop :=
  ∀ p, parser_wf p → stream p = ts ++ rest → head_ok rest → Forall nonlast ts →
  ∃ p', m p = POk a p' ∧ parser_wf p' ∧ stream p' = rest.

Lemma accepts_bind {A B} (m : P A) (f : A → P B) ts1 ts2 a b rest :
  accepts m ts1 a (ts2 ++ rest) → accepts (f a) ts2 b rest →
  accepts (m ≫= f) (ts1 ++ ts2) b rest.
Proof.
  intros Hm Hf p Hp Hs Hr [H1 H2]%Forall_app. rw -app_assoc in Hs.
  destruct (Hm p Hp Hs (head_ok_app _ _ H2 Hr) H1) as (p1 & Hm1 & Hp1 & Hs1).
  destruct (Hf p1 Hp1 Hs1 Hr H2) as (p2 & Hf2 & Hp2 & Hs2).
  exists p2. unfold mbind, P_bind. by rw Hm1.
Qed.

Lemma accepts_ret {A} (a : A) rest : accepts (mret a) [] a rest.
Proof. intros p Hp Hs _ _. by exists p. Qed.

Lemma accepts_bind_ret {A B} (m : P A) (g : A → B) ts a rest :
  accepts m ts a rest → accepts (x ← m; mret (g x)) ts (g a) rest.
Proof.
  intros Hm. rw -(app_nil_r ts). eapply accepts_bind; [exact Hm | apply accepts_ret].
Qed.

Lemma accepts_next {A} (m : P A) x ts a rest :
  accepts m ts a rest → accepts (p_next ;; m) (x :: ts) a rest.
Proof.
  intros Hm p Hp Hs Hr Hts. pose proof (Forall_inv_tail Hts) as Hts'.
  destruct (step_next p x (ts ++ rest) Hp Hs (head_ok_app _ _ Hts' Hr)) as (p1 & Hn & Hp1 & Hs1).
  destruct (Hm p1 Hp1 Hs1 Hr Hts') as (p2 & Hm2 & Hp2 & Hs2).
  exists p2. unfold mbind, P_bind. by rw Hn.
Qed.

(** Reading the state: only its current token and value are known. *)
Lemma accepts_get {A} (f : parser → P A) ts a rest :
  (∀ q, stream q = ts ++ rest → accepts (f q) ts a rest) →
  accepts (get ≫= f) ts a rest.
Proof. intros H p Hp Hs Hr Hts. by apply (H p Hs p). Qed.

(** The test of a conditional on the first of the remaining tokens. *)
Lemma accepts_if {A} ops (yes no : parser → P A) ts a rest :
  match ts ++ rest with
  | (t, v) :: _ =>
      if bool_decide (t ∈ ops)
      then ∀ q, p_tok q = t → p_val q = v → accepts (yes q) ts a rest
      else ∀ q, p_tok q = t → accepts (no q) ts a rest
  | [] => False
  end →
  accepts (q ← get; if matches ops q then yes q else no q) ts a rest.
Proof.
  intros H. apply accepts_get. intros q Hq. unfold matches.
  destruct (ts ++ rest) as [|[t v] l] eqn:E; [done|]. rw E in Hq.
  destruct (stream_head _ _ _ _ Hq) as [Ht Hv]. rw Ht.
  case_bool_decide; by apply H.
Qed.

Lemma accepts_expect {A} ops (m : P A) t v ts a rest :
  t ∈ ops → accepts m ((t, v) :: ts) a rest →
  accepts (expect ops ;; m) ((t, v) :: ts) a rest.
Proof.
  intros Ht Hm p Hp Hs Hr Hts. destruct (Hm p Hp Hs Hr Hts) as (p' & Hm' & ?).
  exists p'. unfold mbind, P_bind, expect, matches.
  destruct (stream_head _ _ _ _ Hs) as [-> _]. rw bool_decide_eq_true_2 //.
Qed.

Lemma accepts_consume t v msg rest :
  accepts (consume t msg) [(t, v)] tt rest.
Proof.
  intros p Hp Hs Hr _. unfold consume, matches.
  destruct (stream_head _ _ _ _ Hs) as [-> _].
  rw bool_decide_eq_true_2; last by apply list_elem_of_singleton.
  by apply (step_next p (t, v)).
Qed.

Scheme g_primary_mind := Minimality for g_primary Sort Prop
  with g_unary_mind := Minimality for g_unary Sort Prop
  with g_value_mind := Minimality for g_value Sort Prop
  with g_compare_mind := Minimality for g_compare Sort Prop
  with g_and_mind := Minimality for g_and Sort Prop
  with g_or_mind := Minimality for g_or Sort Prop
  with g_ors_mind := Minimality for g_ors Sort Prop.
Combined Scheme grammar_mind from g_primary_mind, g_unary_mind, g_value_mind,
  g_compare_mind, g_and_mind, g_or_mind, g_ors_mind.

(** What each rule accepts, for a fuel of at least the tokens in sight. *)
Definition acc (follow : list tokv → Prop) (rule : P Expr → P Expr)
    (ts : list tokv) (e : Expr) : Prop :=
  ∀ n rest, (length (ts ++ rest) ≤ S n)%nat → follow rest → accepts (rule (expression n)) ts e rest.

Definition acc_ors (e0 : Expr) (ts : list tokv) (e : Expr) : Prop :=
  ∀ n fuel rest, (length (ts ++ rest) ≤ S n)%nat → (length (ts ++ rest) ≤ fuel)%nat →
  head_in [RPAREN; EOL] rest → accepts (or_loop (expression n) fuel e0) ts e rest.

Definition acc_or (ts : list tokv) (e : Expr) : Prop :=
  ∀ n rest, (length (ts ++ rest) ≤ n)%nat → head_in [RPAREN; EOL] rest →
  accepts (expression n) ts e rest.

Definition after_compare : list tokv → Prop := head_not_in (STRING :: comparison_ops).
Definition after_and : list tokv → Prop := head_in [OR; RPAREN; EOL].
Definition anything : list tokv → Prop := λ _, True.

Lemma head_in_ok ts rest : head_in ts rest → ILLEGAL ∉ ts → head_ok rest.
Proof. destruct rest as [|[t v] r]; simpl; [done|]. by intros ? ? ->. Qed.

Lemma accepts_primary_one x e rest :
  g_primary [x] e → ∀ expr, accepts (primary expr) [x] e rest.
Proof.
  intros Hg expr. apply accepts_get. intros q Hq.
  inversion Hg as [v|v|v f Hf|v v' ts e' Hor]; subst;
    destruct (stream_head _ _ _ _ Hq) as [-> Hv]; rw ?Hv.
  1, 2: apply accepts_next, accepts_ret.
  - rw Hf. apply accepts_next, accepts_ret.
  - by destruct ts.
Qed.

Lemma acc_group v v' ts e :
  acc_or ts e → acc anything primary ((LPAREN, v) :: ts ++ [(RPAREN, v')]) (GroupExpr e).
Proof.
  intros Hor n rest Hn _. apply accepts_get. intros q Hq.
  destruct (stream_head _ _ _ _ Hq) as [-> _].
  apply accepts_next. eapply accepts_bind.
  - apply Hor; [|simpl; compute_done]. simpl in Hn. rw !length_app /= in Hn |- *. lia.
  - rw -(app_nil_r [(RPAREN, v')]). eapply accepts_bind; [apply accepts_consume | apply accepts_ret].
Qed.

Lemma acc_minus v v' f :
  ParseFloat32 (list_ascii_of_string v') = Some f →
  acc anything unary [(DEC, v); (NUMBER, v')] (UnaryExpr DEC (NumExpr f)).
Proof.
  intros Hf n rest _ _. apply accepts_if. simpl.
  intros q Hq _. apply accepts_next, accepts_expect; [compute_done|]. rw Hq.
  apply accepts_bind_ret, accepts_primary_one. by constructor.
Qed.

Lemma acc_plain t v e :
  t ∈ [NUMBER; NIL] → g_primary [(t, v)] e → acc anything unary [(t, v)] e.
Proof.
  intros Ht Hg n rest _ _. apply accepts_if. simpl.
  rw bool_decide_eq_false_2; last by token_cases Ht.
  intros q _. by apply accepts_expect, accepts_primary_one.
Qed.

Lemma acc_bare ts e : acc anything unary ts e → acc (head_not_in [STRING]) value ts e.
Proof.
  intros Hu n rest Hn Hr. rw -(app_nil_r ts). eapply accepts_bind; [by apply Hu|].
  apply accepts_if. destruct rest as [|[t v] r]; [done|]. simpl in *.
  rw bool_decide_eq_false_2 //. intros q _. apply accepts_ret.
Qed.

Lemma acc_unit ts e v :
  acc anything unary ts e → acc anything value (ts ++ [(STRING, v)]) (ValueExpr e (LiteralExpr v)).
Proof.
  intros Hu n rest Hn _. eapply accepts_bind.
  - apply Hu; [|done]. by rw app_assoc.
  - apply accepts_if. simpl. intros q _ _.
    apply accepts_bind_ret, accepts_primary_one. constructor.
Qed.

Lemma acc_single ts e : acc anything primary ts e → acc (head_not_in comparison_ops) compare ts e.
Proof.
  intros Hp n rest Hn Hr. rw -(app_nil_r ts). eapply accepts_bind; [by apply Hp|].
  apply accepts_if. destruct rest as [|[t v] r]; [done|]. simpl in *.
  rw bool_decide_eq_false_2 //. intros q _. apply accepts_ret.
Qed.

Lemma acc_comp ts1 e1 op v ts2 e2 follow :
  acc anything primary ts1 e1 → op ∈ comparison_ops → acc follow value ts2 e2 →
  acc follow compare (ts1 ++ (op, v) :: ts2) (CompExpr e1 op e2).
Proof.
  intros Hp Hop Hv n rest Hn Hr. rw !length_app /= in Hn. eapply accepts_bind.
  - apply Hp; [|done]. rw !length_app /=. lia.
  - apply accepts_if. simpl. rw bool_decide_eq_true_2 //. intros q <- _.
    apply accepts_next, accepts_bind_ret, Hv; [|done]. rw length_app. lia.
Qed.

Lemma acc_one ts e : acc after_compare compare ts e → acc after_and and_ ts e.
Proof.
  intros Hc n rest Hn Hr. destruct rest as [|[t v] r]; [done|].
  rw -(app_nil_r ts). eapply accepts_bind.
  - apply Hc; [done|]. by token_cases Hr.
  - apply accepts_if. simpl. rw bool_decide_eq_false_2; last by token_cases Hr.
    intros q Hq. unfold matches. rw Hq bool_decide_eq_true_2 //. apply accepts_ret.
Qed.

Lemma acc_two ts1 e1 v ts2 e2 follow :
  acc after_compare compare ts1 e1 → acc follow compare ts2 e2 →
  acc follow and_ (ts1 ++ (AND, v) :: ts2) (LogicExpr e1 AND e2).
Proof.
  intros H1 H2 n rest Hn Hr. rw !length_app /= in Hn. eapply accepts_bind.
  - apply H1; [|by compute_done]. rw !length_app /=. lia.
  - apply accepts_if. simpl. intros q _ _.
    apply accepts_next, (accepts_bind_ret _ (LogicExpr e1 AND)), H2; [|done]. rw length_app. lia.
Qed.

Lemma acc_end e : acc_ors e [] e.
Proof.
  intros n fuel rest _ _ Hr. destruct rest as [|[t v] r]; [done|].
  destruct fuel; (apply accepts_if; simpl; rw bool_decide_eq_false_2; last by token_cases Hr);
    intros q _; apply accepts_ret.
Qed.

(** What may follow one operand of a disjunction. *)
Lemma after_ors e ts e' rest : g_ors e ts e' → head_in [RPAREN; EOL] rest → after_and (ts ++ rest).
Proof.
  unfold after_and. destruct 1; intros Hr; simpl; [|compute_done].
  destruct rest as [|[t v] r]; [done|]. simpl in *. by token_cases Hr.
Qed.

Lemma acc_more e v ts1 e1 ts2 e2 :
  acc after_and and_ ts1 e1 → g_ors (LogicExpr e OR e1) ts2 e2 →
  acc_ors (LogicExpr e OR e1) ts2 e2 → acc_ors e ((OR, v) :: ts1 ++ ts2) e2.
Proof.
  intros Ha Hg Hors n fuel rest Hn Hf Hr. rw /= -app_assoc !length_app in Hn Hf.
  destruct fuel as [|fuel]; [lia|].
  apply accepts_if. simpl. intros q _ _. apply accepts_next. eapply accepts_bind.
  - apply Ha; [rw !length_app; lia | by eapply after_ors].
  - apply Hors; [rw length_app; lia.. | done].
Qed.

Lemma acc_disj ts1 e1 ts2 e2 :
  ts1 ≠ [] → acc after_and and_ ts1 e1 → g_ors e1 ts2 e2 → acc_ors e1 ts2 e2 →
  acc_or (ts1 ++ ts2) e2.
Proof.
  intros Hne Ha Hg Hors n rest Hn Hr. destruct ts1 as [|x ts1]; [done|].
  rw /= !length_app in Hn. destruct n as [|n]; [lia|]. eapply accepts_bind.
  - apply Ha; [rw /= !length_app; lia | by eapply after_ors].
  - apply Hors; [rw length_app; lia.. | done].
Qed.

Lemma acc_weaken (f f' : list tokv → Prop) rule ts e :
  (∀ r, f' r → f r) → acc f rule ts e → acc f' rule ts e.
Proof. intros Hf Ha n rest Hn Hr. apply Ha; auto. Qed.

Lemma after_compare_split r :
  after_compare r → head_not_in [STRING] r ∧ head_not_in comparison_ops r.
Proof.
  unfold after_compare. destruct r as [|[t v] r]; [done|]. cbn [head_not_in].
  intros [H1 H2]%not_elem_of_cons. split; [|done].
  apply not_elem_of_cons. split; [done | apply not_elem_of_nil].
Qed.

Lemma grammar_accepted :
  (∀ ts e, g_primary ts e → acc anything primary ts e) ∧
  (∀ ts e, g_unary ts e → acc anything unary ts e) ∧
  (∀ ts e, g_value ts e → acc (head_not_in [STRING]) value ts e) ∧
  (∀ ts e, g_compare ts e → acc after_compare compare ts e) ∧
  (∀ ts e, g_and ts e → acc after_and and_ ts e) ∧
  (∀ ts e, g_or ts e → acc_or ts e) ∧
  (∀ e0 ts e, g_ors e0 ts e → acc_ors e0 ts e).
Proof.
  apply grammar_mind.
  - intros v n rest _ _. apply accepts_primary_one. constructor.
  - intros v n rest _ _. apply accepts_primary_one. constructor.
  - intros v f Hf n rest _ _. apply accepts_primary_one. by constructor.
  - intros v v' ts e _ Hor. by apply acc_group.
  - apply acc_minus.
  - intros t v e Ht Hg _. by apply acc_plain.
  - intros ts e _ Hu. by apply acc_bare.
  - intros ts e v _ Hu. eapply acc_weaken; [|by apply acc_unit]. done.
  - intros ts e _ Hp. eapply acc_weaken; [|by apply acc_single]. apply after_compare_split.
  - intros ts1 e1 op v ts2 e2 _ Hp Hop _ Hv. eapply acc_weaken; [|by apply acc_comp].
    apply after_compare_split.
  - intros ts e _ Hc. by apply acc_one.
  - intros ts1 e1 v ts2 e2 _ H1 _ H2. eapply acc_weaken; [|by apply acc_two].
    unfold after_and, after_compare. intros [|[t v'] r]; [done|]. cbn [head_in head_not_in].
    intros Hr. token_cases Hr.
  - intros ts1 e1 ts2 e2 Hg Ha Hgs Hs. apply (acc_disj ts1 e1); try done. by eapply g_and_nonempty.
  - apply acc_end.
  - intros e v ts1 e1 ts2 e2 Hg Ha Hgs Hs. by apply (acc_more e v ts1 e1).
Qed.

(** Running a rule from the first token of the text. *)
Lemma parse_accepts s ts e rest :
  tokens (until_nul s) = ts ++ rest → ts ≠ [] → head_ok rest →
  accepts (expression (parse_fuel s)) ts e rest → parse s = Parsed e.
Proof.
  intros Ht Hne Hr Hacc. unfold parse, mbind, P_bind. pose proof (parse_first s) as H.
  rw Ht in H. destruct ts as [|x ts]; [done|].
  destruct (p_next _) as [[] p| | |]; try done.
  - destruct H as (Hp & Hs & _).
    destruct (Hacc p Hp Hs Hr) as (p' & -> & _); [|done].
    eapply stream_init; [done|]. by destruct rest.
  - destruct H as [v [= _ H]]. by destruct ts, rest.
Qed.

Lemma tokens_fuel_bound s ts rest :
  tokens (until_nul s) = ts ++ rest → (length (ts ++ rest) ≤ parse_fuel s)%nat.
Proof.
  intros <-. pose proof (tokens_length (until_nul s)). pose proof (until_nul_length s).
  unfold parse_fuel. lia.
Qed.

(** What [parse] returns, in one statement: the crash and the fuel cases are
    impossible and a parsed expression derives from a prefix of the tokens. *)
Lemma parse_cases s :
  match parse s with
  | Parsed e => ∃ ts rest, tokens (until_nul s) = ts ++ rest ∧ g_or ts e
  | ParseFailed _ => True
  | ParseCrash | ParseFuel => False
  end.
Proof.
  unfold parse, mbind, P_bind. pose proof (parse_first s) as H.
  destruct (p_next _) as [[] p| | |]; try done. destruct H as (Hp & Hs & Hlen).
  pose proof (expression_sound (parse_fuel s) p Hp Hlen) as He.
  destruct (expression (parse_fuel s) p) as [e p'| | |]; try done.
  destruct He as (_ & ts & Hts & Hg). exists ts, (stream p'). by rw -Hs.
Qed.

(** C18: [parse] always returns: for every source text it gives an expression
    or a [ParseError]; the recursion terminates within the fuel (two more than
    the bytes of the text) and no panic other than a [ParseError] occurs. *)
Theorem parse_total s :
  (∃ e, parse s = Parsed e) ∨ (∃ err, parse s = ParseFailed err).
Proof. pose proof (parse_cases s). destruct (parse s); eauto; done. Qed.

(** C19: soundness: an expression returned by [parse] derives, in the grammar of
    the parser, from a prefix of the tokens of the source text. *)
Theorem parse_sound s e :
  parse s = Parsed e →
  ∃ ts rest, tokens (until_nul s) = ts ++ rest ∧ g_or ts e.
Proof. intros H. pose proof (parse_cases s) as Hc. by rw H in Hc. Qed.

Lemma parse_sound_witness :
  ∃ ts rest, tokens (until_nul (list_ascii_of_string "x != nil")) = ts ++ rest ∧
    g_or ts (CompExpr (LiteralExpr "x") NOT_EQUALS NilExpr).
Proof. apply parse_sound. reflexivity. Defined.

(** C20: completeness: when the tokens of the text start with a phrase of the
    grammar followed by the end of the line or a closing parenthesis, [parse]
    returns the expression of that phrase. *)
Theorem parse_complete s ts rest e :
  tokens (until_nul s) = ts ++ rest → g_or ts e → head_in [RPAREN; EOL] rest →
  parse s = Parsed e.
Proof.
  intros Ht Hg Hr. apply (parse_accepts s ts e rest Ht).
  - destruct Hg as [ts1 e1 ts2 e2 H _]. apply g_and_nonempty in H. by destruct ts1.
  - eapply head_in_ok; [done | compute_done].
  - apply (proj1 (proj2 (proj2 (proj2 (proj2 (proj2 grammar_accepted)))))); [done| |done].
    by apply tokens_fuel_bound.
Qed.

Lemma parse_complete_witness :
  parse (list_ascii_of_string "a<1") =
  Parsed (CompExpr (LiteralExpr "a") LESS (NumExpr (float32_of_int 1))).
Proof.
  apply (parse_complete _ [(STRING, "a"); (LESS, ""); (NUMBER, "1")] [(EOL, "")]).
  - reflexivity.
  - eapply (g_disj [(STRING, "a"); (LESS, ""); (NUMBER, "1")] _ []); [|constructor].
    apply g_one.
    eapply (g_comp [(STRING, "a")] _ LESS "" [(NUMBER, "1")]); [constructor | compute_done |].
    apply g_bare, g_plain; [compute_done|]. constructor. reflexivity.
  - simpl. compute_done.
Defined.

(** the loop of [and] returns in its first iteration: after two conjuncts,
    a further [&&] and everything that follows it is dropped from the
    expression without an error. *)
Theorem parse_drops_third_conjunct s ts1 e1 v ts2 e2 v' rest :
  g_compare ts1 e1 → g_compare ts2 e2 →
  tokens (until_nul s) = ts1 ++ (AND, v) :: ts2 ++ (AND, v') :: rest →
  parse s = Parsed (LogicExpr e1 AND e2).
Proof.
  intros H1 H2 Ht.
  pose proof (proj1 (proj2 (proj2 (proj2 grammar_accepted)))) as Hcomp.
  assert (acc (head_in [AND]) and_ (ts1 ++ (AND, v) :: ts2) (LogicExpr e1 AND e2)) as Hand.
  { apply acc_two; [by apply Hcomp|]. eapply acc_weaken; [|by apply Hcomp].
    intros [|[t u] r]; [done|]. unfold after_compare. simpl. intros Hr. token_cases Hr. }
  apply (parse_accepts s (ts1 ++ (AND, v) :: ts2) _ ((AND, v') :: rest)).
  - by rw Ht -app_assoc.
  - by destruct ts1.
  - done.
  - change (expression (parse_fuel s)) with (or_ (expression (S (length s))) (S (length s))).
    rw -(app_nil_r (ts1 ++ _)). eapply accepts_bind.
    + apply Hand; [|simpl; compute_done]. apply (tokens_fuel_bound s).
      by rw Ht -app_assoc.
    + apply accepts_if. simpl. intros q _. apply accepts_ret.
Qed.

Lemma parse_drops_third_conjunct_witness :
  parse (list_ascii_of_string "a && b && c > 3") =
  Parsed (LogicExpr (LiteralExpr "a") AND (LiteralExpr "b")).
Proof.
  apply (parse_drops_third_conjunct _ [(STRING, "a")] _ "" [(STRING, "b")] _ ""
    [(STRING, "c"); (GREATER, ""); (NUMBER, "3"); (EOL, "")]).
  - apply g_single. constructor.
  - apply g_single. constructor.
  - reflexivity.
Defined.
