(* ===== verification/Interpreter.v ===== *)
(** * Evaluation of condition expressions

    [internal/configuration/interpreter/value.go], [ast.go] and
    [interpreter.go]: dynamically typed values, the visitor that evaluates a
    syntax tree in a map of variables, and the [Interpreter] that parses an
    expression once and evaluates it to a boolean. *)
From Stdlib Require Import Strings.String SpecFloat.
From stdpp Require Import ssreflect pretty.
From S2P Require Import Prelude GoStd Lexer Parser.
Local Open Scope string_scope.
Local Open Scope list_scope.

(** ** Values (value.go) *)
Inductive valueType : Set := typeNull | typeBool | typeNum.

#[export] Instance valueType_eq_dec : EqDecision valueType.
Proof. solve_decision. Defined.

(** The fields that a constructor does not set have Go's zero value. *)
Record gvalue := GValue { typ : valueType; b : bool; n : float32 }.

Definition zero32 : float32 := S754_zero false.
Definition num (x : float32) : gvalue := GValue typeNum false x.
Definition boolean (x : bool) : gvalue := GValue typeBool x zero32.
Definition null : gvalue := GValue typeNull false zero32.

(** ** Variables: the dynamic types of the [interface{}] values *)
Inductive dyn : Set :=
  | DBool (x : bool)
  | DFloat32 (x : float32)
  | DInt (x : Z)
  | DOther.

Definition variables : Type := gmap string dyn.

(** ** Evaluation (ast.go) *)

(** A recovered panic: an [EvaluationError], or any other panic value, for
    which [Evaluate] stores a nil [EvaluationError] pointer in [err]. *)
Inductive evalError : Set :=
  | EvaluationError (e : Expr) (message : string)
  | NilEvaluationError.

#[export] Instance evalError_eq_dec : EqDecision evalError.
Proof. solve_decision. Defined.

Definition eval_result : Type := evalError + gvalue.

#[export] Instance sum_bind {E} : MBind (sum E) := λ A B f m,
  match m with inl e => inl e | inr x => f x end.
#[export] Instance sum_ret {E} : MRet (sum E) := λ A, inr.

Definition not_supported (e : Expr) (op : Token) (suffix : string) : evalError :=
  EvaluationError e ("operator '" +:+ Token_String op +:+ "' not supported" +:+ suffix).

Definition visitLogicExpr (e : Expr) (valueLeft : gvalue) (Op : Token) (valueRight : gvalue)
    : eval_result :=
  match Op with
  | OR => inr (boolean (b valueLeft || b valueRight))
  | AND => inr (boolean (b valueLeft && b valueRight))
  | _ => inl (not_supported e Op "")
  end.

Definition visitComprExpr (e : Expr) (valueLeft : gvalue) (Op : Token) (valueRight : gvalue)
    : eval_result :=
  if bool_decide (typ valueRight = typeNull) then
    match Op with
    | EQUALS => inr (boolean (bool_decide (typ valueLeft = typeNull)))
    | NOT_EQUALS => inr (boolean (bool_decide (typ valueLeft ≠ typeNull)))
    | _ => inl (not_supported e Op " on nil")
    end
  else if bool_decide (typ valueLeft = typeNull) then inr (boolean false)
  else
    match Op with
    | LESS => inr (boolean (float32_lt (n valueLeft) (n valueRight)))
    | LTE => inr (boolean (float32_le (n valueLeft) (n valueRight)))
    | GREATER => inr (boolean (float32_lt (n valueRight) (n valueLeft)))
    | GTE => inr (boolean (float32_le (n valueRight) (n valueLeft)))
    | EQUALS => inr (boolean (float32_eq (n valueLeft) (n valueRight)))
    | NOT_EQUALS => inr (boolean (negb (float32_eq (n valueLeft) (n valueRight))))
    | _ => inl (not_supported e Op "")
    end.

(** The type assertions [.( *NumExpr )] panic with a runtime error. *)
Definition visitValueExpr (Left : Expr) : eval_result :=
  match Left with
  | NumExpr v => inr (num v)
  | _ => inl NilEvaluationError
  end.

Definition visitUnaryExpr (Right : Expr) : eval_result :=
  match Right with
  | NumExpr v => inr (num (float32_mul (float32_of_int (-1)) v))
  | _ => inl NilEvaluationError
  end.

Definition visitLiteralExpr (vars : variables) (e : Expr) (Name : string) : eval_result :=
  match vars !! Name with
  | None => inr null
  | Some (DBool v) => inr (boolean v)
  | Some (DFloat32 v) => inr (num v)
  | Some (DInt v) => inr (num (float32_of_int v))
  | Some DOther => inl (EvaluationError e ("variable '" +:+ Name +:+ "' has the wrong type"))
  end.

(** [Expr.Accept]: both operands are evaluated, from left to right. *)
Fixpoint Accept (vars : variables) (e : Expr) : eval_result :=
  match e with
  | LiteralExpr Name => visitLiteralExpr vars e Name
  | NilExpr => inr null
  | NumExpr Value => inr (num Value)
  | UnaryExpr _ Right => visitUnaryExpr Right
  | ValueExpr Left _ => visitValueExpr Left
  | CompExpr Left Op Right =>
      l ← Accept vars Left; r ← Accept vars Right; visitComprExpr e l Op r
  | LogicExpr Left Op Right =>
      l ← Accept vars Left; r ← Accept vars Right; visitLogicExpr e l Op r
  | GroupExpr e' => Accept vars e'
  end.

(** ** The interpreter (interpreter.go) *)
Record Interpreter := MkInterpreter { i_expr : Expr }.

Definition typ_code (t : valueType) : string :=
  match t with typeNull => "0" | typeBool => "1" | typeNum => "2" end.

(** [New]: [inl] is the parse error; the crash cases are proved impossible. *)
Definition New (expression : string) : option (ParseError + Interpreter) :=
  match parse (list_ascii_of_string expression) with
  | Parsed e => Some (inr (MkInterpreter e))
  | ParseFailed err => Some (inl err)
  | ParseCrash | ParseFuel => None
  end.

(** [Interpreter.Evaluate]: the results [(result, err)]. *)
Definition Evaluate (i : Interpreter) (vars : variables) : bool * option evalError :=
  match Accept vars (i_expr i) with
  | inl err => (false, Some err)
  | inr v =>
      if bool_decide (typ v = typeBool) then (b v, None)
      else (false, Some (EvaluationError (i_expr i)
              ("expected bool value. actual '" +:+ typ_code (typ v) +:+ "'")))
  end.

(** ** Shape of the parsed expressions *)
Definition is_unary (e : Expr) : bool :=
  match e with
  | NumExpr _ | NilExpr => true
  | UnaryExpr DEC (NumExpr _) => true
  | _ => false
  end.

Definition is_value (e : Expr) : bool :=
  match e with
  | ValueExpr l (LiteralExpr _) => is_unary l
  | _ => is_unary e
  end.

Fixpoint well_formed (e : Expr) : bool :=
  match e with
  | LiteralExpr _ | NilExpr | NumExpr _ => true
  | UnaryExpr _ _ | ValueExpr _ _ => false
  | CompExpr l op r => well_formed l && bool_decide (op ∈ comparison_ops) && is_value r
  | LogicExpr l op r => well_formed l && bool_decide (op ∈ [AND; OR]) && well_formed r
  | GroupExpr e' => well_formed e'
  end.

Lemma grammar_well_formed :
  (∀ ts e, g_primary ts e → well_formed e = true) ∧
  (∀ ts e, g_unary ts e → is_unary e = true) ∧
  (∀ ts e, g_value ts e → is_value e = true) ∧
  (∀ ts e, g_compare ts e → well_formed e = true) ∧
  (∀ ts e, g_and ts e → well_formed e = true) ∧
  (∀ ts e, g_or ts e → well_formed e = true) ∧
  (∀ e0 ts e, g_ors e0 ts e → well_formed e0 = true → well_formed e = true).
Proof.
  apply grammar_mind; try (by eauto).
  - intros t v e Ht Hg _. token_cases Ht; by inversion Hg.
  - intros ts e _ H. by destruct e as [| | | |[]| | |].
  - intros ts1 e1 op v ts2 e2 _ H1 Hop _ H2. simpl.
    by rw H1 H2 bool_decide_eq_true_2.
  - intros ts1 e1 v ts2 e2 _ H1 _ H2. simpl. by rw H1 H2.
  - intros e v ts1 e1 ts2 e2 _ H1 _ IH H0. apply IH. simpl. by rw H0 H1.
Qed.

(** ** Static detection of evaluation errors *)

(** The errors of a well-formed expression: an ordering with [nil], and a unit
    of measure after anything but a plain number. *)
Definition value_ok (e : Expr) : bool :=
  match e with
  | ValueExpr (NumExpr _) _ => true
  | ValueExpr _ _ => false
  | _ => true
  end.

Definition nil_ok (op : Token) (right : Expr) : bool :=
  match right with
  | NilExpr => bool_decide (op ∈ [EQUALS; NOT_EQUALS])
  | _ => true
  end.

Fixpoint checked (e : Expr) : bool :=
  match e with
  | CompExpr l op r => checked l && value_ok r && nil_ok op r
  | LogicExpr l _ r => checked l && checked r
  | GroupExpr e' => checked e'
  | _ => true
  end.

(** Every variable is a bool, an int or a float32. *)
Definition typed (vars : variables) : Prop := map_Forall (λ _ v, v ≠ DOther) vars.

Lemma literal_typed vars e name :
  typed vars → ∃ v, visitLiteralExpr vars e name = inr v.
Proof.
  intros Ht. unfold visitLiteralExpr. destruct (vars !! name) as [[| | |]|] eqn:E; eauto.
  by specialize (Ht _ _ E).
Qed.

(** The value of the right operand of a comparison. *)
Lemma value_accept vars e :
  is_value e = true →
  if value_ok e then
    ∃ v, Accept vars e = inr v ∧ (typ v = typeNull ↔ e = NilExpr)
  else Accept vars e = inl NilEvaluationError.
Proof.
  destruct e as [| | |op r|l r| | |]; simpl; try done; intros H.
  - eexists. split; [done|]. by vm_compute.
  - eexists. split; [done|]. done.
  - destruct op, r; try done; simpl. all: eexists; split; [done|]; done.
  - destruct l; try done. simpl. eexists. split; [done|]. done.
Qed.

Lemma compr_static e op r vr vl :
  op ∈ comparison_ops → (typ vr = typeNull ↔ r = NilExpr) →
  (nil_ok op r = true ↔ ∃ v, visitComprExpr e vl op vr = inr v).
Proof.
  intros Hop Hnull. unfold visitComprExpr.
  destruct (decide (typ vr = typeNull)) as [Hr|Hr].
  - rw (bool_decide_eq_true_2 _ Hr). apply Hnull in Hr as ->.
    token_cases Hop; simpl; split; intros H; try done; eauto; by destruct H.
  - rw (bool_decide_eq_false_2 _ Hr). rw Hnull in Hr.
    split; [intros _|by destruct r].
    case_bool_decide; [by eauto|]. token_cases Hop; eauto.
Qed.

Lemma logic_total e vl op vr :
  op ∈ [AND; OR] → ∃ v, visitLogicExpr e vl op vr = inr v.
Proof. intros Hop. token_cases Hop; simpl; eauto. Qed.

(** Evaluation fails exactly on the expressions refused by [checked]. *)
Lemma accept_checked vars e :
  typed vars → well_formed e = true →
  (checked e = true ↔ ∃ v, Accept vars e = inr v).
Proof.
  intros Ht. induction e as [| | | | |l IHl op r _|l IHl op r IHr|e IHe]; simpl; intros Hwf.
  - split; [intros _; by apply literal_typed | done].
  - split; eauto.
  - split; eauto.
  - done.
  - done.
  - apply andb_true_iff in Hwf as [[Hl Hop]%andb_true_iff Hv].
    apply bool_decide_eq_true in Hop. specialize (IHl Hl).
    pose proof (value_accept vars r Hv) as Hr. rw !andb_true_iff IHl.
    destruct (value_ok r).
    + destruct Hr as (vr & Hvr & Hnull). rw Hvr.
      destruct (Accept vars l) as [err|vl]; simpl; [naive_solver|].
      rw (compr_static (CompExpr l op r) op r vr vl) //. naive_solver.
    + rw Hr. destruct (Accept vars l); naive_solver.
  - apply andb_true_iff in Hwf as [[Hl Hop]%andb_true_iff Hr].
    apply bool_decide_eq_true in Hop. rw andb_true_iff IHl // IHr //.
    destruct (Accept vars l) as [|vl], (Accept vars r) as [|vr]; simpl.
    4: { pose proof (logic_total (LogicExpr l op r) vl op vr Hop). split; eauto. }
    all: split; [intros [[] []] | intros []]; simplify_eq.
  - by apply IHe.
Qed.

(** ** Logical meaning *)

(** The number a comparison sees: none for [nil] and unset variables, and 0
    for a boolean. *)
Fixpoint operand (vars : variables) (e : Expr) : option float32 :=
  match e with
  | LiteralExpr x =>
      match vars !! x with
      | Some (DBool _) => Some zero32
      | Some (DFloat32 v) => Some v
      | Some (DInt z) => Some (float32_of_int z)
      | Some DOther | None => None
      end
  | NilExpr => None
  | NumExpr v => Some v
  | UnaryExpr _ (NumExpr v) => Some (float32_mul (float32_of_int (-1)) v)
  | ValueExpr (NumExpr v) _ => Some v
  | UnaryExpr _ _ | ValueExpr _ _ => None
  | CompExpr _ _ _ | LogicExpr _ _ _ => Some zero32
  | GroupExpr e' => operand vars e'
  end.

Definition order_holds (op : Token) (x y : float32) : Prop :=
  match op with
  | LESS => SFcompare x y = Some Lt
  | LTE => SFcompare x y = Some Lt ∨ SFcompare x y = Some Eq
  | GREATER => SFcompare y x = Some Lt
  | GTE => SFcompare y x = Some Lt ∨ SFcompare y x = Some Eq
  | EQUALS => SFcompare x y = Some Eq
  | NOT_EQUALS => SFcompare x y ≠ Some Eq
  | _ => False
  end.

(** [l op r] with operands that may be unset. *)
Definition comparison_holds (op : Token) (l r : option float32) : Prop :=
  match l, r with
  | Some x, Some y => order_holds op x y
  | None, Some _ => False
  | l, None => match op with
               | EQUALS => l = None
               | NOT_EQUALS => l ≠ None
               | _ => False
               end
  end.

Fixpoint holds (vars : variables) (e : Expr) : Prop :=
  match e with
  | LiteralExpr x => vars !! x = Some (DBool true)
  | CompExpr l op r => comparison_holds op (operand vars l) (operand vars r)
  | LogicExpr l OR r => holds vars l ∨ holds vars r
  | LogicExpr l AND r => holds vars l ∧ holds vars r
  | GroupExpr e' => holds vars e'
  | _ => False
  end.

Definition number_of (v : gvalue) : option float32 :=
  if bool_decide (typ v = typeNull) then None else Some (n v).

Lemma compr_bool e vl op vr v : visitComprExpr e vl op vr = inr v → typ v = typeBool ∧ n v = zero32.
Proof. unfold visitComprExpr. intros H. repeat case_match; by simplify_eq/=. Qed.

Lemma logic_bool e vl op vr v : visitLogicExpr e vl op vr = inr v → typ v = typeBool ∧ n v = zero32.
Proof. unfold visitLogicExpr. intros H. repeat case_match; by simplify_eq/=. Qed.

Lemma accept_operand vars e v : Accept vars e = inr v → number_of v = operand vars e.
Proof.
  unfold number_of. revert v.
  induction e as [x| |f|op r _|l _ r _|l _ op r _|l _ op r _|e IHe]; simpl; intros v H.
  - unfold visitLiteralExpr in H. by repeat case_match; simplify_eq/=.
  - by simplify_eq/=.
  - by simplify_eq/=.
  - destruct r; by simplify_eq/=.
  - destruct l; by simplify_eq/=.
  - destruct (Accept vars l), (Accept vars r); try done.
    apply compr_bool in H as [-> ->]. done.
  - destruct (Accept vars l), (Accept vars r); try done.
    apply logic_bool in H as [-> ->]. done.
  - by apply IHe.
Qed.

Lemma float32_lt_compare x y : float32_lt x y = true ↔ SFcompare x y = Some Lt.
Proof. unfold float32_lt, SFltb. by destruct (SFcompare x y) as [[]|]. Qed.

Lemma float32_le_compare x y :
  float32_le x y = true ↔ SFcompare x y = Some Lt ∨ SFcompare x y = Some Eq.
Proof. unfold float32_le, SFleb. destruct (SFcompare x y) as [[]|]; naive_solver. Qed.

Lemma float32_eq_compare x y : float32_eq x y = true ↔ SFcompare x y = Some Eq.
Proof. unfold float32_eq, SFeqb. by destruct (SFcompare x y) as [[]|]. Qed.

Lemma compr_meaning e vl op vr v :
  visitComprExpr e vl op vr = inr v →
  b v = true ↔ comparison_holds op (number_of vl) (number_of vr).
Proof.
  unfold visitComprExpr, number_of, comparison_holds. intros H.
  destruct (decide (typ vr = typeNull)) as [Hr|Hr];
    [rw (bool_decide_eq_true_2 _ Hr) in H |- *|rw (bool_decide_eq_false_2 _ Hr) in H |- *];
  (destruct (decide (typ vl = typeNull)) as [Hl|Hl];
    [rw ?(bool_decide_eq_true_2 _ Hl) in H |- *|rw ?(bool_decide_eq_false_2 _ Hl) in H |- *]).
  - destruct op; simplify_eq/=; rw ?bool_decide_eq_true; naive_solver.
  - destruct op; simplify_eq/=; rw ?bool_decide_eq_true; naive_solver.
  - by simplify_eq/=.
  - destruct op; simplify_eq/=; rw ?negb_true_iff -?not_true_iff_false;
      by rw ?float32_lt_compare ?float32_le_compare ?float32_eq_compare.
Qed.

Lemma accept_holds vars e v :
  typed vars → well_formed e = true → Accept vars e = inr v → b v = true ↔ holds vars e.
Proof.
  intros Ht. revert v.
  induction e as [x| |f|op r _|l _ r _|l _ op r _|l IHl op r IHr|e IHe]; simpl; intros v Hwf H;
    try (by simplify_eq/=).
  - unfold visitLiteralExpr in H. repeat case_match; simplify_eq/=; naive_solver.
  - destruct (Accept vars l) as [|vl] eqn:El, (Accept vars r) as [|vr] eqn:Er; try done.
    rw (compr_meaning _ _ _ _ _ H). by rw (accept_operand _ _ _ El) (accept_operand _ _ _ Er).
  - apply andb_true_iff in Hwf as [[Hl Hop]%andb_true_iff Hr].
    destruct (Accept vars l) as [|vl] eqn:El, (Accept vars r) as [|vr] eqn:Er; try done.
    specialize (IHl vl Hl eq_refl). specialize (IHr vr Hr eq_refl).
    destruct op; simplify_eq/=; rw ?andb_true_iff ?orb_true_iff; by rw IHl IHr.
  - by apply IHe.
Qed.

(** ** Properties *)

(** [New] parses: it never crashes, and the tree it keeps is well formed. *)
Lemma New_well_formed s :
  match New s with
  | Some (inr i) => well_formed (i_expr i) = true
  | Some (inl _) => True
  | None => False
  end.
Proof.
  unfold New. pose proof (parse_cases (list_ascii_of_string s)) as H.
  destruct (parse _) as [e|err| |]; try done. destruct H as (ts & rest & _ & Hg).
  by apply (proj1 (proj2 (proj2 (proj2 (proj2 (proj2 grammar_well_formed)))))) in Hg.
Qed.

(** The interpreter of a text that parses. *)
Definition interpreter_of (s : string) : Interpreter :=
  match New s with Some (inr i) => i | _ => MkInterpreter NilExpr end.

(** The root of the expression, through parentheses, gives a boolean. *)
Fixpoint condition (vars : variables) (e : Expr) : bool :=
  match e with
  | CompExpr _ _ _ | LogicExpr _ _ _ => true
  | LiteralExpr x => match vars !! x with Some (DBool _) => true | _ => false end
  | GroupExpr e' => condition vars e'
  | _ => false
  end.

Lemma accept_condition vars e v : Accept vars e = inr v → typ v = typeBool ↔ condition vars e = true.
Proof.
  revert v. induction e as [x| |f|op r _|l _ r _|l _ op r _|l _ op r _|e IHe]; simpl; intros v H.
  - unfold visitLiteralExpr in H. by repeat case_match; simplify_eq/=.
  - by simplify_eq/=.
  - by simplify_eq/=.
  - unfold visitUnaryExpr in H. by case_match; simplify_eq/=.
  - unfold visitValueExpr in H. by case_match; simplify_eq/=.
  - destruct (Accept vars l), (Accept vars r); try done. by apply compr_bool in H as [-> _].
  - destruct (Accept vars l), (Accept vars r); try done. by apply logic_bool in H as [-> _].
  - by apply IHe.
Qed.

(** Errors are static, results are meanings. *)
Lemma Evaluate_static s i vars :
  New s = Some (inr i) → typed vars →
  ((Evaluate i vars).2 = None ↔ checked (i_expr i) = true ∧ condition vars (i_expr i) = true).
Proof.
  intros Hn Ht. pose proof (New_well_formed s) as Hwf. rw Hn in Hwf.
  pose proof (accept_checked vars _ Ht Hwf) as Hc. unfold Evaluate. rw Hc.
  destruct (Accept vars (i_expr i)) as [err|v] eqn:E; [simpl; naive_solver|].
  rw -(accept_condition _ _ _ E). case_bool_decide; simpl; naive_solver.
Qed.

Lemma Evaluate_holds s i vars r :
  New s = Some (inr i) → typed vars → Evaluate i vars = (r, None) →
  r = true ↔ holds vars (i_expr i).
Proof.
  intros Hn Ht He. pose proof (New_well_formed s) as Hwf. rw Hn in Hwf.
  unfold Evaluate in He. destruct (Accept vars (i_expr i)) as [|v] eqn:E; [done|].
  case_bool_decide; simplify_eq. by apply accept_holds.
Qed.

(** The expressions that evaluate to true without an error. *)
Lemma Evaluate_true s i vars :
  New s = Some (inr i) → typed vars →
  Evaluate i vars = (true, None) ↔
    checked (i_expr i) = true ∧ condition vars (i_expr i) = true ∧ holds vars (i_expr i).
Proof.
  intros Hn Ht. pose proof (Evaluate_static s i vars Hn Ht) as Hs.
  destruct (Evaluate i vars) as [r err] eqn:E. simpl in Hs. split.
  - intros [= -> ->]. destruct (proj1 Hs eq_refl). split; [done|]. split; [done|].
    by apply (Evaluate_holds s i vars true).
  - intros (Hc & Hd & Hh). assert (err = None) as -> by by apply Hs. f_equal. by apply (Evaluate_holds s i vars r).
Qed.

(** The kind of a value, and the kinds of the metrics. *)
Inductive value_kind : Set := KBool | KInt | KFloat | KOther.
Definition kind_of (v : dyn) : value_kind :=
  match v with DBool _ => KBool | DInt _ => KInt | DFloat32 _ => KFloat | DOther => KOther end.
Definition kinds (vars : variables) : gmap string value_kind := kind_of <$> vars.

Lemma kinds_condition vars vars' e : kinds vars = kinds vars' → condition vars e = condition vars' e.
Proof.
  intros Hk. assert (∀ x, kind_of <$> vars !! x = kind_of <$> vars' !! x) as Hx.
  { intros x. by rw -!lookup_fmap -/(kinds vars) -/(kinds vars') Hk. }
  induction e as [x| |f|op r _|l _ r _|l _ op r _|l _ op r _|e IHe]; simpl; try done.
  specialize (Hx x). by destruct (vars !! x) as [[| | |]|], (vars' !! x) as [[| | |]|].
Qed.

Lemma kinds_typed vars vars' : kinds vars = kinds vars' → typed vars → typed vars'.
Proof.
  intros Hk Ht x v Hv ->. assert (kinds vars !! x = Some KOther) as Hx by by rw Hk lookup_fmap Hv.
  rw lookup_fmap in Hx. apply fmap_Some in Hx as (v & Hv' & Hx). by specialize (Ht x v Hv'); destruct v.
Qed.

(** C22: whether the evaluation of an accepted expression errs is decided by its
    text and by the kinds of the metrics, never by their values: it does not
    exactly when the expression passes the static check (no ordering with
    [nil], a unit of measure only after a plain number) and its root is a
    comparison, a connective or the name of a boolean metric; so metrics of the
    same kinds err on the same expressions. *)
Theorem Evaluate_error_static s i vars :
  New s = Some (inr i) → typed vars →
  ((Evaluate i vars).2 = None ↔ checked (i_expr i) = true ∧ condition vars (i_expr i) = true) ∧
  (∀ vars', kinds vars = kinds vars' → ((Evaluate i vars').2 = None ↔ (Evaluate i vars).2 = None)).
Proof.
  intros Hn Ht. split; [by apply (Evaluate_static s)|]. intros vars' Hk.
  rw (Evaluate_static s i vars Hn Ht) (Evaluate_static s i vars' Hn (kinds_typed _ _ Hk Ht)).
  by rw (kinds_condition _ _ _ Hk).
Qed.

(** The text [x] errs on a number and not on a boolean, whichever they are. *)
Lemma Evaluate_error_static_witness :
  let i := interpreter_of "x" in
  ((Evaluate i {["x" := DBool false]}).2 = None ↔ (Evaluate i {["x" := DBool true]}).2 = None) ∧
  ((Evaluate i {["x" := DInt 5]}).2 = None ↔ checked (i_expr i) = true ∧ condition {["x" := DInt 5]} (i_expr i) = true).
Proof.
  split.
  - apply (Evaluate_error_static "x"); [by vm_compute|by apply map_Forall_singleton|].
    unfold kinds. by rw !map_fmap_singleton.
  - apply (Evaluate_error_static "x"); [by vm_compute|by apply map_Forall_singleton].
Defined.

(** C21: when [Evaluate] returns no error its result is the logical meaning of
    the expression: conjunction, disjunction and the IEEE order on the values
    of the variables, where an unset variable satisfies no comparison with a
    number, equals [nil], and a comparison used as an operand counts as 0. *)
Theorem Evaluate_meaning s i vars r :
  New s = Some (inr i) → typed vars → Evaluate i vars = (r, None) →
  r = true ↔ holds vars (i_expr i).
Proof. apply Evaluate_holds. Qed.

Lemma Evaluate_meaning_witness :
  let i := interpreter_of "(x == 1 && y == 2) || z == 2.2" in
  true = true ↔ holds {["x" := DInt 1; "y" := DInt 2]} (i_expr i).
Proof.
  apply (Evaluate_meaning "(x == 1 && y == 2) || z == 2.2"); [by vm_compute | | by vm_compute].
  apply map_Forall_insert_2; [done|]. apply map_Forall_insert_2; [done|]. apply map_Forall_empty.
Defined.

(** Names of variables an expression reads. *)
Fixpoint reads (e : Expr) : gset string :=
  match e with
  | LiteralExpr x => {[x]}
  | NilExpr | NumExpr _ | UnaryExpr _ _ | ValueExpr _ _ => ∅
  | CompExpr l _ r | LogicExpr l _ r => reads l ∪ reads r
  | GroupExpr e' => reads e'
  end.

Lemma accept_frame vars vars' e :
  (∀ x, x ∈ reads e → vars !! x = vars' !! x) → Accept vars e = Accept vars' e.
Proof.
  induction e as [x| |f|op r _|l _ r _|l IHl op r IHr|l IHl op r IHr|e IHe]; simpl; intros H; try done.
  - unfold visitLiteralExpr. by rw (H x) //; apply elem_of_singleton.
  - rw IHl; [rw IHr //|]; intros x Hx; apply H, elem_of_union; auto.
  - rw IHl; [rw IHr //|]; intros x Hx; apply H, elem_of_union; auto.
  - by apply IHe.
Qed.

(** [Evaluate] reads only the variables of the expression outside units of
    measure: two sets of metrics that agree on those give the same result and
    the same error. *)
Theorem Evaluate_frame i vars vars' :
  (∀ x, x ∈ reads (i_expr i) → vars !! x = vars' !! x) →
  Evaluate i vars = Evaluate i vars'.
Proof. intros H. unfold Evaluate. by rw (accept_frame vars vars'). Qed.

Lemma Evaluate_frame_witness :
  let i := interpreter_of "cpu < 25%" in
  Evaluate i {["cpu" := DInt 3]} = Evaluate i {["cpu" := DInt 3; "%" := DInt 7]}.
Proof.
  apply Evaluate_frame. intros x Hx.
  assert (x = "cpu") as ->; [|by vm_compute].
  assert (reads (i_expr (interpreter_of "cpu < 25%")) = {["cpu"]}) as Hr by (by vm_compute).
  apply (elem_of_singleton (C := gset string)). by rw -Hr.
Defined.
