(* ===== verification/Entity.v ===== *)
(** * Entities

    [internal/entity]: job states, heartbeat statuses, CPU resources, the
    generic helpers, profiles and workloads.  The interface [entity.Workload]
    is a class; [PodWorkload], the only type of the program that implements it,
    comes with every hash and identifier its methods can return, of which one is
    an instance of the class only where they are the same ([Identity]). *)
From Stdlib Require Import Strings.String Strings.HexString.
From S2P Require Import Prelude GoStd Sha256 Interpreter.
Local Open Scope string_scope.
Local Open Scope list_scope.
Local Open Scope Z_scope.

(** ** Generic helpers (utils.go) *)
Record GOption (T : Type) := MkOption { Value : T; None_ : bool }.
Arguments MkOption {T} _ _.
Arguments Value {T} _.
Arguments None_ {T} _.

Record GResult (T : Type) := MkResult { RValue : T; Error : option error }.
Arguments MkResult {T} _ _.
Arguments RValue {T} _.
Arguments Error {T} _.

Record Tuple (S T : Type) := MkTuple { Value1 : S; Value2 : T }.
Arguments MkTuple {S T} _ _.
Arguments Value1 {S T} _.
Arguments Value2 {S T} _.

(** ** Job states (state.go) *)
Inductive JobState : Set :=
  | ReadyState | RunningState | StoppedState | DegradedState
  | ExitedState | ErrorState | UnknownState | InactiveState.

#[export] Instance JobState_eq_dec : EqDecision JobState.
Proof. solve_decision. Defined.

Definition JobState_String (ts : JobState) : string :=
  match ts with
  | ReadyState => "ready"
  | RunningState => "running"
  | DegradedState => "degraded"
  | StoppedState => "stopped"
  | ExitedState => "exited"
  | ErrorState => "error"
  | InactiveState => "inactive"
  | UnknownState => "unknown"
  end.

(** [ts.OneOf(states...)] *)
Fixpoint OneOf (ts : JobState) (states : list JobState) : bool :=
  match states with
  | [] => false
  | s :: states' => if bool_decide (ts = s) then true else OneOf ts states'
  end.

Lemma OneOf_spec ts states : OneOf ts states = true ↔ ts ∈ states.
Proof.
  induction states as [|s states IH]; simpl.
  - split; [done | intros H; by apply not_elem_of_nil in H].
  - rewrite elem_of_cons. case_bool_decide; naive_solver.
Qed.

(** ** Statuses of a heartbeat (heartbeat.go) *)
Inductive Status : Set := Deploying | Running | Crashed | Stopped.

#[export] Instance Status_eq_dec : EqDecision Status.
Proof. solve_decision. Defined.

Definition Status_String (s : Status) : string :=
  match s with
  | Deploying => "deploying" | Running => "running"
  | Crashed => "crashed" | Stopped => "stopped"
  end.

Inductive HearbeatStatus : Set := Up | Degraded.
Definition HearbeatStatus_String (hs : HearbeatStatus) : string :=
  match hs with Up => "up" | Degraded => "degraded" end.

Inductive EventType : Set := Info | Warn.
Definition EventType_String (e : EventType) : string :=
  match e with Info => "info" | Warn => "warn" end.

Inductive Scope : Set := FullScope | DeltaScope.
Definition Scope_String (s : Scope) : string :=
  match s with FullScope => "full_scope" | DeltaScope => "delta" end.

Record EventInfo := MkEventInfo { EMessage : string; EReason : string; EType : EventType }.

Record UpgradeStatus := MkUpgradeStatus {
  CurrentCommitID : string; LastUpgradeStatus : string; LastUpgradeTime : string }.

(** [LastDataUpload] is in nanoseconds since the zero time. *)
Record WorkloadStatus := MkWorkloadStatus {
  LastDataUpload : Z; WS_Name : string; WS_Status : Status }.

Record HardwareProfileConfiguration := MkHardwareProfileConfiguration {
  Include : bool; HPScope : Scope }.

(** [Period] is a [time.Duration], in nanoseconds. *)
Record HeartbeatConfiguration := MkHeartbeatConfiguration {
  HardwareProfile : HardwareProfileConfiguration; Period : Z }.

(** ** CPU resources (job.go) *)

(** Quota and period, both [uint64]. *)
Definition CpuResource : Type := Tuple Z Z.

Definition CpuResource_zero : CpuResource := MkTuple 0 0.

Definition CpuResource_Equal (c other : CpuResource) : bool :=
  (Value1 c =? Value1 other) && (Value2 c =? Value2 other).

Lemma CpuResource_Equal_spec c other : CpuResource_Equal c other = true ↔ c = other.
Proof.
  unfold CpuResource_Equal. rewrite andb_true_iff, !Z.eqb_eq.
  destruct c, other; simpl. naive_solver.
Qed.

(** ** Messages and device profiles (message.go, profile.go) *)
Record ProfileCondition := MkProfileCondition {
  PC_Name : string;
  RequiredVariables : list string;
  Expression : Interpreter
}.

Record DeviceProfile := MkDeviceProfile {
  DP_Name : string;
  DP_Conditions : list ProfileCondition
}.

(** ** Workloads (workload.go) *)
Inductive WorkloadKind : Set := PodKind | AnsibleKind | K8SKind.

#[export] Instance WorkloadKind_eq_dec : EqDecision WorkloadKind.
Proof. solve_decision. Defined.

Definition WorkloadKind_String (k : WorkloadKind) : string :=
  match k with PodKind => "pod" | AnsibleKind => "ansible" | K8SKind => "k8s" end.

(** A non-nil [*int64]: its address and the value it points to. *)
Record int64_ptr := MkPtr { addr : N; deref : Z }.

#[export] Instance int64_ptr_eq_dec : EqDecision int64_ptr.
Proof. solve_decision. Defined.

Record WorkloadCondition := MkWorkloadCondition {
  WC_Name : string;
  CPU : option int64_ptr
}.

Record WorkloadProfile := MkWorkloadProfile {
  WP_Name : string;
  WP_Conditions : list WorkloadCondition
}.

Record PodWorkload := MkPodWorkload {
  Name : string;
  WKind : WorkloadKind;
  Namespace : string;
  CronSpec : string;
  Rootless : bool;
  Annotations : gmap string string;
  Secrets : gmap string string;
  Configmaps : list string;
  ImageRegistryAuth : string;
  Labels : option (gmap string string);    (** [None] is the nil map *)
  WorkloadProfiles : list WorkloadProfile;
  Specification : string
}.

#[export] Instance WorkloadCondition_eq_dec : EqDecision WorkloadCondition.
Proof. solve_decision. Defined.
#[export] Instance WorkloadProfile_eq_dec : EqDecision WorkloadProfile.
Proof. solve_decision. Defined.
#[export] Instance PodWorkload_eq_dec : EqDecision PodWorkload.
Proof. solve_decision. Defined.

(** [%+v] of the conditions and of the profiles: a nested pointer prints as an
    address. *)
Definition ptr_format (p : option int64_ptr) : string :=
  match p with
  | None => "<nil>"
  | Some p => HexString.of_N (addr p)
  end.

Definition condition_format (c : WorkloadCondition) : string :=
  "{Name:" +:+ WC_Name c +:+ " CPU:" +:+ ptr_format (CPU c) +:+ "}".

Definition list_format {A} (f : A → string) (l : list A) : string :=
  "[" +:+ String.concat " " (map f l) +:+ "]".

Definition profile_format (p : WorkloadProfile) : string :=
  "{Name:" +:+ WP_Name p +:+ " Conditions:" +:+ list_format condition_format (WP_Conditions p) +:+ "}".

Definition pairs_format (l : list (string * string)) : string :=
  String.concat "" (map (λ kv, kv.1 +:+ kv.2) l).

(** Reading a map, nil or not. *)
Definition entries (m : option (gmap string string)) : gmap string string := default ∅ m.

(** The text hashed by [PodWorkload.Hash], given the order in which each range
    over a map visits it. *)
Definition hash_text (annotations secrets labels : list (string * string)) (p : PodWorkload) : string :=
  Name p +:+ Namespace p +:+ WorkloadKind_String (WKind p)
  +:+ pairs_format annotations +:+ pairs_format secrets +:+ pairs_format labels
  +:+ String.concat "" (Configmaps p)
  +:+ ImageRegistryAuth p +:+ Specification p
  +:+ list_format profile_format (WorkloadProfiles p)
  +:+ (if Rootless p then "true" else "false")
  +:+ CronSpec p.

(** [PodWorkload.Hash]: Go visits a map in an unspecified order, so a call may
    return any of these digests. *)
Inductive Hash_returns (p : PodWorkload) : string → Prop :=
  | hash_order annotations secrets labels :
      annotations ≡ₚ map_to_list (Annotations p) →
      secrets ≡ₚ map_to_list (Secrets p) →
      labels ≡ₚ map_to_list (entries (Labels p)) →
      Hash_returns p (sha256_hex (hash_text annotations secrets labels p)).

(** The call whose ranges follow [map_to_list]. *)
Definition Hash (p : PodWorkload) : string :=
  sha256_hex (hash_text (map_to_list (Annotations p)) (map_to_list (Secrets p))
    (map_to_list (entries (Labels p))) p).

(** [PodWorkload.ID]: [name-hash[:12]].  [PodWorkload_ID] is the identifier of
    that call: the only one of a [stable] workload. *)
Definition id_of_hash (name hash : string) : string := name +:+ "-" +:+ substring 0 12 hash.
Definition ID_returns (p : PodWorkload) (id : string) : Prop :=
  ∃ h, Hash_returns p h ∧ id = id_of_hash (Name p) h.
Definition PodWorkload_ID (p : PodWorkload) : string := id_of_hash (Name p) (Hash p).

(** [AnsibleWorkload], which no translation produces. *)
Record AnsibleWorkload := MkAnsibleWorkload { Playbook : string }.
Definition AnsibleWorkload_Kind (a : AnsibleWorkload) : WorkloadKind := AnsibleKind.
Definition AnsibleWorkload_Hash (a : AnsibleWorkload) : string := sha256_hex (Playbook a).

(** ** The interface [entity.Workload] *)
Class Workload (T : Type) := {
  ID : T → string;
  Kind : T → WorkloadKind;
  Cron : T → string;
  IsRootless : T → bool;
  Profiles : T → list WorkloadProfile;
  (** the type assertion [w.(entity.PodWorkload)] *)
  AsPod : T → option PodWorkload
}.

(** ** Messages (message.go)

    The payload is an [interface{}]: an option of workloads, an option of device
    profiles, or anything else. *)
Inductive MessageKind : Set := WorkloadConfigurationMessage | ProfileConfigurationMessage.

Inductive payload (T : Type) :=
  | PWorkloads (o : GOption (list T))
  | PProfiles (o : GOption (gmap string DeviceProfile))
  | POther.
Arguments PWorkloads {T} _.
Arguments PProfiles {T} _.
Arguments POther {T}.

Record Message (T : Type) := MkMessage { MKind : MessageKind; Payload : payload T }.
Arguments MkMessage {T} _ _.
Arguments MKind {T} _.
Arguments Payload {T} _.

(** The type assertions of the receivers: a mismatch gives the zero option,
    which is not [None]. *)
Definition assert_workloads {T} (p : payload T) : GOption (list T) :=
  match p with PWorkloads o => o | _ => MkOption [] false end.
Definition assert_profiles {T} (p : payload T) : GOption (gmap string DeviceProfile) :=
  match p with PProfiles o => o | _ => MkOption ∅ false end.

(** ** Stability of identifiers *)

(** At most one entry: a range has a single possible order. *)
Definition small {V} (m : gmap string V) : Prop := (size m ≤ 1)%nat.

Lemma small_order {V} (m : gmap string V) l :
  small m → l ≡ₚ map_to_list m → l = map_to_list m.
Proof.
  unfold small. rewrite <-length_map_to_list. intros Hm Hl.
  destruct (map_to_list m) as [|x [|y l']]; simpl in Hm.
  - by apply Permutation_nil_r in Hl.
  - by apply Permutation_singleton_r in Hl.
  - lia.
Qed.

Definition stable (p : PodWorkload) : Prop :=
  small (Annotations p) ∧ small (Secrets p) ∧ small (entries (Labels p)).

Lemma Hash_stable p h : stable p → Hash_returns p h → h = Hash p.
Proof.
  intros (Ha & Hs & Hl) [a s l H1 H2 H3].
  by rewrite (small_order _ _ Ha H1), (small_order _ _ Hs H2), (small_order _ _ Hl H3).
Qed.

Lemma ID_returns_self p : ID_returns p (PodWorkload_ID p).
Proof. exists (Hash p). split; [|done]. by constructor. Qed.

(** a workload with at most one annotation, one secret and one label has a
    single identifier, whatever order Go visits its maps in. *)
Theorem ID_stable p id : stable p → ID_returns p id → id = PodWorkload_ID p.
Proof. intros Hs (h & Hh & ->). by rewrite (Hash_stable p h Hs Hh). Qed.

Definition pod0 (labels : gmap string string) : PodWorkload :=
  MkPodWorkload "nginx" PodKind "default" "" true ∅ ∅ [] "" (Some labels) [] "spec".

Lemma ID_stable_witness :
  PodWorkload_ID (pod0 {["app" := "camera"]}) = PodWorkload_ID (pod0 {["app" := "camera"]}).
Proof.
  apply (ID_stable (pod0 {["app" := "camera"]})); [|apply ID_returns_self].
  split; [|split]; vm_compute; lia.
Defined.

(** with two labels two calls of [ID] on the same workload can return
    different identifiers. *)
Theorem ID_unstable :
  ∃ p id1 id2, size (entries (Labels p)) = 2%nat ∧ ID_returns p id1 ∧ ID_returns p id2 ∧ id1 ≠ id2.
Proof.
  set (p := pod0 {["app" := "camera"; "tier" := "edge"]}).
  exists p, (id_of_hash (Name p) (sha256_hex (hash_text [] [] [("app", "camera"); ("tier", "edge")] p))),
    (id_of_hash (Name p) (sha256_hex (hash_text [] [] [("tier", "edge"); ("app", "camera")] p))).
  assert (map_to_list (entries (Labels p)) ≡ₚ [("app", "camera"); ("tier", "edge")]) as Hl.
  { change (entries (Labels p)) with (<["app" := "camera"]> ({["tier" := "edge"]} : gmap string string)).
    rewrite map_to_list_insert, map_to_list_singleton by done. done. }
  split; [by vm_compute|]. split; [|split].
  - eexists. split; [|reflexivity]. by constructor.
  - eexists. split; [|reflexivity]. constructor; [done..|]. rewrite Hl. apply perm_swap.
  - vm_compute. congruence.
Qed.

(** the identifier depends on the address of a CPU limit and not only on
    its value: the same workload decoded twice, at two addresses, can change
    its identifier. *)
Theorem ID_depends_on_address :
  ∃ (w : N → PodWorkload), (∀ a, stable (w a)) ∧
    (∀ a, map (λ p, map (λ c, deref <$> CPU c) (WP_Conditions p)) (WorkloadProfiles (w a)) = [[Some 50]]) ∧
    ∃ a1 a2, PodWorkload_ID (w a1) ≠ PodWorkload_ID (w a2).
Proof.
  exists (λ a, MkPodWorkload "nginx" PodKind "default" "" true ∅ ∅ [] "" None
    [MkWorkloadProfile "perf" [MkWorkloadCondition "low" (Some (MkPtr a 50))]] "spec").
  split; [|split].
  - intros a. split; [|split]; vm_compute; lia.
  - done.
  - exists 824634376360%N, 824634376368%N. vm_compute. congruence.
Qed.
