(* ===== verification/Interfaces.v ===== *)
(** * The world and the interfaces of the program to it

    Effects outside the process (clock, container engines, cgroups) are calls on
    an abstract world [W], threaded by a state monad.  The Go interfaces
    [common.Executor] and [common.ResourceManager]
    ([internal/scheduler/common/interfaces.go]) and the libraries [time],
    [cenkalti/backoff] and [robfig/cron] are classes of such calls: a theorem
    proved for every instance holds whatever the other side answers. *)
From Stdlib Require Import Sorting.Permutation.
From S2P Require Import Prelude GoStd Entity.

(** ** The state monad of the world *)
Definition M (W A : Type) : Type := W → A * W.

#[export] Instance M_ret {W} : MRet (M W) := λ A a w, (a, w).
#[export] Instance M_bind {W} : MBind (M W) := λ A B f m w, let '(a, w') := m w in f a w'.

Lemma M_bind_unfold {W A B} (m : M W A) (f : A → M W B) w :
  (m ≫= f) w = f (m w).1 (m w).2.
Proof. unfold mbind, M_bind. by destruct (m w). Qed.

Lemma M_ret_unfold {W A} (a : A) (w : W) : (mret a : M W A) w = (a, w).
Proof. done. Qed.
#[export] Hint Rewrite @M_bind_unfold @M_ret_unfold : flotta.

(** Run the computations of the goal as far as their calls on the world. *)
Ltac run_M := rewrite ?M_bind_unfold, ?M_ret_unfold; cbn [fst snd mret M_ret].

(** ** Iteration over maps

    A [range] over a Go map visits every entry once, in an unspecified order
    that may change from one execution of the statement to the next. *)
Class MapOrder (W : Type) := {
  range_map : ∀ {V}, gmap string V → M W (list (string * V));
  range_map_perm : ∀ V (m : gmap string V) w, (range_map m w).1 ≡ₚ map_to_list m
}.

(** A world without effects whose ranges follow [map_to_list]. *)
#[export] Instance unit_order : MapOrder unit := {|
  range_map := λ V m w, (map_to_list m, w);
  range_map_perm := λ V m w, Permutation_refl (map_to_list m)
|}.

(** ** Clock and backoff *)

(** The state of a [backoff.ExponentialBackOff], a parameter: the program only
    creates it from three settings and asks it for the next interval. *)
Class Clock (W : Type) := {
  (** [time.Now()], in nanoseconds *)
  Now : M W Z;
  ExpState : Type;
  NewExponential : Z → Z → float64 → ExpState;
  ExpNext : ExpState → M W (Z * ExpState)
}.

(** The clock never goes backwards (the monotonic clock of package [time]). *)
Class MonotonicClock (W : Type) `{Clock W} (time : W → Z) := {
  Now_time : ∀ w, (Now w).1 = time w;
  Now_mono : ∀ w, (time w ≤ time (Now w).2)%Z
}.

(** ** Cron *)

(** [robfig/cron]: parsing a specification and the next activation of a
    schedule after a given time. *)
Class CronLib := {
  Schedule : Type;
  cron_Parse : string → error + Schedule;
  Schedule_Next : Schedule → Z → Z
}.

(** The documented contract of [Schedule.Next]: "the next activation time,
    later than the given time". *)
Class CronLaws `{CronLib} := {
  Next_later : ∀ s t, (t < Schedule_Next s t)%Z
}.

(** ** [common.Executor] *)
Class Executor (T W : Type) := {
  Remove : T → M W (option error);
  Run : T → M W (option error);
  Stop : T → M W (option error);
  GetState : T → M W (GResult JobState);
  Exists : T → M W (GResult bool);
  (** [time.After(1 * time.Second)] of the reconciliation functions *)
  Sleep : M W unit
}.

(** ** [common.ResourceManager]; a compiled regular expression is its source *)
Class ResourceManager (W : Type) := {
  Set_ : string → CpuResource → M W (option error);
  GetCGroup : string → bool → M W (GResult string);
  GetResources : string → M W (GResult CpuResource)
}.
