(* ===== verification/Identity.v ===== *)
(** * Identifiers of pods

    [PodWorkload.Hash] and [PodWorkload.ID] ([internal/entity/workload.go]) as
    calls: each of their ranges over a map visits it in an order of its own, so
    two calls can return different texts ([Entity.ID_unstable]).  [FixedPod] is
    the type of the workloads whose identifier never changes; the components
    that keep a workload under its identifier are instantiated with it. *)
From Stdlib Require Import Strings.String.
From S2P Require Import Prelude GoStd Sha256 Entity Interfaces.
Local Open Scope string_scope.
Local Open Scope list_scope.

Section calls.
Context {W : Type} `{MapOrder W}.

Definition Hash_call (p : PodWorkload) : M W string :=
  annotations ← range_map (Annotations p);
  secrets ← range_map (Secrets p);
  labels ← range_map (entries (Labels p));
  mret (sha256_hex (hash_text annotations secrets labels p)).

Definition ID_call (p : PodWorkload) : M W string :=
  hash ← Hash_call p;
  mret (id_of_hash (Name p) hash).

Lemma Hash_call_returns p w : Hash_returns p (Hash_call p w).1.
Proof. unfold Hash_call. run_M. constructor; apply range_map_perm. Qed.

Lemma ID_call_returns p w : ID_returns p (ID_call p w).1.
Proof. unfold ID_call. run_M. exists (Hash_call p w).1. split; [apply Hash_call_returns|done]. Qed.

(** A stable workload has the same identifier in every call. *)
Lemma ID_call_stable p w : stable p → (ID_call p w).1 = PodWorkload_ID p.
Proof. intros Hs. destruct (ID_call_returns p w) as (h & Hh & ->). by rewrite (Hash_stable p h Hs Hh). Qed.
End calls.

(** ** Workloads whose identifier is fixed *)

(** At most one annotation and one secret, and no map of labels, in which
    running the workload would write ([Executor.ToPod]). *)
Definition fixed (p : PodWorkload) : Prop := stable p ∧ Labels p = None.

#[export] Instance small_dec {V} (m : gmap string V) : Decision (small m).
Proof. unfold small. apply _. Defined.
#[export] Instance stable_dec p : Decision (stable p).
Proof. unfold stable. apply _. Defined.
#[export] Instance fixed_dec p : Decision (fixed p).
Proof. unfold fixed. apply _. Defined.

Definition FixedPod : Type := dsig fixed.
Definition pod_of (q : FixedPod) : PodWorkload := proj1_sig q.

Lemma pod_of_fixed q : fixed (pod_of q).
Proof. exact (proj2_dsig q). Qed.

#[export] Instance pod_of_inj : Inj (=) (=) pod_of.
Proof. intros q q' E. by apply (dsig_eq fixed). Qed.

#[export] Instance FixedPod_Workload : Workload FixedPod := {|
  ID q := PodWorkload_ID (pod_of q);
  Kind q := WKind (pod_of q);
  Cron q := CronSpec (pod_of q);
  IsRootless q := Rootless (pod_of q);
  Profiles q := WorkloadProfiles (pod_of q);
  AsPod q := Some (pod_of q)
|}.

(** In every call [ID()] returns the identifier of the interface. *)
Lemma ID_call_fixed {W} `{MapOrder W} (q : FixedPod) (w : W) : (ID_call (pod_of q) w).1 = ID q.
Proof. apply ID_call_stable, pod_of_fixed. Qed.

(** A list of workloads that are all fixed, as a list of that type. *)
Lemma fixed_list ps : Forall fixed ps → ∃ qs : list FixedPod, map pod_of qs = ps.
Proof.
  induction 1 as [|p ps Hp _ [qs <-]]; [by exists []|]. by exists (dexist p Hp :: qs).
Qed.

(** A pod with neither annotations, secrets nor labels. *)
Definition plain_pod (name : string) (rootless : bool) : PodWorkload :=
  MkPodWorkload name PodKind "default" "" rootless ∅ ∅ [] "" None [] "spec".

Lemma plain_pod_fixed name rootless : fixed (plain_pod name rootless).
Proof. split; [|done]. split_and!; unfold small, entries; cbn; rewrite map_size_empty; lia. Qed.

Definition fixed_pod_of (name : string) (rootless : bool) : FixedPod :=
  dexist (plain_pod name rootless) (plain_pod_fixed name rootless).
Definition fixed_pod : FixedPod := fixed_pod_of "nginx" true.
