(* ===== verification/Job.v ===== *)
(** * Jobs

    [internal/entity/job.go]: the job built around a workload, its current and
    target states with their hooks, its retry and cron timers and its builder.
    The hooks are those the program installs ([scheduler.createJob]), called by
    name.  Operations that read the clock are in the world monad. *)
From S2P Require Import Prelude GoStd Entity Interfaces Identity.
Local Open Scope Z_scope.

(** ** Timers *)
Section job.
Context {T W : Type} `{Workload T} `{Clock W} `{CronLib}.

(** [backoff.BackOff]: [NewConstantBackOff] returns its interval for ever. *)
Inductive BackOff :=
  | ConstantBackOff (Interval : Z)
  | ExponentialBackOff (st : ExpState).

Definition NextBackOff (b : BackOff) : M W (Z * BackOff) :=
  match b with
  | ConstantBackOff i => mret (i, b)
  | ExponentialBackOff st =>
      r ← ExpNext st; mret (r.1, ExponentialBackOff r.2)
  end.

Record CronJob := MkCronJob { c_next : Z; schedule : Schedule }.

Definition CronJob_ComputeNext (cj : CronJob) : M W CronJob :=
  now ← Now; mret (MkCronJob (Schedule_Next (schedule cj) now) (schedule cj)).
Definition CronJob_CanReconcile (cj : CronJob) : M W bool :=
  now ← Now; mret (c_next cj <? now).

Record RetryJob := MkRetryJob { MarkedForRestart : bool; r_next : Z; r_b : BackOff }.

Definition RetryJob_ComputeNext (rj : RetryJob) : M W RetryJob :=
  now ← Now; r ← NextBackOff (r_b rj);
  mret (MkRetryJob (MarkedForRestart rj) (now + r.1) r.2).
Definition RetryJob_CanReconcile (rj : RetryJob) : M W bool :=
  now ← Now; mret (r_next rj <? now).
Definition set_MarkedForRestart (x : bool) (rj : RetryJob) : RetryJob :=
  MkRetryJob x (r_next rj) (r_b rj).

(** ** The job *)
Inductive HookType := PreSetCurrentState | PostSetCurrentState | PreSetTargetState | PostSetTargetState.

(** The two functions given to [AddHook]: computing the next retry, and logging. *)
Inductive JobStateHook := RestartHook | LogTargetHook.

Record Job := MkJob {
  workload : T;
  CurrentState : JobState;
  TargetState : JobState;
  IsMarkedForDeletion : bool;
  cron : option CronJob;
  retry : option RetryJob;
  hooks : list (HookType * JobStateHook);
  CurrentResources : CpuResource;
  TargetResources : CpuResource
}.

Definition Job_ID (j : Job) : string := ID (workload j).

Definition store_current (s : JobState) (j : Job) : Job :=
  MkJob (workload j) s (TargetState j) (IsMarkedForDeletion j) (cron j) (retry j) (hooks j)
    (CurrentResources j) (TargetResources j).
Definition store_target (s : JobState) (j : Job) : Job :=
  MkJob (workload j) (CurrentState j) s (IsMarkedForDeletion j) (cron j) (retry j) (hooks j)
    (CurrentResources j) (TargetResources j).
Definition MarkForDeletion (j : Job) : Job :=
  MkJob (workload j) (CurrentState j) (TargetState j) true (cron j) (retry j) (hooks j)
    (CurrentResources j) (TargetResources j).
Definition set_cron (c : option CronJob) (j : Job) : Job :=
  MkJob (workload j) (CurrentState j) (TargetState j) (IsMarkedForDeletion j) c (retry j) (hooks j)
    (CurrentResources j) (TargetResources j).
Definition set_retry (r : option RetryJob) (j : Job) : Job :=
  MkJob (workload j) (CurrentState j) (TargetState j) (IsMarkedForDeletion j) (cron j) r (hooks j)
    (CurrentResources j) (TargetResources j).
Definition SetCurrentResources (r : CpuResource) (j : Job) : Job :=
  MkJob (workload j) (CurrentState j) (TargetState j) (IsMarkedForDeletion j) (cron j) (retry j)
    (hooks j) r (TargetResources j).
Definition SetTargetResources (r : CpuResource) (j : Job) : Job :=
  MkJob (workload j) (CurrentState j) (TargetState j) (IsMarkedForDeletion j) (cron j) (retry j)
    (hooks j) (CurrentResources j) r.

Definition ShouldRestart (j : Job) : bool :=
  OneOf (CurrentState j) [ExitedState; UnknownState] && bool_decide (TargetState j = RunningState).

(** The hook of [createJob]: mark for restart once, unmark when running. *)
Definition restart_hook (j : Job) (s : JobState) : M W Job :=
  j ← match retry j with
      | Some rj =>
          if ShouldRestart j && negb (MarkedForRestart rj) then
            rj' ← RetryJob_ComputeNext rj;
            mret (set_retry (Some (set_MarkedForRestart true rj')) j)
          else mret j
      | None => mret j
      end;
  match retry j with
  | Some rj =>
      if bool_decide (s = RunningState)
      then mret (set_retry (Some (set_MarkedForRestart false rj)) j)
      else mret j
  | None => mret j
  end.

Definition call_hook (h : JobStateHook) (j : Job) (s : JobState) : M W Job :=
  match h with
  | RestartHook => restart_hook j s
  | LogTargetHook => mret j
  end.

Definition HookType_eqb (a b : HookType) : bool :=
  match a, b with
  | PreSetCurrentState, PreSetCurrentState | PostSetCurrentState, PostSetCurrentState
  | PreSetTargetState, PreSetTargetState | PostSetTargetState, PostSetTargetState => true
  | _, _ => false
  end.

(** [runHooksFn(hookType)], in the order of the hooks. *)
Fixpoint runHooks (hs : list (HookType * JobStateHook)) (ty : HookType) (s : JobState) (j : Job)
    : M W Job :=
  match hs with
  | [] => mret j
  | (ty', h) :: hs' =>
      if HookType_eqb ty' ty
      then j' ← call_hook h j s; runHooks hs' ty s j'
      else runHooks hs' ty s j
  end.

Definition SetTargetState (state : JobState) (j : Job) : M W Job :=
  j ← runHooks (hooks j) PreSetTargetState state j;
  runHooks (hooks j) PostSetTargetState state (store_target state j).

Definition SetCurrentState (state : JobState) (j : Job) : M W Job :=
  j ← runHooks (hooks j) PreSetCurrentState state j;
  if bool_decide (state = UnknownState)
     && (bool_decide (CurrentState j = ReadyState) || bool_decide (CurrentState j = InactiveState))
  then mret j
  else if OneOf state [UnknownState; ExitedState] && bool_decide (TargetState j = InactiveState)
  then mret (store_current InactiveState j)
  else runHooks (hooks j) PostSetCurrentState state (store_current state j).

(** ** The builder *)
Record Builder := MkBuilder {
  b_w : T;
  b_cronSpec : string;
  b_retryBackoff : option BackOff;
  b_hooks : list (HookType * JobStateHook)
}.

Definition NewBuilder (w : T) : Builder := MkBuilder w "" None [].
Definition WithExponentialRetry (initialInterval maxInterval : Z) (multiplier : float64)
    (jb : Builder) : Builder :=
  MkBuilder (b_w jb) (b_cronSpec jb)
    (Some (ExponentialBackOff (NewExponential initialInterval maxInterval multiplier))) (b_hooks jb).
Definition WithConstantRetry (retryInterval : Z) (jb : Builder) : Builder :=
  MkBuilder (b_w jb) (b_cronSpec jb) (Some (ConstantBackOff retryInterval)) (b_hooks jb).
Definition WithCron (cronSpec : string) (jb : Builder) : Builder :=
  MkBuilder (b_w jb) cronSpec (b_retryBackoff jb) (b_hooks jb).
Definition AddHook (ty : HookType) (fn : JobStateHook) (jb : Builder) : Builder :=
  MkBuilder (b_w jb) (b_cronSpec jb) (b_retryBackoff jb) (b_hooks jb ++ [(ty, fn)]).

Definition Build (jb : Builder) : M W (error + Job) :=
  c ← (if bool_decide (b_cronSpec jb = ""%string) then mret (inr None)
       else match cron_Parse (b_cronSpec jb) with
            | inl err => mret (inl err)
            | inr sched => now ← Now; mret (inr (Some (MkCronJob (Schedule_Next sched now) sched)))
            end : M W (error + option CronJob));
  match c with
  | inl err => mret (inl err)
  | inr c =>
      r ← match b_retryBackoff jb with
          | None => mret None
          | Some bo => now ← Now; mret (Some (MkRetryJob false now bo))
          end;
      mret (inr (MkJob (b_w jb) ReadyState ReadyState false c r (b_hooks jb)
                   CpuResource_zero CpuResource_zero))
  end.
End job.

Arguments BackOff : clear implicits.
Arguments BackOff W {_}.
Arguments RetryJob : clear implicits.
Arguments RetryJob W {_}.
Arguments Job : clear implicits.
Arguments Job T W {_ _}.

(** The hooks [createJob] installs. *)
Definition standard_hooks : list (HookType * JobStateHook) :=
  [(PostSetCurrentState, RestartHook); (PostSetTargetState, LogTargetHook)].

Section job_facts.
Context {T W : Type} `{Workload T} `{Clock W} `{CronLib}.
Implicit Types (j : Job T W) (s : JobState) (w : W).

(** ** What hooks can change: only the retry timer *)
Lemma set_retry_id j : set_retry (retry j) j = j.
Proof. by destruct j. Qed.

Lemma restart_hook_frame j s w : ∃ r, (restart_hook j s w).1 = set_retry r j.
Proof.
  unfold restart_hook. rewrite M_bind_unfold.
  destruct (retry j) as [rj|] eqn:Hr; simpl.
  - destruct (ShouldRestart j && negb (MarkedForRestart rj)); simpl.
    + rewrite !M_bind_unfold. case_bool_decide; simpl; eauto.
    + rewrite Hr. case_bool_decide; simpl; [eauto|]. exists (retry j). by rewrite set_retry_id.
  - rewrite Hr. exists (retry j). by rewrite set_retry_id.
Qed.

Lemma runHooks_frame hs ty s j w : ∃ r, (runHooks hs ty s j w).1 = set_retry r j.
Proof.
  revert j w. induction hs as [|[ty' h] hs IH]; intros j w; simpl.
  - exists (retry j). by rewrite set_retry_id.
  - destruct (HookType_eqb ty' ty); [|apply IH]. rewrite M_bind_unfold.
    assert (∃ r, (call_hook h j s w).1 = set_retry r j) as [r Hr].
    { destruct h; simpl; [apply restart_hook_frame|]. exists (retry j). by rewrite set_retry_id. }
    rewrite Hr. destruct (IH (set_retry r j) (call_hook h j s w).2) as [r' ->]. by exists r'.
Qed.

(** The state recorded when [state] is reported for a job in state [cur] with
    target [tgt]. *)
Definition recorded (state cur tgt : JobState) : JobState :=
  if bool_decide (state = UnknownState) && (bool_decide (cur = ReadyState) || bool_decide (cur = InactiveState))
  then cur
  else if OneOf state [UnknownState; ExitedState] && bool_decide (tgt = InactiveState)
  then InactiveState
  else state.

Lemma SetCurrentState_frame s j w :
  ∃ r, (SetCurrentState s j w).1 = set_retry r (store_current (recorded s (CurrentState j) (TargetState j)) j).
Proof.
  unfold SetCurrentState. rewrite M_bind_unfold.
  destruct (runHooks_frame (hooks j) PreSetCurrentState s j w) as [r Hr]. rewrite Hr.
  change (CurrentState (set_retry r j)) with (CurrentState j).
  change (TargetState (set_retry r j)) with (TargetState j). unfold recorded. destruct (bool_decide (s = UnknownState) && _).
  - exists r. destruct j. reflexivity.
  - destruct (OneOf s _ && _); [exists r; destruct j; reflexivity|].
    set (j' := store_current s (set_retry r j)).
    destruct (runHooks_frame (hooks (set_retry r j)) PostSetCurrentState s j'
      (runHooks (hooks j) PreSetCurrentState s j w).2) as [r' ->].
    by exists r'.
Qed.

Lemma SetTargetState_frame s j w : ∃ r, (SetTargetState s j w).1 = set_retry r (store_target s j).
Proof.
  unfold SetTargetState. rewrite M_bind_unfold.
  destruct (runHooks_frame (hooks j) PreSetTargetState s j w) as [r Hr]. rewrite Hr.
  destruct (runHooks_frame (hooks (set_retry r j)) PostSetTargetState s (store_target s (set_retry r j))
      (runHooks (hooks j) PreSetTargetState s j w).2) as [r' ->].
  by exists r'.
Qed.

(** On a job of [createJob]. *)
Lemma SetCurrentState_standard s j w :
  hooks j = standard_hooks →
  SetCurrentState s j w =
    if bool_decide (s = UnknownState) && (bool_decide (CurrentState j = ReadyState) || bool_decide (CurrentState j = InactiveState))
    then (j, w)
    else if OneOf s [UnknownState; ExitedState] && bool_decide (TargetState j = InactiveState)
    then (store_current InactiveState j, w)
    else restart_hook (store_current s j) s w.
Proof.
  intros Hh. unfold SetCurrentState. rewrite Hh, M_bind_unfold.
  change (runHooks standard_hooks PreSetCurrentState s j w) with (j, w). cbn [fst snd].
  repeat (case_match; [done|]). rewrite Hh.
  change (runHooks standard_hooks PostSetCurrentState s (store_current s j))
    with (restart_hook (store_current s j) s ≫= λ j', mret j').
  rewrite M_bind_unfold. by destruct (restart_hook _ _ w).
Qed.

Lemma SetTargetState_standard s j w :
  hooks j = standard_hooks → SetTargetState s j w = (store_target s j, w).
Proof.
  intros Hh. unfold SetTargetState. rewrite Hh, M_bind_unfold.
  change (runHooks standard_hooks PreSetTargetState s j w) with (j, w). cbn [fst snd].
  by rewrite Hh.
Qed.

(** The restart hook, on a job to restart that is not marked yet. *)
Lemma restart_hook_arms s j w rj :
  ShouldRestart j = true → retry j = Some rj → MarkedForRestart rj = false → s ≠ RunningState →
  retry (restart_hook j s w).1 = Some (set_MarkedForRestart true (RetryJob_ComputeNext rj w).1).
Proof.
  intros Hj Hr Hm Hs. unfold restart_hook.
  rewrite M_bind_unfold, Hr, Hj, Hm. cbn [andb negb].
  rewrite M_bind_unfold. cbn [fst snd retry set_retry mret M_ret].
  by rewrite bool_decide_eq_false_2.
Qed.

(** A job already marked for restart keeps its deadline. *)
Lemma report_marked s j w rj :
  hooks j = standard_hooks → retry j = Some rj → MarkedForRestart rj = true → s ≠ RunningState →
  retry (SetCurrentState s j w).1 = Some rj.
Proof.
  intros Hh Hr Hm Hs. rewrite SetCurrentState_standard by done.
  repeat case_match; try done.
  unfold restart_hook. rewrite M_bind_unfold. simpl. rewrite Hr, Hm, andb_false_r. simpl.
  by rewrite Hr, bool_decide_eq_false_2.
Qed.

Lemma SetCurrentState_hooks s j w : hooks (SetCurrentState s j w).1 = hooks j.
Proof. by destruct (SetCurrentState_frame s j w) as [r ->]. Qed.

(** Successive reports of the executor. *)
Fixpoint reports (ss : list JobState) (j : Job T W) : M W (Job T W) :=
  match ss with
  | [] => mret j
  | s :: ss' => j' ← SetCurrentState s j; reports ss' j'
  end.

(** [SetCurrentState] on every branch: the recorded state is the reported
    one, except that [unknown] is ignored for a ready or inactive job, and
    that [unknown] and [exited] become [inactive] when the target is
    [inactive]; the workload, the target state, the deletion mark, the cron
    timer and the resources are never changed. *)
Theorem SetCurrentState_spec s j w :
  let j' := (SetCurrentState s j w).1 in
  CurrentState j' = recorded s (CurrentState j) (TargetState j) ∧
  workload j' = workload j ∧ TargetState j' = TargetState j ∧
  IsMarkedForDeletion j' = IsMarkedForDeletion j ∧ cron j' = cron j ∧
  CurrentResources j' = CurrentResources j ∧ TargetResources j' = TargetResources j.
Proof. simpl. destruct (SetCurrentState_frame s j w) as [r ->]. done. Qed.

(** the first report of a crash of a job that should run arms the retry:
    the job is marked for restart and can be reconciled again only after the
    constant interval counted from the report. *)
Theorem restart_armed s j w (time : W → Z) i r :
  MonotonicClock W time →
  hooks j = standard_hooks → TargetState j = RunningState →
  (s = ExitedState ∨ s = UnknownState ∧ CurrentState j ≠ ReadyState ∧ CurrentState j ≠ InactiveState) →
  retry j = Some (MkRetryJob false r (ConstantBackOff i)) →
  retry (SetCurrentState s j w).1 = Some (MkRetryJob true (time w + i) (ConstantBackOff i)).
Proof.
  intros Hc Hh Ht Hs Hr. rewrite SetCurrentState_standard, Ht by done.
  assert (bool_decide (s = UnknownState) &&
    (bool_decide (CurrentState j = ReadyState) || bool_decide (CurrentState j = InactiveState)) = false) as ->.
  { destruct Hs as [->|(-> & H2 & H3)]; [done|].
    by rewrite (bool_decide_eq_false_2 _ H2), (bool_decide_eq_false_2 _ H3). }
  rewrite (bool_decide_eq_false_2 (RunningState = InactiveState)), andb_false_r by done.
  rewrite (restart_hook_arms s (store_current s j) w (MkRetryJob false r (ConstantBackOff i)));
    [|by unfold ShouldRestart; cbn [CurrentState TargetState store_current]; rewrite Ht;
      destruct Hs as [->|(-> & _)] | done | done | by destruct Hs as [->|(-> & _)]].
  unfold RetryJob_ComputeNext. rewrite M_bind_unfold. by rewrite Now_time.
Qed.

(** once the retry is armed, further reports do not move the deadline
    until the job is seen running: in particular a job that crashes again
    before it is seen running is not given a new interval. *)
Theorem restart_deadline_stable ss j w rj :
  hooks j = standard_hooks → retry j = Some rj → MarkedForRestart rj = true →
  RunningState ∉ ss → retry (reports ss j w).1 = Some rj.
Proof.
  intros Hh Hr Hm. revert j w Hh Hr. induction ss as [|s ss IH]; intros j w Hh Hr Hs; [done|].
  apply not_elem_of_cons in Hs as [Hs Hss]. simpl. rewrite M_bind_unfold.
  apply IH; [by rewrite SetCurrentState_hooks | by apply report_marked | done].
Qed.
End job_facts.

(** ** A concrete world for the witnesses: a clock that ticks at each reading *)
Module TickWorld.
#[export] Instance tick_clock : Clock Z := {|
  Now := λ w, (w, (w + 1)%Z);
  ExpState := unit;
  NewExponential := λ _ _ _, tt;
  ExpNext := λ st w, ((0%Z, st), w)
|}.

#[export] Instance tick_monotonic : MonotonicClock Z id.
Proof. split; intros w; simpl; lia. Qed.

(** Every specification parses to "the next multiple of 60 seconds". *)
#[export] Instance minute_cron : CronLib := {|
  Schedule := unit;
  cron_Parse := λ _, inr tt;
  Schedule_Next := λ _ t, (60000000000 * (t / 60000000000 + 1))%Z
|}.

#[export] Instance minute_laws : CronLaws.
Proof.
  split. intros [] t. simpl.
  pose proof (Z.mul_succ_div_gt t 60000000000 ltac:(lia)). lia.
Qed.

Definition job0 (cur tgt : JobState) (rj : RetryJob Z) : Job FixedPod Z :=
  MkJob fixed_pod cur tgt false None (Some rj) standard_hooks CpuResource_zero CpuResource_zero.
End TickWorld.

Import TickWorld.

Lemma restart_armed_witness :
  let rj := MkRetryJob false 0 (ConstantBackOff 10000000000) in
  retry (SetCurrentState ExitedState (job0 RunningState RunningState rj) 5%Z).1 =
  Some (MkRetryJob true (5 + 10000000000) (ConstantBackOff 10000000000)).
Proof.
  apply (restart_armed ExitedState _ 5%Z id 10000000000 0); try reflexivity; [exact _ | by left].
Defined.

Lemma restart_deadline_stable_witness :
  let rj := MkRetryJob true 7 (ConstantBackOff 10000000000) in
  retry (reports [ExitedState; UnknownState] (job0 ExitedState RunningState rj) 5%Z).1 = Some rj.
Proof.
  apply restart_deadline_stable; [reflexivity | reflexivity | reflexivity |].
  by apply (bool_decide_unpack _).
Defined.
