(* ===== verification/Store.v ===== *)
(** * The job store

    [internal/scheduler/store.go] and [substract] of [util.go].  A store is a
    Go slice: a backing array and a length.  [Delete] shifts the array in place
    and [ToList] returns a slice of the same array, so a loop over [ToList]
    reads the array as later deletions leave it; [for_range] is that loop.
    Elements are pointers ([loc]); their identifiers are read through [ids]. *)
From S2P Require Import Prelude GoStd Entity Interfaces.

Definition loc : Set := positive.

Record Store := MkStore { arr : list loc; len : nat }.

(** The slice [s.jobs[:]]. *)
Definition view (s : Store) : list loc := take (len s) (arr s).

Definition store_wf (s : Store) : Prop := (len s ≤ length (arr s))%nat.

Definition NewStore : Store := MkStore [] 0.

Definition Len (s : Store) : nat := len s.

Definition Get (s : Store) (idx : nat) : option loc :=
  if bool_decide (len s ≤ idx)%nat then None else arr s !! idx.

(** [append(s.jobs, t)]: in place when the array has room, which no other slice
    observes here. *)
Definition Add (t : loc) (s : Store) : Store :=
  MkStore (view s ++ t :: drop (S (len s)) (arr s)) (S (len s)).

Section ids.
Context (ids : loc → string).

(** [Store.index] on the elements of the slice. *)
Fixpoint index_in (l : list loc) (id : string) : option nat :=
  match l with
  | [] => None
  | t :: l' => if bool_decide (ids t = id) then Some 0 else S <$> index_in l' id
  end.
Definition index (s : Store) (id : string) : option nat := index_in (view s) id.

Definition Find (s : Store) (id : string) : option loc :=
  i ← index s id; view s !! i.

(** [append(s.jobs[:idx], s.jobs[idx+1:]...)] moves the tail one place to the
    left and leaves the last slot of the array as it was. *)
Definition remove_at (idx : nat) (s : Store) : Store :=
  MkStore (take idx (arr s) ++ drop (S idx) (view s) ++ drop (pred (len s)) (arr s)) (pred (len s)).

Definition Delete (element : loc) (s : Store) : option loc * Store :=
  match index s (ids element) with
  | None => (None, s)
  | Some idx => (arr s !! idx, remove_at idx s)
  end.

(** ** Lemmas *)
Lemma view_length s : store_wf s → length (view s) = len s.
Proof. unfold store_wf, view. rewrite length_take. lia. Qed.

Lemma Add_wf t s : store_wf s → store_wf (Add t s).
Proof.
  intros H. pose proof (view_length s H). unfold store_wf, Add in *. simpl.
  rewrite length_app. simpl. lia.
Qed.

Lemma Add_view t s : store_wf s → view (Add t s) = view s ++ [t].
Proof.
  intros H. pose proof (view_length s H) as Hl. unfold view at 1, Add. simpl.
  rewrite take_app_ge by lia. by replace (S (len s) - length (view s)) with 1 by lia.
Qed.

Lemma index_in_spec l id i :
  index_in l id = Some i →
  (∃ t, l !! i = Some t ∧ ids t = id) ∧ ∀ k t, k < i → l !! k = Some t → ids t ≠ id.
Proof.
  revert i. induction l as [|t l IH]; intros i; simpl; [done|].
  case_bool_decide as Ht.
  - intros [= <-]. split; [eauto | lia].
  - destruct (index_in l id) as [k|]; [|done]. intros [= <-].
    destruct (IH k eq_refl) as [Hk Hb]. split; [done|].
    intros [|m] u Hm; simpl; [by intros [= <-] | apply Hb; lia].
Qed.

Lemma index_in_None l id : index_in l id = None ↔ id ∉ map ids l.
Proof.
  induction l as [|t l IH]; simpl; [split; [intros _; apply not_elem_of_nil|done]|].
  rewrite not_elem_of_cons. case_bool_decide; [split; [done | naive_solver]|].
  rewrite fmap_None, IH. naive_solver.
Qed.

Lemma index_bound s id i : store_wf s → index s id = Some i → (i < len s)%nat.
Proof.
  intros Hw Hi. apply index_in_spec in Hi as [(t & Ht & _) _].
  apply lookup_lt_Some in Ht. by rewrite view_length in Ht.
Qed.

Lemma remove_at_length i s :
  store_wf s → (i < len s)%nat → length (arr (remove_at i s)) = length (arr s).
Proof.
  intros Hw Hi. unfold remove_at. simpl.
  rewrite !length_app, length_take, !length_drop, view_length by done.
  unfold store_wf in Hw. lia.
Qed.

Lemma remove_at_wf i s : store_wf s → (i < len s)%nat → store_wf (remove_at i s).
Proof.
  intros Hw Hi. unfold store_wf. rewrite remove_at_length by done. simpl.
  unfold store_wf in Hw. lia.
Qed.

(** The slots of the array after a deletion. *)
Lemma remove_at_lookup i s k :
  store_wf s → (i < len s)%nat →
  arr (remove_at i s) !! k = arr s !! (if decide (i ≤ k < pred (len s))%nat then S k else k).
Proof.
  intros Hw Hi. pose proof (view_length s Hw) as Hl. unfold store_wf in Hw. unfold remove_at. cbn [arr].
  destruct (decide (k < i)%nat).
  { rewrite lookup_app_l by (rewrite length_take; lia). rewrite lookup_take_lt by lia.
    by rewrite decide_False by lia. }
  rewrite lookup_app_r by (rewrite length_take; lia). rewrite length_take, Nat.min_l by lia.
  destruct (decide (k < pred (len s))%nat).
  - rewrite decide_True by lia. rewrite lookup_app_l by (rewrite length_drop; lia).
    rewrite lookup_drop. unfold view. rewrite lookup_take_lt by lia. f_equal. lia.
  - rewrite decide_False by lia. rewrite lookup_app_r by (rewrite length_drop; lia).
    rewrite lookup_drop, length_drop. f_equal. lia.
Qed.

Lemma remove_at_view i s :
  store_wf s → (i < len s)%nat → view (remove_at i s) = take i (view s) ++ drop (S i) (view s).
Proof.
  intros Hw Hi. unfold view at 1, remove_at. simpl.
  pose proof (view_length s Hw) as Hl. unfold store_wf in Hw.
  rewrite app_assoc, take_app_le.
  - rewrite take_ge; [f_equal; unfold view; rewrite take_take; f_equal; lia|].
    rewrite length_app, length_take, length_drop. lia.
  - rewrite length_app, length_take, length_drop. lia.
Qed.

Lemma Delete_wf t s : store_wf s → store_wf (Delete t s).2.
Proof.
  intros Hw. unfold Delete. destruct (index s (ids t)) as [i|] eqn:E; [|done].
  apply remove_at_wf; [done | by eapply index_bound].
Qed.

Lemma Delete_view t s i :
  store_wf s → index s (ids t) = Some i →
  view (Delete t s).2 = take i (view s) ++ drop (S i) (view s).
Proof.
  intros Hw E. unfold Delete. rewrite E. apply remove_at_view; [done|]. by eapply index_bound.
Qed.

Lemma Delete_view_sub t s : store_wf s → view (Delete t s).2 `sublist_of` view s.
Proof.
  intros Hw. destruct (index s (ids t)) as [i|] eqn:E.
  - rewrite (Delete_view t s i) by done.
    rewrite <-(take_drop i (view s)) at 3. apply sublist_app; [done|].
    replace (S i) with (i + 1)%nat by lia. rewrite <-drop_drop. apply sublist_drop.
  - unfold Delete. by rewrite E.
Qed.

(** Identifiers are distinct. *)
Definition distinct (s : Store) : Prop := NoDup (map ids (view s)).

Lemma Delete_distinct t s : store_wf s → distinct s → distinct (Delete t s).2.
Proof.
  intros Hw Hd. unfold distinct.
  eapply sublist_NoDup; [exact Hd | exact (fmap_sublist ids _ _ (Delete_view_sub t s Hw))].
Qed.

Lemma Add_distinct t s :
  store_wf s → distinct s → ids t ∉ map ids (view s) → distinct (Add t s).
Proof.
  intros Hw Hd Ht. unfold distinct. rewrite Add_view, map_app by done.
  apply list.NoDup_app. split; [done|]. split; [|apply NoDup_singleton].
  intros x Hx Hx'. apply list_elem_of_singleton in Hx'. by subst.
Qed.

Lemma index_elem s t :
  distinct s → t ∈ view s → ∃ i, index s (ids t) = Some i ∧ view s !! i = Some t.
Proof.
  unfold distinct, index. intros Hd Ht. apply list_elem_of_lookup_1 in Ht as [k Hk].
  destruct (index_in (view s) (ids t)) as [i|] eqn:E.
  - exists i. split; [done|]. apply index_in_spec in E as [(u & Hu & Hid) _].
    assert (i = k) as ->; [|done].
    eapply (NoDup_lookup (map ids (view s))); [done | |].
    + by rewrite list_lookup_fmap, Hu; simpl; rewrite Hid.
    + by rewrite list_lookup_fmap, Hk.
  - apply index_in_None in E as []. apply (list_elem_of_fmap_2 ids).
    by eapply list_elem_of_lookup_2.
Qed.

Lemma Find_spec s id t : Find s id = Some t → t ∈ view s ∧ ids t = id.
Proof.
  unfold Find, index. intros H. apply bind_Some in H as (i & Hi & Ht).
  apply index_in_spec in Hi as [(u & Hu & Hid) _]. simplify_eq.
  split; [by eapply list_elem_of_lookup_2 | done].
Qed.

(** ** Properties *)

(** deleting a stored job whose identifier is unique returns that job,
    removes it and nothing else, and keeps the order of the others. *)
Lemma Delete_spec s t :
  store_wf s → distinct s → t ∈ view s →
  ∃ l1 l2, view s = l1 ++ t :: l2 ∧ (Delete t s).1 = Some t ∧
           view (Delete t s).2 = l1 ++ l2 ∧ Find (Delete t s).2 (ids t) = None.
Proof.
  intros Hw Hd Ht. destruct (index_elem s t Hd Ht) as (i & Hi & Hv).
  exists (take i (view s)), (drop (S i) (view s)).
  assert (view s = take i (view s) ++ t :: drop (S i) (view s)) as Hs
    by by rewrite take_drop_middle.
  split; [done|]. split; [|split].
  - unfold Delete. rewrite Hi. simpl. unfold view in Hv.
    by apply lookup_take_Some in Hv as [? _].
  - by apply Delete_view.
  - unfold Find, index. rewrite (Delete_view t s i) by done.
    assert (index_in (take i (view s) ++ drop (S i) (view s)) (ids t) = None) as ->; [|done].
    apply index_in_None. unfold distinct in Hd. rewrite Hs in Hd.
    rewrite map_app in Hd |- *. simpl in Hd.
    apply list.NoDup_app in Hd as (_ & H1 & H2). apply list.NoDup_cons in H2 as [H2 _].
    rewrite elem_of_app. intros [H|H]; [|done].
    eapply H1; [exact H | left].
Qed.
End ids.

(** ** Ranging over the jobs

    [for _, j := range s.jobs.ToList()]: the length is read once, each element
    is read from the backing array when its turn comes.  [St] is the state the
    body updates, [arr_of] its current array. *)
Section range.
Context {W St : Type} (arr_of : St → list loc).

Fixpoint range_from (n k : nat) (body : loc → St → M W St) (st : St) : M W St :=
  match n with
  | O => mret st
  | S n' =>
      match arr_of st !! k with
      | Some t => st' ← body t st; range_from n' (S k) body st'
      | None => mret st
      end
  end.

(** The loop over a fixed list. *)
Fixpoint over_list (l : list loc) (body : loc → St → M W St) (st : St) : M W St :=
  match l with
  | [] => mret st
  | t :: l' => st' ← body t st; over_list l' body st'
  end.

(** An invariant of the body is an invariant of the loop. *)
Lemma range_inv (I : St → Prop) body n k st w :
  (∀ t st w, I st → I (body t st w).1) → I st → I (range_from n k body st w).1.
Proof.
  intros Hb. revert k st w. induction n as [|n IH]; intros k st w Hi; simpl; [done|].
  case_match; [|done]. rewrite M_bind_unfold. apply IH. by apply Hb.
Qed.

(** The same when the invariant says which elements the loop can meet. *)
Lemma range_inv_in (I : St → Prop) (P : loc → Prop) N body n k st w :
  (∀ t st w, P t → I st → I (body t st w).1) →
  (∀ st i t, I st → (i < N)%nat → arr_of st !! i = Some t → P t) →
  (k + n ≤ N)%nat → I st → I (range_from n k body st w).1.
Proof.
  intros Hb HP. revert k st w. induction n as [|n IH]; intros k st w Hk Hi; simpl; [done|].
  destruct (arr_of st !! k) as [t|] eqn:E; [|done]. rewrite M_bind_unfold.
  apply IH; [lia|]. apply Hb; [|done]. eapply HP; [done| |exact E]. lia.
Qed.

(** The same when the invariant follows the position of the loop. *)
Lemma range_inv_at (I : nat → St → Prop) body n k st w :
  (∀ i t st w, (i < k + n)%nat → arr_of st !! i = Some t → I i st → I (S i) (body t st w).1) →
  (∀ i st, (i < k + n)%nat → I i st → is_Some (arr_of st !! i)) →
  I k st → I (k + n)%nat (range_from n k body st w).1.
Proof.
  revert k st w. induction n as [|n IH]; intros k st w Hb Ha Hi; simpl; [by rewrite Nat.add_0_r|].
  destruct (Ha k st) as [t Ht]; [lia|done|]. rewrite Ht, M_bind_unfold.
  replace (k + S n)%nat with (S k + n)%nat in * by lia. apply IH; [done|done|]. apply Hb; [lia|done|done].
Qed.

(** A body that leaves the array alone makes the loop a loop over the list. *)
Lemma range_stable body n k st w :
  (∀ t st w, arr_of (body t st w).1 = arr_of st) →
  (k + n ≤ length (arr_of st))%nat →
  range_from n k body st w = over_list (take n (drop k (arr_of st))) body st w.
Proof.
  intros Hb. revert k st w. induction n as [|n IH]; intros k st w Hk; simpl; [done|].
  destruct (arr_of st !! k) as [t|] eqn:E.
  - rewrite (drop_S _ _ _ E). simpl. rewrite !M_bind_unfold, IH, Hb; [done|].
    rewrite Hb. lia.
  - apply lookup_ge_None in E. lia.
Qed.
End range.

(** [for_range] over the slice of a store held in the state. *)
Definition for_range {W St} (store_of : St → Store) (body : loc → St → M W St) (st : St) : M W St :=
  range_from (λ st, arr (store_of st)) (len (store_of st)) 0 body st.

Section for_range.
Context {W St : Type} (store_of : St → Store).

Lemma for_range_inv (I : St → Prop) (body : loc → St → M W St) st w :
  (∀ t st w, I st → I (body t st w).1) → I st → I (for_range store_of body st w).1.
Proof. apply range_inv. Qed.

Lemma for_range_stable (body : loc → St → M W St) st w :
  store_wf (store_of st) → (∀ t st w, store_of (body t st w).1 = store_of st) →
  for_range store_of body st w = over_list (view (store_of st)) body st w.
Proof.
  intros Hw Hb. unfold for_range. rewrite range_stable.
  - by rewrite drop_0.
  - intros. by rewrite Hb.
  - done.
Qed.
End for_range.

(** The jobs a loop visits when its body deletes those chosen by [del]: the
    slice the body sees moves under the loop. *)
Section visited.
Context (ids : loc → string) (del : loc → bool).

Definition visit (t : loc) (st : Store * list loc) : M unit (Store * list loc) :=
  mret (if del t then (Delete ids t st.1).2 else st.1, st.2 ++ [t]).

Definition visited (s : Store) : list loc := (for_range fst visit (s, []) tt).1.2.

Lemma visit_eq t st w :
  visit t st w = (if del t then (Delete ids t st.1).2 else st.1, st.2 ++ [t], w).
Proof. done. Qed.

Lemma visit_plain n m k s acc :
  (k + n ≤ length (arr s))%nat → Forall (λ t, del t = false) (take n (drop k (arr s))) →
  range_from (λ st : Store * list loc, arr st.1) (n + m) k visit (s, acc) tt =
  range_from (λ st : Store * list loc, arr st.1) m (n + k) visit (s, acc ++ take n (drop k (arr s))) tt.
Proof.
  revert k acc. induction n as [|n IH]; intros k acc Hk Hf; [by rewrite take_0, app_nil_r|].
  destruct (arr s !! k) as [t|] eqn:E; [|apply lookup_ge_None in E; lia].
  rewrite (drop_S _ _ _ E) in Hf |- *. simpl in Hf |- *. inversion Hf as [|? ? Ht Hf']; subst.
  rewrite E, M_bind_unfold, visit_eq. cbn [fst snd].
  rewrite Ht, IH by (done || lia). rewrite <-app_assoc. by rewrite Nat.add_succ_r.
Qed.
End visited.

Lemma drop_middle {A} (l1 : list A) x l2 : drop (S (length l1)) (l1 ++ x :: l2) = l2.
Proof. by induction l1. Qed.

(** deleting the current job [t] while ranging over the jobs makes the loop
    skip the job after it and visit the last one twice: over
    [l1 ++ t :: u :: l2 ++ [v]] it visits [l1 ++ t :: l2 ++ [v; v]]. *)
Theorem delete_in_range_skips (ids : loc → string) (del : loc → bool) s l1 t u l2 v :
  store_wf s → distinct ids s → view s = l1 ++ t :: u :: l2 ++ [v] →
  del t = true → Forall (λ x, del x = false) (l1 ++ u :: l2 ++ [v]) →
  visited ids del s = l1 ++ t :: l2 ++ [v; v].
Proof.
  intros Hw Hd Hv Ht Hf.
  pose proof (view_length s Hw) as Hl. rewrite Hv in Hl.
  rewrite length_app in Hl. cbn [length] in Hl. rewrite length_app in Hl. cbn [length] in Hl.
  apply Forall_app in Hf as [Hf1 Hf2]. inversion Hf2 as [|? ? _ Hf2']; subst; clear Hf2; rename Hf2' into Hf2.
  assert (arr s = l1 ++ t :: u :: l2 ++ v :: drop (len s) (arr s)) as Ha.
  { rewrite <-(take_drop (len s) (arr s)) at 1. change (take (len s) (arr s)) with (view s).
    rewrite Hv. by rewrite <-app_assoc; simpl; rewrite <-app_assoc. }
  assert (index ids s (ids t) = Some (length l1)) as Hi.
  { destruct (index_elem ids s t Hd) as (i & Hi & Hvi); [rewrite Hv, elem_of_app; right; left|].
    rewrite Hi. f_equal. eapply (NoDup_lookup (map ids (view s))); [exact Hd | |].
    - rewrite list_lookup_fmap, Hvi. reflexivity.
    - rewrite list_lookup_fmap, Hv, list_lookup_middle by done. reflexivity. }
  assert (take (length l1) (arr s) = l1) as Htk by (rewrite Ha; apply take_app_length).
  unfold visited, for_range. cbn [fst].
  replace (len s) with (length l1 + S (length l2 + 2))%nat by lia.
  rewrite visit_plain; [|rewrite Ha, length_app; lia | by rewrite drop_0, Htk].
  rewrite drop_0, Nat.add_0_r, Htk. cbn [range_from].
  replace (arr (s, [] ++ l1).1 !! length l1) with (Some t)
    by (symmetry; cbn [fst]; rewrite Ha; by apply list_lookup_middle).
  rewrite M_bind_unfold, visit_eq. cbn [fst snd]. rewrite Ht.
  unfold Delete. rewrite Hi. cbn [snd].
  set (s' := remove_at (length l1) s).
  assert (arr s' = l1 ++ u :: l2 ++ v :: v :: drop (len s) (arr s)) as Ha'.
  { unfold s', remove_at. cbn [arr].
    assert (pred (len s) = length (l1 ++ t :: u :: l2)) as -> by (rewrite length_app; simpl; lia).
    assert (∀ rest, drop (length (l1 ++ t :: u :: l2)) (l1 ++ t :: u :: l2 ++ rest) = rest) as Hdrop.
    { intros rest. rewrite <-(drop_app_length (l1 ++ t :: u :: l2) rest) at 2.
      by rewrite <-app_assoc. }
    rewrite Hv. rewrite Ha at 1 2. rewrite Hdrop, take_app_length.
    rewrite drop_middle. simpl. by rewrite <-app_assoc. }
  assert (take (length l2 + 2) (drop (S (length l1)) (arr s')) = l2 ++ [v; v]) as Hk.
  { rewrite Ha', drop_middle. change (v :: v :: ?r) with ([v; v] ++ r). rewrite app_assoc.
    replace (length l2 + 2)%nat with (length (l2 ++ [v; v])) by (rewrite length_app; simpl; lia).
    by rewrite take_app_length. }
  replace (length l2 + 2)%nat with (length l2 + 2 + 0)%nat at 1 by lia.
  rewrite visit_plain; rewrite ?Hk.
  - cbn. by rewrite <-app_assoc.
  - rewrite Ha'. rewrite length_app. simpl. rewrite length_app. simpl. lia.
  - apply Forall_app in Hf2 as [Hf2 Hf3].
    apply Forall_app. split; [done|]. inversion Hf3; subst. by repeat constructor.
Qed.

Lemma delete_in_range_skips_witness :
  visited (λ t, String.string_of_list_ascii (repeat "a"%char (Pos.to_nat t))) (λ t, bool_decide (t = 1%positive))
    (MkStore [1; 2; 3; 4]%positive 4) = [1; 3; 4; 4]%positive.
Proof.
  apply (delete_in_range_skips _ _ (MkStore [1; 2; 3; 4]%positive 4) [] 1%positive 2%positive [3%positive] 4%positive).
  - unfold store_wf. simpl. lia.
  - apply (bool_decide_unpack _). by vm_compute.
  - reflexivity.
  - reflexivity.
  - repeat constructor.
Defined.

(** ** substract (util.go) *)
Section substract.
Context {W : Type} `{MapOrder W} {A B : Type} (ida : A → string) (idb : B → string).

(** The loop filling both maps: [n] iterations from index [i]. *)
Fixpoint fill (n i : nat) (a : list A) (b : list B) (m1 : gmap string A) (m2 : gmap string B)
    : gmap string A * gmap string B :=
  match n with
  | O => (m1, m2)
  | S n' =>
      fill n' (S i) a b
        (match a !! i with Some x => <[ida x := x]> m1 | None => m1 end)
        (match b !! i with Some y => <[idb y := y]> m2 | None => m2 end)
  end.

Definition substract (a : list A) (b : list B) : M W (list A) :=
  let '(m1, m2) := fill (max (length a) (length b)) 0 a b ∅ ∅ in
  l ← range_map m1;
  mret (foldr (λ kv res, if bool_decide (m2 !! kv.1 = None) then kv.2 :: res else res) [] l).

(** One map filled by the loop. *)
Definition put {X} (idx : X → string) (o : option X) (m : gmap string X) : gmap string X :=
  match o with Some x => <[idx x := x]> m | None => m end.

Definition mirrors {X} (idx : X → string) (l : list X) (i : nat) (m : gmap string X) : Prop :=
  ∀ k, m !! k = last_with idx (take i l) k.

Lemma put_mirrors {X} (idx : X → string) l i m :
  mirrors idx l i m → mirrors idx l (S i) (put idx (l !! i) m).
Proof.
  intros Hm k. destruct (l !! i) as [x|] eqn:E; simpl.
  - rewrite (take_S_r _ _ _ E), last_with_snoc. rewrite lookup_insert. by repeat case_decide.
  - apply lookup_ge_None in E. rewrite (take_ge l (S i)) by lia.
    by rewrite Hm, take_ge by lia.
Qed.

Lemma fill_mirrors n i a b m1 m2 :
  mirrors ida a i m1 → mirrors idb b i m2 →
  mirrors ida a (n + i) (fill n i a b m1 m2).1 ∧ mirrors idb b (n + i) (fill n i a b m1 m2).2.
Proof.
  revert i m1 m2. induction n as [|n IH]; intros i m1 m2 H1 H2; [done|].
  apply (put_mirrors ida) in H1. apply (put_mirrors idb) in H2.
  rewrite Nat.add_succ_comm. by apply IH.
Qed.

Lemma fill_lookup a b :
  let m := fill (max (length a) (length b)) 0 a b ∅ ∅ in
  (∀ k, m.1 !! k = last_with ida a k) ∧ (∀ k, m.2 !! k = last_with idb b k).
Proof.
  destruct (fill_mirrors (max (length a) (length b)) 0 a b ∅ ∅) as [H1 H2]; [done..|].
  rewrite Nat.add_0_r in H1, H2. split; intros k.
  - by rewrite H1, take_ge by lia.
  - by rewrite H2, take_ge by lia.
Qed.

Lemma keep_filter (m2 : gmap string B) (l : list (string * A)) :
  foldr (λ kv res, if bool_decide (m2 !! kv.1 = None) then kv.2 :: res else res) [] l =
  map snd (filter (λ kv, m2 !! kv.1 = None) l).
Proof.
  induction l as [|kv l IH]; [done|]. simpl. rewrite list.filter_cons, IH.
  destruct (decide (m2 !! kv.1 = None)) as [E|E].
  - by rewrite bool_decide_eq_true_2.
  - by rewrite bool_decide_eq_false_2.
Qed.

(** The pairs a call keeps. *)
Lemma substract_pairs a b w :
  ∃ l, (substract a b w).1 = map snd l ∧ NoDup (map fst l) ∧
    ∀ k x, (k, x) ∈ l ↔ last_with ida a k = Some x ∧ k ∉ map idb b.
Proof.
  unfold substract. destruct (fill_lookup a b) as [H1 H2].
  destruct (fill _ _ a b ∅ ∅) as [m1 m2]. simpl in H1, H2.
  rewrite M_bind_unfold, M_ret_unfold. cbn [fst].
  pose proof (range_map_perm _ m1 w) as Hp. set (l := (range_map m1 w).1) in *.
  exists (filter (λ kv, m2 !! kv.1 = None) l). split; [apply keep_filter|]. split.
  - eapply sublist_NoDup; [|apply (fmap_sublist fst), sublist_filter].
    change (fst <$> l) with (l.*1). rewrite Hp. apply NoDup_fst_map_to_list.
  - intros k x. rewrite list_elem_of_filter, Hp, elem_of_map_to_list, H1, H2. simpl.
    rewrite last_with_None. tauto.
Qed.

Lemma substract_members a b w :
  let res := (substract a b w).1 in
  NoDup (map ida res) ∧
  ∀ x, x ∈ res ↔ last_with ida a (ida x) = Some x ∧ ida x ∉ map idb b.
Proof.
  destruct (substract_pairs a b w) as (l & Hres & Hd & Hl). rewrite Hres. split.
  - assert (map ida (map snd l) = map fst l) as ->; [|done].
    rewrite map_map. apply map_ext_in. intros [k x] Hin.
    apply list_elem_of_In, Hl in Hin as [Hx _]. by apply last_with_Some in Hx as [_ ?].
  - intros x. rewrite list_elem_of_fmap. split.
    + intros ([k y] & -> & Hin). apply Hl in Hin as [Hy Hk]. simpl.
      pose proof (last_with_Some _ _ _ _ Hy) as [_ ->]. done.
    + intros Hx. exists (ida x, x). by rewrite Hl.
Qed.

(** [substract] returns, in some order, the elements of the first list
    whose identifier is not in the second; of several elements with one
    identifier only the last is returned, once. *)
Theorem substract_spec a b w :
  let res := (substract a b w).1 in
  NoDup (map ida res) ∧
  ∀ x, x ∈ res ↔ last_with ida a (ida x) = Some x ∧ ida x ∉ map idb b.
Proof. apply substract_members. Qed.
End substract.
