(* ===== verification/Future.v ===== *)
(** * Futures

    [internal/entity/future.go], with the producer that [futureWrapper] and the
    resource reconciler start: a goroutine that sends one value on an unbuffered
    channel and closes it.  The state is that of the two goroutines and of the
    fields of the [Future]; a step is one action of one goroutine.  The abstract
    specification is an [option]: nothing yet, or the value of the producer for
    ever. *)
From S2P Require Import Prelude.

Section future.
Context {T : Type} (zero : T).

(** The goroutine of [NewFuture]: waiting in [range f.input], about to store a
    received value, about to set [inputClosed], finished. *)
Inductive reader :=
  | Ranging
  | Storing (v : T)
  | Closing
  | Done.

(** [sends]: the values the producer has not sent yet. *)
Record Future := MkFuture {
  sends : list T;
  ch_closed : bool;
  goroutine : reader;
  value : T;
  inputClosed : bool
}.

Definition NewFuture (vs : list T) : Future := MkFuture vs false Ranging zero false.

Definition Resolved (f : Future) : bool := inputClosed f.

Definition Poll (f : Future) : T * bool :=
  if Resolved f then (value f, true) else (zero, false).

Inductive step : Future → Future → Prop :=
  (** the rendezvous of [ch <- v] and of the range *)
  | step_send v vs val ic :
      step (MkFuture (v :: vs) false Ranging val ic) (MkFuture vs false (Storing v) val ic)
  (** [f.value = value] *)
  | step_store v vs cl val ic :
      step (MkFuture vs cl (Storing v) val ic) (MkFuture vs cl Ranging v ic)
  (** [close(ch)] *)
  | step_close g val ic :
      step (MkFuture [] false g val ic) (MkFuture [] true g val ic)
  (** the range ends *)
  | step_end vs val ic :
      step (MkFuture vs true Ranging val ic) (MkFuture vs true Closing val ic)
  (** [f.inputClosed = true], under the lock *)
  | step_resolve vs cl val ic :
      step (MkFuture vs cl Closing val ic) (MkFuture vs cl Done val true).

Definition reachable (r : T) (f : Future) : Prop := rtc step (NewFuture [r]) f.

(** ** The invariant of a future whose producer sends [r] *)
Inductive inv (r : T) : Future → Prop :=
  | inv_start val : inv r (MkFuture [r] false Ranging val false)
  | inv_sent cl val : inv r (MkFuture [] cl (Storing r) val false)
  | inv_stored cl : inv r (MkFuture [] cl Ranging r false)
  | inv_closing : inv r (MkFuture [] true Closing r false)
  | inv_done : inv r (MkFuture [] true Done r true).

Lemma inv_step r f f' : inv r f → step f f' → inv r f'.
Proof. intros Hi Hs. destruct Hs; inversion Hi; subst; constructor. Qed.

Lemma exec_inv r f : reachable r f → inv r f.
Proof.
  unfold reachable. intros H. assert (inv r (NewFuture [r])) as Hi by constructor.
  revert Hi. induction H as [|f1 f2 f3 Hs _ IH]; intros Hi; [done|].
  apply IH. by eapply inv_step.
Qed.

(** ** Refinement of the abstract future *)
Definition abstract (f : Future) : option T := if Resolved f then Some (value f) else None.

(** An abstract future stays pending or resolves to [r]. *)
Definition astep (r : T) (a a' : option T) : Prop := a' = a ∨ (a = None ∧ a' = Some r).

(** The number of steps left. *)
Definition left (f : Future) : nat :=
  3 * length (sends f) + (if ch_closed f then 0 else 1) +
  match goroutine f with Storing _ => 3 | Ranging => 2 | Closing => 1 | Done => 0 end.

Lemma step_left f f' : step f f' → left f' < left f.
Proof. destruct 1; unfold left; simpl; try case_match; lia. Qed.

Lemma inv_progress r f : inv r f → Resolved f = false → ∃ f', step f f'.
Proof.
  destruct 1 as [val|cl val|[]| |]; intros Hr; try done; eexists; constructor.
Qed.

(** C25: every step of a future and its producer is, on the abstract future, no
    step or the resolution with the value the producer sends. *)
Theorem future_refines r f f' :
  reachable r f → step f f' → astep r (abstract f) (abstract f').
Proof.
  intros Hr Hs. apply exec_inv in Hr. pose proof (inv_step _ _ _ Hr Hs) as Hi.
  destruct Hs; inversion Hr; subst; unfold astep, abstract, Resolved; simpl; auto.
Qed.

(** [Poll] reports the value of the producer or nothing, and once it
    reports the value it reports it for ever. *)
Theorem Poll_correct r f f' :
  reachable r f → rtc step f f' →
  (Poll f = (zero, false) ∨ Poll f = (r, true)) ∧ ((Poll f).2 = true → Poll f' = (r, true)).
Proof.
  intros Hr Hs. apply exec_inv in Hr. split.
  - destruct Hr; auto.
  - intros Hp. assert (f = MkFuture [] true Done r true) as -> by by destruct Hr.
    apply rtc_inv in Hs as [<-|(f'' & Hs & _)]; [done|]. inversion Hs.
Qed.

(** C26: a future always resolves: executions are finite, and one that cannot
    go on has resolved. *)
Theorem future_resolves r f :
  reachable r f →
  Acc (flip step) f ∧ ((∀ f', ¬ step f f') → Poll f = (r, true)).
Proof.
  intros Hr. split.
  - clear Hr. induction (well_founded_ltof _ left f) as [f _ IH].
    constructor. intros f' Hs. apply IH. by apply step_left.
  - apply exec_inv in Hr. intros Hn. destruct (Resolved f) eqn:E.
    + by destruct Hr.
    + destruct (inv_progress r f Hr E) as [f' Hs]. by destruct (Hn f').
Qed.
End future.

(** A complete run of a future whose producer sends 7. *)
Definition seven_run (n : nat) : Future (T := nat) :=
  match n with
  | 0 => NewFuture 0 [7]
  | 1 => MkFuture [] false (Storing 7) 0 false
  | 2 => MkFuture [] true (Storing 7) 0 false
  | 3 => MkFuture [] true Ranging 7 false
  | 4 => MkFuture [] true Closing 7 false
  | _ => MkFuture [] true Done 7 true
  end.

Lemma seven_steps n : n < 5 → step (seven_run n) (seven_run (S n)).
Proof. intros Hn. do 5 (destruct n as [|n]; [constructor|]). lia. Qed.

Lemma seven_rtc m n : m + n ≤ 5 → rtc step (seven_run m) (seven_run (m + n)).
Proof.
  revert m. induction n as [|n IH]; intros m Hn; [by rewrite Nat.add_0_r|].
  eapply rtc_l; [apply seven_steps; lia|]. rewrite <-Nat.add_succ_comm. apply IH. lia.
Qed.

Lemma future_refines_witness :
  astep 7 (abstract (seven_run 4)) (abstract (seven_run 5)).
Proof.
  apply (future_refines 0 7 (seven_run 4) (seven_run 5)).
  - apply (seven_rtc 0 4). lia.
  - apply (seven_steps 4). lia.
Defined.

Lemma Poll_correct_witness :
  (Poll 0 (seven_run 3) = (0, false) ∨ Poll 0 (seven_run 3) = (7, true)) ∧
  ((Poll 0 (seven_run 3)).2 = true → Poll 0 (seven_run 5) = (7, true)).
Proof.
  apply (Poll_correct 0 7).
  - apply (seven_rtc 0 3). lia.
  - apply (seven_rtc 3 2). lia.
Defined.

Lemma future_resolves_witness :
  Acc (flip step) (seven_run 5) ∧ ((∀ f', ¬ step (seven_run 5) f') → Poll 0 (seven_run 5) = (7, true)).
Proof. apply (future_resolves 0 7). apply (seven_rtc 0 5). lia. Defined.
