(* ===== verification/Profile.v ===== *)
(** * Profile evaluation

    [internal/profile]: the evaluator of device profiles ([evaluator.go]), the
    loop of the profile manager ([manager.go], [run]) as a transition system on
    its channels, and the metric server ([server.go]), whose handlers run
    concurrently. *)
From Stdlib Require Import Strings.String.
From S2P Require Import Prelude GoStd Lexer Parser Interpreter Entity.

(** ** The evaluator (evaluator.go) *)
Record ConditionResult := MkConditionResult {
  CR_Name : string; CR_Value : bool; CR_Error : option evalError }.

Record ProfileEvaluationResult := MkProfileEvaluationResult {
  PER_Name : string; ConditionsResults : list ConditionResult }.

#[export] Instance ConditionResult_eq_dec : EqDecision ConditionResult.
Proof. solve_decision. Defined.
#[export] Instance ProfileEvaluationResult_eq_dec : EqDecision ProfileEvaluationResult.
Proof. solve_decision. Defined.

Record profileEvaluator := MkProfileEvaluator { PE_Name : string; PE_Profile : DeviceProfile }.

(** [profileEvaluator.evaluate] *)
Definition evaluate_profile (pe : profileEvaluator) (metrics : variables) : ProfileEvaluationResult :=
  MkProfileEvaluationResult (PE_Name pe)
    (map (λ c, let '(res, err) := Evaluate (Expression c) metrics in
               MkConditionResult (PC_Name c) res err)
         (DP_Conditions (PE_Profile pe))).

(** [SetProfiles]: [order] is the order in which the range visits the map. *)
Definition SetProfiles (order : list (string * DeviceProfile)) : list profileEvaluator :=
  map (λ kv, MkProfileEvaluator kv.1 kv.2) order.

(** [simpleEvaluator.Evaluate] *)
Definition Evaluate_profiles (evaluators : list profileEvaluator) (metrics : variables)
    : GOption (list ProfileEvaluationResult) :=
  let results := map (λ e, evaluate_profile e metrics) evaluators in
  MkOption results (bool_decide (length results = 0)%nat).

(** whatever order the profiles are visited in, an evaluation returns
    exactly one result per profile, under the profile's name, with one result
    per condition in the order of the conditions, each the value and the error
    of its expression on the current metrics; it is [None] exactly when there
    is no profile. *)
Theorem Evaluate_profiles_spec (profiles : gmap string DeviceProfile) order metrics :
  order ≡ₚ map_to_list profiles →
  let opt := Evaluate_profiles (SetProfiles order) metrics in
  (None_ opt = true ↔ profiles = ∅) ∧
  NoDup (map PER_Name (Value opt)) ∧
  ∀ r, r ∈ Value opt ↔ ∃ p, profiles !! PER_Name r = Some p ∧
    Forall2 (λ c cr, CR_Name cr = PC_Name c ∧ (CR_Value cr, CR_Error cr) = Evaluate (Expression c) metrics)
      (DP_Conditions p) (ConditionsResults r).
Proof.
  intros Ho. unfold Evaluate_profiles, SetProfiles. cbn [None_ Value]. split; [|split].
  - rewrite bool_decide_eq_true, !length_map, Ho. by rewrite length_map_to_list, map_size_empty_iff.
  - rewrite !map_map. simpl. change (NoDup (order.*1)). rewrite Ho. apply NoDup_fst_map_to_list.
  - intros [name crs]. rewrite map_map, list_elem_of_fmap. cbn [PER_Name ConditionsResults]. split.
    + intros ([k p] & Hr & Hin). injection Hr as -> ->. exists p.
      rewrite Ho, elem_of_map_to_list in Hin. split; [done|].
      apply Forall2_fmap_r, Forall_Forall2_diag, Forall_true. intros c. simpl.
      by destruct (Evaluate (Expression c) metrics).
    + intros (p & Hp & Hf). exists (name, p). rewrite Ho, elem_of_map_to_list. split; [|done].
      unfold evaluate_profile. cbn [PE_Name PE_Profile fst snd]. f_equal.
      induction Hf as [|c cr cs crs' [Hn He] _ IH]; [done|]. simpl. rewrite <-IH, <-He, <-Hn.
      by destruct cr.
Qed.

(** ** The metric server (server.go)

    Handlers run concurrently: a handler first compares the counter with [max],
    then reads and decodes the body, then adds one and starts a goroutine that
    sends the value on [outCh] (of capacity 1) and subtracts one. *)
Record metricValue := MkMetricValue { MV_Value : float32; MV_Name : string }.

Inductive request_body :=
  | ReadFails
  | NotJSON
  | Decoded (data : metricValue).

Record metricServer := MkMetricServer {
  count : Z;
  handlers : list request_body;    (** handlers past the check of the counter *)
  pending : list metricValue;      (** goroutines about to send *)
  sent : nat;                      (** goroutines about to subtract *)
  outCh : option metricValue
}.

Definition max_count : Z := 10.

Definition newMetricServer : metricServer := MkMetricServer 0 [] [] 0 None.

(** The first part of the handler: [inl] answers the request. *)
Definition handler_check (body : request_body) (m : metricServer) : Z + metricServer :=
  if (max_count <=? count m)%Z then inl 200%Z
  else inr (MkMetricServer (count m) (body :: handlers m) (pending m) (sent m) (outCh m)).

(** The rest of the handler for a body: the status and the new server. *)
Definition handler_finish (body : request_body) (m : metricServer) : Z * metricServer :=
  match body with
  | ReadFails => (500%Z, m)
  | NotJSON => (400%Z, m)
  | Decoded data =>
      (200%Z, MkMetricServer (count m + 1) (handlers m) (data :: pending m) (sent m) (outCh m))
  end.

Inductive server_step : metricServer → metricServer → Prop :=
  | ss_check body m m' : handler_check body m = inr m' → server_step m m'
  | ss_finish body c h1 h2 p sn o status m' :
      handler_finish body (MkMetricServer c (h1 ++ h2) p sn o) = (status, m') →
      server_step (MkMetricServer c (h1 ++ body :: h2) p sn o) m'
  | ss_send c h p1 data p2 sn :
      server_step (MkMetricServer c h (p1 ++ data :: p2) sn None)
        (MkMetricServer c h (p1 ++ p2) (S sn) (Some data))
  | ss_subtract c h p sn o :
      server_step (MkMetricServer c h p (S sn) o) (MkMetricServer (c - 1) h p sn o)
  | ss_receive c h p sn data :
      server_step (MkMetricServer c h p sn (Some data)) (MkMetricServer c h p sn None).

(** The counter counts the goroutines that have not subtracted yet. *)
Definition counted (m : metricServer) : Prop := count m = Z.of_nat (length (pending m) + sent m).

Lemma counted_step m m' : counted m → server_step m m' → counted m'.
Proof.
  unfold counted. intros Hc Hs. destruct Hs as [body m m' H|body c h1 h2 p sn o status m' H| | |]; simpl in *.
  - unfold handler_check in H. destruct (_ <=? _)%Z; [done|]. injection H as <-. done.
  - destruct body; simpl in H; injection H as <- <-; simpl; lia.
  - rewrite length_app in *. simpl in *. lia.
  - lia.
  - lia.
Qed.

(** At most [k] handlers are past the check in every state of the run. *)
Inductive bounded_run (k : nat) : metricServer → metricServer → Prop :=
  | br_refl m : bounded_run k m m
  | br_step m1 m2 m3 :
      bounded_run k m1 m2 → server_step m2 m3 → (length (handlers m3) ≤ k)%nat → bounded_run k m1 m3.

Lemma counted_run k m : bounded_run k newMetricServer m → counted m.
Proof.
  intros H. remember newMetricServer as m0 eqn:E. induction H; subst; [done|].
  eapply counted_step; [|eassumption]. auto.
Qed.

(** A handler past the check is counted before it has added: the sum only goes
    over [max] by the handlers that raced. *)
Lemma bounded_count k m :
  bounded_run k newMetricServer m → (1 ≤ k)%nat →
  (count m ≤ max_count + Z.of_nat k - 1)%Z ∧
  (count m + Z.of_nat (length (handlers m)) ≤ max_count + Z.of_nat k - 1)%Z.
Proof.
  intros H Hk. remember newMetricServer as m0 eqn:E.
  induction H as [m|m1 m2 m3 Hr IH Hs Hb]; subst; [unfold max_count; simpl; lia|].
  destruct (IH eq_refl) as [H1 H2].
  destruct Hs as [body m m' H|body c h1 h2 p sn o status m' H| | |]; simpl in *; try lia.
  - unfold handler_check in H. destruct (Z.leb_spec max_count (count m)); [done|].
    injection H as <-. simpl in *. lia.
  - rewrite length_app in H2. simpl in H2.
    destruct body; simpl in H; injection H as <- <-; simpl in *; rewrite length_app in *; lia.
Qed.


Definition one_metric : metricValue := MkMetricValue (float32_of_int 1) "cpu".
Definition server_two : metricServer := MkMetricServer 0 [NotJSON; Decoded one_metric] [] 0 None.


(** ** The profile manager (manager.go) *)

(** Where the goroutine of [run] is: in the [select], or blocked on a send or
    in [metricServer.Shutdown], or returned. *)
Inductive manager_pc :=
  | Selecting
  | SendingInput (v : GOption (gmap string DeviceProfile))
  | SendingEvaluate
  | SendingOutput (r : list ProfileEvaluationResult)
  | ShuttingDown
  | Returned.

(** [server]: the metric server, with [true] while its goroutine waits on
    [doneCh].  [input] and [evaluate] are the channels of capacity 1 of [run],
    [OutputCh] the one of the manager. *)
Record Manager := MkManager {
  mpc : manager_pc;
  evaluators : list profileEvaluator;
  server : option bool;
  metricChannel : bool;
  metrics : variables;
  input : option (GOption (gmap string DeviceProfile));
  evaluate : bool;
  OutputCh : option (list ProfileEvaluationResult)
}.

Definition newManager : Manager := MkManager Selecting [] None false ∅ None false None.

Definition goto (p : manager_pc) (m : Manager) : Manager :=
  MkManager p (evaluators m) (server m) (metricChannel m) (metrics m) (input m) (evaluate m) (OutputCh m).

(** [m.metrics[metric.Name] = metric.Value] *)
Definition record_metric (v : metricValue) (m : Manager) : Manager :=
  MkManager (mpc m) (evaluators m) (server m) (metricChannel m)
    (<[MV_Name v := DFloat32 (MV_Value v)]> (metrics m)) (input m) (evaluate m) (OutputCh m).

(** The case of the [select] that receives from [input]. *)
Definition handle_input (order : list (string * DeviceProfile))
    (opt : GOption (gmap string DeviceProfile)) (m : Manager) : Manager :=
  let m := MkManager Selecting (evaluators m) (server m) (metricChannel m) (metrics m) None (evaluate m) (OutputCh m) in
  if None_ opt then
    match server m with
    | Some _ => goto ShuttingDown m
    | None => m
    end
  else
    MkManager SendingEvaluate (SetProfiles order)
      (match server m with None => Some true | s => s end)
      (match server m with None => true | _ => metricChannel m end)
      (metrics m) (input m) (evaluate m) (OutputCh m).

(** The case that receives from [evaluate]. *)
Definition handle_evaluate (m : Manager) : Manager :=
  let m := MkManager Selecting (evaluators m) (server m) (metricChannel m) (metrics m) (input m) false (OutputCh m) in
  let opt := Evaluate_profiles (evaluators m) (metrics m) in
  if None_ opt then m else goto (SendingOutput (Value opt)) m.

(** The case that receives a message. *)
Definition handle_message {T} (msg : Message T) (m : Manager) : Manager :=
  match MKind msg with
  | ProfileConfigurationMessage => goto (SendingInput (assert_profiles (Payload msg))) m
  | WorkloadConfigurationMessage => m
  end.

Section manager.
Context {T : Type}.

Inductive manager_event :=
  | Recv (msg : Message T)
  | TakeInput
  | Metric (v : metricValue)
  | TakeEvaluate
  | CtxDone
  (** a blocked send, or the shutdown of the server, completes *)
  | Resume
  (** the scheduler receives from [OutputCh] *)
  | Consume.

Inductive manager_step : Manager → manager_event → Manager → Prop :=
  | ms_recv m msg :
      mpc m = Selecting → manager_step m (Recv msg) (handle_message msg m)
  | ms_input m opt order :
      mpc m = Selecting → input m = Some opt → order ≡ₚ map_to_list (Value opt) →
      manager_step m TakeInput (handle_input order opt m)
  | ms_metric m v :
      mpc m = Selecting → metricChannel m = true →
      manager_step m (Metric v) (goto SendingEvaluate (record_metric v m))
  | ms_evaluate m :
      mpc m = Selecting → evaluate m = true → manager_step m TakeEvaluate (handle_evaluate m)
  | ms_done m :
      mpc m = Selecting → manager_step m CtxDone (goto Returned m)
  | ms_send_input m v :
      mpc m = SendingInput v → input m = None →
      manager_step m Resume
        (MkManager Selecting (evaluators m) (server m) (metricChannel m) (metrics m) (Some v) (evaluate m) (OutputCh m))
  | ms_send_evaluate m :
      mpc m = SendingEvaluate → evaluate m = false →
      manager_step m Resume
        (MkManager Selecting (evaluators m) (server m) (metricChannel m) (metrics m) (input m) true (OutputCh m))
  | ms_send_output m r :
      mpc m = SendingOutput r → OutputCh m = None →
      manager_step m Resume
        (MkManager Selecting (evaluators m) (server m) (metricChannel m) (metrics m) (input m) (evaluate m) (Some r))
  (** [m.doneCh <- struct{}{}] needs the goroutine of [newMetricServer] *)
  | ms_shutdown m :
      mpc m = ShuttingDown → server m = Some true →
      manager_step m Resume
        (MkManager Selecting (evaluators m) (Some false) false (metrics m) (input m) (evaluate m) (OutputCh m))
  | ms_consume m r :
      OutputCh m = Some r →
      manager_step m Consume
        (MkManager (mpc m) (evaluators m) (server m) (metricChannel m) (metrics m) (input m) (evaluate m) None).

(** Executions, with their events. *)
Inductive manager_run : Manager → list manager_event → Manager → Prop :=
  | mr_nil m : manager_run m [] m
  | mr_snoc m1 es m2 e m3 :
      manager_run m1 es m2 → manager_step m2 e m3 → manager_run m1 (es ++ [e]) m3.

Lemma run_inv (I : Manager → Prop) m es m' :
  (∀ m e m', I m → manager_step m e m' → I m') → I m → manager_run m es m' → I m'.
Proof. intros HI Hm Hr. induction Hr; eauto. Qed.

(** ** States the goroutine never leaves *)
Definition stuck (m : Manager) : Prop :=
  match mpc m with
  | SendingInput _ => input m ≠ None
  | SendingEvaluate => evaluate m = true
  | ShuttingDown => server m ≠ Some true
  | Returned => True
  | Selecting | SendingOutput _ => False
  end.

Lemma stuck_step m e m' :
  stuck m → manager_step m e m' → stuck m' ∧ mpc m' = mpc m ∧ e = Consume.
Proof.
  unfold stuck. intros Hd Hs. destruct Hs as
    [? ? E|? ? ? E|? ? E|? E|? E|? ? E ?|? E ?|? ? E|? E ?|? ? E]; try rewrite E in *; try done;
    try congruence.
Qed.

(** A blocked goroutine that is not stuck only waits for the scheduler, or
    can resume at once. *)
Lemma not_stuck_resumes m :
  mpc m ≠ Selecting → ¬ stuck m →
  (∃ m', manager_step m Resume m') ∨ (∃ r r', mpc m = SendingOutput r ∧ OutputCh m = Some r').
Proof.
  unfold stuck. intros Hp Hs. destruct (mpc m) as [|v| |r| |] eqn:E; try done.
  - left. eexists. eapply ms_send_input; [done|]. destruct (input m); [|done]. by destruct Hs.
  - left. eexists. apply ms_send_evaluate; [done|]. by destruct (evaluate m).
  - destruct (OutputCh m) as [r'|] eqn:Eo; [right; eauto|].
    left. eexists. by eapply ms_send_output.
  - left. eexists. apply ms_shutdown; [done|].
    destruct (server m) as [[]|]; [done| |]; exfalso; by apply Hs.
Qed.

(** a goroutine blocked on a channel that only it receives from stays
    blocked for ever: it handles no message, no metric and not even the end
    of its context. *)
Theorem manager_stuck_forever m es m' :
  stuck m → manager_run m es m' → mpc m' = mpc m ∧ Forall (λ e, e = Consume) es.
Proof.
  intros Hd Hr. assert (stuck m' ∧ mpc m' = mpc m ∧ Forall (λ e, e = Consume) es); [|tauto].
  induction Hr as [|m1 es m2 e m3 Hr IH Hs]; [done|].
  destruct (IH Hd) as (Hd2 & Hp & Hf).
  destruct (stuck_step _ _ _ Hd2 Hs) as (Hd3 & Hp3 & ->). split; [done|]. split; [congruence|].
  apply Forall_app. split; [done|]. by repeat constructor.
Qed.

(** ** The metrics and the results sent *)

(** The metrics the manager has accepted, the last value of each name winning. *)
Definition accepted (es : list manager_event) : variables :=
  foldl (λ ms e, match e with Metric v => <[MV_Name v := DFloat32 (MV_Value v)]> ms | _ => ms end) ∅ es.

Lemma step_metrics m e m' :
  manager_step m e m' →
  metrics m' = match e with Metric v => <[MV_Name v := DFloat32 (MV_Value v)]> (metrics m) | _ => metrics m end.
Proof.
  destruct 1; simpl; try done.
  - unfold handle_message. by destruct (MKind msg).
  - unfold handle_input. simpl. repeat case_match; done.
  - unfold handle_evaluate. simpl. by case_match.
Qed.

Lemma run_metrics es m : manager_run newManager es m → metrics m = accepted es.
Proof.
  intros Hr. remember newManager as m0 eqn:E. induction Hr as [|m1 es m2 e m3 Hr IH Hs]; subst; [done|].
  rewrite (step_metrics _ _ _ Hs), IH by done. unfold accepted. by rewrite foldl_app.
Qed.

(** ** The profiles evaluated *)
Definition from_msg (es : list manager_event) (v : GOption (gmap string DeviceProfile)) : Prop :=
  ∃ msg, Recv msg ∈ es ∧ MKind msg = ProfileConfigurationMessage ∧ v = assert_profiles (Payload msg).

Definition configured (es : list manager_event) (evs : list profileEvaluator) : Prop :=
  evs = [] ∨ ∃ v order, from_msg es v ∧ None_ v = false ∧ order ≡ₚ map_to_list (Value v) ∧ evs = SetProfiles order.

(** The evaluation of the profiles of a received message on the metrics
    accepted at some moment. *)
Definition results_of (es : list manager_event) (r : list ProfileEvaluationResult) : Prop :=
  r ≠ [] ∧ ∃ es1 es2 evs, es = es1 ++ es2 ∧ configured es1 evs ∧
    r = map (λ e, evaluate_profile e (accepted es1)) evs.

Lemma from_msg_app es es' v : from_msg es v → from_msg (es ++ es') v.
Proof. intros (msg & H & ?). exists msg. rewrite elem_of_app. auto. Qed.

Lemma configured_app es es' evs : configured es evs → configured (es ++ es') evs.
Proof.
  intros [->|(v & order & H & ?)]; [by left|]. right. exists v, order. split; [|done].
  by apply from_msg_app.
Qed.

Lemma results_of_app es es' r : results_of es r → results_of (es ++ es') r.
Proof.
  intros (? & es1 & es2 & evs & -> & H). split; [done|].
  exists es1, (es2 ++ es'), evs. by rewrite <-app_assoc.
Qed.

(** What a state holds comes from the events before it. *)
Record explained (es : list manager_event) (m : Manager) : Prop := {
  ex_sending : ∀ v, mpc m = SendingInput v → from_msg es v;
  ex_input : ∀ v, input m = Some v → from_msg es v;
  ex_evaluators : configured es (evaluators m);
  ex_output : ∀ r, mpc m = SendingOutput r → results_of es r;
  ex_sent : ∀ r, OutputCh m = Some r → results_of es r
}.

Lemma explained_app es es' m : explained es m → explained (es ++ es') m.
Proof.
  intros [H1 H2 H3 H4 H5].
  split; eauto using from_msg_app, configured_app, results_of_app.
Qed.

(** Back to the [select] with less in the buffers. *)
Lemma explained_select es m m' :
  explained es m →
  mpc m' = Selecting ∨ mpc m' = SendingEvaluate ∨ mpc m' = ShuttingDown ∨ mpc m' = Returned ∨ mpc m' = mpc m →
  evaluators m' = evaluators m →
  input m' = input m ∨ input m' = None → OutputCh m' = OutputCh m ∨ OutputCh m' = None →
  explained es m'.
Proof.
  intros [H1 H2 H3 H4 H5] Hp He Hi Ho. split.
  - intros v Hv. rewrite Hv in Hp. destruct Hp as [?|[?|[?|[?|Hp]]]]; try done. by apply H1.
  - intros v Hv. destruct Hi as [E|E]; rewrite E in Hv; [by apply H2 | done].
  - by rewrite He.
  - intros r Hr. rewrite Hr in Hp. destruct Hp as [?|[?|[?|[?|Hp]]]]; try done. by apply H4.
  - intros r Hr. destruct Ho as [E|E]; rewrite E in Hr; [by apply H5 | done].
Qed.

Lemma explained_input es m order opt :
  explained es m → input m = Some opt → order ≡ₚ map_to_list (Value opt) →
  explained es (handle_input order opt m).
Proof.
  intros Hx Hi Ho. unfold handle_input. destruct (None_ opt) eqn:En.
  - destruct (server m); (eapply explained_select; [exact Hx| ..]; simpl; tauto).
  - destruct Hx as [H1 H2 H3 H4 H5]. split; simpl; try done.
    right. exists opt, order. split; [by apply H2 | done].
Qed.

Lemma explained_evaluate es m :
  explained es m → metrics m = accepted es → mpc m = Selecting →
  explained (es ++ [TakeEvaluate]) (handle_evaluate m).
Proof.
  intros Hx Hm Hp. unfold handle_evaluate. case_match eqn:En.
  - apply (explained_app _ [TakeEvaluate]) in Hx.
    eapply explained_select; [exact Hx| ..]; simpl; tauto.
  - apply (explained_app _ [TakeEvaluate]) in Hx as Hx'. destruct Hx' as [H1 H2 H3 H4 H5].
    split; simpl; try done. intros r [= <-]. cbn [None_ Evaluate_profiles] in En.
    apply bool_decide_eq_false in En. cbn [evaluators metrics] in *. split.
    + intros Hr. by rewrite Hr in En.
    + exists es, [TakeEvaluate], (evaluators m). rewrite Hm. split; [done|].
      split; [apply Hx | done].
Qed.

Lemma run_explained es m : manager_run newManager es m → explained es m.
Proof.
  intros Hr. remember newManager as m0 eqn:E.
  induction Hr as [|m1 es m2 e m3 Hr IH Hs]; subst; [split; try done; by left|].
  pose proof (run_metrics _ _ Hr) as Hm. specialize (IH eq_refl).
  apply (explained_app _ [e]) in IH as Hx.
  destruct Hs as [m msg Hp|m opt order Hp Hi Ho|m v Hp Hc|m Hp He|m Hp|m v Hp Hi|m Hp He|m r Hp Ho|m Hp Hs|m r Ho].
  - unfold handle_message. destruct (MKind msg) eqn:Ek; [done|].
    destruct Hx as [H1 H2 H3 H4 H5]. split; simpl; try done. intros v [= <-].
    exists msg. rewrite elem_of_app. split; [right; left | done].
  - by apply explained_input.
  - eapply explained_select; [exact Hx| ..]; simpl; tauto.
  - by apply explained_evaluate.
  - eapply explained_select; [exact Hx| ..]; simpl; tauto.
  - destruct Hx as [H1 H2 H3 H4 H5]. split; simpl; try done. intros v' [= <-]. by apply H1.
  - eapply explained_select; [exact Hx| ..]; simpl; tauto.
  - destruct Hx as [H1 H2 H3 H4 H5]. split; simpl; try done. intros v' [= <-]. by apply H4.
  - eapply explained_select; [exact Hx| ..]; simpl; tauto.
  - eapply explained_select; [exact Hx| ..]; simpl; tauto.
Qed.

(** C24: the manager keeps, for every metric name, the last value received;
    and every list of results it sends is not empty and is the evaluation, on
    the metrics it had received at some earlier moment, of all the profiles of
    a configuration message received before. *)
Theorem manager_outputs es m :
  manager_run newManager es m →
  metrics m = accepted es ∧ ∀ r, OutputCh m = Some r → results_of es r.
Proof. intros Hr. split; [by apply run_metrics | by apply run_explained]. Qed.

(** ** The metric channel after a shutdown of the server *)
Definition deaf (m : Manager) : Prop := server m = Some false ∧ metricChannel m = false.

Lemma deaf_step m e m' :
  deaf m → manager_step m e m' → deaf m' ∧ (∀ v, e ≠ Metric v).
Proof.
  unfold deaf. intros [Hs Hc] Hst. destruct Hst; simpl in *; try (split; [done|]; intros; discriminate); try congruence.
  - unfold handle_message. destruct (MKind msg); simpl; done.
  - unfold handle_input. simpl. rewrite Hs. destruct (None_ opt); simpl; done.
  - unfold handle_evaluate. simpl. destruct (bool_decide _); simpl; done.
Qed.

(** once the profiles have been removed and the metric server shut down,
    no metric is ever received again, whatever profiles are configured later:
    the metrics stay as they were. *)
Theorem metrics_lost_after_shutdown m es m' :
  deaf m → manager_run m es m' → metrics m' = metrics m ∧ ∀ v, Metric v ∉ es.
Proof.
  intros Hd Hr. assert (deaf m' ∧ metrics m' = metrics m ∧ ∀ v, Metric v ∉ es); [|tauto].
  induction Hr as [m|m1 es m2 e m3 Hr IH Hs]; [split; [done|]; split; [done|]; intros v; apply not_elem_of_nil|].
  destruct (IH Hd) as (Hd2 & Hm & Hes). destruct (deaf_step _ _ _ Hd2 Hs) as [Hd3 He].
  split; [done|]. split.
  - rewrite (step_metrics _ _ _ Hs). destruct e; try done. by destruct (He v).
  - intros v. rewrite elem_of_app. intros [H|H]; [by destruct (Hes v)|].
    apply list_elem_of_singleton in H. by destruct (He v).
Qed.

(** ** The shutdown of the manager

    [Shutdown] runs in the goroutine of its caller. *)
Inductive shutdown_result :=
  | ShutdownReturns
  (** sending on [doneCh], which nothing receives from any more *)
  | ShutdownBlocks
  (** a call of the nil function *)
  | ShutdownPanics.

(** The field [cancelFunc] of a new manager; no statement of the package
    assigns it. *)
Definition new_cancelFunc : option unit := None.

(** [Shutdown]: the server's, when there is one, then [m.cancelFunc()]. *)
Definition Shutdown (cancelFunc : option unit) (m : Manager) : shutdown_result :=
  match server m with
  | Some false => ShutdownBlocks
  | _ => match cancelFunc with None => ShutdownPanics | Some _ => ShutdownReturns end
  end.

(** shutting the manager down never returns, in any execution: it blocks when
    the server has been shut down before, because the profiles were removed, and
    otherwise calls a function that is nil. *)
Theorem shutdown_never_returns es m :
  manager_run newManager es m →
  Shutdown new_cancelFunc m = (if bool_decide (server m = Some false) then ShutdownBlocks else ShutdownPanics).
Proof. intros _. unfold Shutdown, new_cancelFunc. by destruct (server m) as [[]|]. Qed.

(** ** Reaching the stuck states *)
Definition profiles_msg (ps : gmap string DeviceProfile) : Message T :=
  MkMessage ProfileConfigurationMessage (PProfiles (MkOption ps false)).
Definition no_profiles_msg : Message T :=
  MkMessage ProfileConfigurationMessage (PProfiles (MkOption ∅ true)).

(** After [profiles_msg ps] has been handled: the server runs and an
    evaluation is due. *)
Definition serving (ps : gmap string DeviceProfile) (ev : bool) : Manager :=
  MkManager Selecting (SetProfiles (map_to_list ps)) (Some true) true ∅ None ev None.

(** A message in the buffer of [input]. *)
Definition queued (ps : gmap string DeviceProfile) (sv : option bool) : Manager :=
  MkManager Selecting [] sv false ∅ (Some (MkOption ps false)) false None.

Lemma reach_serving ps : manager_run newManager [Recv (profiles_msg ps); Resume; TakeInput; Resume] (serving ps true).
Proof.
  apply (mr_snoc _ [Recv (profiles_msg ps); Resume; TakeInput] (goto SendingEvaluate (serving ps false))).
  - apply (mr_snoc _ [Recv (profiles_msg ps); Resume]
      (queued ps None)).
    + apply (mr_snoc _ [Recv (profiles_msg ps)] (goto (SendingInput (MkOption ps false)) newManager)).
      * apply (mr_snoc _ [] newManager); [constructor | by apply (ms_recv newManager (profiles_msg ps))].
      * by apply (ms_send_input (goto (SendingInput (MkOption ps false)) newManager)).
    + by apply (ms_input (queued ps None) (MkOption ps false) (map_to_list ps)).
  - by apply (ms_send_evaluate (goto SendingEvaluate (serving ps false))).
Qed.

(** the manager can block for ever on its own channel: after one profile
    message, a metric that arrives before the pending evaluation is handled
    leaves it sending on the full channel [evaluate]. *)
Theorem manager_deadlocks ps v :
  ∃ m, manager_run newManager [Recv (profiles_msg ps); Resume; TakeInput; Resume; Metric v] m ∧
       mpc m = SendingEvaluate ∧ stuck m.
Proof.
  exists (goto SendingEvaluate (record_metric v (serving ps true))). split; [|done].
  eapply (mr_snoc _ [Recv (profiles_msg ps); Resume; TakeInput; Resume]); [apply reach_serving|].
  by apply ms_metric.
Qed.
End manager.
Arguments manager_event : clear implicits.

(** ** Witnesses *)
Definition blocked_manager : Manager :=
  goto SendingEvaluate (record_metric one_metric (serving ∅ true)).

Lemma manager_stuck_forever_witness :
  mpc blocked_manager = mpc blocked_manager ∧ Forall (λ e, e = Consume) ([] : list (manager_event nat)).
Proof. apply (manager_stuck_forever blocked_manager [] blocked_manager); constructor. Defined.

Lemma manager_outputs_witness :
  metrics (serving ∅ true) = accepted [Recv (profiles_msg (T := nat) ∅); Resume; TakeInput; Resume] ∧
  ∀ r, OutputCh (serving ∅ true) = Some r →
    results_of [Recv (profiles_msg (T := nat) ∅); Resume; TakeInput; Resume] r.
Proof. apply manager_outputs. apply reach_serving. Defined.

Definition deaf_manager : Manager := MkManager Selecting [] (Some false) false ∅ None false None.

Lemma metrics_lost_after_shutdown_witness :
  metrics (goto SendingEvaluate (MkManager Selecting [] (Some false) false ∅ None false None)) = ∅ ∧
  ∀ v, Metric v ∉ [Recv (profiles_msg (T := nat) ∅); Resume; TakeInput].
Proof.
  apply (metrics_lost_after_shutdown deaf_manager); [done|].
  apply (mr_snoc _ [Recv (profiles_msg ∅); Resume]
    (queued ∅ (Some false))).
  - apply (mr_snoc _ [Recv (profiles_msg ∅)] (goto (SendingInput (MkOption ∅ false)) deaf_manager)).
    + apply (mr_snoc _ [] deaf_manager); [constructor | by apply (ms_recv deaf_manager (profiles_msg ∅))].
    + by apply (ms_send_input (goto (SendingInput (MkOption ∅ false)) deaf_manager)).
  - by apply (ms_input (queued ∅ (Some false)) (MkOption ∅ false) []).
Defined.

Lemma shutdown_never_returns_witness : Shutdown new_cancelFunc (serving ∅ true) = ShutdownPanics.
Proof.
  apply (shutdown_never_returns [Recv (profiles_msg (T := nat) ∅); Resume; TakeInput; Resume]).
  apply reach_serving.
Defined.
