(* ===== verification/Evaluate.v ===== *)
(** * Evaluation of a job

    [evaluate] of [internal/scheduler/scheduler.go]: from the profiles of a
    workload and the latest results of the device profiles to the activity of
    the job and its CPU limit.  The elements of [resultsMap] are pointers;
    nothing else refers to them, so marking one is an update of the map.  The
    last loop ranges over the map, in the order [order]. *)
From Stdlib Require Import Strings.String Sorting.Permutation.
From S2P Require Import Prelude GoStd Interpreter Entity Interfaces Profile.
Local Open Scope Z_scope.

Record evaluationResult := MkEvaluationResult { Active : bool; Resource : GOption CpuResource }.

Definition no_resource : GOption CpuResource := MkOption CpuResource_zero true.

(** A [Tuple[string, evaluationResult]]. *)
Definition entry : Type := Tuple string evaluationResult.

(** [conditionEv], the entry of a condition before the evaluation. *)
Definition conditionEv (c : WorkloadCondition) : entry :=
  MkTuple (WC_Name c)
    (MkEvaluationResult false
       (match CPU c with
        | Some p => MkOption (MkTuple (to_uint64 (deref p)) 100000) false
        | None => no_resource
        end)).

(** The loop that fills [resultsMap]: a later profile with the same name
    replaces an earlier one. *)
Definition initial_map (profiles : list WorkloadProfile) : gmap string (list entry) :=
  foldl (λ m p, <[WP_Name p := map conditionEv (WP_Conditions p)]> m) ∅ profiles.

Definition set_active (e : entry) : entry :=
  MkTuple (Value1 e) (MkEvaluationResult true (Resource (Value2 e))).

(** [findFn] followed by [er.Value2.Active = true]: the first entry with the
    name, or an entry that is thrown away. *)
Fixpoint mark (name : string) (l : list entry) : list entry :=
  match l with
  | [] => []
  | e :: l' => if bool_decide (Value1 e = name) then set_active e :: l' else e :: mark name l'
  end.

(** The inner loop over the conditions of one result.  [profileResults] is read
    once from the map; its elements are shared with it. *)
Definition mark_all (crs : list ConditionResult) (l : list entry) : list entry :=
  foldl (λ l c, match CR_Error c with
                | Some _ => l
                | None => if CR_Value c then mark (CR_Name c) l else l
                end) l crs.

Definition apply_results (results : list ProfileEvaluationResult) (m : gmap string (list entry))
    : gmap string (list entry) :=
  foldl (λ m r, alter (mark_all (ConditionsResults r)) (PER_Name r) m) m results.

(** The state of the last loop: [foundActive], [resource], [minCpu]. *)
Definition visit_entry (st : bool * GOption CpuResource * Z) (e : entry) : bool * GOption CpuResource * Z :=
  let '(_, resource, minCpu) := st in
  let er := Value2 e in
  if Active er then
    if None_ (Resource er) then (true, resource, minCpu)
    else if (Value1 (Value (Resource er)) <=? to_uint64 minCpu)
    then (true, Resource er, to_int64 (Value1 (Value (Resource er))))
    else (true, resource, minCpu)
  else st.

Definition visit_profile (st : Z * GOption CpuResource * Z) (kv : string * list entry)
    : Z * GOption CpuResource * Z :=
  let '(sum, resource, minCpu) := st in
  let '(foundActive, resource, minCpu) := foldl visit_entry (false, resource, minCpu) kv.2 in
  ((if foundActive : bool then sum + 1 else sum), resource, minCpu).

(** The evaluation when the range over the map follows [order]. *)
Definition summarise (order : list (string * list entry)) (results : list ProfileEvaluationResult)
    : evaluationResult :=
  let '(sum, resource, _) := foldl visit_profile (0, no_resource, 100000) order in
  MkEvaluationResult (Z.of_nat (length results) <=? sum) resource.

Definition evaluate {W} `{MapOrder W} (profiles : list WorkloadProfile)
    (results : list ProfileEvaluationResult) : M W evaluationResult :=
  if bool_decide (length profiles = 0)%nat || bool_decide (length results = 0)%nat
  then mret (MkEvaluationResult true no_resource)
  else
    order ← range_map (apply_results results (initial_map profiles));
    mret (summarise order results).

(** ** The specification *)

(** A result reports the condition true without an error. *)
Definition reports_true (c : string) (cr : ConditionResult) : bool :=
  bool_decide (CR_Name cr = c) && bool_decide (CR_Error cr = None) && CR_Value cr.

(** Some result of the profile reports the condition true. *)
Definition satisfied (results : list ProfileEvaluationResult) (profile condition : string) : bool :=
  existsb (λ r, bool_decide (PER_Name r = profile) && existsb (reports_true condition) (ConditionsResults r)) results.

(** A profile of the workload is active when one of its conditions holds. *)
Definition profile_active (results : list ProfileEvaluationResult) (p : WorkloadProfile) : bool :=
  existsb (λ c, satisfied results (WP_Name p) (WC_Name c)) (WP_Conditions p).

(** The CPU limits, as unsigned integers, of the conditions that hold. *)
Definition limits (results : list ProfileEvaluationResult) (p : WorkloadProfile) : list Z :=
  omap (λ c, if satisfied results (WP_Name p) (WC_Name c) then (λ q, to_uint64 (deref q)) <$> CPU c else None)
    (WP_Conditions p).

Definition all_limits results (profiles : list WorkloadProfile) : list Z :=
  concat (map (limits results) profiles).

Definition active_profiles results (profiles : list WorkloadProfile) : nat :=
  length (filter (λ p, profile_active results p = true) profiles).

(** The smallest limit, none above a whole CPU. *)
Definition smallest (l : list Z) : GOption CpuResource :=
  let m := foldr Z.min 100000 l in
  if existsb (λ c, c <=? 100000) l then MkOption (MkTuple m 100000) false else no_resource.

(** Profiles and the conditions of a profile have distinct names. *)
Definition distinct_names (profiles : list WorkloadProfile) : Prop :=
  NoDup (map WP_Name profiles) ∧ Forall (λ p, NoDup (map WC_Name (WP_Conditions p))) profiles.

(** ** The entries after the results have been applied *)

(** The entries of conditions [cs] when those of [f] are active. *)
Definition with_active (a : bool) (e : entry) : entry :=
  MkTuple (Value1 e) (MkEvaluationResult a (Resource (Value2 e))).
Definition flags (f : string → bool) (cs : list WorkloadCondition) : list entry :=
  map (λ c, with_active (f (WC_Name c)) (conditionEv c)) cs.

Lemma flags_ext f g cs :
  (∀ c, c ∈ cs → f (WC_Name c) = g (WC_Name c)) → flags f cs = flags g cs.
Proof.
  intros H. apply map_ext_in. intros c Hc%list_elem_of_In. by rewrite (H c Hc).
Qed.

Lemma mark_flags n f cs :
  NoDup (map WC_Name cs) → mark n (flags f cs) = flags (λ x, f x || bool_decide (x = n)) cs.
Proof.
  induction cs as [|c cs IH]; [done|]. simpl. intros [Hc Hcs]%list.NoDup_cons.
  case_bool_decide as E.
  - rewrite orb_true_r. f_equal. apply flags_ext. intros c' Hc'.
    rewrite bool_decide_eq_false_2; [by rewrite orb_false_r|].
    intros E'. apply Hc. rewrite E, <-E'. by apply (list_elem_of_fmap_2 WC_Name).
  - rewrite orb_false_r. f_equal. by apply IH.
Qed.

Lemma mark_all_flags crs f cs :
  NoDup (map WC_Name cs) →
  mark_all crs (flags f cs) = flags (λ x, f x || existsb (reports_true x) crs) cs.
Proof.
  intros Hd. unfold mark_all. revert f. induction crs as [|cr crs IH]; intros f; simpl.
  - apply flags_ext. intros. by rewrite orb_false_r.
  - assert (match CR_Error cr with
            | Some _ => flags f cs
            | None => if CR_Value cr then mark (CR_Name cr) (flags f cs) else flags f cs
            end = flags (λ x, f x || reports_true x cr) cs) as ->.
    { unfold reports_true. destruct (CR_Error cr); [|destruct (CR_Value cr)].
      - apply flags_ext. intros. by rewrite (bool_decide_eq_false_2 (Some _ = None)), andb_false_r, orb_false_r.
      - rewrite mark_flags by done. apply flags_ext. intros c _. rewrite !andb_true_r. f_equal.
        apply bool_decide_ext. split; done.
      - apply flags_ext. intros. by rewrite andb_false_r, orb_false_r. }
    rewrite IH. apply flags_ext. intros. by rewrite orb_assoc.
Qed.

(** The map with the given activities. *)
Definition flagged (f : string → string → bool) (ps : list WorkloadProfile) : list (string * list entry) :=
  map (λ p, (WP_Name p, flags (f (WP_Name p)) (WP_Conditions p))) ps.

Lemma initial_map_flagged ps :
  NoDup (map WP_Name ps) → initial_map ps = list_to_map (flagged (λ _ _, false) ps).
Proof.
  intros Hd. unfold initial_map. rewrite <-(map_union_empty (list_to_map _)).
  generalize (∅ : gmap string (list entry)) as acc.
  induction ps as [|p ps IH]; intros acc; simpl; [by rewrite map_empty_union|].
  apply list.NoDup_cons in Hd as [Hp Hd]. rewrite (IH Hd), <-insert_union_l, insert_union_r.
  - by f_equal.
  - apply not_elem_of_list_to_map_1. unfold flagged. rewrite <-list_fmap_compose. exact Hp.
Qed.

Lemma alter_flagged k crs f ps :
  Forall (λ p, NoDup (map WC_Name (WP_Conditions p))) ps →
  alter (mark_all crs) k (list_to_map (flagged f ps) : gmap string (list entry)) =
  list_to_map (flagged (λ p x, f p x || (bool_decide (k = p) && existsb (reports_true x) crs)) ps).
Proof.
  induction 1 as [|p ps Hp _ IH]; simpl; [apply alter_id; by intros ? ?|].
  destruct (decide (k = WP_Name p)) as [->|Hk].
  - rewrite alter_insert_eq, mark_all_flags, <-IH, insert_alter_eq by done.
    f_equal. apply flags_ext. intros. by rewrite bool_decide_eq_true_2.
  - rewrite alter_insert_ne, IH by done. f_equal. apply flags_ext. intros.
    by rewrite bool_decide_eq_false_2, orb_false_r.
Qed.

Lemma apply_results_flagged results f ps :
  Forall (λ p, NoDup (map WC_Name (WP_Conditions p))) ps →
  apply_results results (list_to_map (flagged f ps)) =
  list_to_map (flagged (λ p x, f p x || satisfied results p x) ps).
Proof.
  intros Hd. unfold apply_results. revert f. induction results as [|r results IH]; intros f; simpl.
  - f_equal. apply map_ext. intros p. f_equal. apply flags_ext. intros. by rewrite orb_false_r.
  - rewrite alter_flagged, IH by done. f_equal. apply map_ext. intros p. f_equal.
    apply flags_ext. intros. by rewrite orb_assoc.
Qed.

Lemma results_map_order results profiles order :
  distinct_names profiles →
  order ≡ₚ map_to_list (apply_results results (initial_map profiles)) →
  order ≡ₚ flagged (satisfied results) profiles.
Proof.
  intros [Hn Hc] ->. rewrite initial_map_flagged, apply_results_flagged by done.
  apply map_to_list_to_map. unfold flagged. by rewrite <-list_fmap_compose.
Qed.

(** ** The last loop *)

(** The limits of active entries. *)
Definition entry_limit (e : entry) : option Z :=
  if Active (Value2 e) && negb (None_ (Resource (Value2 e)))
  then Some (Value1 (Value (Resource (Value2 e)))) else None.
Definition any_active (l : list entry) : bool := existsb (λ e, Active (Value2 e)) l.
Definition order_limits (order : list (string * list entry)) : list Z :=
  concat (map (λ kv, omap entry_limit kv.2) order).

(** Entries made by [conditionEv]: the period is fixed, the limit unsigned. *)
Definition entry_ok (e : entry) : Prop :=
  None_ (Resource (Value2 e)) = false →
  Value2 (Value (Resource (Value2 e))) = 100000 ∧ 0 <= Value1 (Value (Resource (Value2 e))).

Lemma smallest_snoc l c :
  smallest (l ++ [c]) =
    if c <=? foldr Z.min 100000 l then MkOption (MkTuple c 100000) false else smallest l.
Proof.
  unfold smallest. rewrite existsb_app. simpl. rewrite orb_false_r.
  assert (foldr Z.min 100000 (l ++ [c]) = Z.min c (foldr Z.min 100000 l)) as ->
    by (induction l as [|x l IH]; simpl; lia).
  assert (foldr Z.min 100000 l ≤ 100000) by (induction l; simpl; lia).
  destruct (Z.leb_spec c (foldr Z.min 100000 l)).
  - rewrite (proj2 (Z.leb_le c 100000)), orb_true_r by lia. by rewrite Z.min_l by lia.
  - rewrite (Z.min_r c) by lia. destruct (existsb _ l) eqn:E; [done|]. simpl.
    destruct (Z.leb_spec c 100000); [|done]. exfalso.
    assert (foldr Z.min 100000 l = 100000); [|lia]. clear -E.
    induction l as [|x l IH]; [done|]. simpl in *. apply orb_false_iff in E as [Hx E].
    apply Z.leb_gt in Hx. rewrite IH by done. lia.
Qed.

(** The state of the loops after entries with limits [ls]. *)
Definition loop_state (ls : list Z) (resource : GOption CpuResource) (minCpu : Z) : Prop :=
  resource = smallest ls ∧ minCpu = foldr Z.min 100000 ls ∧ Forall (λ c, 0 <= c) ls.

Lemma loop_state_bounds ls resource minCpu : loop_state ls resource minCpu → 0 <= minCpu <= 100000.
Proof. intros (_ & -> & H). induction H; simpl; lia. Qed.

Lemma visit_entry_spec ls resource minCpu a e :
  loop_state ls resource minCpu → entry_ok e →
  let '(a', resource', minCpu') := visit_entry (a, resource, minCpu) e in
  a' = a || Active (Value2 e) ∧
  loop_state (ls ++ match entry_limit e with Some c => [c] | None => [] end) resource' minCpu'.
Proof.
  intros Hl He. pose proof (loop_state_bounds _ _ _ Hl) as Hb. destruct Hl as (Hr & Hm & Hf).
  unfold visit_entry, entry_limit. destruct (Active (Value2 e)); simpl.
  2: { rewrite orb_false_r, app_nil_r. done. }
  rewrite orb_true_r. destruct (None_ (Resource (Value2 e))) eqn:En; simpl; [by rewrite app_nil_r|].
  destruct (He En) as [H2 H1].
  assert (to_uint64 minCpu = minCpu) as -> by (unfold to_uint64; rewrite Z.mod_small; lia).
  set (c := Value1 (Value (Resource (Value2 e)))) in *.
  assert (Forall (λ c, 0 <= c) (ls ++ [c])) as Hf' by (apply Forall_app; split; [done|by repeat constructor]).
  assert (foldr Z.min 100000 (ls ++ [c]) = Z.min c minCpu) as Hmin.
  { rewrite Hm. clear. induction ls as [|x l IH]; simpl; lia. }
  unfold loop_state. rewrite smallest_snoc, Hmin, <-Hm.
  destruct (Z.leb_spec c minCpu).
  - split; [done|]. split; [|split; [|done]].
    + destruct (Resource (Value2 e)) as [[v1 v2] none]. simpl in *. by subst.
    + unfold to_int64. rewrite Z.mod_small by lia. lia.
  - split; [done|]. split; [done|]. split; [lia|done].
Qed.

Lemma visit_entries_spec es ls resource minCpu a :
  loop_state ls resource minCpu → Forall entry_ok es →
  let '(a', resource', minCpu') := foldl visit_entry (a, resource, minCpu) es in
  a' = a || any_active es ∧ loop_state (ls ++ omap entry_limit es) resource' minCpu'.
Proof.
  intros Hl He. revert ls resource minCpu a Hl.
  induction He as [|e es Hok He IH]; intros ls resource minCpu a Hl.
  - simpl. by rewrite orb_false_r, app_nil_r.
  - pose proof (visit_entry_spec ls resource minCpu a e Hl Hok) as Hv.
    cbn [foldl]. destruct (visit_entry (a, resource, minCpu) e) as [[a1 r1] m1]. destruct Hv as [-> Hv].
    specialize (IH _ _ _ (a || Active (Value2 e)) Hv).
    destruct (foldl visit_entry _ es) as [[a2 r2] m2]. destruct IH as [-> IH].
    split; [by simpl; rewrite orb_assoc|]. simpl. destruct (entry_limit e); [|by rewrite app_nil_r in IH].
    by rewrite <-app_assoc in IH.
Qed.

Lemma visit_profiles_spec order ls resource minCpu sum :
  loop_state ls resource minCpu → Forall (λ kv, Forall entry_ok kv.2) order →
  let '(sum', resource', minCpu') := foldl visit_profile (sum, resource, minCpu) order in
  sum' = sum + Z.of_nat (length (filter (λ kv, any_active kv.2 = true) order)) ∧
  loop_state (ls ++ order_limits order) resource' minCpu'.
Proof.
  intros Hl He. revert ls resource minCpu sum Hl.
  induction He as [|kv order Hok He IH]; intros ls resource minCpu sum Hl.
  - unfold order_limits. simpl. rewrite app_nil_r. split; [lia|done].
  - pose proof (visit_entries_spec kv.2 ls resource minCpu false Hl Hok) as Hv.
    cbn [foldl]. unfold visit_profile at 2. destruct (foldl visit_entry _ kv.2) as [[a1 r1] m1].
    destruct Hv as [-> Hv]. cbn [orb].
    specialize (IH _ _ _ (if any_active kv.2 then sum + 1 else sum) Hv).
    destruct (foldl visit_profile _ order) as [[s2 r2] m2]. destruct IH as [-> IH].
    rewrite list.filter_cons. split.
    + destruct (any_active kv.2) eqn:E; case_decide; simpl; try done; lia.
    + unfold order_limits in *. simpl. by rewrite app_assoc.
Qed.

Lemma summarise_spec order results :
  Forall (λ kv, Forall entry_ok kv.2) order →
  summarise order results =
    MkEvaluationResult
      (bool_decide (length results <= length (filter (λ kv, any_active kv.2 = true) order))%nat)
      (smallest (order_limits order)).
Proof.
  intros He. unfold summarise.
  pose proof (visit_profiles_spec order [] no_resource 100000 0 ltac:(done) He) as Hv.
  destruct (foldl visit_profile _ order) as [[s r] m]. destruct Hv as (-> & -> & _).
  f_equal. apply eq_bool_prop_intro. rewrite bool_decide_spec.
  rewrite Is_true_true, Z.leb_le. lia.
Qed.

Lemma smallest_perm l l' : l ≡ₚ l' → smallest l = smallest l'.
Proof.
  intros H. unfold smallest.
  assert (foldr Z.min 100000 l = foldr Z.min 100000 l') as -> by (induction H; simpl; lia).
  assert (existsb (λ c, c <=? 100000) l = existsb (λ c, c <=? 100000) l') as ->; [|done].
  induction H; simpl; [done| congruence | | congruence]. by destruct (x <=? _), (y <=? _).
Qed.

Lemma flagged_ok f ps : Forall (λ kv, Forall entry_ok kv.2) (flagged f ps).
Proof.
  apply Forall_fmap, Forall_true. intros p. apply Forall_fmap, Forall_true. intros c.
  unfold entry_ok, conditionEv. simpl. destruct (CPU c) as [q|]; simpl; [|done].
  intros _. split; [done|]. unfold to_uint64. by apply Z.mod_pos_bound.
Qed.

Lemma order_limits_flagged results ps :
  order_limits (flagged (satisfied results) ps) = all_limits results ps.
Proof.
  unfold order_limits, all_limits, flagged. rewrite map_map. f_equal. apply map_ext. intros p. simpl.
  unfold limits, flags. induction (WP_Conditions p) as [|c cs IH]; [done|].
  change (omap ?f (?x :: ?l)) with (match f x with Some y => y :: omap f l | None => omap f l end).
  cbn [map]. change (omap ?f (?x :: ?l)) with (match f x with Some y => y :: omap f l | None => omap f l end).
  rewrite IH. unfold entry_limit, conditionEv. simpl. destruct (satisfied _ _ _); simpl; [|done].
  by destruct (CPU c).
Qed.

Lemma count_flagged results ps :
  length (filter (λ kv, any_active kv.2 = true) (flagged (satisfied results) ps)) =
  active_profiles results ps.
Proof.
  unfold active_profiles, flagged. induction ps as [|p ps IH]; [done|].
  simpl. rewrite !list.filter_cons. cbn [snd].
  assert (any_active (flags (satisfied results (WP_Name p)) (WP_Conditions p)) = profile_active results p) as ->.
  { unfold any_active, profile_active, flags. by induction (WP_Conditions p) as [|c cs IHc]; simpl; [|rewrite IHc]. }
  case_decide; simpl; by rewrite IH.
Qed.

(** ** Properties *)
Section evaluate.
Context {W : Type} `{MapOrder W}.

(** The result when the workload has profiles and there are results. *)
Lemma evaluate_summary profiles results w :
  distinct_names profiles → profiles ≠ [] → results ≠ [] →
  (evaluate profiles results w).1 =
    MkEvaluationResult (bool_decide (length results <= active_profiles results profiles)%nat)
      (smallest (all_limits results profiles)).
Proof.
  intros Hd Hp Hr. unfold evaluate. destruct profiles as [|p ps]; [done|].
  destruct results as [|r rs]; [done|]. simpl. rewrite M_bind_unfold, M_ret_unfold. cbn [fst].
  set (order := (range_map _ w).1).
  assert (order ≡ₚ flagged (satisfied (r :: rs)) (p :: ps)) as Ho
    by (apply results_map_order; [done | apply range_map_perm]).
  assert (Forall (λ kv, Forall entry_ok kv.2) order) as Hok by (rewrite Ho; apply flagged_ok).
  rewrite summarise_spec by done. rewrite <-count_flagged, <-order_limits_flagged. f_equal.
  - apply bool_decide_ext. by rewrite Ho.
  - apply smallest_perm. unfold order_limits.
    rewrite <-!flat_map_concat_map. by apply Permutation_flat_map.
Qed.

Lemma evaluate_result profiles results w :
  distinct_names profiles →
  (evaluate profiles results w).1 =
    if bool_decide (profiles = []) || bool_decide (results = [])
    then MkEvaluationResult true no_resource
    else MkEvaluationResult (bool_decide (length results <= active_profiles results profiles)%nat)
           (smallest (all_limits results profiles)).
Proof.
  intros Hd. destruct profiles as [|p ps]; [done|].
  destruct results as [|r rs]; [done|]. by apply evaluate_summary.
Qed.

(** C11: the evaluation of a job does not depend on the order in which Go
    ranges over its map: the job is active when it has no profile, when there
    is no result, or when at least as many of its profiles as there are
    results have a condition reported true; its CPU limit is the smallest
    among its conditions reported true, if that is at most a whole CPU. *)
Theorem evaluate_spec profiles results w :
  distinct_names profiles →
  (evaluate profiles results w).1 =
    if bool_decide (profiles = []) || bool_decide (results = [])
    then MkEvaluationResult true no_resource
    else MkEvaluationResult (bool_decide (length results <= active_profiles results profiles)%nat)
           (smallest (all_limits results profiles)).
Proof. apply evaluate_result. Qed.

(** as soon as the device reports on more profiles than the workload
    lists, the workload is never active, whatever is reported. *)
Theorem evaluate_more_results profiles results w :
  distinct_names profiles → profiles ≠ [] → (length profiles < length results)%nat →
  Active (evaluate profiles results w).1 = false.
Proof.
  intros Hd Hp Hl. rewrite evaluate_summary; [|done|done|by destruct results; simpl in *; [lia|]].
  cbn [Active]. apply bool_decide_eq_false_2. unfold active_profiles.
  pose proof (list.length_filter (λ p, profile_active results p = true) profiles). lia.
Qed.

(** the limit given to a job is the limit of one of its conditions that
    hold, no such limit is smaller, and the period is 100 ms. *)
Theorem evaluate_resource profiles results w :
  distinct_names profiles → profiles ≠ [] → results ≠ [] →
  let r := Resource (evaluate profiles results w).1 in
  if None_ r then Forall (λ c, 100000 < c) (all_limits results profiles)
  else Value1 (Value r) ∈ all_limits results profiles ∧ Value2 (Value r) = 100000 ∧
       Forall (λ c, Value1 (Value r) <= c) (all_limits results profiles).
Proof.
  intros Hd Hp Hr. rewrite evaluate_summary by done. cbn [Resource]. unfold smallest.
  generalize (all_limits results profiles) as l. clear. intros l.
  destruct (existsb _ l) eqn:E; cbn [None_ no_resource Value Value1 Value2].
  - apply existsb_exists in E as (x & Hx & Hle). apply Z.leb_le in Hle.
    assert (foldr Z.min 100000 l ∈ l ∨ foldr Z.min 100000 l = 100000) as Hin.
    { clear. induction l as [|y l IH]; simpl; [by right|].
      destruct (Z.min_spec y (foldr Z.min 100000 l)) as [[_ ->]|[_ ->]]; [left; left|].
      destruct IH as [IH| ->]; [left; by right | by right]. }
    assert (Forall (λ c, foldr Z.min 100000 l <= c) l) as Hall.
    { clear. induction l as [|y l IH]; [done|]. simpl. constructor; [lia|].
      eapply list.Forall_impl; [exact IH|]. simpl. intros. lia. }
    split; [|done]. destruct Hin as [|E]; [done|]. rewrite E in *.
    apply list_elem_of_In in Hx. rewrite list.Forall_forall in Hall.
    specialize (Hall x Hx). simpl in Hall. by replace 100000 with x by lia.
  - apply list.Forall_forall. intros x Hx. apply Z.lt_nge. intros Hle.
    assert (existsb (λ c, c <=? 100000) l = true); [|congruence].
    apply existsb_exists. exists x. rewrite <-list_elem_of_In. split; [done|]. by apply Z.leb_le.
Qed.
End evaluate.

(** ** Witnesses *)
Definition perf_profile : WorkloadProfile :=
  MkWorkloadProfile "perf" [MkWorkloadCondition "low" (Some (MkPtr 1 20000));
                            MkWorkloadCondition "high" (Some (MkPtr 2 50000))].
Definition perf_result (low high : bool) : ProfileEvaluationResult :=
  MkProfileEvaluationResult "perf" [MkConditionResult "low" low None; MkConditionResult "high" high None].
Definition other_result : ProfileEvaluationResult :=
  MkProfileEvaluationResult "location" [MkConditionResult "home" true None].

Lemma perf_distinct : distinct_names [perf_profile].
Proof. split; [|repeat constructor]; apply (bool_decide_unpack _); by vm_compute. Defined.

Lemma evaluate_spec_witness :
  (evaluate [perf_profile] [perf_result true true] tt).1 =
  MkEvaluationResult true (MkOption (MkTuple 20000 100000) false).
Proof. rewrite evaluate_spec by exact perf_distinct. by vm_compute. Defined.

Lemma evaluate_more_results_witness :
  Active (evaluate [perf_profile] [perf_result true true; other_result] tt).1 = false.
Proof. apply evaluate_more_results; [exact perf_distinct | done | simpl; lia]. Defined.

Lemma evaluate_resource_witness :
  let r := Resource (evaluate [perf_profile] [perf_result false true] tt).1 in
  if None_ r then Forall (λ c, 100000 < c) (all_limits [perf_result false true] [perf_profile])
  else Value1 (Value r) ∈ all_limits [perf_result false true] [perf_profile] ∧ Value2 (Value r) = 100000 ∧
       Forall (λ c, Value1 (Value r) <= c) (all_limits [perf_result false true] [perf_profile]).
Proof. apply evaluate_resource; [exact perf_distinct | done | done]. Defined.
