(* ===== verification/Reconcile.v ===== *)
(** * Reconciliation functions

    [internal/scheduler/reconcile]: the functions that bring a job to its target
    state ([reconciler.go], wrapped by [logger.go]) and its CPU limit to the
    target ([resources.go]), and [getJobResources] of
    [internal/scheduler/scheduler.go].  They run in their own goroutine while
    the scheduler may change the job: each read of the job is a read of the
    world, and a theorem for every world holds for every interleaving. *)
From Stdlib Require Import Strings.String.
From S2P Require Import Prelude GoStd Entity Interfaces Identity Job.
Local Open Scope string_scope.
Local Open Scope list_scope.

(** A job seen through its pointer: its workload never changes, its states and
    its target resources are read from memory. *)
Record JobRef (T W : Type) := MkJobRef {
  Workload_of : T;
  read_CurrentState : M W JobState;
  read_TargetState : M W JobState;
  read_TargetResources : M W CpuResource
}.
Arguments MkJobRef {T W} _ _ _ _.
Arguments Workload_of {T W} _.
Arguments read_CurrentState {T W} _.
Arguments read_TargetState {T W} _.
Arguments read_TargetResources {T W} _.

(** A job nobody changes. *)
Definition still {T W} (w : T) (current target : JobState) (r : CpuResource) : JobRef T W :=
  MkJobRef w (mret current) (mret target) (mret r).

Definition ok {A} (a : A) : GResult A := MkResult a None.
Definition failed (err : error) : GResult JobState := MkResult UnknownState (Some err).

(** [regexp.MustCompile] panics on a pattern that does not compile. *)
Class RegexpLib := { regexp_compiles : string → bool }.

Section sync.
Context {T W : Type} `{Workload T} `{Executor T W}.

Definition syncFunc : Type := JobRef T W → M W (GResult JobState).

(** The tail shared by the branches: wait a second and ask for the state. *)
Definition settle (w : T) : M W (GResult JobState) :=
  Sleep (T := T) ;;
  st ← GetState w;
  mret match Error st with Some err => failed err | None => st end.

(** The closure of [createPodmanSyncFunc]. *)
Definition podman_fn : syncFunc := λ j,
  current ← read_CurrentState j;
  target ← read_TargetState j;
  if bool_decide (current = target) then (current ← read_CurrentState j; mret (ok current))
  else
  target ← read_TargetState j;
  if bool_decide (target = RunningState) then
    exists_ ← (Exists (Workload_of j) : M W (GResult bool));
    match Error exists_ with
    | Some errE => mret (failed errE)
    | None =>
        err ← (if (RValue exists_ : bool) then Remove (Workload_of j) else mret None : M W (option error));
        match err with
        | Some err => mret (failed err)
        | None =>
            err ← Run (Workload_of j);
            match err with
            | Some err => mret (failed err)
            | None => settle (Workload_of j)
            end
        end
    end
  else
  target ← read_TargetState j;
  if OneOf target [ExitedState; InactiveState] then
    err ← Stop (Workload_of j);
    match err with
    | Some err => mret (failed err)
    | None =>
        err ← Remove (Workload_of j);
        match err with
        | Some err => mret (failed err)
        | None => settle (Workload_of j)
        end
    end
  else
  current ← read_CurrentState j;
  mret (ok current).

(** The closure of [createK8SSyncFunc]. *)
Definition k8s_fn : syncFunc := λ j,
  current ← read_CurrentState j;
  target ← read_TargetState j;
  if bool_decide (current = target) then (current ← read_CurrentState j; mret (ok current))
  else
  target ← read_TargetState j;
  err ← (if bool_decide (target = RunningState) then Run (Workload_of j) else mret None : M W (option error));
  match err with
  | Some err => mret (failed err)
  | None =>
      target ← read_TargetState j;
      err ← (if OneOf target [ExitedState; InactiveState; UnknownState]
             then Remove (Workload_of j) else mret None : M W (option error));
      match err with
      | Some err => mret (failed err)
      | None => settle (Workload_of j)
      end
  end.

(** [logger.wrap]: reads the state for its message, calls the function. *)
Definition wrap (s : syncFunc) : syncFunc := λ j,
  oldState ← read_CurrentState j;
  s j.

Definition createPodmanSyncFunc : syncFunc := wrap podman_fn.
Definition createK8SSyncFunc : syncFunc := wrap k8s_fn.

(** The map of [New]. *)
Definition syncFuncs (k : WorkloadKind) : option syncFunc :=
  match k with
  | PodKind => Some createPodmanSyncFunc
  | K8SKind => Some createK8SSyncFunc
  | AnsibleKind => None
  end.

(** The goroutine of [Reconcile] ([futureWrapper]): the values it sends
    before it closes the channel; [None] is the panic of a nil function. *)
Definition futureWrapper (fn : option syncFunc) (j : JobRef T W) : M W (option (list (GResult JobState))) :=
  match fn with
  | Some fn => r ← fn j; mret (Some [MkResult (RValue r) (Error r)])
  | None => mret None
  end.
Definition Reconcile (j : JobRef T W) : M W (option (list (GResult JobState))) :=
  futureWrapper (syncFuncs (Kind (Workload_of j))) j.
End sync.
Arguments syncFunc : clear implicits.

(** ** Resources (resources.go, [getJobResources] of scheduler.go) *)
Section resources.
Context {T W : Type} `{Workload T} `{ResourceManager W} `{RegexpLib}.

Definition job_pattern (w : T) : string := strings_ReplaceAll (ID w) "-" "_".

(** [parts[4:]], [None] is the panic on a path with fewer elements. *)
Definition strip_mountpoint (cgroup : string) : option (list string) :=
  let parts := strings_Split "/" cgroup in
  go_slice parts 4 (Z.of_nat (length parts)).

(** The closure of [createPodResourceReconciliationFunc]; [None] is a panic. *)
Definition createPodResourceReconciliationFunc (j : JobRef T W) : M W (option (option error)) :=
  let pattern := job_pattern (Workload_of j) in
  if negb (regexp_compiles pattern) then mret None
  else
  cgroup ← GetCGroup pattern true;
  match Error cgroup with
  | Some err => mret (Some (Some err))
  | None =>
      if bool_decide (RValue cgroup = "") then
        mret (Some (Some (errorString ("failed to find cgroup for job '" +:+ ID (Workload_of j) +:+ "'"))))
      else
      match strip_mountpoint (RValue cgroup) with
      | None => mret None
      | Some parts =>
          let cg := strings_Join parts "/" in
          r ← read_TargetResources j;
          err ← Set_ (path_Join_root cg) r;
          mret (Some err)
      end
  end.

Definition resource_syncFuncs (k : WorkloadKind) : option (JobRef T W → M W (option (option error))) :=
  match k with
  | PodKind => Some createPodResourceReconciliationFunc
  | _ => None
  end.

(** The goroutine of the resource reconciler: the values it sends. *)
Definition resource_Reconcile (j : JobRef T W) : M W (option (list (option error))) :=
  match resource_syncFuncs (Kind (Workload_of j)) with
  | None => mret None
  | Some fn => r ← fn j; mret ((λ err, [err]) <$> r)
  end.

(** [resources.ErrCPUMaxFileNotFound] *)
Definition ErrCPUMaxFileNotFound : string := "cpu.max file not found".

(** [Scheduler.getJobResources]; [None] is a panic. *)
Definition getJobResources (w : T) : M W (option (GResult CpuResource)) :=
  let pattern := job_pattern w in
  if negb (regexp_compiles pattern) then mret None
  else
  cgroup ← GetCGroup pattern true;
  match Error cgroup with
  | Some err => mret (Some (MkResult CpuResource_zero (Some err)))
  | None =>
      match strip_mountpoint (RValue cgroup) with
      | None => mret None
      | Some parts =>
          let cg := "/" +:+ strings_Join parts "/" in
          if bool_decide (cg = "") then
            mret (Some (MkResult CpuResource_zero
              (Some (errorString ("failed to find cgroup for job '" +:+ ID w +:+ "'")))))
          else
          cpu ← GetResources cg;
          mret (Some match Error cpu with
                     | Some err => if errors_Is err ErrCPUMaxFileNotFound then ok (RValue cpu) else cpu
                     | None => cpu
                     end)
      end
  end.
End resources.

(** ** Calls on the executor *)

(** An executor that records the calls made on it. *)
Inductive call := CRemove | CRun | CStop | CGetState | CExists | CSleep.

#[export] Instance call_eq_dec : EqDecision call.
Proof. solve_decision. Defined.

Lemma list_subseteq_forallb {A} `{EqDecision A} (l1 l2 : list A) :
  forallb (λ x, bool_decide (x ∈ l2)) l1 = true → l1 ⊆ l2.
Proof.
  rewrite forallb_forall. intros Hl x Hx%list_elem_of_In.
  by apply Hl, bool_decide_eq_true in Hx.
Qed.

Section logging.
Context {T W : Type} `{Workload T} (ex : Executor T W).

Definition logged {A} (c : call) (m : M W A) : M (W * list call) A :=
  λ wl, let '(a, w) := m wl.1 in (a, (w, wl.2 ++ [c])).

#[local] Instance logged_executor : Executor T (W * list call) := {|
  Remove := λ t, logged CRemove (Remove t);
  Run := λ t, logged CRun (Run t);
  Stop := λ t, logged CStop (Stop t);
  GetState := λ t, logged CGetState (GetState t);
  Exists := λ t, logged CExists (Exists t);
  Sleep := logged CSleep (Sleep (T := T))
|}.

(** A read of the job is no call. *)
Definition silent {A} (m : M (W * list call) A) : Prop := ∀ wl, (m wl).2.2 = wl.2.
Definition silent_ref (j : JobRef T (W * list call)) : Prop :=
  silent (read_CurrentState j) ∧ silent (read_TargetState j).

(** The calls made by a computation, from any world and log. *)
Definition calls_in {A} (m : M (W * list call) A) (traces : list (list call)) : Prop :=
  ∀ wl, ∃ l, l ∈ traces ∧ (m wl).2.2 = wl.2 ++ l.

Lemma calls_ret {A} (a : A) : calls_in (mret a) [[]].
Proof. intros wl. exists []. split; [left|]. by rewrite app_nil_r. Qed.

Lemma calls_silent {A} (m : M (W * list call) A) : silent m → calls_in m [[]].
Proof. intros Hm wl. exists []. split; [left|]. by rewrite app_nil_r, Hm. Qed.

Lemma calls_logged {A} c (m : M W A) : calls_in (logged c m) [[c]].
Proof. intros wl. exists [c]. split; [left|]. unfold logged. by destruct (m wl.1). Qed.

Lemma calls_bind {A B} (m : M (W * list call) A) (f : A → M (W * list call) B) t1 t2 :
  calls_in m t1 → (∀ a, calls_in (f a) t2) →
  calls_in (m ≫= f) (l1 ← t1; (λ l2, l1 ++ l2) <$> t2).
Proof.
  intros Hm Hf wl. rewrite M_bind_unfold.
  destruct (Hm wl) as (l1 & H1 & E1). destruct (Hf (m wl).1 (m wl).2) as (l2 & H2 & E2).
  exists (l1 ++ l2). split.
  - apply list_elem_of_bind. exists l1. split; [|done]. by apply list_elem_of_fmap_2.
  - by rewrite E2, E1, app_assoc.
Qed.

Lemma calls_weaken {A} (m : M (W * list call) A) t1 t2 : calls_in m t1 → t1 ⊆ t2 → calls_in m t2.
Proof. intros Hm Ht wl. destruct (Hm wl) as (l & Hl & E). eauto. Qed.

Lemma calls_if {A} (b : bool) (m1 m2 : M (W * list call) A) t1 t2 :
  calls_in m1 t1 → calls_in m2 t2 → calls_in (if b then m1 else m2) (t1 ++ t2).
Proof.
  intros H1 H2 wl. destruct b; [destruct (H1 wl) as (l & ? & ?) | destruct (H2 wl) as (l & ? & ?)];
    exists l; rewrite elem_of_app; auto.
Qed.

Lemma calls_opt {A B} (o : option B) (f : B → M (W * list call) A) (m : M (W * list call) A) t1 t2 :
  (∀ b, calls_in (f b) t1) → calls_in m t2 →
  calls_in (match o with Some b => f b | None => m end) (t1 ++ t2).
Proof.
  intros H1 H2 wl. destruct o as [b|]; [destruct (H1 b wl) as (l & ? & ?) | destruct (H2 wl) as (l & ? & ?)];
    exists l; rewrite elem_of_app; auto.
Qed.
End logging.

Section call_orders.
Context {T W : Type} `{Workload T} (ex : Executor T W).
#[local] Existing Instance logged_executor.

(** Decompose a computation into its calls; the lists of traces are then
    compared by computation. *)
Ltac calls :=
  eapply calls_weaken;
  [ repeat first
      [ apply calls_silent; assumption
      | apply calls_ret
      | apply calls_logged
      | eapply calls_bind; [|intros]
      | apply calls_if
      | apply calls_opt; [intros|] ]
  | apply list_subseteq_forallb; vm_compute; reflexivity ].

Implicit Types (j : JobRef T (W * list call)).

(** C17: whatever the scheduler does to the job meanwhile, the function for pods
    calls the executor in one of these orders: it never runs a pod without
    having asked whether one exists, never runs and stops in one pass, and
    asks for the final state only after every other call and the pause. *)
Theorem podman_call_order j wl :
  silent_ref j →
  ∃ l, (createPodmanSyncFunc j wl).2.2 = wl.2 ++ l ∧
    l ∈ [ []; [CExists]; [CExists; CRemove]; [CExists; CRun]; [CExists; CRemove; CRun];
          [CExists; CRun; CSleep; CGetState]; [CExists; CRemove; CRun; CSleep; CGetState];
          [CStop]; [CStop; CRemove]; [CStop; CRemove; CSleep; CGetState] ].
Proof.
  intros [Hc Ht]. revert wl.
  cut (calls_in (createPodmanSyncFunc j)
    [ []; [CExists]; [CExists; CRemove]; [CExists; CRun]; [CExists; CRemove; CRun];
      [CExists; CRun; CSleep; CGetState]; [CExists; CRemove; CRun; CSleep; CGetState];
      [CStop]; [CStop; CRemove]; [CStop; CRemove; CSleep; CGetState] ]).
  { intros Hall wl. destruct (Hall wl) as (l & ? & ?). eauto. }
  unfold createPodmanSyncFunc, wrap, podman_fn, settle. calls.
Qed.

(** the function for k8s never stops and never asks whether the deployment
    exists (its executor implements neither); it runs before it removes, and
    asks for the final state last. *)
Theorem k8s_call_order j wl :
  silent_ref j →
  ∃ l, (createK8SSyncFunc j wl).2.2 = wl.2 ++ l ∧
    l ∈ [ []; [CRun]; [CRemove]; [CRun; CRemove]; [CSleep; CGetState]; [CRun; CSleep; CGetState];
          [CRemove; CSleep; CGetState]; [CRun; CRemove; CSleep; CGetState] ].
Proof.
  intros [Hc Ht]. revert wl.
  cut (calls_in (createK8SSyncFunc j)
    [ []; [CRun]; [CRemove]; [CRun; CRemove]; [CSleep; CGetState]; [CRun; CSleep; CGetState];
      [CRemove; CSleep; CGetState]; [CRun; CRemove; CSleep; CGetState] ]).
  { intros Hall wl. destruct (Hall wl) as (l & ? & ?). eauto. }
  unfold createK8SSyncFunc, wrap, k8s_fn, settle. calls.
Qed.
End call_orders.

(** ** Reaching the target *)

(** What a container engine does for a workload when every call succeeds:
    [container] is the state of its container, if there is one; running a
    workload that already has a container is an error. *)
Class Engine (T W : Type) `{Executor T W} (t : T) (container : W → option JobState) := {
  Exists_law : ∀ w, (Exists t w).1 = ok (bool_decide (is_Some (container w))) ∧
                    container (Exists t w).2 = container w;
  Remove_law : ∀ w, (Remove t w).1 = None ∧ container (Remove t w).2 = None;
  Run_law : ∀ w, container w = None →
                 (Run t w).1 = None ∧ container (Run t w).2 = Some RunningState;
  Stop_law : ∀ w, (Stop t w).1 = None;
  Sleep_law : ∀ w, container (Sleep (T := T) w).2 = container w;
  GetState_law : ∀ w, (GetState t w).1 = ok (default UnknownState (container w)) ∧
                      container (GetState t w).2 = container w
}.

Section reach.
Context {T W : Type} `{Workload T} `{Executor T W} (t : T) (container : W → option JobState).
Context `{!Engine T W t container}.

Lemma settle_law w :
  (settle t w).1 = ok (default UnknownState (container w)) ∧ container (settle t w).2 = container w.
Proof.
  unfold settle. run_M.
  destruct (GetState_law (Sleep (T := T) w).2) as [-> ->]. by rewrite Sleep_law.
Qed.

Lemma podman_runs current r w :
  current ≠ RunningState →
  (createPodmanSyncFunc (still t current RunningState r) w).1 = ok RunningState ∧
  container (createPodmanSyncFunc (still t current RunningState r) w).2 = Some RunningState.
Proof.
  intros Hne. unfold createPodmanSyncFunc, wrap, podman_fn, still. cbn [Workload_of read_CurrentState read_TargetState].
  run_M. rewrite bool_decide_eq_false_2 by done.
  run_M. rewrite bool_decide_eq_true_2 by done.
  rewrite M_bind_unfold. destruct (Exists_law w) as [He Hc]. rewrite He. cbn [Error RValue ok].
  set (w1 := (Exists t w).2) in *.
  assert (∃ w2, ((if bool_decide (is_Some (container w)) then Remove t else mret None) : M W (option error)) w1 = (None, w2)
                ∧ container w2 = None) as (w2 & E2 & Hc2).
  { case_bool_decide as Hs.
    - destruct (Remove_law w1) as [H1' H2]. exists (Remove t w1).2.
      split; [by destruct (Remove t w1); simpl in *; subst | done].
    - exists w1. split; [done|]. rewrite Hc. by apply eq_None_not_Some. }
  rewrite M_bind_unfold, E2. cbn [fst snd].
  destruct (Run_law w2 Hc2) as [Hr Hc3]. rewrite M_bind_unfold, Hr.
  destruct (settle_law (Run t w2).2) as [-> ->]. by rewrite Hc3.
Qed.

Lemma podman_stops current target r w :
  current ≠ target → target = ExitedState ∨ target = InactiveState →
  (createPodmanSyncFunc (still t current target r) w).1 = ok UnknownState ∧
  container (createPodmanSyncFunc (still t current target r) w).2 = None.
Proof.
  intros Hne Ht. unfold createPodmanSyncFunc, wrap, podman_fn, still. cbn [Workload_of read_CurrentState read_TargetState].
  run_M. rewrite bool_decide_eq_false_2 by done.
  run_M.
  rewrite bool_decide_eq_false_2 by (by destruct Ht; subst).
  run_M.
  assert (OneOf target [ExitedState; InactiveState] = true) as -> by (by destruct Ht; subst).
  rewrite M_bind_unfold, Stop_law. rewrite M_bind_unfold.
  destruct (Remove_law (Stop t w).2) as [-> Hc].
  destruct (settle_law (Remove t (Stop t w).2).2) as [-> ->]. by rewrite Hc.
Qed.

(** with an engine whose calls succeed, reconciling a pod whose target is
    [running] leaves it running, whether or not a container was left over, and
    reconciling a pod whose target is [exited] or [inactive] leaves no
    container; both return the state the engine then reports. *)
Theorem podman_reaches_target current target r w :
  current ≠ target → target = RunningState ∨ target = ExitedState ∨ target = InactiveState →
  let res := createPodmanSyncFunc (still t current target r) w in
  container res.2 = (if bool_decide (target = RunningState) then Some RunningState else None) ∧
  res.1 = ok (default UnknownState (container res.2)).
Proof.
  intros Hne Ht. cbv zeta. destruct Ht as [->|Ht].
  - destruct (podman_runs current r w Hne) as [-> ->]. done.
  - destruct (podman_stops current target r w Hne Ht) as [-> ->]. by destruct Ht; subst.
Qed.

(** the same for k8s when no deployment exists yet or the target is to
    stop. *)
Theorem k8s_reaches_target current target r w :
  current ≠ target →
  target = RunningState ∧ container w = None ∨ target ∈ [ExitedState; InactiveState; UnknownState] →
  let res := createK8SSyncFunc (still t current target r) w in
  container res.2 = (if bool_decide (target = RunningState) then Some RunningState else None) ∧
  res.1 = ok (default UnknownState (container res.2)).
Proof.
  intros Hne Ht. cbv zeta. unfold createK8SSyncFunc, wrap, k8s_fn, still. cbn [Workload_of read_CurrentState read_TargetState].
  run_M. rewrite bool_decide_eq_false_2 by done.
  run_M.
  destruct Ht as [[-> Hw]|Ht].
  - rewrite bool_decide_eq_true_2 by done. destruct (Run_law w Hw) as [-> Hc].
    run_M.
    change (OneOf RunningState [ExitedState; InactiveState; UnknownState]) with false.
    cbv iota. rewrite ?M_ret_unfold. cbn [fst snd].
    destruct (settle_law (Run t w).2) as [-> ->]. by rewrite Hc.
  - assert (bool_decide (target = RunningState) = false ∧ OneOf target [ExitedState; InactiveState; UnknownState] = true)
      as [-> Ho].
    { split; [|by apply OneOf_spec]. apply bool_decide_eq_false_2. intros ->.
      by apply (bool_decide_pack _) in Ht. }
    rewrite ?M_ret_unfold. cbn [fst snd]. rewrite ?M_bind_unfold, ?M_ret_unfold. cbn [fst snd].
    rewrite Ho. destruct (Remove_law w) as [-> Hc]. destruct (settle_law (Remove t w).2) as [-> ->]. by rewrite Hc.
Qed.
End reach.

(** ** Which cgroup is read and which is written *)
Definition clean_path (rel : string) : Prop :=
  Forall (λ e, e ≠ "" ∧ e ≠ "." ∧ e ≠ "..") (strings_Split "/" rel).

Lemma clean_elements_id done l :
  Forall (λ e, e ≠ "" ∧ e ≠ "." ∧ e ≠ "..") l → clean_elements done l = done ++ l.
Proof.
  revert done. induction l as [|e l IH]; intros done Hl; simpl; [by rewrite app_nil_r|].
  inversion Hl as [|? ? (H1 & H2 & H3) Hl']; subst.
  rewrite !bool_decide_eq_false_2 by done. cbn [orb]. by rewrite IH, <-app_assoc.
Qed.

Lemma path_Join_root_clean rel : clean_path rel → path_Join_root rel = "/" +:+ rel.
Proof.
  intros Hc. unfold path_Join_root. rewrite clean_elements_id by done. cbn [app].
  by rewrite Join_Split.
Qed.

Lemma strip_mountpoint_sys rel :
  strip_mountpoint ("/sys/fs/cgroup/" +:+ rel) = Some (strings_Split "/" rel).
Proof.
  unfold strip_mountpoint.
  assert (strings_Split "/" ("/sys/fs/cgroup/" +:+ rel) = "" :: "sys" :: "fs" :: "cgroup" :: strings_Split "/" rel) as -> by done.
  unfold go_slice. cbn [length].
  rewrite (proj2 (Z.leb_le 4 _)), Z.leb_refl by lia. cbn [andb].
  replace (Z.to_nat (Z.of_nat (S (S (S (S (length (strings_Split "/" rel)))))) - 4))%Z
    with (length (strings_Split "/" rel)) by lia.
  change (drop (Z.to_nat 4) ("" :: "sys" :: "fs" :: "cgroup" :: strings_Split "/" rel)) with (strings_Split "/" rel).
  by rewrite firstn_all.
Qed.

Section resource_facts.
Context {T W : Type} `{Workload T} `{ResourceManager W} `{RegexpLib}.

Lemma same_cgroup (j : JobRef T W) w rel :
  regexp_compiles (job_pattern (Workload_of j)) = true →
  let found := GetCGroup (job_pattern (Workload_of j)) true w in
  found.1 = ok ("/sys/fs/cgroup/" +:+ rel) → clean_path rel →
  createPodResourceReconciliationFunc j w =
    (r ← read_TargetResources j; err ← Set_ ("/" +:+ rel) r; mret (Some err)) found.2 ∧
  getJobResources (Workload_of j) w =
    (cpu ← GetResources ("/" +:+ rel);
     mret (Some match Error cpu with
                | Some err => if errors_Is err ErrCPUMaxFileNotFound then ok (RValue cpu) else cpu
                | None => cpu
                end)) found.2.
Proof.
  intros Hr found Hf Hc. unfold createPodResourceReconciliationFunc, getJobResources.
  rewrite Hr. cbn [negb]. rewrite !(M_bind_unfold (GetCGroup _ _)). fold found. rewrite Hf. cbn [Error RValue ok].
  rewrite (bool_decide_eq_false_2 (_ = "")) by done.
  rewrite strip_mountpoint_sys. rewrite (Join_Split "/" rel), (path_Join_root_clean rel Hc).
  rewrite (bool_decide_eq_false_2 (_ = "")) by done. split; [done|done].
Qed.

(** for a cgroup found below the mount point the limit is set on, and read
    from, the same cgroup: the path relative to the mount point. *)
Theorem resources_same_cgroup (j : JobRef T W) w rel :
  regexp_compiles (job_pattern (Workload_of j)) = true →
  let found := GetCGroup (job_pattern (Workload_of j)) true w in
  found.1 = ok ("/sys/fs/cgroup/" +:+ rel) → clean_path rel →
  createPodResourceReconciliationFunc j w =
    (r ← read_TargetResources j; err ← Set_ ("/" +:+ rel) r; mret (Some err)) found.2 ∧
  getJobResources (Workload_of j) w =
    (cpu ← GetResources ("/" +:+ rel);
     mret (Some match Error cpu with
                | Some err => if errors_Is err ErrCPUMaxFileNotFound then ok (RValue cpu) else cpu
                | None => cpu
                end)) found.2.
Proof. apply same_cgroup. Qed.

(** a cgroup path of fewer than four elements crashes the process: reading
    the resources panics even on the empty path, which the reconciliation
    function reports as an error. *)
Theorem short_cgroup_panics (j : JobRef T W) w cg :
  regexp_compiles (job_pattern (Workload_of j)) = true →
  (GetCGroup (job_pattern (Workload_of j)) true w).1 = ok cg →
  (length (strings_Split "/" cg) < 4)%nat →
  (getJobResources (Workload_of j) w).1 = None ∧
  (cg ≠ "" → (createPodResourceReconciliationFunc j w).1 = None) ∧
  (cg = "" → (createPodResourceReconciliationFunc j w).1 =
     Some (Some (errorString ("failed to find cgroup for job '" +:+ ID (Workload_of j) +:+ "'")))).
Proof.
  intros Hr Hf Hl. unfold createPodResourceReconciliationFunc, getJobResources.
  rewrite Hr. cbn [negb]. rewrite !(M_bind_unfold (GetCGroup _ _)), Hf. cbn [Error RValue ok].
  assert (strip_mountpoint cg = None) as Hs.
  { unfold strip_mountpoint, go_slice. rewrite (proj2 (Z.leb_gt 4 (Z.of_nat _))) by lia. done. }
  rewrite Hs. split; [done|]. split; intros Hcg.
  - by rewrite bool_decide_eq_false_2.
  - by rewrite bool_decide_eq_true_2.
Qed.
End resource_facts.

(** ** Witnesses: an engine with one container, and a fixed cgroup *)
Module OneContainer.
#[export] Instance one_executor : Executor FixedPod (option JobState) := {|
  Remove := λ _ w, (None, None);
  Run := λ _ w, match w with
                | None => (None, Some RunningState)
                | Some _ => (Some (errorString "pod already exists"), w)
                end;
  Stop := λ _ w, (None, None);
  GetState := λ _ w, (ok (default UnknownState w), w);
  Exists := λ _ w, (ok (bool_decide (is_Some w)), w);
  Sleep := λ w, (tt, w)
|}.

#[export] Instance one_engine t : Engine FixedPod (option JobState) t id.
Proof. split; intros; simpl; try done. by destruct w. Qed.

#[export] Instance any_regexp : RegexpLib := {| regexp_compiles := λ _, true |}.

(** A resource manager that finds [cg] and stores one limit. *)
Definition one_resources (cg : string) : ResourceManager CpuResource := {|
  Set_ := λ _ r _, (None, r);
  GetCGroup := λ _ _ w, (ok cg, w);
  GetResources := λ _ w, (ok w, w)
|}.
End OneContainer.
Import OneContainer.

Lemma podman_call_order_witness :
  let j := still fixed_pod ExitedState RunningState CpuResource_zero in
  ∃ l, (createPodmanSyncFunc (H0 := logged_executor one_executor) j (Some ExitedState, [])).2.2 = [] ++ l ∧
    l ∈ [ []; [CExists]; [CExists; CRemove]; [CExists; CRun]; [CExists; CRemove; CRun];
          [CExists; CRun; CSleep; CGetState]; [CExists; CRemove; CRun; CSleep; CGetState];
          [CStop]; [CStop; CRemove]; [CStop; CRemove; CSleep; CGetState] ].
Proof. apply (podman_call_order one_executor _ (Some ExitedState, [])). split; intros wl; reflexivity. Defined.

Lemma k8s_call_order_witness :
  let j := still fixed_pod ReadyState RunningState CpuResource_zero in
  ∃ l, (createK8SSyncFunc (H0 := logged_executor one_executor) j (None, [])).2.2 = [] ++ l ∧
    l ∈ [ []; [CRun]; [CRemove]; [CRun; CRemove]; [CSleep; CGetState]; [CRun; CSleep; CGetState];
          [CRemove; CSleep; CGetState]; [CRun; CRemove; CSleep; CGetState] ].
Proof. apply (k8s_call_order one_executor _ (None, [])). split; intros wl; reflexivity. Defined.

Lemma podman_reaches_target_witness :
  let res := createPodmanSyncFunc (still fixed_pod ExitedState RunningState CpuResource_zero) (Some ExitedState) in
  id res.2 = (if bool_decide (RunningState = RunningState) then Some RunningState else None) ∧
  res.1 = ok (default UnknownState (id res.2)).
Proof. apply (podman_reaches_target fixed_pod id); [done | by left]. Defined.

Lemma k8s_reaches_target_witness :
  let res := createK8SSyncFunc (still fixed_pod ReadyState RunningState CpuResource_zero) None in
  id res.2 = (if bool_decide (RunningState = RunningState) then Some RunningState else None) ∧
  res.1 = ok (default UnknownState (id res.2)).
Proof. apply (k8s_reaches_target fixed_pod id); [done | left; by split]. Defined.

Lemma resources_same_cgroup_witness :
  let j := still fixed_pod RunningState RunningState (MkTuple 50000 100000)%Z in
  let rm := one_resources "/sys/fs/cgroup/user.slice/flotta.slice" in
  let found := GetCGroup (job_pattern (Workload_of j)) true CpuResource_zero in
  createPodResourceReconciliationFunc j CpuResource_zero =
    (r ← read_TargetResources j; err ← Set_ ("/" +:+ "user.slice/flotta.slice") r; mret (Some err)) found.2 ∧
  getJobResources (Workload_of j) CpuResource_zero =
    (cpu ← GetResources ("/" +:+ "user.slice/flotta.slice");
     mret (Some match Error cpu with
                | Some err => if errors_Is err ErrCPUMaxFileNotFound then ok (RValue cpu) else cpu
                | None => cpu
                end)) found.2.
Proof.
  intros j rm found. apply (resources_same_cgroup j CpuResource_zero "user.slice/flotta.slice"); [done | done |].
  repeat constructor; discriminate.
Defined.

Lemma short_cgroup_panics_witness :
  let j := still fixed_pod RunningState RunningState CpuResource_zero in
  let rm := one_resources "" in
  (getJobResources (Workload_of j) CpuResource_zero).1 = None ∧
  ("" ≠ "" → (createPodResourceReconciliationFunc j CpuResource_zero).1 = None) ∧
  ("" = "" → (createPodResourceReconciliationFunc j CpuResource_zero).1 =
     Some (Some (errorString ("failed to find cgroup for job '" +:+ ID (Workload_of j) +:+ "'")))).
Proof.
  intros j rm. apply (short_cgroup_panics j CpuResource_zero ""); [done | done |]. simpl. lia.
Defined.
