(* ===== verification/Scheduler.v ===== *)
(** * The scheduler

    [internal/scheduler/scheduler.go]: the state of a [Scheduler], one function
    per case of the [select] of [run], and the transition relation of the
    goroutine with the messages, ticks and resolved futures of its environment.
    Jobs are pointers into a heap; the store holds the pointers, so a deletion
    made inside a range moves the slice the range reads ([Store.for_range]). *)
From Stdlib Require Import Strings.String.
From S2P Require Import Prelude GoStd Entity Interfaces Job Store Profile Evaluate Reconcile.
Local Open Scope string_scope.
Local Open Scope list_scope.

(** A future in the heap: the job it was made for, its value once resolved
    ([Future.abstract]), and whether its [CancelFunc] has been called. *)
Record Fut (R : Type) := MkFut { owner : string; result : option R; cancelled : bool }.
Arguments MkFut {R} _ _ _.
Arguments owner {R} _.
Arguments result {R} _.
Arguments cancelled {R} _.

(** A table of futures: the objects, and the map from job identifiers. *)
Record Futures (R : Type) := MkFutures { objects : gmap positive (Fut R); current : gmap string positive }.
Arguments MkFutures {R} _ _.
Arguments objects {R} _.
Arguments current {R} _.

Section futures.
Context {R : Type}.
Implicit Types (fs : Futures R).

Definition no_futures : Futures R := MkFutures ∅ ∅.

(** [futures[id] = future], for a future just created. *)
Definition start (id : string) fs : Futures R :=
  let f := fresh (dom (objects fs)) in
  MkFutures (<[f := MkFut id None false]> (objects fs)) (<[id := f]> (current fs)).

(** [futures[id]] and [Poll]. *)
Definition lookup_future (id : string) fs : option (option R) :=
  f ← current fs !! id; result <$> objects fs !! f.

(** [future.CancelFunc()] and [delete(futures, id)] *)
Definition finish (id : string) fs : Futures R :=
  match current fs !! id with
  | Some f => MkFutures (alter (λ fu, MkFut (owner fu) (result fu) true) f (objects fs)) (delete id (current fs))
  | None => fs
  end.

(** [delete(futures, id)] alone. *)
Definition forget (id : string) fs : Futures R := MkFutures (objects fs) (delete id (current fs)).

(** The goroutine of a pending future sends its value. *)
Definition resolve (f : positive) (r : R) fs : Futures R :=
  MkFutures (alter (λ fu, match result fu with
                          | None => MkFut (owner fu) (Some r) (cancelled fu)
                          | Some _ => fu
                          end) f (objects fs)) (current fs).

(** Futures still running are in the table under their owner, and those no
    longer in the table have been cancelled. *)
Definition futures_ok fs : Prop :=
  (∀ id f, current fs !! id = Some f →
     ∃ fu, objects fs !! f = Some fu ∧ owner fu = id ∧ cancelled fu = false) ∧
  (∀ f fu, objects fs !! f = Some fu →
     current fs !! owner fu = Some f ∨ (result fu ≠ None ∧ cancelled fu = true)).

Lemma no_futures_ok : futures_ok no_futures.
Proof. split; intros *; cbn [objects current no_futures]; by rewrite lookup_empty. Qed.

Lemma start_ok id fs : futures_ok fs → current fs !! id = None → futures_ok (start id fs).
Proof.
  intros [H1 H2] Hid. unfold start. set (f := fresh (dom (objects fs))).
  assert (objects fs !! f = None) as Hf by (apply not_elem_of_dom, is_fresh).
  split; cbn [objects current].
  - intros id' f'. rewrite lookup_insert. case_decide as E.
    + intros [= <-]. exists (MkFut id None false). by rewrite lookup_insert_eq, <-E.
    + intros Hc. destruct (H1 _ _ Hc) as (fu & Ho & Hr). exists fu.
      rewrite lookup_insert_ne; [done|]. intros <-. congruence.
  - intros f' fu. rewrite lookup_insert. case_decide as E.
    + intros [= <-]. left. cbn [owner]. by rewrite lookup_insert_eq, E.
    + intros Ho. destruct (H2 _ _ Ho) as [Hc|Hr]; [left|by right].
      rewrite lookup_insert_ne; [done|]. intros E'. congruence.
Qed.

Lemma finish_ok id fs r :
  futures_ok fs → lookup_future id fs = Some (Some r) → futures_ok (finish id fs).
Proof.
  intros [H1 H2]. unfold lookup_future, finish.
  destruct (current fs !! id) as [f|] eqn:Hf; [|done]. simpl. intros Hr.
  destruct (H1 _ _ Hf) as (fu & Ho & Hown & Hc). rewrite Ho in Hr. simpl in Hr.
  split; cbn [objects current].
  - intros id' f' [Hne Hf']%lookup_delete_Some. destruct (H1 _ _ Hf') as (fu' & Ho' & Hown' & Hc').
    exists fu'. rewrite lookup_alter_ne; [done|]. intros <-. simplify_eq.
  - intros f' fu'. destruct (decide (f' = f)) as [->|Hne].
    + rewrite lookup_alter, Ho. case_decide; [|done]. intros [= <-]. right.
      cbn [result cancelled]. split; [congruence|done].
    + rewrite lookup_alter_ne by done. intros Ho'. destruct (H2 _ _ Ho') as [Hcur|?]; [left|by right].
      rewrite lookup_delete_ne; [done|]. intros E. rewrite <-E in Hcur. congruence.
Qed.

Lemma forget_ok id fs : futures_ok fs → current fs !! id = None → forget id fs = fs.
Proof. intros _ Hid. unfold forget. rewrite delete_id by done. by destruct fs. Qed.

Lemma resolve_ok f r fs : futures_ok fs → futures_ok (resolve f r fs).
Proof.
  intros [H1 H2]. unfold resolve. split; cbn [objects current].
  - intros id f' Hf. destruct (H1 _ _ Hf) as (fu & Ho & Hown & Hc).
    rewrite lookup_alter. case_decide as E; [|eauto]. rewrite <-E in *. rewrite Ho. simpl.
    destruct (result fu); eauto.
  - intros f' fu'. rewrite lookup_alter. case_decide as E; [|apply H2].
    subst f'. destruct (objects fs !! f) as [fu|] eqn:Ho; [|done]. simpl. intros [= <-].
    destruct (H2 _ _ Ho) as [Hc|[Hr Hc]].
    + left. by destruct (result fu).
    + right. destruct (result fu) eqn:E; [|done]. split; [congruence|done].
Qed.
End futures.
Arguments no_futures {R}.

(** ** State *)

(** Where the goroutine of [run] is: in the [select], blocked on
    [executionSync <-], returned, or the process has crashed. *)
Inductive scheduler_pc := Looping | BlockedHeartbeat | Stopped_ | Crashed.

Section scheduler.
Context {T W : Type} `{Workload T} `{Clock W} `{CronLib} `{MapOrder W}.
Context `{Executor T W} `{ResourceManager W} `{RegexpLib}.

(** The three synchronisation channels have capacity 1. *)
Record Scheduler := MkScheduler {
  pc : scheduler_pc;
  jobs : Store;
  heap : gmap loc (Job T W);
  profileEvaluationResults : list ProfileEvaluationResult;
  futures : Futures (GResult JobState);
  resourceFutures : Futures (option error);
  executionSync : bool;
  resourceSync : bool;
  evaluationSync : bool
}.

Definition newScheduler : Scheduler :=
  MkScheduler Looping NewStore ∅ [] no_futures no_futures false false false.

Definition set_pc (p : scheduler_pc) (s : Scheduler) : Scheduler :=
  MkScheduler p (jobs s) (heap s) (profileEvaluationResults s) (futures s) (resourceFutures s)
    (executionSync s) (resourceSync s) (evaluationSync s).
Definition set_jobs (x : Store) (s : Scheduler) : Scheduler :=
  MkScheduler (pc s) x (heap s) (profileEvaluationResults s) (futures s) (resourceFutures s)
    (executionSync s) (resourceSync s) (evaluationSync s).
Definition set_heap (x : gmap loc (Job T W)) (s : Scheduler) : Scheduler :=
  MkScheduler (pc s) (jobs s) x (profileEvaluationResults s) (futures s) (resourceFutures s)
    (executionSync s) (resourceSync s) (evaluationSync s).
Definition set_results (x : list ProfileEvaluationResult) (s : Scheduler) : Scheduler :=
  MkScheduler (pc s) (jobs s) (heap s) x (futures s) (resourceFutures s)
    (executionSync s) (resourceSync s) (evaluationSync s).
Definition set_futures (x : Futures (GResult JobState)) (s : Scheduler) : Scheduler :=
  MkScheduler (pc s) (jobs s) (heap s) (profileEvaluationResults s) x (resourceFutures s)
    (executionSync s) (resourceSync s) (evaluationSync s).
Definition set_resourceFutures (x : Futures (option error)) (s : Scheduler) : Scheduler :=
  MkScheduler (pc s) (jobs s) (heap s) (profileEvaluationResults s) (futures s) x
    (executionSync s) (resourceSync s) (evaluationSync s).
Definition set_syncs (e r v : bool) (s : Scheduler) : Scheduler :=
  MkScheduler (pc s) (jobs s) (heap s) (profileEvaluationResults s) (futures s) (resourceFutures s) e r v.

(** [j.ID()] through the pointer. *)
Definition id_of (s : Scheduler) (t : loc) : string :=
  match heap s !! t with Some j => Job_ID j | None => "" end.
Definition ids_of (s : Scheduler) : list string := map (id_of s) (view (jobs s)).

(** A method call on the job behind a pointer. *)
Definition update (t : loc) (f : Job T W → M W (Job T W)) (s : Scheduler) : M W Scheduler :=
  match heap s !! t with
  | Some j => j' ← f j; mret (set_heap (<[t := j']> (heap s)) s)
  | None => mret s
  end.

(** ** Creating jobs *)

(** [10 * time.Second] *)
Definition retry_interval : Z := 10000000000.

Definition createJob (w : T) : M W (error + Job T W) :=
  let builder := NewBuilder w in
  let builder := if bool_decide (Cron w ≠ "") then WithCron (Cron w) builder
                 else WithConstantRetry retry_interval builder in
  Build (AddHook PostSetTargetState LogTargetHook (AddHook PostSetCurrentState RestartHook builder)).

(** [new(Job)] and [s.jobs.Add]. *)
Definition add_job (j : Job T W) (s : Scheduler) : Scheduler :=
  let t := fresh (dom (heap s)) in
  set_jobs (Add t (jobs s)) (set_heap (<[t := j]> (heap s)) s).

Fixpoint add_jobs (ws : list T) (s : Scheduler) : M W Scheduler :=
  match ws with
  | [] => mret s
  | w :: ws' =>
      r ← createJob w;
      add_jobs ws' (match r with inl _ => s | inr j => add_job j s end)
  end.

(** ** The case that receives a configuration *)
Definition remove_job (t : loc) (s : Scheduler) : M W Scheduler :=
  s ← update t (λ j, mret (MarkForDeletion j)) s;
  update t (SetTargetState ExitedState) s.

Definition handle_input (opt : GOption (list T)) (s : Scheduler) : M W Scheduler :=
  if None_ opt then for_range jobs remove_job s
  else
    jobsToRemove ← substract (id_of s) ID (view (jobs s)) (Value opt);
    newWorkloads ← substract ID (id_of s) (Value opt) (view (jobs s));
    s ← add_jobs newWorkloads s;
    over_list jobsToRemove remove_job (set_syncs (executionSync s) (resourceSync s) true s).

(** ** The case that receives profile results *)
Definition handle_profiles (results : list ProfileEvaluationResult) (s : Scheduler) : Scheduler :=
  if bool_decide (profileEvaluationResults s = results) then s
  else let s := set_results results s in set_syncs (executionSync s) (resourceSync s) true s.

(** ** The execution case *)
Definition shouldReconcile (j : Job T W) : bool :=
  if bool_decide (TargetState j = RunningState) &&
     OneOf (CurrentState j) [ReadyState; InactiveState; ExitedState; UnknownState] then true
  else if OneOf (TargetState j) [ExitedState; InactiveState] && bool_decide (CurrentState j = RunningState)
  then true
  else false.

(** A future was found for the job: poll it. *)
Definition poll_job (t : loc) (id : string) (fut : option (GResult JobState)) (s : Scheduler) : M W Scheduler :=
  match fut with
  | Some res =>
      s ← match Error res with
          | Some _ => mret s
          | None => update t (SetCurrentState (RValue res)) s
          end;
      mret (set_futures (finish id (futures s)) s)
  | None => mret s
  end.

(** [j.ShouldRestart() && j.Retry() != nil] and [CanReconcile]. *)
Definition retry_allows (j : Job T W) : M W bool :=
  match retry j with
  | Some rj => if ShouldRestart j then RetryJob_CanReconcile rj else mret true
  | None => mret true
  end.

(** The cron test; [ComputeNext] when it allows the job. *)
Definition cron_allows (j : Job T W) : M W (bool * Job T W) :=
  match cron j with
  | Some cj =>
      if bool_decide (TargetState j = RunningState) then
        can ← CronJob_CanReconcile cj;
        if can : bool then cj' ← CronJob_ComputeNext cj; mret (true, set_cron (Some cj') j)
        else mret (false, j)
      else mret (true, j)
  | None => mret (true, j)
  end.

Definition removable (j : Job T W) : bool :=
  IsMarkedForDeletion j && OneOf (CurrentState j) [UnknownState; ExitedState; ReadyState].

(** The rest of the body once the current state is recorded. *)
Definition advance (t : loc) (j : Job T W) (s : Scheduler) : M W Scheduler :=
  if removable j then
    mret (set_futures (forget (Job_ID j) (futures s))
            (set_jobs (Delete (id_of s) t (jobs s)).2 s))
  else if negb (shouldReconcile j) then mret s
  else
    can ← retry_allows j;
    if negb can then mret s
    else
      r ← cron_allows j;
      let s := set_heap (<[t := r.2]> (heap s)) s in
      if negb r.1 then mret s
      else mret (set_futures (start (Job_ID j) (futures s)) s).

Definition execute_job (t : loc) (s : Scheduler) : M W Scheduler :=
  match heap s !! t with
  | None => mret s
  | Some j =>
      match lookup_future (Job_ID j) (futures s) with
      | Some fut => poll_job t (Job_ID j) fut s
      | None =>
          st ← GetState (workload j);
          match Error st with
          | Some _ => mret s
          | None =>
              j' ← SetCurrentState (RValue st) j;
              advance t j' (set_heap (<[t := j']> (heap s)) s)
          end
      end
  end.

Definition handle_execution (s : Scheduler) : M W Scheduler :=
  s ← for_range jobs execute_job (set_syncs false (resourceSync s) (evaluationSync s) s);
  mret (set_syncs (executionSync s) true (evaluationSync s) s).

(** ** The resource case *)

(** Polling [resourceFutures]; setting the target resources to themselves
    changes nothing. *)
Definition poll_resource (t : loc) (id : string) (s : Scheduler) : M W Scheduler :=
  match lookup_future id (resourceFutures s) with
  | Some (Some err) =>
      s ← match err with
          | Some _ => mret s
          | None => update t (λ j, mret (SetTargetResources (TargetResources j) j)) s
          end;
      mret (set_resourceFutures (finish id (resourceFutures s)) s)
  | _ => mret s
  end.

Definition syncs_resources (j : Job T W) : bool :=
  negb (bool_decide (CurrentState j ≠ RunningState) || IsMarkedForDeletion j
        || bool_decide (Kind (workload j) = K8SKind)).

(** A panic ends the process: the remaining iterations do nothing. *)
Definition sync_job (t : loc) (s : Scheduler) : M W Scheduler :=
  match pc s, heap s !! t with
  | Looping, Some j =>
      if CpuResource_Equal (TargetResources j) CpuResource_zero then mret s
      else
        s ← poll_resource t (Job_ID j) s;
        if negb (syncs_resources j) then mret s
        else
          res ← getJobResources (workload j);
          match res with
          | None => mret (set_pc Crashed s)
          | Some res =>
              match Error res with
              | Some _ => mret s
              | None =>
                  s ← update t (λ j, mret (SetCurrentResources (RValue res) j)) s;
                  if CpuResource_Equal (RValue res) (TargetResources j) then mret s
                  else mret (set_resourceFutures (start (Job_ID j) (resourceFutures s)) s)
              end
          end
  | _, _ => mret s
  end.

Definition handle_resource (s : Scheduler) : M W Scheduler :=
  for_range jobs sync_job (set_syncs (executionSync s) false (evaluationSync s) s).

(** ** The evaluation case *)
Definition apply_evaluation (r : evaluationResult) (j : Job T W) : M W (Job T W) :=
  if Active r then
    j ← SetTargetState RunningState j;
    mret (if negb (None_ (Resource r)) then SetTargetResources (Value (Resource r)) j else j)
  else SetTargetState InactiveState j.

Definition evaluate_job (t : loc) (s : Scheduler) : M W Scheduler :=
  match heap s !! t with
  | None => mret s
  | Some j =>
      if IsMarkedForDeletion j then mret s
      else
        r ← evaluate (Profiles (workload j)) (profileEvaluationResults s);
        update t (apply_evaluation r) s
  end.

Definition handle_evaluation (s : Scheduler) : M W Scheduler :=
  s ← for_range jobs evaluate_job (set_syncs (executionSync s) (resourceSync s) false s);
  mret (set_syncs (executionSync s) true (evaluationSync s) s).

(** ** The heartbeat case: [executionSync <- struct{}{}] *)
Definition handle_heartbeat (s : Scheduler) : Scheduler :=
  if executionSync s then set_pc BlockedHeartbeat s
  else set_syncs true (resourceSync s) (evaluationSync s) s.

(** ** The status of the workloads *)
Definition GetWorkloadsStatus (s : Scheduler) : gmap string JobState :=
  foldl (λ status t,
    match heap s !! t with
    | Some j =>
        match Kind (workload j) with
        | PodKind =>
            let name := match AsPod (workload j) with Some pod => Name pod | None => "" end in
            <[name := CurrentState j]> status
        | _ => status
        end
    | None => status
    end) ∅ (view (jobs s)).

(** The goroutine of [Start]: what it forwards to [run]. *)
Definition forward (m : Message T) : option (GOption (list T)) :=
  match MKind m with
  | WorkloadConfigurationMessage => Some (assert_workloads (Payload m))
  | ProfileConfigurationMessage => None
  end.

(** ** The transition relation *)
Inductive event :=
  | EInput (opt : GOption (list T))
  | EProfiles (results : list ProfileEvaluationResult)
  | EExecution
  | EResource
  | EEvaluation
  | EHeartbeat
  | EDone
  (** a reconciliation goroutine sends its result *)
  | EResolve (f : positive) (res : GResult JobState)
  | EResolveResource (f : positive) (err : option error)
  (** the world changes by itself *)
  | EWorld.

Definition lift (f : Scheduler → M W Scheduler) (sw : Scheduler * W) : Scheduler * W := f sw.1 sw.2.

Inductive step : Scheduler * W → event → Scheduler * W → Prop :=
  | st_input s w opt : pc s = Looping → step (s, w) (EInput opt) (handle_input opt s w)
  | st_profiles s w rs : pc s = Looping → step (s, w) (EProfiles rs) (handle_profiles rs s, w)
  | st_execution s w : pc s = Looping → executionSync s = true →
      step (s, w) EExecution (handle_execution s w)
  | st_resource s w : pc s = Looping → resourceSync s = true →
      step (s, w) EResource (handle_resource s w)
  | st_evaluation s w : pc s = Looping → evaluationSync s = true →
      step (s, w) EEvaluation (handle_evaluation s w)
  | st_heartbeat s w : pc s = Looping → step (s, w) EHeartbeat (handle_heartbeat s, w)
  | st_done s w : pc s = Looping → step (s, w) EDone (set_pc Stopped_ s, w)
  | st_resolve s w f r :
      step (s, w) (EResolve f r) (set_futures (resolve f r (futures s)) s, w)
  | st_resolve_resource s w f err :
      step (s, w) (EResolveResource f err) (set_resourceFutures (resolve f err (resourceFutures s)) s, w)
  | st_world s w w' : step (s, w) EWorld (s, w').

Inductive run : Scheduler * W → list event → Scheduler * W → Prop :=
  | run_nil sw : run sw [] sw
  | run_snoc sw1 es sw2 e sw3 : run sw1 es sw2 → step sw2 e sw3 → run sw1 (es ++ [e]) sw3.

Definition reachable (s : Scheduler) : Prop := ∃ w es w', run (newScheduler, w) es (s, w').
End scheduler.
Arguments Scheduler : clear implicits.
Arguments Scheduler T W {_ _}.
Arguments event : clear implicits.
