(* ===== verification/SchedulerFacts.v ===== *)
(** * Invariants of the scheduler

    What holds in every reachable state of [Scheduler.v]: the store is well
    formed, identifiers are distinct, a job marked for deletion has target
    [exited], every job has the hooks of [createJob] and at most one of a cron
    and a retry, and no reconciliation is lost or run twice. *)
From Stdlib Require Import Strings.String.
From S2P Require Import Prelude GoStd Entity Interfaces Job Store Profile Evaluate Reconcile Scheduler.
Local Open Scope string_scope.
Local Open Scope list_scope.

Section facts.
Context {T W : Type} `{Workload T} `{Clock W} `{CronLib} `{MapOrder W}.
Context `{Executor T W} `{ResourceManager W} `{RegexpLib}.
Implicit Types (s : Scheduler T W) (j : Job T W) (t : loc) (w : W).

Record job_ok j : Prop := {
  job_marked : IsMarkedForDeletion j = true → TargetState j = ExitedState;
  job_target : IsMarkedForDeletion j = false → TargetState j ∈ [ReadyState; RunningState; InactiveState];
  job_hooks : hooks j = standard_hooks;
  job_timers : cron j = None ∨ retry j = None
}.

Record inv s : Prop := {
  inv_wf : store_wf (jobs s);
  inv_heap : ∀ t, t ∈ view (jobs s) → is_Some (heap s !! t);
  inv_distinct : distinct (id_of s) (jobs s);
  inv_jobs : ∀ t j, heap s !! t = Some j → job_ok j;
  inv_futures : futures_ok (futures s)
}.

(** Two pointers of the store with one identifier are one pointer. *)
Lemma same_id s t u :
  inv s → t ∈ view (jobs s) → u ∈ view (jobs s) → id_of s t = id_of s u → t = u.
Proof. intros Hi. apply (NoDup_map_inj (id_of s)). exact (inv_distinct s Hi). Qed.

(** ** The state under updates of a job *)
Lemma id_of_update s t j j' :
  heap s !! t = Some j → workload j' = workload j →
  ∀ u, id_of (set_heap (<[t := j']> (heap s)) s) u = id_of s u.
Proof.
  intros Hj Hw u. unfold id_of. cbn [heap set_heap]. rewrite lookup_insert.
  case_decide as E; [|done]. subst u. rewrite Hj. unfold Job_ID. by rewrite Hw.
Qed.

Lemma distinct_ext (f g : loc → string) st : (∀ u, f u = g u) → distinct f st → distinct g st.
Proof. intros Hfg. unfold distinct. by rewrite (map_ext f g). Qed.

Lemma inv_update s t j j' :
  inv s → heap s !! t = Some j → workload j' = workload j → job_ok j' →
  inv (set_heap (<[t := j']> (heap s)) s).
Proof.
  intros [H1' H2' H3' H4' H5'] Hj Hw Hok. split; cbn [jobs heap futures set_heap]; try done.
  - intros u Hu. rewrite lookup_insert. case_decide; [by eexists | by apply H2'].
  - eapply distinct_ext; [|exact H3']. intros u. symmetry. by eapply id_of_update.
  - intros u ju. rewrite lookup_insert. case_decide; [by intros [= <-] | apply H4'].
Qed.

Lemma update_eq s t j f w :
  heap s !! t = Some j →
  update t f s w = (set_heap (<[t := (f j w).1]> (heap s)) s, (f j w).2).
Proof. intros Hj. unfold update. by rewrite Hj, M_bind_unfold. Qed.

Lemma update_inv s t f w :
  inv s →
  (∀ j w, job_ok j → job_ok (f j w).1 ∧ workload (f j w).1 = workload j) →
  inv (update t f s w).1.
Proof.
  intros Hi Hf. unfold update. destruct (heap s !! t) as [j|] eqn:Hj; [|done].
  rewrite M_bind_unfold. destruct (Hf j w (inv_jobs s Hi t j Hj)) as [Hok Hw].
  by eapply inv_update.
Qed.

(** ** Jobs under their methods *)
Lemma restart_hook_timers j st w :
  cron (restart_hook j st w).1 = cron j ∧ (retry j = None → retry (restart_hook j st w).1 = None).
Proof.
  split; [by destruct (restart_hook_frame j st w) as [r ->]|].
  intros Hr. unfold restart_hook. rewrite M_bind_unfold, Hr. cbn [fst snd mret M_ret]. by rewrite Hr.
Qed.

Lemma SetCurrentState_timers j st w :
  hooks j = standard_hooks →
  cron (SetCurrentState st j w).1 = cron j ∧ (retry j = None → retry (SetCurrentState st j w).1 = None).
Proof.
  intros Hh. rewrite SetCurrentState_standard by done. repeat case_match; try done.
  apply (restart_hook_timers (store_current st j)).
Qed.

Lemma SetCurrentState_ok j st w :
  job_ok j → job_ok (SetCurrentState st j w).1 ∧ workload (SetCurrentState st j w).1 = workload j.
Proof.
  intros [Hm Hg Hh Ht]. destruct (SetCurrentState_timers j st w Hh) as [Hc Hr].
  destruct (SetCurrentState_frame st j w) as [r E]. rewrite E in *. split; [|done]. split.
  - exact Hm.
  - exact Hg.
  - exact Hh.
  - rewrite Hc. destruct Ht; auto.
Qed.

Lemma apply_evaluation_ok r j w :
  job_ok j → IsMarkedForDeletion j = false →
  job_ok (apply_evaluation r j w).1 ∧ workload (apply_evaluation r j w).1 = workload j.
Proof.
  intros [Hm Hg Hh Ht] Hn. unfold apply_evaluation. destruct (Active r).
  - rewrite M_bind_unfold, SetTargetState_standard by done. cbn [fst snd mret M_ret].
    destruct (negb _); (split; [split; cbn; [congruence|set_solver|done|done] | done]).
  - rewrite SetTargetState_standard by done. split; [split; cbn; [congruence|set_solver|done|done] | done].
Qed.

(** [remove_job] in closed form. *)
Definition removed_job (j : Job T W) : Job T W := store_target ExitedState (MarkForDeletion j).

Lemma remove_job_eq s t j w :
  inv s → heap s !! t = Some j →
  remove_job t s w = (set_heap (<[t := removed_job j]> (heap s)) s, w).
Proof.
  intros Hi Hj. unfold remove_job. rewrite M_bind_unfold.
  rewrite (update_eq s t j _ w Hj). cbn [fst snd mret M_ret].
  rewrite (update_eq _ t (MarkForDeletion j)) by (cbn [heap set_heap]; by rewrite lookup_insert_eq).
  rewrite (SetTargetState_standard ExitedState (MarkForDeletion j)) by apply (inv_jobs s Hi t j Hj).
  cbn [fst snd heap set_heap]. by rewrite insert_insert_eq.
Qed.

Lemma remove_job_none s t w : heap s !! t = None → remove_job t s w = (s, w).
Proof.
  intros Hj. unfold remove_job. rewrite M_bind_unfold. unfold update. rewrite Hj.
  cbn [fst snd mret M_ret]. by rewrite Hj.
Qed.

Lemma remove_job_jobs t s w : jobs (remove_job t s w).1 = jobs s.
Proof.
  unfold remove_job. rewrite M_bind_unfold. unfold update.
  destruct (heap s !! t) as [ju|]; cbn [fst snd mret M_ret].
  - rewrite M_bind_unfold. cbn [fst snd mret M_ret heap set_heap].
    rewrite lookup_insert_eq. by rewrite M_bind_unfold.
  - by case_match; [rewrite M_bind_unfold|].
Qed.

Lemma removed_job_ok j : job_ok j → job_ok (removed_job j).
Proof. by intros [Hm Hg Hh Ht]. Qed.

Lemma remove_job_inv t s w : inv s → inv (remove_job t s w).1.
Proof.
  intros Hi. destruct (heap s !! t) as [j|] eqn:Hj.
  - rewrite (remove_job_eq s t j w Hi Hj). eapply inv_update; [done|done|done|].
    apply removed_job_ok. by apply (inv_jobs s Hi t).
  - by rewrite remove_job_none.
Qed.

(** ** Creation *)
(** [createJob] in closed form. *)
Lemma createJob_eq x w :
  createJob x w =
    let now := (Now w).1 in
    if decide (Cron x = "") then
      (inr (MkJob x ReadyState ReadyState false None
              (Some (MkRetryJob false now (ConstantBackOff retry_interval))) standard_hooks
              CpuResource_zero CpuResource_zero), (Now w).2)
    else match cron_Parse (Cron x) with
         | inl err => (inl err, w)
         | inr sched =>
             (inr (MkJob x ReadyState ReadyState false (Some (MkCronJob (Schedule_Next sched now) sched))
                     None standard_hooks CpuResource_zero CpuResource_zero), (Now w).2)
         end.
Proof.
  unfold createJob, Build. destruct (decide (Cron x = "")) as [Hc|Hc].
  - rewrite (bool_decide_eq_false_2 (Cron x ≠ "")) by naive_solver. cbn.
    rewrite (bool_decide_eq_true_2 ("" = "")) by done.
    unfold mbind, M_bind, mret, M_ret. by destruct (Now w).
  - rewrite (bool_decide_eq_true_2 (Cron x ≠ "")) by done. cbn.
    rewrite (bool_decide_eq_false_2 (Cron x = "")) by done.
    unfold mbind, M_bind, mret, M_ret. destruct (cron_Parse (Cron x)); [done|].
    by destruct (Now w).
Qed.

Lemma createJob_spec x w j :
  (createJob x w).1 = inr j →
  workload j = x ∧ job_ok j ∧ IsMarkedForDeletion j = false ∧
  CurrentState j = ReadyState ∧ TargetState j = ReadyState ∧
  TargetResources j = CpuResource_zero ∧
  (cron j = None ↔ Cron x = "") ∧ (retry j = None ↔ Cron x ≠ "").
Proof.
  rewrite createJob_eq. destruct (decide (Cron x = "")) as [Hc|Hc].
  - cbn. intros [= <-]. cbn. rewrite Hc. repeat split; first [by intros; left | naive_solver].
  - destruct (cron_Parse (Cron x)) as [err|sched]; [done|].
    cbn. intros [= <-]. cbn. repeat split; first [by intros; left | naive_solver].
Qed.

(** A specification the cron library accepts, or none. *)
Definition creatable (x : T) : Prop := Cron x = "" ∨ ∃ sched, cron_Parse (Cron x) = inr sched.

Lemma createJob_creatable x w : creatable x ↔ ∃ j, (createJob x w).1 = inr j.
Proof.
  unfold creatable. rewrite createJob_eq. destruct (decide (Cron x = "")) as [Hc|Hc].
  - split; [eauto|]. by left.
  - destruct (cron_Parse (Cron x)) as [err|sched]; cbn; naive_solver.
Qed.

Lemma add_job_view s j :
  inv s → view (jobs (add_job j s)) = view (jobs s) ++ [fresh (dom (heap s))].
Proof. intros Hi. unfold add_job. cbn [jobs set_jobs]. apply Add_view. apply Hi. Qed.

Lemma fresh_not_in_view s : inv s → fresh (dom (heap s)) ∉ view (jobs s).
Proof.
  intros Hi Hin. destruct (inv_heap s Hi _ Hin) as [j Hj].
  apply (is_fresh (dom (heap s))). by eapply elem_of_dom_2.
Qed.

Lemma add_job_id_of s j u :
  inv s → u ∈ view (jobs s) → id_of (add_job j s) u = id_of s u.
Proof.
  intros Hi Hu. unfold id_of, add_job. cbn [heap set_jobs set_heap]. rewrite lookup_insert_ne; [done|].
  intros <-. by apply (fresh_not_in_view s Hi).
Qed.

Lemma add_job_ids s j : inv s → ids_of (add_job j s) = ids_of s ++ [Job_ID j].
Proof.
  intros Hi. unfold ids_of. rewrite add_job_view, map_app by done. f_equal.
  - apply map_ext_in. intros u Hu%list_elem_of_In. by apply add_job_id_of.
  - simpl. f_equal. unfold id_of, add_job. cbn [heap set_jobs set_heap]. by rewrite lookup_insert_eq.
Qed.

Lemma add_job_inv s j : inv s → job_ok j → Job_ID j ∉ ids_of s → inv (add_job j s).
Proof.
  intros Hi Hok Hid. split.
  - unfold add_job. cbn [jobs set_jobs]. apply Add_wf, Hi.
  - intros u. rewrite add_job_view by done. unfold add_job. cbn [heap set_jobs set_heap].
    rewrite elem_of_app, list_elem_of_singleton, lookup_insert. case_decide; [by eexists|].
    intros [Hu| ->]; [by apply (inv_heap s Hi) | done].
  - unfold distinct. change (NoDup (ids_of (add_job j s))). rewrite add_job_ids by done.
    apply list.NoDup_app. split; [apply Hi|]. split; [|apply NoDup_singleton].
    intros x Hx Hx'. apply list_elem_of_singleton in Hx'. by subst.
  - intros u ju. unfold add_job. cbn [heap set_jobs set_heap]. rewrite lookup_insert.
    case_decide; [by intros [= <-] | by apply (inv_jobs s Hi)].
  - apply (inv_futures s Hi).
Qed.

Lemma add_jobs_inv ws s w :
  inv s → NoDup (map ID ws) → (∀ x, x ∈ ws → ID x ∉ ids_of s) → inv (add_jobs ws s w).1.
Proof.
  revert s w. induction ws as [|x ws IH]; intros s w Hi Hd Hn; [done|].
  cbn [add_jobs]. rewrite M_bind_unfold. cbn [map] in Hd. apply list.NoDup_cons in Hd as [Hx Hd].
  destruct (createJob x w).1 as [err|j] eqn:E.
  - apply IH; [done|done|]. intros y Hy. apply Hn. by right.
  - apply createJob_spec in E as (Hw & Hok & _).
    assert (Job_ID j = ID x) as Hj by (unfold Job_ID; by rewrite Hw).
    apply IH; [|done|].
    + apply add_job_inv; [done|done|]. rewrite Hj. apply Hn. by left.
    + intros y Hy. rewrite add_job_ids, elem_of_app, list_elem_of_singleton, Hj by done.
      intros [Hin|E]; [eapply Hn; [by right|done]|]. apply Hx. rewrite <-E.
      by apply (list_elem_of_fmap_2 ID).
Qed.

(** ** Loops and components of the state *)
Lemma over_list_inv {St : Type} (I : St → Prop) l body (st : St) w :
  (∀ t st (w : W), I st → I (body t st w).1) → I st → I (over_list l body st w).1.
Proof.
  intros Hb. revert st w. induction l as [|t l IH]; intros st w Hi; [done|].
  simpl. rewrite M_bind_unfold. apply IH, Hb, Hi.
Qed.

Lemma inv_set_syncs s e r v : inv s → inv (set_syncs e r v s).
Proof. by intros []. Qed.
Lemma inv_set_pc s p : inv s → inv (set_pc p s).
Proof. by intros []. Qed.
Lemma inv_set_results s rs : inv s → inv (set_results rs s).
Proof. by intros []. Qed.
Lemma inv_set_resourceFutures s fs : inv s → inv (set_resourceFutures fs s).
Proof. by intros []. Qed.
Lemma inv_set_futures s fs : inv s → futures_ok fs → inv (set_futures fs s).
Proof. by intros []. Qed.
Hint Resolve inv_set_syncs inv_set_pc inv_set_results inv_set_resourceFutures inv_set_futures : flotta.

Lemma lookup_future_none id s :
  inv s → lookup_future id (futures s) = None → current (futures s) !! id = None.
Proof.
  intros Hi. unfold lookup_future. destruct (current (futures s) !! id) as [f|] eqn:E; [|done].
  destruct (proj1 (inv_futures s Hi) _ _ E) as (fu & Ho & _). simpl. by rewrite Ho.
Qed.

Lemma delete_inv s t : inv s → inv (set_jobs (Delete (id_of s) t (jobs s)).2 s).
Proof.
  intros [H1' H2' H3' H4' H5']. split; cbn [jobs heap futures set_jobs]; try done.
  - by apply Delete_wf.
  - intros u Hu. apply H2'. eapply elem_of_submseteq; [exact Hu|].
    by apply sublist_submseteq, Delete_view_sub.
  - apply (distinct_ext (id_of s)); [done|]. by apply Delete_distinct.
Qed.

(** ** Every case of the [select] keeps the invariant *)
Lemma handle_input_inv opt s w : inv s → inv (handle_input opt s w).1.
Proof.
  intros Hi. unfold handle_input. destruct (None_ opt).
  - apply for_range_inv; [|done]. intros. by apply remove_job_inv.
  - rewrite !M_bind_unfold. apply over_list_inv; [intros; by apply remove_job_inv|].
    apply inv_set_syncs. set (w1 := (substract (id_of s) ID _ _ w).2).
    destruct (substract_members ID (id_of s) (Value opt) (view (jobs s)) w1) as [Hd Hin].
    apply add_jobs_inv; [done|done|]. intros x Hx. by apply Hin in Hx as [_ ?].
Qed.

Lemma poll_job_inv t id fut s w :
  inv s → lookup_future id (futures s) = Some fut → inv (poll_job t id fut s w).1.
Proof.
  intros Hi Hl. unfold poll_job. destruct fut as [res|]; [|done].
  rewrite M_bind_unfold. cbn [fst mret M_ret].
  assert (∀ s' : Scheduler T W, inv s' → futures s' = futures s → inv (set_futures (finish id (futures s')) s')) as Hf.
  { intros s' Hi' E. apply inv_set_futures; [done|]. rewrite E.
    eapply finish_ok; [apply Hi | exact Hl]. }
  destruct (Error res); [by apply Hf|]. apply Hf.
  - apply update_inv; [done|]. intros. by apply SetCurrentState_ok.
  - unfold update. case_match; [|done]. by rewrite M_bind_unfold.
Qed.

Lemma cron_allows_ok j w : job_ok j → job_ok (cron_allows j w).1.2 ∧ workload (cron_allows j w).1.2 = workload j.
Proof.
  intros Hj. unfold cron_allows. destruct (cron j) as [cj|] eqn:Ec; [|done].
  case_bool_decide; [|done]. rewrite M_bind_unfold. destruct (CronJob_CanReconcile cj w).1; [|done].
  rewrite M_bind_unfold. cbn [fst snd mret M_ret]. destruct Hj as [Hm Hg Hh Ht].
  split; [|done]. split; cbn; try done. right. destruct Ht; [congruence|done].
Qed.

Lemma advance_inv t j s w :
  inv s → heap s !! t = Some j → current (futures s) !! Job_ID j = None → inv (advance t j s w).1.
Proof.
  intros Hi Hj Hc. unfold advance. destruct (removable j).
  { cbn [fst mret M_ret]. apply (inv_set_futures (set_jobs (Delete (id_of s) t (jobs s)).2 s)).
    - by apply delete_inv.
    - rewrite forget_ok by (done || apply Hi). apply Hi. }
  destruct (negb (shouldReconcile j)); [done|]. rewrite M_bind_unfold.
  destruct (negb _); [done|]. rewrite M_bind_unfold.
  set (w1 := (retry_allows j w).2).
  destruct (cron_allows_ok j w1 (inv_jobs s Hi t j Hj)) as [Hok Hw].
  assert (inv (set_heap (<[t := (cron_allows j w1).1.2]> (heap s)) s)) as Hi' by by eapply inv_update.
  destruct (negb _); [done|]. apply inv_set_futures; [done|].
  apply start_ok; [apply Hi | done].
Qed.

Lemma execute_job_inv t s w : inv s → inv (execute_job t s w).1.
Proof.
  intros Hi. unfold execute_job. destruct (heap s !! t) as [j|] eqn:Hj; [|done].
  destruct (lookup_future (Job_ID j) (futures s)) as [fut|] eqn:Hf; [by apply poll_job_inv|].
  rewrite M_bind_unfold. set (st := (GetState (workload j) w).1). destruct (Error st); [done|].
  rewrite M_bind_unfold. set (w1 := (GetState (workload j) w).2).
  destruct (SetCurrentState_ok j (RValue st) w1 (inv_jobs s Hi t j Hj)) as [Hok Hw].
  apply advance_inv.
  - by eapply inv_update.
  - cbn [heap set_heap]. by rewrite lookup_insert_eq.
  - unfold Job_ID. rewrite Hw. exact (lookup_future_none (Job_ID j) s Hi Hf).
Qed.

Lemma handle_execution_inv s w : inv s → inv (handle_execution s w).1.
Proof.
  intros Hi. unfold handle_execution. rewrite M_bind_unfold. apply inv_set_syncs.
  apply for_range_inv; [intros; by apply execute_job_inv | by apply inv_set_syncs].
Qed.

Lemma poll_resource_inv t id s w : inv s → inv (poll_resource t id s w).1.
Proof.
  intros Hi. unfold poll_resource. destruct (lookup_future _ _) as [[err|]|]; try done.
  rewrite M_bind_unfold. cbn [fst mret M_ret]. apply inv_set_resourceFutures.
  destruct err; [done|]. apply update_inv; [done|]. by intros j' w' [].
Qed.

Lemma sync_job_inv t s w : inv s → inv (sync_job t s w).1.
Proof.
  intros Hi. unfold sync_job. destruct (pc s); try done. destruct (heap s !! t) as [j|]; [|done].
  destruct (CpuResource_Equal _ _); [done|]. rewrite M_bind_unfold.
  pose proof (poll_resource_inv t (Job_ID j) s w Hi) as Hp.
  set (s1 := (poll_resource t (Job_ID j) s w).1) in *.
  destruct (negb _); [done|]. rewrite M_bind_unfold.
  destruct (getJobResources _ _).1 as [res|]; [|by apply inv_set_pc].
  destruct (Error res); [done|]. rewrite M_bind_unfold.
  match goal with |- context [update t ?f s1 ?w'] => assert (inv (update t f s1 w').1) as Hu end.
  { apply update_inv; [done|]. by intros j' w' []. }
  destruct (CpuResource_Equal _ _); [done|]. by apply inv_set_resourceFutures.
Qed.

Lemma handle_resource_inv s w : inv s → inv (handle_resource s w).1.
Proof.
  intros Hi. unfold handle_resource. apply for_range_inv; [intros; by apply sync_job_inv | by apply inv_set_syncs].
Qed.

Lemma evaluate_job_inv t s w : inv s → inv (evaluate_job t s w).1.
Proof.
  intros Hi. unfold evaluate_job. destruct (heap s !! t) as [j|] eqn:Hj; [|done].
  destruct (IsMarkedForDeletion j) eqn:Hm; [done|]. rewrite M_bind_unfold.
  set (r := (evaluate _ _ w).1). set (w1 := (evaluate _ _ w).2).
  rewrite (update_eq s t j _ w1 Hj). cbn [fst].
  destruct (apply_evaluation_ok r j w1 (inv_jobs s Hi t j Hj) Hm). by eapply inv_update.
Qed.

Lemma handle_evaluation_inv s w : inv s → inv (handle_evaluation s w).1.
Proof.
  intros Hi. unfold handle_evaluation. rewrite M_bind_unfold. apply inv_set_syncs.
  apply for_range_inv; [intros; by apply evaluate_job_inv | by apply inv_set_syncs].
Qed.

Lemma step_inv s w e s' w' : inv s → step (s, w) e (s', w') → inv s'.
Proof.
  intros Hi Hs. inversion Hs; subst; try done.
  - pose proof (handle_input_inv opt s w Hi) as Hx. by destruct (handle_input opt s w); simplify_eq.
  - unfold handle_profiles. case_bool_decide; [done|]. by apply inv_set_syncs, inv_set_results.
  - pose proof (handle_execution_inv s w Hi) as Hx. by destruct (handle_execution s w); simplify_eq.
  - pose proof (handle_resource_inv s w Hi) as Hx. by destruct (handle_resource s w); simplify_eq.
  - pose proof (handle_evaluation_inv s w Hi) as Hx. by destruct (handle_evaluation s w); simplify_eq.
  - unfold handle_heartbeat. case_match; [by apply inv_set_pc | by apply inv_set_syncs].
  - by apply inv_set_pc.
  - apply inv_set_futures; [done|]. apply resolve_ok, Hi.
  - by apply inv_set_resourceFutures.
Qed.

Lemma newScheduler_inv : inv (newScheduler (T := T) (W := W)).
Proof.
  split; cbn [newScheduler jobs heap futures].
  - unfold store_wf. simpl. lia.
  - intros t Ht. by apply not_elem_of_nil in Ht.
  - constructor.
  - intros t j. by rewrite lookup_empty.
  - apply no_futures_ok.
Qed.

Lemma run_inv_general sw es sw' : run sw es sw' → inv sw.1 → inv sw'.1.
Proof.
  induction 1 as [|sw1 es [s2 w2] e [s3 w3] _ IH Hs]; [done|]. intros Hi.
  eapply step_inv; [by apply IH | exact Hs].
Qed.

Lemma reachable_inv s : reachable s → inv s.
Proof. intros (w & es & w' & Hr). apply run_inv_general in Hr; [done|]. apply newScheduler_inv. Qed.
End facts.
