(* ===== verification/SchedulerProps.v ===== *)
(** * Properties of the scheduler

    What the cases of the [select] do to the jobs, and what holds in every
    reachable state; the invariant is in [SchedulerFacts.v]. *)
From Stdlib Require Import Strings.String.
From S2P Require Import Prelude GoStd Entity Interfaces Job Store Profile Evaluate Reconcile Scheduler SchedulerFacts.
Local Open Scope string_scope.
Local Open Scope list_scope.

Section props.
Context {T W : Type} `{Workload T} `{Clock W} `{CronLib} `{MapOrder W}.
Context `{Executor T W} `{ResourceManager W} `{RegexpLib}.
Implicit Types (s : Scheduler T W) (j : Job T W) (t : loc) (w : W).

(** ** Loops whose body works on the job it is given *)

(** [body] changes the job of [t] as [P] says, no other job, and keeps [C]. *)
Definition pointwise (C : Scheduler T W → Prop) (P : Job T W → Job T W → Prop)
    (body : loc → Scheduler T W → M W (Scheduler T W)) : Prop :=
  ∀ t s w, C s →
    C (body t s w).1 ∧
    (∀ u, u ≠ t → heap (body t s w).1 !! u = heap s !! u) ∧
    (∀ j, heap s !! t = Some j → ∃ j', heap (body t s w).1 !! t = Some j' ∧ P j j').

Lemma over_list_pointwise C P body l s w :
  pointwise C P body → NoDup l → C s →
  C (over_list l body s w).1 ∧
  (∀ u, u ∉ l → heap (over_list l body s w).1 !! u = heap s !! u) ∧
  (∀ u j, u ∈ l → heap s !! u = Some j →
     ∃ j', heap (over_list l body s w).1 !! u = Some j' ∧ P j j').
Proof.
  intros Hb Hd. revert s w. induction Hd as [|t l Ht Hd IH]; intros s w Hc.
  - split; [done|]. split; [done|]. intros u j Hu. by apply not_elem_of_nil in Hu.
  - simpl. rewrite M_bind_unfold. destruct (Hb t s w Hc) as (Hc1 & Hne & Heq).
    destruct (IH (body t s w).1 (body t s w).2 Hc1) as (Hc2 & IHn & IHin).
    split; [done|]. split.
    + intros u Hu. apply not_elem_of_cons in Hu as [Hu Hul]. by rewrite IHn, Hne.
    + intros u j Hu Hj. destruct (decide (u = t)) as [->|Hut].
      * rewrite IHn by done. by apply Heq.
      * apply elem_of_cons in Hu as [?|Hu]; [done|]. apply (IHin u j Hu). by rewrite Hne.
Qed.

Lemma view_NoDup s : inv s → NoDup (view (jobs s)).
Proof. intros Hi. eapply NoDup_fmap_1. exact (inv_distinct s Hi). Qed.

Lemma remove_job_pointwise st :
  pointwise (λ s, inv s ∧ jobs s = st) (λ j j', j' = removed_job j) remove_job.
Proof.
  intros t s w [Hi Hst]. pose proof (remove_job_inv t s w Hi) as Hi'.
  destruct (heap s !! t) as [j|] eqn:Hj.
  - rewrite (remove_job_eq s t j w Hi Hj) in *. cbn [fst heap jobs set_heap] in *. split; [done|].
    split; [intros u Hu; by rewrite lookup_insert_ne|]. intros j0 [= <-].
    rewrite lookup_insert_eq. eauto.
  - rewrite remove_job_none in * by done. done.
Qed.

(** ** Configuration messages *)
Lemma add_jobs_frame ws s w :
  inv s → NoDup (map ID ws) → (∀ x, x ∈ ws → ID x ∉ ids_of s) →
  let s' := (add_jobs ws s w).1 in
  (∃ l, view (jobs s') = view (jobs s) ++ l ∧
     ∀ t, t ∈ l → ∃ j, heap s' !! t = Some j ∧ workload j ∈ ws ∧ IsMarkedForDeletion j = false ∧
                       CurrentState j = ReadyState ∧ TargetState j = ReadyState) ∧
  (∀ t j, heap s !! t = Some j → heap s' !! t = Some j) ∧
  (∀ x, x ∈ ws → creatable x → ID x ∈ ids_of s') ∧
  (∀ i, i ∈ ids_of s → i ∈ ids_of s').
Proof.
  revert s w. induction ws as [|x ws IH]; intros s w Hi Hd Hn s'.
  { split; [exists []; split; [by rewrite app_nil_r|]; intros t Ht; by apply not_elem_of_nil in Ht|].
    split; [done|]. split; [|done]. intros x Hx. by apply not_elem_of_nil in Hx. }
  unfold s'. cbn [add_jobs]. rewrite M_bind_unfold.
  cbn [map] in Hd. apply list.NoDup_cons in Hd as [Hx Hd].
  assert (∀ y, y ∈ ws → ID y ∉ ids_of s) as Hn' by (intros; apply Hn; by right).
  destruct (createJob x w).1 as [err|j] eqn:E.
  - destruct (IH s (createJob x w).2 Hi Hd Hn') as ((l & Hl & Hnew) & Hold & Hall & Hids).
    split; [exists l; split; [done|]; intros t Ht; destruct (Hnew t Ht) as (j & ? & ? & ?); exists j;
            split; [done|]; split; [by right|done]|].
    split; [done|]. split; [|done]. intros y Hy Hc. apply elem_of_cons in Hy as [->|Hy]; [|by apply Hall].
    apply (createJob_creatable x w) in Hc as [j Hj]. congruence.
  - destruct (createJob_spec x w j E) as (Hw & Hok & Hm & Hcs & Hts & _).
    assert (Job_ID j = ID x) as Hid by (unfold Job_ID; by rewrite Hw).
    assert (inv (add_job j s)) as Hi1.
    { apply add_job_inv; [done|done|]. rewrite Hid. apply Hn. by left. }
    assert (∀ y, y ∈ ws → ID y ∉ ids_of (add_job j s)) as Hn1.
    { intros y Hy. rewrite add_job_ids, elem_of_app, list_elem_of_singleton, Hid by done.
      intros [Hin|E']; [by eapply Hn'|]. apply Hx. rewrite <-E'. by apply (list_elem_of_fmap_2 ID). }
    destruct (IH (add_job j s) (createJob x w).2 Hi1 Hd Hn1) as ((l & Hl & Hnew) & Hold & Hall & Hids).
    set (f := fresh (dom (heap s))) in *.
    assert (heap (add_job j s) !! f = Some j) as Hf
      by (unfold add_job; cbn [heap set_jobs set_heap]; by rewrite lookup_insert_eq).
    split; [|split; [|split]].
    + exists (f :: l). rewrite Hl, add_job_view, <-app_assoc by done. split; [done|].
      intros t Ht. apply elem_of_cons in Ht as [->|Ht].
      * exists j. split; [by apply Hold|]. rewrite Hw. split; [left|done].
      * destruct (Hnew t Ht) as (j' & ? & ? & ?). exists j'. split; [done|]. split; [by right|done].
    + intros t j0 Hj0. apply Hold. unfold add_job. cbn [heap set_jobs set_heap].
      rewrite lookup_insert_ne; [done|]. intros <-.
      apply (is_fresh (dom (heap s))). by eapply elem_of_dom_2.
    + intros y Hy Hc. apply elem_of_cons in Hy as [->|Hy]; [|by apply Hall].
      apply Hids. rewrite add_job_ids, elem_of_app, list_elem_of_singleton by done. by right.
    + intros i Hin. apply Hids. rewrite add_job_ids, elem_of_app by done. by left.
Qed.

(** Removing jobs from a list keeps the store and the identifiers. *)
Lemma over_remove_frame l s w :
  inv s → NoDup l →
  let s' := (over_list l remove_job s w).1 in
  inv s' ∧ jobs s' = jobs s ∧ ids_of s' = ids_of s ∧
  (∀ u, u ∉ l → heap s' !! u = heap s !! u) ∧
  (∀ u j, u ∈ l → heap s !! u = Some j → heap s' !! u = Some (removed_job j)).
Proof.
  intros Hi Hd s'.
  destruct (over_list_pointwise _ _ _ l s w (remove_job_pointwise (jobs s)) Hd (conj Hi eq_refl))
    as ((Hi' & Hj') & Hne & Hin). fold s' in Hi', Hj', Hne, Hin.
  assert (∀ u j, u ∈ l → heap s !! u = Some j → heap s' !! u = Some (removed_job j)) as Hin'.
  { intros u j Hu Hj. by destruct (Hin u j Hu Hj) as (j' & ? & ->). }
  split; [done|]. split; [done|]. split; [|done].
  unfold ids_of. rewrite Hj'. apply map_ext_in. intros u Hu%list_elem_of_In.
  destruct (inv_heap s Hi u Hu) as [ju Hju]. unfold id_of. rewrite Hju.
  destruct (decide (u ∈ l)) as [Hl|Hl]; [by rewrite (Hin' u ju) | by rewrite Hne, Hju].
Qed.

(** The two lists [handle_input] computes. *)
Lemma input_lists ws s w :
  inv s →
  let toRemove := (substract (id_of s) ID (view (jobs s)) ws w).1 in
  let news := (substract ID (id_of s) ws (view (jobs s)) (substract (id_of s) ID (view (jobs s)) ws w).2).1 in
  NoDup toRemove ∧ NoDup (map ID news) ∧
  (∀ t, t ∈ toRemove ↔ t ∈ view (jobs s) ∧ id_of s t ∉ map ID ws) ∧
  (∀ x, x ∈ news ↔ last_with ID ws (ID x) = Some x ∧ ID x ∉ ids_of s).
Proof.
  intros Hi toRemove news.
  destruct (substract_members (id_of s) ID (view (jobs s)) ws w) as [Hd1 Hin1].
  destruct (substract_members ID (id_of s) ws (view (jobs s)) (substract (id_of s) ID (view (jobs s)) ws w).2)
    as [Hd2 Hin2].
  split; [by eapply NoDup_fmap_1|]. split; [done|]. split; [|done].
  intros t. unfold toRemove. rewrite Hin1. split.
  - intros [Hl Hn]. by apply last_with_Some in Hl as [? _].
  - intros [Ht Hn]. split; [|done]. apply last_with_unique; [exact (inv_distinct s Hi) | done].
Qed.

(** The effect of a list of workloads on a state that satisfies the invariant. *)
Lemma input_effect ws s w :
  inv s →
  let s' := (handle_input (MkOption ws false) s w).1 in
  (∃ l, view (jobs s') = view (jobs s) ++ l ∧
     ∀ t, t ∈ l → ∃ j, heap s' !! t = Some j ∧ workload j ∈ ws ∧ IsMarkedForDeletion j = false ∧
                       CurrentState j = ReadyState ∧ TargetState j = ReadyState) ∧
  (∀ t j, t ∈ view (jobs s) → heap s !! t = Some j →
     heap s' !! t = Some (if bool_decide (Job_ID j ∈ map ID ws) then j else removed_job j)) ∧
  (∀ x, last_with ID ws (ID x) = Some x → creatable x → ID x ∈ ids_of s').
Proof.
  intros Hi s'. unfold s', handle_input. cbn [None_ Value]. rewrite !M_bind_unfold.
  destruct (input_lists ws s w Hi) as (Hd1 & Hd2 & Hin1 & Hin2).
  set (toRemove := (substract (id_of s) ID (view (jobs s)) ws w).1) in *.
  set (w1 := (substract (id_of s) ID (view (jobs s)) ws w).2) in *.
  set (news := (substract ID (id_of s) ws (view (jobs s)) w1).1) in *.
  set (w2 := (substract ID (id_of s) ws (view (jobs s)) w1).2).
  assert (∀ x, x ∈ news → ID x ∉ ids_of s) as Hn by (intros x Hx; by apply Hin2 in Hx as [_ ?]).
  pose proof (add_jobs_inv news s w2 Hi Hd2 Hn) as Hi2.
  destruct (add_jobs_frame news s w2 Hi Hd2 Hn) as ((l & Hl & Hnew) & Hold & Hall & Hids).
  set (s2 := (add_jobs news s w2).1) in *.
  destruct (over_remove_frame toRemove (set_syncs (executionSync s2) (resourceSync s2) true s2)
    (add_jobs news s w2).2 (inv_set_syncs _ _ _ _ Hi2) Hd1) as (Hi4 & Hj4 & Hids4 & Hne4 & Hin4).
  set (s4 := (over_list toRemove remove_job _ _).1) in *.
  cbn [jobs heap set_syncs] in Hj4, Hne4, Hin4. split; [|split].
  - exists l. rewrite Hj4. split; [done|]. intros t Ht. destruct (Hnew t Ht) as (j & Hj & Hw & Hrest).
    exists j. rewrite Hne4.
    + split; [done|]. split; [|done]. apply Hin2 in Hw as [Hw _]. by apply last_with_Some in Hw as [? _].
    + intros [Hr _]%Hin1. pose proof (view_NoDup s2 Hi2) as Hnd. rewrite Hl in Hnd.
      apply list.NoDup_app in Hnd as (_ & Hnd & _). by apply (Hnd t).
  - intros t j Ht Hj. assert (id_of s t = Job_ID j) as Hidt by (unfold id_of; by rewrite Hj).
    case_bool_decide as Hws.
    + rewrite Hne4; [by apply Hold|]. rewrite Hin1, Hidt. naive_solver.
    + apply Hin4; [|by apply Hold]. apply Hin1. by rewrite Hidt.
  - intros x Hx Hc. rewrite Hids4. change (ID x ∈ ids_of s2).
    destruct (decide (ID x ∈ ids_of s)) as [Hin|Hnin]; [by apply Hids|].
    apply Hall; [|done]. by apply Hin2.
Qed.

(** C1: on a list of workloads the scheduler adds, at the end of its jobs and
    ready, workloads of the list; keeps the jobs whose identifier is listed as
    they are; marks the others for deletion with target [exited]; and after
    it every listed workload with an acceptable cron specification has a
    job (of several workloads with one identifier, the last counts). *)
Theorem input_spec ws s w :
  reachable s →
  let s' := (handle_input (MkOption ws false) s w).1 in
  (∃ l, view (jobs s') = view (jobs s) ++ l ∧
     ∀ t, t ∈ l → ∃ j, heap s' !! t = Some j ∧ workload j ∈ ws ∧ IsMarkedForDeletion j = false ∧
                       CurrentState j = ReadyState ∧ TargetState j = ReadyState) ∧
  (∀ t j, t ∈ view (jobs s) → heap s !! t = Some j →
     heap s' !! t = Some (if bool_decide (Job_ID j ∈ map ID ws) then j else removed_job j)) ∧
  (∀ x, last_with ID ws (ID x) = Some x → creatable x → ID x ∈ ids_of s').
Proof. intros Hr. by apply input_effect, reachable_inv. Qed.

(** a workload that is listed again while its job is waiting to be deleted
    is lost: the job stays marked with target [exited], and no other job is
    made for it. *)
Theorem relisted_stays_marked ws s w t j :
  reachable s → t ∈ view (jobs s) → heap s !! t = Some j → IsMarkedForDeletion j = true →
  Job_ID j ∈ map ID ws →
  let s' := (handle_input (MkOption ws false) s w).1 in
  ∃ j', heap s' !! t = Some j' ∧ IsMarkedForDeletion j' = true ∧ TargetState j' = ExitedState ∧
    ∀ u ju, u ∈ view (jobs s') → heap s' !! u = Some ju → Job_ID ju = Job_ID j → u = t.
Proof.
  intros Hr Ht Hj Hm Hws s'. pose proof (reachable_inv s Hr) as Hi.
  pose proof (handle_input_inv (MkOption ws false) s w Hi) as Hi'. fold s' in Hi'.
  destruct (input_effect ws s w Hi) as ((l & Hl & _) & Hkeep & _). fold s' in Hl, Hkeep.
  specialize (Hkeep t j Ht Hj). rewrite bool_decide_eq_true_2 in Hkeep by done.
  exists j. split; [done|]. split; [done|]. split; [by apply (inv_jobs s Hi t j Hj)|].
  intros u ju Hu Hju Hid.
  assert (t ∈ view (jobs s')) as Ht' by (rewrite Hl, elem_of_app; by left).
  apply (same_id s'); [done|done|done|]. unfold id_of. by rewrite Hju, Hkeep, Hid.
Qed.

(** a message without workloads marks every job for deletion; a message
    whose payload has another type does the same. *)
Theorem no_workloads_marks_all s w t j :
  reachable s → t ∈ view (jobs s) → heap s !! t = Some j →
  heap (handle_input (MkOption [] true) s w).1 !! t = Some (removed_job j) ∧
  ∃ opt, forward (MkMessage WorkloadConfigurationMessage POther) = Some opt ∧
    heap (handle_input opt s w).1 !! t = Some (removed_job j).
Proof.
  intros Hr Ht Hj. pose proof (reachable_inv s Hr) as Hi. split.
  - unfold handle_input. cbn [None_].
    rewrite for_range_stable by (apply remove_job_jobs || apply Hi).
    destruct (over_remove_frame (view (jobs s)) s w Hi (view_NoDup s Hi)) as (_ & _ & _ & _ & Hin).
    by apply Hin.
  - exists (MkOption [] false). split; [done|].
    destruct (input_effect [] s w Hi) as (_ & Hk & _). rewrite (Hk t j Ht Hj).
    rewrite bool_decide_eq_false_2; [done|]. apply not_elem_of_nil.
Qed.

(** ** Every reachable state *)

(** in every reachable state no two jobs have the same identifier. *)
Theorem jobs_distinct s : reachable s → NoDup (ids_of s).
Proof. intros Hr. exact (inv_distinct s (reachable_inv s Hr)). Qed.

(** C10: in every reachable state the jobs whose target is [exited] are those
    marked for deletion, any other target is [ready], [running] or [inactive],
    and a job has a cron or a retry, never both. *)
Theorem marked_jobs_exit s t j :
  reachable s → heap s !! t = Some j →
  (IsMarkedForDeletion j = true ↔ TargetState j = ExitedState) ∧
  TargetState j ∈ [ReadyState; RunningState; InactiveState; ExitedState] ∧ (cron j = None ∨ retry j = None).
Proof.
  intros Hr Hj. destruct (inv_jobs s (reachable_inv s Hr) t j Hj) as [Hm Hg _ Ht].
  destruct (IsMarkedForDeletion j); [rewrite Hm by done; set_solver|].
  specialize (Hg eq_refl). split; [|set_solver]. split; [done|].
  intros E. rewrite E in Hg. set_solver.
Qed.

(** C6: at most one reconciliation runs per identifier: a running one is the
    one the scheduler will poll under its identifier, and one that is no
    longer polled has returned and its context has been cancelled. *)
Theorem reconcile_single_flight s f fu :
  reachable s → objects (futures s) !! f = Some fu →
  (result fu = None → current (futures s) !! owner fu = Some f ∧
     ∀ g gu, objects (futures s) !! g = Some gu → result gu = None → owner gu = owner fu → g = f) ∧
  (current (futures s) !! owner fu ≠ Some f → result fu ≠ None ∧ cancelled fu = true).
Proof.
  intros Hr Hf. destruct (inv_futures s (reachable_inv s Hr)) as [_ H2']. split.
  - intros Hn. destruct (H2' f fu Hf) as [Hc|[? _]]; [|done]. split; [done|].
    intros g gu Hg Hgn Ho. destruct (H2' g gu Hg) as [Hcg|[? _]]; [|done].
    rewrite Ho in Hcg. congruence.
  - intros Hc. by destruct (H2' f fu Hf) as [?|?].
Qed.
End props.
