(* ===== verification/SchedulerLoop.v ===== *)
(** * Execution, evaluation and resource cycles of the scheduler

    When a job is reconciled, removed, evaluated and limited, and when the
    goroutine of [run] blocks for ever. *)
From Stdlib Require Import Strings.String.
From S2P Require Import Prelude GoStd Entity Interfaces Job Store Profile Evaluate Reconcile Scheduler.
From S2P Require Import SchedulerFacts SchedulerProps.
Local Open Scope string_scope.
Local Open Scope list_scope.

Section loop.
Context {T W : Type} `{Workload T} `{Clock W} `{CronLib} `{MapOrder W}.
Context `{Executor T W} `{ResourceManager W} `{RegexpLib}.
Implicit Types (s : Scheduler T W) (j : Job T W) (t : loc) (w : W).

(** ** The execution case, job by job *)

(** The state of a job once the executor has reported on it. *)
Definition reported j w : Job T W :=
  (SetCurrentState (RValue (GetState (workload j) w).1) j (GetState (workload j) w).2).1.

Lemma execute_job_error s t j w :
  heap s !! t = Some j → lookup_future (Job_ID j) (futures s) = None →
  Error (GetState (workload j) w).1 ≠ None → (execute_job t s w).1 = s.
Proof.
  intros Hj Hf He. unfold execute_job. rewrite Hj, Hf, M_bind_unfold.
  by destruct (Error (GetState (workload j) w).1).
Qed.

Lemma execute_job_advance s t j w :
  heap s !! t = Some j → lookup_future (Job_ID j) (futures s) = None →
  Error (GetState (workload j) w).1 = None →
  ∃ w', execute_job t s w = advance t (reported j w) (set_heap (<[t := reported j w]> (heap s)) s) w'.
Proof.
  intros Hj Hf He. unfold execute_job. rewrite Hj, Hf, M_bind_unfold, He, M_bind_unfold. by eexists.
Qed.

Lemma reported_spec j w :
  Job_ID (reported j w) = Job_ID j ∧ IsMarkedForDeletion (reported j w) = IsMarkedForDeletion j ∧
  TargetState (reported j w) = TargetState j ∧ cron (reported j w) = cron j ∧
  CurrentState (reported j w) = recorded (RValue (GetState (workload j) w).1) (CurrentState j) (TargetState j).
Proof.
  unfold reported.
  destruct (SetCurrentState_frame (RValue (GetState (workload j) w).1) j (GetState (workload j) w).2) as [r ->].
  done.
Qed.

Lemma set_heap_id_of s t j j' u :
  heap s !! t = Some j → Job_ID j' = Job_ID j → id_of (set_heap (<[t := j']> (heap s)) s) u = id_of s u.
Proof.
  intros Hj Hid. unfold id_of. cbn [heap set_heap]. rewrite lookup_insert.
  case_decide as E; [|done]. subst. by rewrite Hj.
Qed.

(** [advance] on a job that is not removed leaves the store alone. *)
Lemma advance_store t j s w :
  jobs (advance t j s w).1 = if removable j then (Delete (id_of s) t (jobs s)).2 else jobs s.
Proof.
  unfold advance. destruct (removable j); [done|]. destruct (negb (shouldReconcile j)); [done|].
  rewrite M_bind_unfold. destruct (negb _); [done|]. rewrite M_bind_unfold. by destruct (negb _).
Qed.

Lemma Delete_ids_ext (f g : loc → string) t st :
  (∀ u, f u = g u) → Delete f t st = Delete g t st.
Proof.
  intros Hfg. unfold Delete, index.
  assert (∀ l id, index_in f l id = index_in g l id) as Hx; [|by rewrite Hx, Hfg].
  intros l id. induction l as [|x l IH]; [done|]. simpl. by rewrite Hfg, IH.
Qed.

Lemma poll_job_store t id fut s w : jobs (poll_job t id fut s w).1 = jobs s.
Proof.
  unfold poll_job. destruct fut as [res|]; [|done]. rewrite M_bind_unfold. cbn [fst mret M_ret jobs set_futures].
  destruct (Error res); [done|]. unfold update. case_match; [|done]. by rewrite M_bind_unfold.
Qed.

Lemma execute_job_store s t w :
  jobs (execute_job t s w).1 = jobs s ∨
  ∃ j, heap s !! t = Some j ∧ lookup_future (Job_ID j) (futures s) = None ∧
    Error (GetState (workload j) w).1 = None ∧ removable (reported j w) = true ∧
    jobs (execute_job t s w).1 = (Delete (id_of s) t (jobs s)).2.
Proof.
  destruct (heap s !! t) as [j|] eqn:Hj; [|left; unfold execute_job; by rewrite Hj].
  destruct (lookup_future (Job_ID j) (futures s)) as [fut|] eqn:Hf.
  { left. unfold execute_job. rewrite Hj, Hf. apply poll_job_store. }
  destruct (Error (GetState (workload j) w).1) as [err|] eqn:He.
  { left. rewrite (execute_job_error s t j w); [done|done|done|by rewrite He]. }
  destruct (execute_job_advance s t j w Hj Hf He) as [w' ->]. rewrite advance_store.
  destruct (removable (reported j w)) eqn:Hr; [|by left]. right. exists j.
  repeat (split; [done|]). cbn [jobs set_heap].
  rewrite (Delete_ids_ext _ (id_of s)); [done|]. intros u.
  apply (set_heap_id_of s t j); [done|]. apply reported_spec.
Qed.

(** C7: handling one job removes no other job, and removes that job only when
    it is marked for deletion, no reconciliation of it is in progress and the
    executor has just reported, without an error, a state recorded as
    [unknown], [exited] or [ready]. *)
Theorem removal_conditions s t u w :
  inv s → t ∈ view (jobs s) → u ∈ view (jobs s) → u ∉ view (jobs (execute_job t s w).1) →
  u = t ∧ ∃ j, heap s !! t = Some j ∧ IsMarkedForDeletion j = true ∧
    lookup_future (Job_ID j) (futures s) = None ∧
    Error (GetState (workload j) w).1 = None ∧
    recorded (RValue (GetState (workload j) w).1) (CurrentState j) (TargetState j)
      ∈ [UnknownState; ExitedState; ReadyState].
Proof.
  intros Hi Ht Hu Hn.
  destruct (execute_job_store s t w) as [E|(j & Hj & Hf & He & Hrm & E)]; rewrite E in Hn; [done|].
  destruct (reported_spec j w) as (_ & Hm & _ & _ & Hc). unfold removable in Hrm.
  rewrite Hm, Hc in Hrm. apply andb_true_iff in Hrm as [Hmk Ho]. apply OneOf_spec in Ho.
  split; [|by exists j].
  destruct (Delete_spec (id_of s) (jobs s) t (inv_wf s Hi) (inv_distinct s Hi) Ht)
    as (l1 & l2 & Hv & _ & Hv' & _).
  rewrite Hv, elem_of_app, elem_of_cons in Hu. rewrite Hv', elem_of_app in Hn. naive_solver.
Qed.

(** The checks only read the clock. *)
Lemma retry_allows_time j w (time : W → Z) : MonotonicClock W time → (time w ≤ time (retry_allows j w).2)%Z.
Proof.
  intros Ht. unfold retry_allows. destruct (retry j) as [rj|]; [|done]. destruct (ShouldRestart j); [|done].
  unfold RetryJob_CanReconcile. run_M. apply Now_mono.
Qed.

Lemma cron_allows_time j w (time : W → Z) : MonotonicClock W time → (time w ≤ time (cron_allows j w).2)%Z.
Proof.
  intros Ht. unfold cron_allows. destruct (cron j) as [cj|]; [|done]. case_bool_decide; [|done].
  unfold CronJob_CanReconcile, CronJob_ComputeNext. rewrite !M_bind_unfold. cbn [fst snd mret M_ret].
  case_match; run_M; [etrans; apply Now_mono|apply Now_mono].
Qed.


(** when the executor cannot report the state of a job without a
    reconciliation in progress, the scheduler changes nothing about it. *)
Theorem report_error_changes_nothing s t j w :
  inv s → heap s !! t = Some j → current (futures s) !! Job_ID j = None →
  Error (GetState (workload j) w).1 ≠ None → (execute_job t s w).1 = s.
Proof.
  intros _ Hj Hn He. apply (execute_job_error s t j w); [done| |done].
  unfold lookup_future. by rewrite Hn.
Qed.

(** an inactive job that is marked for deletion and has no container is
    never removed: the report [unknown] is ignored for an inactive job, the
    recorded state stays [inactive], which neither allows the deletion nor
    calls for a reconciliation. *)
Theorem inactive_job_never_removed s t j w :
  inv s → t ∈ view (jobs s) → heap s !! t = Some j →
  IsMarkedForDeletion j = true → CurrentState j = InactiveState →
  current (futures s) !! Job_ID j = None →
  (GetState (workload j) w).1 = ok UnknownState →
  (execute_job t s w).1 = s.
Proof.
  intros Hi Ht Hj Hm Hc Hn Hst.
  assert (∀ w0, SetCurrentState UnknownState j w0 = (j, w0)) as Hsame.
  { intros w0. rewrite (SetCurrentState_standard UnknownState j) by apply (inv_jobs s Hi t j Hj).
    by rewrite Hc. }
  destruct (execute_job_advance s t j w) as [w' ->]; [done|unfold lookup_future; by rewrite Hn|by rewrite Hst|].
  unfold reported. rewrite Hst. cbn [RValue ok]. rewrite Hsame. cbn [fst]. rewrite (insert_id (heap s)) by done.
  unfold advance, removable, shouldReconcile. rewrite Hm, Hc.
  rewrite (job_marked j (inv_jobs s Hi t j Hj) Hm). by destruct s.
Qed.

(** ** The evaluation case *)
Lemma evaluate_job_pointwise rs :
  pointwise (λ s, inv s ∧ profileEvaluationResults s = rs)
    (λ j j', if IsMarkedForDeletion j then j' = j
             else ∃ w1 w2, j' = (apply_evaluation (evaluate (Profiles (workload j)) rs w1).1 j w2).1)
    evaluate_job.
Proof.
  intros t s w [Hi Hrs]. pose proof (evaluate_job_inv t s w Hi) as Hi'. unfold evaluate_job in *.
  destruct (heap s !! t) as [j|] eqn:Hj; [|by split; [done|split; [done|]]].
  destruct (IsMarkedForDeletion j) eqn:Hm.
  { split; [done|]. split; [done|]. intros j0 [= <-]. exists j. by rewrite Hm. }
  rewrite M_bind_unfold in *. rewrite (update_eq s t j _ _ Hj) in *.
  cbn [fst heap profileEvaluationResults set_heap] in *.
  split; [done|]. split; [intros u Hu; by rewrite lookup_insert_ne|]. intros j0 [= <-].
  rewrite lookup_insert_eq, Hm. rewrite <-Hrs. eauto.
Qed.

Lemma evaluate_job_jobs t s w : jobs (evaluate_job t s w).1 = jobs s.
Proof.
  unfold evaluate_job. destruct (heap s !! t) as [j|] eqn:Hj; [|done].
  destruct (IsMarkedForDeletion j); [done|]. rewrite M_bind_unfold. by rewrite (update_eq s t j _ _ Hj).
Qed.

(** The target a job should have. *)
Definition wanted (profiles : list WorkloadProfile) (results : list ProfileEvaluationResult) : bool :=
  bool_decide (profiles = []) || bool_decide (results = []) ||
  bool_decide (length results ≤ active_profiles results profiles)%nat.

(** The CPU limit it should have, if there is one: the smallest of its
    conditions that hold, unless none has one or it runs unconditionally. *)
Definition wanted_limit (profiles : list WorkloadProfile) (results : list ProfileEvaluationResult)
    : option CpuResource :=
  if bool_decide (profiles = []) || bool_decide (results = []) then None
  else let r := smallest (all_limits results profiles) in if None_ r then None else Some (Value r).

Lemma evaluation_effect s w t j :
  inv s → t ∈ view (jobs s) → heap s !! t = Some j → distinct_names (Profiles (workload j)) →
  ∃ j', heap (handle_evaluation s w).1 !! t = Some j' ∧
    CurrentState j' = CurrentState j ∧ IsMarkedForDeletion j' = IsMarkedForDeletion j ∧
    if IsMarkedForDeletion j then j' = j
    else TargetState j' = (if wanted (Profiles (workload j)) (profileEvaluationResults s)
                           then RunningState else InactiveState) ∧
         TargetResources j' =
           if wanted (Profiles (workload j)) (profileEvaluationResults s)
           then default (TargetResources j) (wanted_limit (Profiles (workload j)) (profileEvaluationResults s))
           else TargetResources j.
Proof.
  intros Hi Ht Hj Hd.
  unfold handle_evaluation. rewrite M_bind_unfold. cbn [fst mret M_ret].
  set (s0 := set_syncs (executionSync s) (resourceSync s) false s).
  rewrite (for_range_stable jobs) by (apply Hi || (intros; apply evaluate_job_jobs)).
  destruct (over_list_pointwise _ _ _ (view (jobs s0)) s0 w
    (evaluate_job_pointwise (profileEvaluationResults s)) (view_NoDup s Hi)
    (conj (inv_set_syncs s _ _ _ Hi) eq_refl)) as (_ & _ & Hin).
  destruct (Hin t j Ht Hj) as (j' & Hj' & HP). exists j'. split; [exact Hj'|]. clear Hin Hj'.
  destruct (IsMarkedForDeletion j) eqn:Hm; [by subst|].
  destruct HP as (w1 & w2 & ->). rewrite evaluate_result by done. unfold wanted, wanted_limit, apply_evaluation.
  pose proof (job_hooks j (inv_jobs s Hi t j Hj)) as Hh.
  assert (∀ r, TargetResources (SetTargetState r j w2).1 = TargetResources j ∧
               CurrentState (SetTargetState r j w2).1 = CurrentState j ∧
               IsMarkedForDeletion (SetTargetState r j w2).1 = false ∧
               TargetState (SetTargetState r j w2).1 = r) as Hset
    by (intros r; by rewrite SetTargetState_standard).
  destruct (bool_decide (Profiles (workload j) = []) || bool_decide (profileEvaluationResults s = [])); cbn [orb Active Resource].
  { rewrite M_bind_unfold. cbn [fst mret M_ret None_ no_resource negb default].
    destruct (Hset RunningState) as (? & ? & ? & ?). auto. }
  case_bool_decide; [|destruct (Hset InactiveState) as (? & ? & ? & ?); auto].
  rewrite M_bind_unfold. cbn [fst mret M_ret]. destruct (Hset RunningState) as (? & ? & ? & ?).
  destruct (None_ _); cbn [negb default]; auto.
Qed.


(** ** Blocking for ever *)

(** C40: a heartbeat that finds the previous one unhandled blocks the goroutine
    on the channel it alone receives from: no configuration, result, cycle or
    cancellation is handled afterwards, and the jobs never change again. *)
Theorem heartbeat_deadlock s w :
  pc s = Looping → executionSync s = true →
  ∃ s', step (s, w) EHeartbeat (s', w) ∧ pc s' = BlockedHeartbeat ∧
    ∀ es s'' w'', run (s', w) es (s'', w'') →
      pc s'' = BlockedHeartbeat ∧ heap s'' = heap s ∧ jobs s'' = jobs s ∧
      Forall (λ e, match e with EResolve _ _ | EResolveResource _ _ | EWorld => True | _ => False end) es.
Proof.
  intros Hp He. exists (set_pc BlockedHeartbeat s). split; [|split; [done|]].
  - assert (handle_heartbeat s = set_pc BlockedHeartbeat s) as <- by (unfold handle_heartbeat; by rewrite He).
    by apply st_heartbeat.
  - intros es s'' w'' Hrun. remember (set_pc BlockedHeartbeat s, w) as sw eqn:E.
    remember (s'', w'') as sw'' eqn:E''. revert s'' w'' E''.
    induction Hrun as [sw|sw1 es [s2 w2] e sw3 Hrun IH Hs]; intros s'' w'' E''.
    + subst. by injection E'' as <- <-.
    + subst. destruct (IH eq_refl s2 w2 eq_refl) as (Hp2 & Hh & Hjb & Hes).
      inversion Hs; subst; try congruence; (split; [done|]; split; [done|]; split; [done|];
        apply Forall_app; split; [done|]; by repeat constructor).
Qed.

(** ** Resource cycles *)

(** the CPU limits of jobs that are not running, are marked for deletion
    or run on k8s are neither read nor set: the cycle at most takes note of a
    finished attempt. *)
Theorem resources_not_synced s t j w :
  heap s !! t = Some j →
  CurrentState j ≠ RunningState ∨ IsMarkedForDeletion j = true ∨ Kind (workload j) = K8SKind →
  (sync_job t s w).2 = w ∧ pc (sync_job t s w).1 = pc s ∧
  (heap (sync_job t s w).1 = heap s) ∧
  dom (objects (resourceFutures (sync_job t s w).1)) = dom (objects (resourceFutures s)).
Proof.
  intros Hj Hc. unfold sync_job. destruct (pc s) eqn:Hp; try done. rewrite Hj.
  destruct (CpuResource_Equal _ _); [done|]. rewrite M_bind_unfold.
  assert (syncs_resources j = false) as ->.
  { unfold syncs_resources. apply negb_false_iff. rewrite !orb_true_iff, !bool_decide_eq_true. tauto. }
  cbn [negb fst snd mret M_ret]. unfold poll_resource.
  assert (set_heap (<[t:=SetTargetResources (TargetResources j) j]> (heap s)) s = s) as Hid.
  { rewrite insert_id; [by destruct s|]. rewrite Hj. f_equal. by destruct j. }
  assert (∀ o : option error, (match o with Some _ => mret s
    | None => update t (λ j, mret (SetTargetResources (TargetResources j) j)) s end : M W _) w = (s, w)) as Hu.
  { intros [err|]; [done|]. rewrite (update_eq s t j _ w Hj). cbn [fst snd mret M_ret]. by rewrite Hid. }
  destruct (lookup_future _ _) as [[err|]|]; try done. rewrite M_bind_unfold, Hu. cbn [fst snd mret M_ret].
  split; [done|]. split; [done|]. split; [done|]. cbn [resourceFutures set_resourceFutures].
  unfold finish. destruct (current (resourceFutures s) !! Job_ID j); [|done]. cbn [objects]. apply dom_alter_L.
Qed.

(** setting a CPU limit is not single-flight: while an attempt for a
    running pod has not returned, the next cycle starts another one, and the
    first is never polled again nor is its context cancelled. *)
Theorem resource_attempt_lost s t j w f r :
  pc s = Looping → heap s !! t = Some j → syncs_resources j = true →
  TargetResources j ≠ CpuResource_zero →
  current (resourceFutures s) !! Job_ID j = Some f →
  objects (resourceFutures s) !! f = Some (MkFut (Job_ID j) None false) →
  (getJobResources (workload j) w).1 = Some (ok r) → r ≠ TargetResources j →
  let fs := resourceFutures (sync_job t s w).1 in
  objects fs !! f = Some (MkFut (Job_ID j) None false) ∧
  ∃ f', f' ≠ f ∧ current fs !! Job_ID j = Some f' ∧ objects fs !! f' = Some (MkFut (Job_ID j) None false).
Proof.
  intros Hp Hj Hsy Htr Hc Ho Hg Hr fs. unfold fs, sync_job. rewrite Hp, Hj.
  destruct (CpuResource_Equal (TargetResources j) CpuResource_zero) eqn:E;
    [by apply CpuResource_Equal_spec in E|]. rewrite M_bind_unfold.
  assert (poll_resource t (Job_ID j) s w = (s, w)) as ->.
  { unfold poll_resource, lookup_future. rewrite Hc. simpl. by rewrite Ho. }
  cbn [fst snd]. rewrite Hsy. cbn [negb]. rewrite M_bind_unfold, Hg. cbn [Error RValue ok].
  rewrite M_bind_unfold, (update_eq s t j _ _ Hj). cbn [fst snd mret M_ret].
  destruct (CpuResource_Equal r (TargetResources j)) eqn:E2; [by apply CpuResource_Equal_spec in E2|].
  cbn [fst mret M_ret resourceFutures set_resourceFutures set_heap]. unfold start. cbn [objects current].
  set (f' := fresh (dom (objects (resourceFutures s)))).
  assert (f' ≠ f) as Hne.
  { intros <-. apply (is_fresh (dom (objects (resourceFutures s)))). by eapply elem_of_dom_2. }
  split; [by rewrite lookup_insert_ne|]. exists f'. split; [done|]. by rewrite !lookup_insert_eq.
Qed.
End loop.
