(* ===== verification/SchedulerWitness.v ===== *)
(** * A concrete scheduler

    The theorems of [SchedulerProps.v] and [SchedulerLoop.v] applied to states
    reached by a scheduler whose workloads are names, whose world is a clock
    that ticks at each reading, and whose engine has no container. *)
From Stdlib Require Import Strings.String.
From S2P Require Import Prelude GoStd Entity Interfaces Job Store Profile Evaluate Reconcile Scheduler.
From S2P Require Import SchedulerFacts SchedulerProps SchedulerLoop.
Import TickWorld OneContainer.
Local Open Scope string_scope.
Local Open Scope list_scope.

Record demo := Demo { d_id : string; d_cron : string; d_kind : WorkloadKind }.

#[export] Instance demo_workload : Workload demo := {|
  ID := d_id; Kind := d_kind; Cron := d_cron; IsRootless := λ _, true;
  Profiles := λ _, []; AsPod := λ _, None
|}.

#[export] Instance tick_order : MapOrder Z := {|
  range_map := λ V m w, (map_to_list m, w);
  range_map_perm := λ V m w, Permutation_refl (map_to_list m)
|}.

#[export] Instance no_engine : Executor demo Z := {|
  Remove := λ _ w, (None, w); Run := λ _ w, (None, w); Stop := λ _ w, (None, w);
  GetState := λ d w, (if bool_decide (d_id d = "lost") then MkResult UnknownState (Some (errorString "down"))
                      else ok UnknownState, w);
  Exists := λ _ w, (ok false, w); Sleep := λ w, (tt, w)
|}.

#[export] Instance one_cgroup : ResourceManager Z := {|
  Set_ := λ _ _ w, (None, w);
  GetCGroup := λ _ _ w, (ok "/sys/fs/cgroup/machine.slice", w);
  GetResources := λ _ w, (ok (MkTuple 1 100000)%Z, w)
|}.

Definition pod (name : string) : demo := Demo name "" PodKind.

(** After the configuration [[a; b]], after [[b]], and after both a heartbeat. *)
Definition s0 : Scheduler demo Z := newScheduler.
Definition s1 : Scheduler demo Z := (handle_input (MkOption [pod "a"; pod "b"] false) s0 0%Z).1.
Definition s2 : Scheduler demo Z := (handle_input (MkOption [pod "b"] false) s1 0%Z).1.
Definition s3 : Scheduler demo Z := handle_heartbeat s1.

Lemma run_step (sw : Scheduler demo Z * Z) es e sw' s' :
  run (s0, 0%Z) es sw → step sw e sw' → s' = sw'.1 → reachable s'.
Proof. intros Hr Hs ->. exists 0%Z, (es ++ [e]), sw'.2. rewrite <-surjective_pairing. by eapply run_snoc. Qed.

Lemma s0_reachable : reachable s0.
Proof. exists 0%Z, [], 0%Z. constructor. Qed.

Lemma reach_input s opt w :
  reachable s → pc s = Looping → reachable (handle_input opt s w).1.
Proof.
  intros (w0 & es & w1 & Hr) Hp.
  exists w0, ((es ++ [EWorld]) ++ [EInput opt]), (handle_input opt s w).2. rewrite <-surjective_pairing.
  eapply run_snoc; [eapply run_snoc; [exact Hr | apply st_world] | by apply (st_input s w opt)].
Qed.

Lemma s1_reachable : reachable s1.
Proof. apply reach_input; [exact s0_reachable | done]. Qed.
Lemma s2_reachable : reachable s2.
Proof. apply reach_input; [exact s1_reachable | by vm_compute]. Qed.

Definition job_at (s : Scheduler demo Z) (t : loc) : Job demo Z :=
  default (MkJob (pod "") ReadyState ReadyState false None None [] CpuResource_zero CpuResource_zero) (heap s !! t).

(** The location of a job. *)
Definition at_ (s : Scheduler demo Z) (i : nat) : loc := default (1%positive : loc) (view (jobs s) !! i).

Lemma in_view s i : bool_decide (is_Some (view (jobs s) !! i)) = true → at_ s i ∈ view (jobs s).
Proof.
  intros [t Ht]%bool_decide_eq_true. unfold at_. rewrite Ht. by eapply list_elem_of_lookup_2.
Qed.

Lemma job_there (s : Scheduler demo Z) t : bool_decide (is_Some (heap s !! t)) = true → heap s !! t = Some (job_at s t).
Proof. intros [j Hj]%bool_decide_eq_true. unfold job_at. by rewrite Hj. Qed.

Lemma input_spec_witness : ID (pod "c") ∈ ids_of (handle_input (MkOption [pod "c"] false) s1 0%Z).1.
Proof. apply (input_spec [pod "c"] s1 0%Z s1_reachable); [by vm_compute | by left]. Defined.

Lemma relisted_stays_marked_witness :
  ∃ j', heap (handle_input (MkOption [pod "a"] false) s2 0%Z).1 !! at_ s2 0 = Some j' ∧
    IsMarkedForDeletion j' = true ∧ TargetState j' = ExitedState ∧
    ∀ u ju, u ∈ view (jobs (handle_input (MkOption [pod "a"] false) s2 0%Z).1) →
      heap (handle_input (MkOption [pod "a"] false) s2 0%Z).1 !! u = Some ju → Job_ID ju = Job_ID (job_at s2 (at_ s2 0)) → u = at_ s2 0.
Proof.
  apply (relisted_stays_marked [pod "a"] s2 0%Z (at_ s2 0) (job_at s2 (at_ s2 0)) s2_reachable).
  - apply in_view. by vm_compute.
  - apply job_there. by vm_compute.
  - by vm_compute.
  - apply (bool_decide_unpack _). by vm_compute.
Defined.

Lemma no_workloads_marks_all_witness :
  heap (handle_input (MkOption [] true) s1 0%Z).1 !! at_ s1 1 = Some (removed_job (job_at s1 (at_ s1 1))).
Proof.
  apply (no_workloads_marks_all s1 0%Z (at_ s1 1) _ s1_reachable);
    [apply in_view | apply job_there]; by vm_compute.
Defined.

Lemma jobs_distinct_witness : NoDup (ids_of s1).
Proof. apply jobs_distinct. exact s1_reachable. Defined.

Lemma marked_jobs_exit_witness : TargetState (job_at s2 (at_ s2 0)) = ExitedState.
Proof.
  apply (marked_jobs_exit s2 (at_ s2 0)); [exact s2_reachable | apply job_there; by vm_compute | by vm_compute].
Defined.

(** The jobs of [s1] evaluated, a heartbeat, and the jobs started. *)
Definition s4 : Scheduler demo Z := handle_heartbeat (handle_evaluation s1 0%Z).1.
Definition s5 : Scheduler demo Z := (handle_execution s4 100%Z).1.

Lemma s4_reachable : reachable s4.
Proof.
  destruct s1_reachable as (w0 & es & w1 & Hr).
  exists w0, (((es ++ [EWorld]) ++ [EEvaluation]) ++ [EHeartbeat]), (handle_evaluation s1 0%Z).2.
  eapply run_snoc; [|apply st_heartbeat; by vm_compute].
  rewrite <-surjective_pairing.
  eapply run_snoc; [eapply run_snoc; [exact Hr | apply (st_world s1 w1 0%Z)] | apply st_evaluation; by vm_compute].
Qed.

Lemma s5_reachable : reachable s5.
Proof.
  destruct s4_reachable as (w0 & es & w1 & Hr).
  exists w0, ((es ++ [EWorld]) ++ [EExecution]), (handle_execution s4 100%Z).2.
  change s5 with (handle_execution s4 100%Z).1. rewrite <-surjective_pairing.
  eapply run_snoc; [eapply run_snoc; [exact Hr | apply (st_world s4 w1 100%Z)] | apply st_execution; by vm_compute].
Qed.

Definition fut_at (s : Scheduler demo Z) (id : string) : positive := default 1%positive (current (futures s) !! id).

Lemma reconcile_single_flight_witness :
  current (futures s5) !! "a" = Some (fut_at s5 "a").
Proof.
  apply (reconcile_single_flight s5 (fut_at s5 "a") (MkFut "a" None false));
    [exact s5_reachable | by vm_compute | reflexivity].
Defined.

Lemma removal_conditions_witness : IsMarkedForDeletion (job_at s2 (at_ s2 0)) = true.
Proof.
  destruct (removal_conditions s2 (at_ s2 0) (at_ s2 0) 0%Z) as [_ (j & Hj & Hm & _)].
  - apply reachable_inv. exact s2_reachable.
  - apply in_view. by vm_compute.
  - apply in_view. by vm_compute.
  - apply (bool_decide_unpack _). by vm_compute.
  - unfold job_at. by rewrite Hj.
Defined.


Definition s6 : Scheduler demo Z := (handle_input (MkOption [pod "lost"] false) s0 0%Z).1.

Lemma report_error_changes_nothing_witness : (execute_job (at_ s6 0) s6 0%Z).1 = s6.
Proof.
  apply (report_error_changes_nothing s6 (at_ s6 0) (job_at s6 (at_ s6 0)) 0%Z).
  - apply reachable_inv, reach_input; [exact s0_reachable | done].
  - apply job_there. by vm_compute.
  - by vm_compute.
  - by vm_compute.
Defined.

(** [s2] with its marked job inactive. *)
Definition s7 : Scheduler demo Z :=
  set_heap (<[at_ s2 0 := store_current InactiveState (job_at s2 (at_ s2 0))]> (heap s2)) s2.

Lemma s7_inv : inv s7.
Proof.
  apply (inv_update s2 (at_ s2 0) (job_at s2 (at_ s2 0))).
  - apply reachable_inv. exact s2_reachable.
  - apply job_there. by vm_compute.
  - done.
  - destruct (inv_jobs s2 (reachable_inv s2 s2_reachable) (at_ s2 0) (job_at s2 (at_ s2 0))) as [Hm Hg Hh Ht];
      [apply job_there; by vm_compute|]. by split.
Qed.

Lemma inactive_job_never_removed_witness : (execute_job (at_ s2 0) s7 0%Z).1 = s7.
Proof.
  apply (inactive_job_never_removed s7 (at_ s2 0) (job_at s7 (at_ s2 0)) 0%Z).
  - exact s7_inv.
  - apply (in_view s2). by vm_compute.
  - apply job_there. by vm_compute.
  - by vm_compute.
  - by vm_compute.
  - by vm_compute.
  - by vm_compute.
Defined.


Lemma heartbeat_deadlock_witness :
  ∃ s', step (s3, 0%Z) EHeartbeat (s', 0%Z) ∧ pc s' = BlockedHeartbeat.
Proof.
  destruct (heartbeat_deadlock s3 0%Z) as (s' & Hs & Hp & _); [by vm_compute | by vm_compute |].
  by exists s'.
Defined.

Lemma resources_not_synced_witness : (sync_job (at_ s1 0) s1 0%Z).2 = 0%Z.
Proof.
  apply (resources_not_synced s1 (at_ s1 0) (job_at s1 (at_ s1 0)) 0%Z).
  - apply job_there. by vm_compute.
  - left. by vm_compute.
Defined.

(** A running job whose limit is being set. *)
Definition limited : Job demo Z :=
  SetTargetResources (MkTuple 50000 100000)%Z (store_current RunningState (job_at s1 (at_ s1 0))).
Definition s8 : Scheduler demo Z :=
  set_resourceFutures (start "a" no_futures) (set_heap (<[at_ s1 0 := limited]> (heap s1)) s1).

Definition f8 : positive := fresh (∅ : gset positive).

Lemma resource_attempt_lost_witness :
  objects (resourceFutures (sync_job (at_ s1 0) s8 0%Z).1) !! f8 = Some (MkFut (Job_ID limited) None false).
Proof.
  apply (resource_attempt_lost s8 (at_ s1 0) limited 0%Z f8 (MkTuple 1 100000)%Z).
  - vm_compute. reflexivity.
  - unfold s8. cbn [heap set_resourceFutures set_heap]. apply lookup_insert_eq.
  - by vm_compute.
  - discriminate.
  - by vm_compute.
  - by vm_compute.
  - by vm_compute.
  - discriminate.
Defined.
