(* ===== verification/SchedulerSpec.v ===== *)
(** * An abstract specification of the scheduler

    What the goroutine of [internal/scheduler/scheduler.go] promises to whoever
    configures it, without jobs, heap, slice, channels or futures: a map from
    identifiers to workloads with a phase, and the set of identifiers under
    which an operation is in progress.  [step_refines] shows that each step of
    [Scheduler.step] is a sequence of the abstract steps its case may take, so
    that what is proved of the abstract machine holds of the program. *)
From Stdlib Require Import Strings.String.
From S2P Require Import Prelude GoStd Entity Interfaces Job Store Profile Evaluate Reconcile Scheduler.
From S2P Require Import SchedulerFacts SchedulerProps SchedulerLoop SchedulerWitness.
Local Open Scope string_scope.
Local Open Scope list_scope.

(** ** The abstract machine *)

(** A workload is managed from the configuration that lists it until it is gone:
    not yet evaluated, to run, not to run, or to be removed. *)
Inductive phase := Created | On | Off | Leaving.

Inductive action := ACreate | ALeave | ARetarget | ABegin | AEnd | ARetire | AStray.

Section machine.
Context {T : Type} `{Workload T}.

Record Spec := MkSpec { managed : gmap string (T * phase); busy : gset string }.

(** [AStray] is an operation begun for an identifier just retired: the loop of
    the execution case meets some jobs a second time ([Store.visited]). *)
Inductive astep : action → Spec → Spec → Prop :=
  | as_create x m b : m !! ID x = None →
      astep ACreate (MkSpec m b) (MkSpec (<[ID x := (x, Created)]> m) b)
  | as_leave i x p m b : m !! i = Some (x, p) →
      astep ALeave (MkSpec m b) (MkSpec (<[i := (x, Leaving)]> m) b)
  | as_retarget i x p q m b : m !! i = Some (x, p) → p ≠ Leaving → q ∈ [On; Off] →
      astep ARetarget (MkSpec m b) (MkSpec (<[i := (x, q)]> m) b)
  | as_begin i x p m b : m !! i = Some (x, p) → p ≠ Created → i ∉ b →
      astep ABegin (MkSpec m b) (MkSpec m ({[i]} ∪ b))
  | as_end i m b : i ∈ b → astep AEnd (MkSpec m b) (MkSpec m (b ∖ {[i]}))
  | as_retire i x m b : m !! i = Some (x, Leaving) → i ∉ b →
      astep ARetire (MkSpec m b) (MkSpec (delete i m) b)
  | as_stray i m b : m !! i = None → i ∉ b → astep AStray (MkSpec m b) (MkSpec m ({[i]} ∪ b)).

(** The steps of a set of actions. *)
Definition asteps (may : action → bool) : Spec → Spec → Prop :=
  rtc (λ a a', ∃ act, may act = true ∧ astep act a a').

Lemma asteps_refl may a : asteps may a a.
Proof. apply rtc_refl. Qed.

Lemma asteps_once may act a a' : may act = true → astep act a a' → asteps may a a'.
Proof. intros Hm Hs. apply rtc_once. eauto. Qed.

Lemma asteps_mono may may' a a' :
  (∀ act, may act = true → may' act = true) → asteps may a a' → asteps may' a a'.
Proof. intros Hm. apply rtc_subrel. intros ? ? (act & ? & ?). eauto. Qed.

(** *** Facts of the machine *)

(** What any step not fed by a configuration does to the workloads. *)
Definition inner (act : action) : bool :=
  match act with ACreate | ALeave => false | _ => true end.

(** Nothing new, nothing that leaves comes back, nothing else is lost. *)
Definition kept (m m' : gmap string (T * phase)) : Prop :=
  (∀ i x p', m' !! i = Some (x, p') → ∃ p, m !! i = Some (x, p) ∧ (p = Leaving ↔ p' = Leaving)) ∧
  (∀ i x p, m !! i = Some (x, p) → p ≠ Leaving → ∃ p', m' !! i = Some (x, p')).

Lemma kept_refl m : kept m m.
Proof. split; eauto. Qed.

Lemma kept_trans m1 m2 m3 : kept m1 m2 → kept m2 m3 → kept m1 m3.
Proof.
  intros [H1 H1'] [H2 H2']. split.
  - intros i x p3 (p2 & Hp2 & E2)%H2. destruct (H1 i x p2 Hp2) as (p1 & Hp1 & E1).
    exists p1. split; [done|]. by rewrite E1.
  - intros i x p1 Hp1 Hn. destruct (H1' i x p1 Hp1 Hn) as [p2 Hp2].
    destruct (H1 i x p2 Hp2) as (p1' & ? & E). simplify_eq. eapply H2'; [exact Hp2|]. by rewrite <-E.
Qed.

Lemma astep_kept act a a' : inner act = true → astep act a a' → kept (managed a) (managed a').
Proof.
  intros Hi Hs. destruct Hs as [| |i x p q m b Hm Hp Hq| | |i x m b Hm _|]; try done;
    cbn [managed]; try apply kept_refl.
  - split; intros k y r; rewrite lookup_insert; case_decide as E; try by eauto.
    + intros [= <- <-]. subst. exists p. split; [done|]. set_solver.
    + subst. intros ? _. simplify_eq. eauto.
  - split; intros k y r; rewrite lookup_delete; case_decide as E; subst; try done; [by eauto| |by eauto].
    intros ? []. by simplify_eq.
Qed.

Lemma asteps_kept may a a' :
  (∀ act, may act = true → inner act = true) → asteps may a a' → kept (managed a) (managed a').
Proof.
  intros Hm. induction 1 as [|a1 a2 a3 (act & Ha & Hs) _ IH]; [apply kept_refl|].
  eapply kept_trans; [by eapply astep_kept, Hs; apply Hm | done].
Qed.

End machine.
Arguments Spec : clear implicits.

(** ** The abstraction *)
Section abstraction.
Context {T W : Type} `{Workload T} `{Clock W} `{CronLib} `{MapOrder W}.
Context `{Executor T W} `{ResourceManager W} `{RegexpLib}.
Implicit Types (s : Scheduler T W) (j : Job T W) (t : loc) (w : W).

Definition phase_of j : phase :=
  if IsMarkedForDeletion j then Leaving
  else match TargetState j with RunningState => On | InactiveState => Off | _ => Created end.

(** What the machine sees of the job behind a pointer. *)
Definition entry s t : option (T * phase) := (λ j, (workload j, phase_of j)) <$> heap s !! t.

Definition managed_by s : gmap string (T * phase) :=
  list_to_map (omap (λ t, (λ e, (ID e.1, e)) <$> entry s t) (view (jobs s))).

Definition abs s : Spec T := MkSpec (managed_by s) (dom (current (futures s))).

Lemma entry_id s t e : entry s t = Some e → id_of s t = ID e.1.
Proof. unfold entry, id_of. destruct (heap s !! t); [|done]. by intros [= <-]. Qed.

Lemma entry_heap s t j : heap s !! t = Some j → entry s t = Some (workload j, phase_of j).
Proof. unfold entry. by intros ->. Qed.

Lemma entries_keys s l :
  (∀ t, t ∈ l → is_Some (heap s !! t)) →
  (omap (λ t, (λ e, (ID e.1, e)) <$> entry s t) l).*1 = map (id_of s) l.
Proof.
  induction l as [|t l IH]; intros Hh; [done|]. cbn [map]. rewrite <-IH by (intros; apply Hh; by right).
  destruct (Hh t) as [j Hj]; [left|]. cbn [omap list_omap]. rewrite (entry_heap s t j Hj).
  cbn [fmap option_fmap option_map list_fmap fst]. unfold id_of. by rewrite Hj.
Qed.

Lemma managed_lookup s i e :
  inv s → managed_by s !! i = Some e ↔ ∃ t, t ∈ view (jobs s) ∧ entry s t = Some e ∧ ID e.1 = i.
Proof.
  intros Hi. unfold managed_by. rewrite <-elem_of_list_to_map.
  - rewrite list_elem_of_omap. split.
    + intros (t & Ht & (e' & He & E)%fmap_Some). simplify_eq. eauto.
    + intros (t & Ht & He & <-). exists t. by rewrite He.
  - rewrite entries_keys by apply Hi. exact (inv_distinct s Hi).
Qed.

Lemma managed_None s i : inv s → managed_by s !! i = None ↔ i ∉ ids_of s.
Proof.
  intros Hi. unfold managed_by. rewrite <-not_elem_of_list_to_map, entries_keys by apply Hi. done.
Qed.

(** The machine does not see what leaves workloads and phases alone. *)
Lemma managed_ext s s' :
  jobs s' = jobs s → (∀ t, entry s' t = entry s t) → managed_by s' = managed_by s.
Proof.
  intros Hj He. unfold managed_by. rewrite Hj. f_equal.
  induction (view (jobs s)) as [|t l IH]; [done|]. cbn [omap list_omap]. by rewrite He, IH.
Qed.

Lemma abs_ext s s' :
  jobs s' = jobs s → current (futures s') = current (futures s) → (∀ t, entry s' t = entry s t) →
  abs s' = abs s.
Proof. intros Hj Hf He. unfold abs. by rewrite (managed_ext s s'), Hf. Qed.

Lemma entry_id_of s s' t : entry s' t = entry s t → id_of s' t = id_of s t.
Proof.
  unfold entry, id_of, Job_ID. by destruct (heap s' !! t), (heap s !! t); intros [=]; try congruence.
Qed.

Lemma same_entry s t j j' u :
  heap s !! t = Some j → workload j' = workload j → phase_of j' = phase_of j →
  entry (set_heap (<[t := j']> (heap s)) s) u = entry s u.
Proof.
  intros Hj Hw Hp. unfold entry. cbn [heap set_heap]. rewrite lookup_insert.
  case_decide as E; [|done]. subst. rewrite Hj. cbn. by rewrite Hw, Hp.
Qed.

Lemma abs_same s t j j' :
  heap s !! t = Some j → workload j' = workload j → phase_of j' = phase_of j →
  abs (set_heap (<[t := j']> (heap s)) s) = abs s.
Proof. intros. apply abs_ext; [done|done|]. intros. by eapply same_entry. Qed.

(** A job of the store changes its phase. *)
Lemma managed_update s t j j' :
  inv s → t ∈ view (jobs s) → heap s !! t = Some j → workload j' = workload j → job_ok j' →
  managed_by (set_heap (<[t := j']> (heap s)) s) = <[Job_ID j := (workload j, phase_of j')]> (managed_by s).
Proof.
  intros Hi Ht Hj Hw Hok. assert (inv (set_heap (<[t := j']> (heap s)) s)) as Hi' by by eapply inv_update.
  assert (entry (set_heap (<[t := j']> (heap s)) s) t = Some (workload j, phase_of j')) as Et.
  { erewrite entry_heap by (cbn [heap set_heap]; apply lookup_insert_eq). by rewrite Hw. }
  assert (∀ u, u ≠ t → entry (set_heap (<[t := j']> (heap s)) s) u = entry s u) as Eu.
  { intros u Hu. unfold entry. cbn [heap set_heap]. by rewrite lookup_insert_ne. }
  apply map_eq. intros i. apply option_eq. intros e. rewrite managed_lookup by done. cbn [jobs set_heap].
  rewrite lookup_insert. case_decide as E.
  - subst i. split; [|intros [= <-]; by exists t]. intros (u & Hu & He & Hid).
    destruct (decide (u = t)) as [->|Hn]; [congruence|]. rewrite Eu in He by done. destruct Hn.
    apply (same_id s); [done|done|done|]. rewrite (entry_id _ _ _ He), Hid. unfold id_of. by rewrite Hj.
  - rewrite managed_lookup by done.
    split; intros (u & Hu & He & Hid); exists u; destruct (decide (u = t)) as [->|Hn].
    + destruct E. rewrite Et in He. by simplify_eq.
    + by rewrite <-Eu.
    + destruct E. rewrite (entry_heap s t j Hj) in He. by simplify_eq.
    + by rewrite Eu.
Qed.

(** A job leaves the store. *)
Lemma managed_delete s s' t :
  inv s → inv s' → t ∈ view (jobs s) → jobs s' = (Delete (id_of s') t (jobs s)).2 →
  (∀ u, entry s' u = entry s u) → managed_by s' = delete (id_of s t) (managed_by s).
Proof.
  intros Hi Hi' Ht Hj He. rewrite (Delete_ids_ext _ (id_of s)) in Hj by (intros; by apply entry_id_of).
  destruct (Delete_spec (id_of s) (jobs s) t (inv_wf s Hi) (inv_distinct s Hi) Ht) as (l1 & l2 & Hv & _ & Hv' & _).
  pose proof (view_NoDup s Hi) as Hd. rewrite Hv in Hd.
  assert (∀ u, u ∈ view (jobs s') ↔ u ∈ view (jobs s) ∧ u ≠ t) as Hview.
  { intros u. rewrite Hj, Hv', Hv, !elem_of_app, elem_of_cons.
    apply list.NoDup_app in Hd as (_ & Hd1 & [Hd2 _]%list.NoDup_cons). set_solver. }
  apply map_eq. intros i. apply option_eq. intros e. rewrite managed_lookup by done.
  rewrite lookup_delete. case_decide as E.
  - split; [|done]. intros (u & [Hu Hn]%Hview & Heu & Hid). destruct Hn. rewrite He in Heu.
    apply (same_id s); [done|done|done|]. by rewrite (entry_id s u e Heu), Hid, E.
  - rewrite managed_lookup by done. split; intros (u & Hu & Heu & Hid); exists u.
    + apply Hview in Hu as [Hu _]. by rewrite <-He.
    + rewrite Hview, He. split; [|done]. split; [done|]. intros ->.
      by rewrite <-Hid, (entry_id s t e Heu) in E.
Qed.

Lemma Delete_absent s t : id_of s t ∉ ids_of s → (Delete (id_of s) t (jobs s)).2 = jobs s.
Proof. intros Hn. unfold Delete, index. by rewrite (proj2 (index_in_None (id_of s) (view (jobs s)) (id_of s t))). Qed.

(** A job enters it. *)
Lemma managed_add s j :
  inv s → job_ok j → Job_ID j ∉ ids_of s →
  managed_by (add_job j s) = <[Job_ID j := (workload j, phase_of j)]> (managed_by s).
Proof.
  intros Hi Hok Hn. pose proof (add_job_inv s j Hi Hok Hn) as Hi'.
  set (f := fresh (dom (heap s))).
  assert (entry (add_job j s) f = Some (workload j, phase_of j)) as Ef
    by (apply entry_heap; unfold add_job; cbn [heap set_jobs set_heap]; apply lookup_insert_eq).
  assert (∀ u, u ∈ view (jobs s) → entry (add_job j s) u = entry s u) as Eu.
  { intros u Hu. unfold entry, add_job. cbn [heap set_jobs set_heap]. rewrite lookup_insert_ne; [done|].
    intros <-. by apply (fresh_not_in_view s Hi). }
  apply map_eq. intros i. apply option_eq. intros e. rewrite managed_lookup by done.
  rewrite add_job_view by done. setoid_rewrite elem_of_app. setoid_rewrite list_elem_of_singleton.
  fold f. rewrite lookup_insert. case_decide as E.
  - split; [|intros [= <-]; exists f; auto]. intros (u & [Hu| ->] & He & Hid); [|congruence].
    destruct Hn. rewrite E, <-Hid, <-(entry_id s u e) by (by rewrite <-Eu).
    by apply (list_elem_of_fmap_2 (id_of s)).
  - rewrite managed_lookup by done. split.
    + intros (u & [Hu| ->] & He & Hid); [exists u; by rewrite <-Eu|]. rewrite Ef in He. by simplify_eq.
    + intros (u & Hu & He & Hid). exists u. rewrite Eu by done. auto.
Qed.

(** ** The execution case *)

(** What the body does about one job, seen from outside: nothing, an operation
    taken back, one begun, or a deletion. *)
Inductive effect (t : loc) (j : Job T W) (s s' : Scheduler T W) : Prop :=
  | ef_nothing : jobs s' = jobs s → dom (current (futures s')) = dom (current (futures s)) → effect t j s s'
  | ef_end : jobs s' = jobs s → Job_ID j ∈ dom (current (futures s)) →
      dom (current (futures s')) = dom (current (futures s)) ∖ {[Job_ID j]} → effect t j s s'
  | ef_begin : jobs s' = jobs s → phase_of j ≠ Created → Job_ID j ∉ dom (current (futures s)) →
      dom (current (futures s')) = {[Job_ID j]} ∪ dom (current (futures s)) → effect t j s s'
  | ef_delete : jobs s' = (Delete (id_of s') t (jobs s)).2 → phase_of j = Leaving →
      Job_ID j ∉ dom (current (futures s)) →
      dom (current (futures s')) = dom (current (futures s)) → effect t j s s'.

Lemma SetCurrentState_phase st j w :
  workload (SetCurrentState st j w).1 = workload j ∧ phase_of (SetCurrentState st j w).1 = phase_of j.
Proof. by destruct (SetCurrentState_frame st j w) as [r ->]. Qed.

Lemma update_entry s t f w u :
  (∀ j w, workload (f j w).1 = workload j ∧ phase_of (f j w).1 = phase_of j) →
  entry (update t f s w).1 u = entry s u.
Proof.
  intros Hf. unfold update. destruct (heap s !! t) as [j|] eqn:Hj; [|done].
  rewrite M_bind_unfold. cbn [fst mret M_ret]. destruct (Hf j w). by apply (same_entry s t j).
Qed.

Lemma update_frame s t (f : Job T W → M W (Job T W)) w :
  jobs (update t f s w).1 = jobs s ∧ futures (update t f s w).1 = futures s.
Proof. unfold update. destruct (heap s !! t); [by rewrite M_bind_unfold|done]. Qed.

Lemma finish_dom {R} i (fs : Futures R) : dom (current (finish i fs)) = dom (current fs) ∖ {[i]}.
Proof.
  unfold finish. destruct (current fs !! i) eqn:E; cbn [current]; [apply dom_delete_L|].
  apply not_elem_of_dom in E. set_solver.
Qed.

Lemma poll_job_effect t j fut s w :
  lookup_future (Job_ID j) (futures s) = Some fut →
  (∀ u, entry (poll_job t (Job_ID j) fut s w).1 u = entry s u) ∧
  effect t j s (poll_job t (Job_ID j) fut s w).1.
Proof.
  intros Hl. unfold poll_job. destruct fut as [res|]; [|split; [done|by apply ef_nothing]].
  assert (Job_ID j ∈ dom (current (futures s))) as Hd.
  { apply elem_of_dom. unfold lookup_future in Hl. destruct (current (futures s) !! Job_ID j); [by eexists|done]. }
  rewrite M_bind_unfold. cbn [fst mret M_ret].
  destruct (Error res); cbn [fst mret M_ret].
  - split; [done|]. apply ef_end; [done|done|apply finish_dom].
  - pose proof (update_frame s t (SetCurrentState (RValue res)) w) as [Ej Ef].
    split; [intros u; apply (update_entry s t); intros; apply SetCurrentState_phase|].
    apply ef_end; [done|done|]. cbn [futures set_futures]. by rewrite finish_dom, Ef.
Qed.

Lemma cron_allows_phase j w :
  workload (cron_allows j w).1.2 = workload j ∧ phase_of (cron_allows j w).1.2 = phase_of j.
Proof.
  unfold cron_allows. destruct (cron j); [|done]. case_bool_decide; [|done].
  rewrite M_bind_unfold. destruct (CronJob_CanReconcile _ w).1; [|done]. by rewrite M_bind_unfold.
Qed.

Lemma shouldReconcile_phase j : job_ok j → shouldReconcile j = true → phase_of j ≠ Created.
Proof.
  intros Hok Hs. unfold phase_of. destruct (IsMarkedForDeletion j) eqn:Hm; [done|].
  pose proof (job_target j Hok Hm). unfold shouldReconcile in Hs. destruct (TargetState j); try done; set_solver.
Qed.

Lemma advance_effect t j s w :
  inv s → heap s !! t = Some j → current (futures s) !! Job_ID j = None →
  (∀ u, entry (advance t j s w).1 u = entry s u) ∧ effect t j s (advance t j s w).1.
Proof.
  intros Hi Hj Hc. assert (Job_ID j ∉ dom (current (futures s))) as Hd by by apply not_elem_of_dom.
  unfold advance. destruct (removable j) eqn:Hr.
  { split; [done|]. unfold removable in Hr. apply andb_true_iff in Hr as [Hm _].
    apply ef_delete; [done|unfold phase_of; by rewrite Hm|done|].
    cbn [futures set_futures set_jobs mret M_ret fst]. rewrite forget_ok by (done || apply Hi). done. }
  destruct (shouldReconcile j) eqn:Hs; cbn [negb]; [|split; [done|by apply ef_nothing]].
  rewrite M_bind_unfold. destruct (negb _); [split; [done|by apply ef_nothing]|].
  rewrite M_bind_unfold. set (w1 := (retry_allows j w).2). destruct (cron_allows_phase j w1) as [Hw Hp].
  destruct (negb _); cbn [fst mret M_ret]; (split; [intros u; by apply (same_entry s t j)|]).
  - by apply ef_nothing.
  - apply ef_begin; [done| |done|].
    + apply shouldReconcile_phase; [by apply (inv_jobs s Hi t)|done].
    + cbn [futures set_futures set_heap start current]. apply dom_insert_L.
Qed.

Lemma execute_job_effect t j s w :
  inv s → heap s !! t = Some j →
  (∀ u, entry (execute_job t s w).1 u = entry s u) ∧ effect t j s (execute_job t s w).1.
Proof.
  intros Hi Hj. destruct (lookup_future (Job_ID j) (futures s)) as [fut|] eqn:Hf.
  { unfold execute_job. rewrite Hj, Hf. by apply poll_job_effect. }
  destruct (Error (GetState (workload j) w).1) as [err|] eqn:He.
  { rewrite (execute_job_error s t j w) by (done || by rewrite He). split; [done|by apply ef_nothing]. }
  destruct (execute_job_advance s t j w Hj Hf He) as [w' ->].
  destruct (SetCurrentState_phase (RValue (GetState (workload j) w).1) j (GetState (workload j) w).2) as [Hw Hp].
  assert (Job_ID (reported j w) = Job_ID j) as Hid by (unfold Job_ID, reported; by rewrite Hw).
  destruct (advance_effect t (reported j w) (set_heap (<[t := reported j w]> (heap s)) s) w') as [Hent Hef].
  - eapply inv_update; [done|done|done|]. by apply SetCurrentState_ok, (inv_jobs s Hi t).
  - apply lookup_insert_eq.
  - rewrite Hid. by apply (lookup_future_none _ s).
  - split; [intros u; rewrite Hent; by apply (same_entry s t j)|].
    destruct Hef; rewrite ?Hid in *; [by apply ef_nothing|by apply ef_end|apply ef_begin|apply ef_delete]; try done;
      unfold reported in *; by rewrite <-Hp.
Qed.

(** The loop, while jobs are deleted under it: the slots it can still read hold
    jobs [V] of the slice it started on. *)
Record looping (V : list loc) s : Prop := {
  loop_inv : inv s;
  loop_len : (len (jobs s) ≤ length V)%nat;
  loop_slots : ∀ k t, (k < length V)%nat → arr (jobs s) !! k = Some t → t ∈ V;
  loop_distinct : NoDup (map (id_of s) V)
}.

Lemma looping_start s : inv s → looping (view (jobs s)) s.
Proof.
  intros Hi. pose proof (view_length (jobs s) (inv_wf s Hi)) as Hl. split; [done|lia| |exact (inv_distinct s Hi)].
  intros k t Hk Ht. apply (list_elem_of_lookup_2 _ k). unfold view. rewrite lookup_take_lt by lia. done.
Qed.

Lemma looping_frame V t j s s' :
  looping V s → inv s' → (∀ u, entry s' u = entry s u) → effect t j s s' → looping V s'.
Proof.
  intros [Hi Hl Hs Hd] Hi' He Hef.
  assert (jobs s' = jobs s ∨ jobs s' = (Delete (id_of s') t (jobs s)).2) as Hj by (destruct Hef; auto).
  assert (NoDup (map (id_of s') V)) as Hd'.
  { rewrite (map_ext _ (id_of s)); [done|]. intros. by apply entry_id_of. }
  destruct Hj as [E|E]; [split; rewrite ?E; done|].
  unfold Delete in E. destruct (index (id_of s') (jobs s) (id_of s' t)) as [i|] eqn:Ei; [|split; rewrite ?E; done].
  apply index_bound in Ei; [|apply Hi]. split; [done| | |done]; cbn [snd] in E; rewrite E.
  - unfold remove_at. cbn [len]. lia.
  - intros k u Hk. rewrite remove_at_lookup by (done || apply Hi). intros Hu.
    eapply Hs; [|exact Hu]. case_decide; lia.
Qed.

(** A job of [V] that has left the slice shares its identifier with no job. *)
Lemma looping_gone V s t : looping V s → t ∈ V → t ∉ view (jobs s) → id_of s t ∉ ids_of s.
Proof.
  intros [Hi Hl Hs Hd] Ht Hn (u & E & Hu)%list_elem_of_fmap_1. destruct Hn.
  assert (u ∈ V) as Hu'.
  { unfold view in Hu. apply list_elem_of_lookup_1 in Hu as [k Hk]. apply lookup_take_Some in Hk as [Hk Hlt].
    eapply Hs; [|exact Hk]. lia. }
  by rewrite (NoDup_map_inj (id_of s) V t u).
Qed.

Definition executing (act : action) : bool :=
  match act with ABegin | AEnd | ARetire | AStray => true | _ => false end.

Lemma effect_moves V t j s s' :
  looping V s → inv s' → t ∈ V → heap s !! t = Some j → (∀ u, entry s' u = entry s u) → effect t j s s' →
  asteps executing (abs s) (abs s').
Proof.
  intros Hl Hi' Ht Hj He Hef. pose proof (loop_inv V s Hl) as Hi.
  assert (id_of s t = Job_ID j) as Hid by (unfold id_of; by rewrite Hj).
  assert (t ∈ view (jobs s) → managed_by s !! Job_ID j = Some (workload j, phase_of j)) as Hin.
  { intros Hv. apply managed_lookup; [done|]. exists t. split; [done|]. by rewrite (entry_heap s t j). }
  assert (t ∉ view (jobs s) → Job_ID j ∉ ids_of s) as Hout by (rewrite <-Hid; by apply (looping_gone V)).
  destruct Hef as [Ej Ed|Ej Hb Ed|Ej Hp Hb Ed|Ej Hp Hb Ed]; unfold abs; rewrite Ed;
    try rewrite (managed_ext s s' Ej He).
  - apply asteps_refl.
  - by eapply asteps_once, as_end.
  - destruct (decide (t ∈ view (jobs s))) as [Hv|Hv].
    + by eapply asteps_once, as_begin; [|apply Hin| |].
    + eapply asteps_once, as_stray; [done| |done]. by apply managed_None; [|apply Hout].
  - destruct (decide (t ∈ view (jobs s))) as [Hv|Hv].
    + rewrite (managed_delete s s' t) by done. rewrite Hid.
      eapply asteps_once, as_retire; [done| |done]. by rewrite Hin, Hp.
    + rewrite (Delete_ids_ext _ (id_of s)) in Ej by (intros; by apply entry_id_of).
      rewrite Delete_absent in Ej by (rewrite Hid; by apply Hout).
      rewrite (managed_ext s s' Ej He). apply asteps_refl.
Qed.

Lemma execute_job_moves V t s w :
  looping V s → t ∈ V →
  looping V (execute_job t s w).1 ∧ asteps executing (abs s) (abs (execute_job t s w).1).
Proof.
  intros Hl Ht. pose proof (loop_inv V s Hl) as Hi. pose proof (execute_job_inv t s w Hi) as Hi'.
  destruct (heap s !! t) as [j|] eqn:Hj.
  - destruct (execute_job_effect t j s w Hi Hj) as [He Hef].
    split; [by eapply looping_frame | by eapply effect_moves].
  - unfold execute_job. rewrite Hj. split; [done|apply asteps_refl].
Qed.

Lemma handle_execution_moves s w :
  inv s → asteps executing (abs s) (abs (handle_execution s w).1).
Proof.
  intros Hi. unfold handle_execution. rewrite M_bind_unfold. cbn [fst mret M_ret].
  set (s0 := set_syncs false (resourceSync s) (evaluationSync s) s).
  assert (inv s0) as Hi0 by by apply inv_set_syncs.
  pose proof (view_length (jobs s0) (inv_wf s0 Hi0)) as Hlen. unfold for_range.
  refine (proj2 (range_inv_in _ (λ s', looping (view (jobs s)) s' ∧ asteps executing (abs s) (abs s'))
    (λ t, t ∈ view (jobs s)) (length (view (jobs s))) execute_job _ 0 s0 w _ _ _ _)).
  - intros t s1 w1 Ht [Hl Hs]. destruct (execute_job_moves _ t s1 w1 Hl Ht) as [Hl' Hs'].
    split; [done|]. by etrans.
  - intros s1 i t [Hl _] Hk Ht. by eapply loop_slots.
  - change (jobs s0) with (jobs s) in *. lia.
  - split; [exact (looping_start s0 Hi0)|apply asteps_refl].
Qed.

(** ** Configurations *)
Definition configuring (act : action) : bool :=
  match act with ACreate | ALeave => true | _ => false end.

Lemma remove_job_moves t s w :
  inv s → t ∈ view (jobs s) → asteps configuring (abs s) (abs (remove_job t s w).1).
Proof.
  intros Hi Ht. destruct (inv_heap s Hi t Ht) as [j Hj]. rewrite (remove_job_eq s t j w Hi Hj). cbn [fst].
  unfold abs. rewrite (managed_update s t j) by (done || by apply removed_job_ok, (inv_jobs s Hi t)).
  eapply asteps_once, as_leave; [done|]. apply managed_lookup; [done|].
  exists t. split; [done|]. by rewrite (entry_heap s t j).
Qed.

(** A loop over jobs of the store whose body keeps the store. *)
Lemma over_list_moves may (body : loc → Scheduler T W → M W (Scheduler T W)) l s w :
  (∀ t s w, inv s → t ∈ view (jobs s) →
     inv (body t s w).1 ∧ jobs (body t s w).1 = jobs s ∧ asteps may (abs s) (abs (body t s w).1)) →
  inv s → (∀ t, t ∈ l → t ∈ view (jobs s)) → asteps may (abs s) (abs (over_list l body s w).1).
Proof.
  intros Hb. revert s w. induction l as [|t l IH]; intros s w Hi Hl; [apply asteps_refl|].
  cbn [over_list]. rewrite M_bind_unfold. destruct (Hb t s w Hi) as (Hi' & Hj & Hs); [apply Hl; left|].
  etrans; [exact Hs|]. apply IH; [done|]. rewrite Hj. intros u Hu. apply Hl. by right.
Qed.

Lemma remove_jobs_moves l s w :
  inv s → (∀ t, t ∈ l → t ∈ view (jobs s)) → asteps configuring (abs s) (abs (over_list l remove_job s w).1).
Proof.
  apply over_list_moves. intros t s1 w1 Hi Ht.
  split; [by apply remove_job_inv|]. split; [apply remove_job_jobs|by apply remove_job_moves].
Qed.

Lemma add_jobs_moves ws s w :
  inv s → NoDup (map ID ws) → (∀ x, x ∈ ws → ID x ∉ ids_of s) →
  asteps configuring (abs s) (abs (add_jobs ws s w).1).
Proof.
  revert s w. induction ws as [|x ws IH]; intros s w Hi Hd Hn; [apply asteps_refl|].
  cbn [add_jobs]. rewrite M_bind_unfold. cbn [map] in Hd. apply list.NoDup_cons in Hd as [Hx Hd].
  destruct (createJob x w).1 as [err|j] eqn:E; [apply IH; [done|done|intros; apply Hn; by right]|].
  destruct (createJob_spec x w j E) as (Hw & Hok & Hm & _ & Ht & _).
  assert (Job_ID j = ID x) as Hj by (unfold Job_ID; by rewrite Hw).
  assert (Job_ID j ∉ ids_of s) as Hnj by (rewrite Hj; apply Hn; left).
  transitivity (abs (add_job j s)).
  - unfold abs at 2. rewrite managed_add, Hj, Hw by done. unfold phase_of. rewrite Hm, Ht.
    eapply asteps_once, as_create; [done|]. apply managed_None; [done|]. by rewrite <-Hj.
  - apply IH; [by apply add_job_inv|done|]. intros y Hy.
    rewrite add_job_ids, elem_of_app, list_elem_of_singleton, Hj by done.
    intros [Hin|Ey]; [eapply Hn; [by right|done]|]. apply Hx. rewrite <-Ey. by apply (list_elem_of_fmap_2 ID).
Qed.

Lemma handle_input_moves opt s w : inv s → asteps configuring (abs s) (abs (handle_input opt s w).1).
Proof.
  intros Hi. unfold handle_input. destruct (None_ opt).
  - rewrite (for_range_stable jobs) by (apply Hi || (intros; apply remove_job_jobs)).
    by apply remove_jobs_moves.
  - rewrite !M_bind_unfold. destruct (input_lists (Value opt) s w Hi) as (_ & Hd & Hin1 & Hin2).
    set (rm := (substract (id_of s) ID (view (jobs s)) (Value opt) w).1) in *.
    set (w1 := (substract (id_of s) ID (view (jobs s)) (Value opt) w).2) in *.
    set (news := (substract ID (id_of s) (Value opt) (view (jobs s)) w1).1) in *.
    set (w2 := (substract ID (id_of s) (Value opt) (view (jobs s)) w1).2).
    assert (∀ x, x ∈ news → ID x ∉ ids_of s) as Hn by (intros x [_ ?]%Hin2; done).
    etrans; [by apply (add_jobs_moves news s w2)|].
    pose proof (add_jobs_inv news s w2 Hi Hd Hn) as Hi2.
    destruct (add_jobs_frame news s w2 Hi Hd Hn) as ((l & Hl & _) & _).
    set (s2 := (add_jobs news s w2).1) in *.
    apply (remove_jobs_moves rm (set_syncs (executionSync s2) (resourceSync s2) true s2));
      [by apply inv_set_syncs|].
    intros t [Ht _]%Hin1. cbn [jobs set_syncs]. rewrite Hl, elem_of_app. by left.
Qed.

(** ** Evaluations *)
Definition evaluating (act : action) : bool := match act with ARetarget => true | _ => false end.

Lemma apply_evaluation_phase r j w :
  job_ok j → IsMarkedForDeletion j = false → phase_of (apply_evaluation r j w).1 ∈ [On; Off].
Proof.
  intros Hok Hm. unfold apply_evaluation. destruct (Active r).
  - rewrite M_bind_unfold, SetTargetState_standard by apply Hok. cbn [fst snd mret M_ret].
    unfold phase_of. destruct (negb _); cbn; rewrite Hm; left.
  - rewrite SetTargetState_standard by apply Hok. unfold phase_of. cbn. rewrite Hm. right. left.
Qed.

Lemma evaluate_job_moves t s w :
  inv s → t ∈ view (jobs s) → asteps evaluating (abs s) (abs (evaluate_job t s w).1).
Proof.
  intros Hi Ht. unfold evaluate_job. destruct (inv_heap s Hi t Ht) as [j Hj]. rewrite Hj.
  destruct (IsMarkedForDeletion j) eqn:Hm; [apply asteps_refl|]. rewrite M_bind_unfold.
  set (r := (evaluate _ _ w).1). set (w1 := (evaluate _ _ w).2). rewrite (update_eq s t j _ w1 Hj). cbn [fst].
  pose proof (inv_jobs s Hi t j Hj) as Hok. destruct (apply_evaluation_ok r j w1 Hok Hm) as [Hok' Hw].
  unfold abs. rewrite (managed_update s t j) by done.
  eapply asteps_once, as_retarget; [done| | |by apply apply_evaluation_phase].
  - apply managed_lookup; [done|]. exists t. split; [done|]. by rewrite (entry_heap s t j).
  - unfold phase_of. rewrite Hm. by destruct (TargetState j).
Qed.

Lemma handle_evaluation_moves s w : inv s → asteps evaluating (abs s) (abs (handle_evaluation s w).1).
Proof.
  intros Hi. unfold handle_evaluation. rewrite M_bind_unfold. cbn [fst mret M_ret].
  set (s0 := set_syncs (executionSync s) (resourceSync s) false s).
  assert (inv s0) as Hi0 by by apply inv_set_syncs.
  rewrite (for_range_stable jobs) by (apply Hi0 || (intros; apply evaluate_job_jobs)).
  apply (over_list_moves evaluating evaluate_job (view (jobs s0)) s0); [|done|done].
  intros t s1 w1 Hi1 Ht. split; [by apply evaluate_job_inv|].
  split; [apply evaluate_job_jobs|by apply evaluate_job_moves].
Qed.

(** ** The cases the machine does not see *)
Lemma sync_job_abs t s w : abs (sync_job t s w).1 = abs s.
Proof.
  assert (∀ (f : Job T W → Job T W) s w, (∀ j, workload (f j) = workload j ∧ phase_of (f j) = phase_of j) →
    abs (update t (λ j, mret (f j)) s w).1 = abs s) as Hu.
  { intros f s1 w1 Hf. destruct (update_frame s1 t (λ j, mret (f j)) w1) as [E1 E2].
    apply abs_ext; [done|by rewrite E2|]. intros u. apply (update_entry s1 t (λ j, mret (f j)) w1 u). intros. apply Hf. }
  unfold sync_job. destruct (pc s); try done. destruct (heap s !! t) as [j|]; [|done].
  destruct (CpuResource_Equal _ _); [done|]. rewrite M_bind_unfold.
  assert (abs (poll_resource t (Job_ID j) s w).1 = abs s) as Hp.
  { unfold poll_resource. destruct (lookup_future _ _) as [[err|]|]; [|done|done].
    rewrite M_bind_unfold. cbn [fst mret M_ret]. destruct err; [done|].
    exact (Hu (λ j, SetTargetResources (TargetResources j) j) s w (λ _, conj eq_refl eq_refl)). }
  rewrite <-Hp. set (s1 := (poll_resource t (Job_ID j) s w).1). destruct (negb _); [done|].
  rewrite M_bind_unfold. destruct (getJobResources _ _).1 as [res|]; [|done].
  destruct (Error res); [done|]. rewrite M_bind_unfold.
  match goal with |- context [update t _ s1 ?w'] =>
    rewrite <-(Hu (λ j, SetCurrentResources (RValue res) j) s1 w' (λ _, conj eq_refl eq_refl)) end.
  by destruct (CpuResource_Equal _ _).
Qed.

Lemma handle_resource_abs s w : abs (handle_resource s w).1 = abs s.
Proof.
  unfold handle_resource. apply (for_range_inv jobs (λ s', abs s' = abs s)); [|done].
  intros t s1 w1 E. by rewrite sync_job_abs.
Qed.

(** ** Every step *)
Definition may (e : event T) : action → bool :=
  match e with
  | EInput _ => configuring
  | EEvaluation => evaluating
  | EExecution => executing
  | _ => λ _, false
  end.

Lemma step_moves s w e s' w' : inv s → step (s, w) e (s', w') → asteps (may e) (abs s) (abs s').
Proof.
  intros Hi Hs. inversion Hs; subst; try apply asteps_refl.
  - pose proof (handle_input_moves opt s w Hi) as Hx. by destruct (handle_input opt s w); simplify_eq.
  - unfold handle_profiles. case_bool_decide; apply asteps_refl.
  - pose proof (handle_execution_moves s w Hi) as Hx. by destruct (handle_execution s w); simplify_eq.
  - rewrite <-(handle_resource_abs s w). destruct (handle_resource s w); simplify_eq.
    apply asteps_refl.
  - pose proof (handle_evaluation_moves s w Hi) as Hx. by destruct (handle_evaluation s w); simplify_eq.
  - unfold handle_heartbeat. destruct (executionSync s); apply asteps_refl.
Qed.

(** ** Properties *)

(** C3: the scheduler refines the abstract machine: in every reachable state,
    each step of the program is a sequence of the abstract steps its case may
    take (a configuration creates workloads and lets others leave, an evaluation
    retargets, an execution begins and takes back operations and retires what is
    leaving, and no other case changes anything), and an initial scheduler is
    the machine that manages nothing. *)
Theorem scheduler_refines s w e s' w' :
  reachable s → step (s, w) e (s', w') →
  asteps (may e) (abs s) (abs s') ∧ abs (newScheduler (T := T) (W := W)) = MkSpec ∅ ∅.
Proof. intros Hr Hs. split; [by eapply step_moves, Hs; apply reachable_inv|done]. Qed.

(** The events between two configurations. *)
Definition no_input (e : event T) : bool := match e with EInput _ => false | _ => true end.

Lemma run_kept sw es sw' :
  run sw es sw' → inv sw.1 → Forall (λ e, no_input e = true) es →
  inv sw'.1 ∧ kept (managed_by sw.1) (managed_by sw'.1).
Proof.
  induction 1 as [|sw1 es [s2 w2] e [s3 w3] _ IH Hs]; intros Hi Hf; [split; [done|apply kept_refl]|].
  apply Forall_app in Hf as [Hf He]. apply Forall_inv in He. destruct (IH Hi Hf) as [Hi2 Hk].
  split; [by eapply step_inv, Hs|]. eapply kept_trans; [exact Hk|].
  eapply (asteps_kept _ (abs s2) (abs s3)); [|by eapply step_moves, Hs].
  intros act. by destruct e, act.
Qed.

(** C4: between two configurations, whatever the engine, the metrics, the
    operations in progress and their order do: no workload appears, a workload
    that is leaving never comes back, and a workload that is not leaving is
    still there. *)
Theorem workloads_kept s w es s' w' i x :
  reachable s → run (s, w) es (s', w') → Forall (λ e, no_input e = true) es →
  (∀ p', managed_by s' !! i = Some (x, p') →
     ∃ p, managed_by s !! i = Some (x, p) ∧ (p = Leaving ↔ p' = Leaving)) ∧
  (∀ p, managed_by s !! i = Some (x, p) → p ≠ Leaving →
     ∃ p', managed_by s' !! i = Some (x, p') ∧ p' ≠ Leaving).
Proof.
  intros Hr Hrun Hf. destruct (run_kept _ _ _ Hrun (reachable_inv s Hr) Hf) as [_ [H1' H2']].
  cbn [fst] in *. split; [apply H1'|]. intros p Hp Hn. destruct (H2' i x p Hp Hn) as [p' Hp'].
  exists p'. split; [done|]. destruct (H1' i x p' Hp') as (p1 & ? & E). simplify_eq. by rewrite <-E.
Qed.
End abstraction.

(** ** On the concrete scheduler *)
Import TickWorld OneContainer.

Lemma scheduler_refines_witness : asteps executing (abs s4) (abs s5).
Proof.
  apply (scheduler_refines s4 100%Z EExecution s5 (handle_execution s4 100%Z).2 s4_reachable).
  change (step (s4, 100%Z) EExecution ((handle_execution s4 100%Z).1, (handle_execution s4 100%Z).2)).
  rewrite <-surjective_pairing. apply st_execution; by vm_compute.
Defined.

(** Both workloads of [s4] are still managed in [s5]. *)
Lemma workloads_kept_witness : ∃ p, managed_by s5 !! "b" = Some (pod "b", p) ∧ p ≠ Leaving.
Proof.
  apply (workloads_kept s4 100%Z ([] ++ [EExecution]) s5 (handle_execution s4 100%Z).2 "b" (pod "b")) with (p := On).
  - exact s4_reachable.
  - apply (run_snoc _ [] (s4, 100%Z)); [constructor|].
    change (step (s4, 100%Z) EExecution ((handle_execution s4 100%Z).1, (handle_execution s4 100%Z).2)).
    rewrite <-surjective_pairing. apply st_execution; by vm_compute.
  - by repeat constructor.
  - by vm_compute.
  - done.
Defined.

(** ** An operation begun after the job is gone

    Three workloads leave at once. The first deletion moves the slice under the
    loop: the second job is skipped and the third is met twice. If its container
    runs again between the two, it is stopped although it has no job any more. *)
Module Stray.
#[export] Instance flapping_engine : Executor demo Z := {|
  Remove := λ _ w, (None, w); Run := λ _ w, (None, w); Stop := λ _ w, (None, w);
  GetState := λ d w, (ok (if bool_decide (d_id d = "b") && (102 <=? w)%Z then RunningState else UnknownState),
                      (w + 1)%Z);
  Exists := λ _ w, (ok false, w); Sleep := λ w, (tt, w)
|}.

Definition three : Scheduler demo Z := (handle_input (MkOption [pod "a"; pod "b"; pod "c"] false) newScheduler 0%Z).1.
Definition leaving : Scheduler demo Z := handle_heartbeat (handle_input (MkOption [] false) three 0%Z).1.
Definition after : Scheduler demo Z := (handle_execution leaving 100%Z).1.

(** in a reachable state, an execution begins an operation for a workload that
    it has just retired; its result is taken by no job, until a configuration
    lists the workload again: the new job then waits for it. *)
Theorem stray_operation :
  (∃ es w, run (newScheduler, 0%Z) es (after, w)) ∧
  managed_by leaving !! "b" = Some (pod "b", Leaving) ∧ managed_by after !! "b" = None ∧
  managed_by after !! "a" = Some (pod "a", Leaving) ∧
  lookup_future "b" (futures leaving) = None ∧ lookup_future "b" (futures after) = Some None.
Proof.
  split; [|by vm_compute].
  exists (((((([] ++ [EInput (MkOption [pod "a"; pod "b"; pod "c"] false)]) ++ [EWorld]) ++
    [EInput (MkOption [] false)]) ++ [EHeartbeat]) ++ [EWorld]) ++ [EExecution]), (handle_execution leaving 100%Z).2.
  unfold after. rewrite <-surjective_pairing.
  eapply run_snoc; [|by apply st_execution]. eapply run_snoc; [|apply st_world].
  eapply run_snoc; [|by apply st_heartbeat].
  eapply (run_snoc _ _ (three, 0%Z) _ ((handle_input (MkOption [] false) three 0%Z).1, (handle_input (MkOption [] false) three 0%Z).2)).
  - eapply run_snoc; [|apply st_world].
    eapply (run_snoc _ _ (newScheduler, 0%Z)); [constructor|]. unfold three.
    instantiate (1 := (handle_input (MkOption [pod "a"; pod "b"; pod "c"] false) newScheduler 0%Z).2).
    rewrite <-surjective_pairing. by apply st_input.
  - rewrite <-surjective_pairing. by apply st_input.
Qed.
End Stray.
