(* ===== verification/SchedulerRemoval.v ===== *)
(** * Removals complete

    A job that is marked for deletion and whose container is gone is removed
    after a number of execution cycles, although a deletion makes the loop of
    the cycle skip jobs ([Store.delete_in_range_skips]): each cycle removes it or
    moves it closer to the front of the slice, and nothing else moves it. *)
From Stdlib Require Import Strings.String.
From S2P Require Import Prelude GoStd Entity Interfaces Job Store Profile Evaluate Reconcile Scheduler.
From S2P Require Import SchedulerFacts SchedulerProps SchedulerLoop SchedulerWitness SchedulerSpec.
Local Open Scope string_scope.
Local Open Scope list_scope.

Section removal.
Context {T W : Type} `{Workload T} `{Clock W} `{CronLib} `{MapOrder W}.
Context `{Executor T W} `{ResourceManager W} `{RegexpLib}.
Implicit Types (s : Scheduler T W) (j : Job T W) (t u : loc) (w : W).

(** ** The other cases *)

(** What a case but the execution may do to a job: a marked job stays marked and
    in the state last recorded. *)
Definition keeps j j' : Prop :=
  workload j' = workload j ∧
  (IsMarkedForDeletion j = true → IsMarkedForDeletion j' = true ∧ CurrentState j' = CurrentState j).

(** Jobs are only added, at the end, and no reconciliation begins or ends. *)
Record calm s s' : Prop := {
  calm_view : store_wf (jobs s) → store_wf (jobs s') ∧
    ∃ l, view (jobs s') = view (jobs s) ++ l ∧ ∀ u, u ∈ l → heap s !! u = None;
  calm_heap : ∀ t j, heap s !! t = Some j → ∃ j', heap s' !! t = Some j' ∧ keeps j j';
  calm_futures : current (futures s') = current (futures s)
}.

Lemma keeps_refl j : keeps j j.
Proof. by split. Qed.

Lemma calm_same s s' : jobs s' = jobs s → heap s' = heap s → current (futures s') = current (futures s) → calm s s'.
Proof.
  intros Ej Eh Ef. split; [|intros t j Hj; exists j; by rewrite Eh|done].
  intros Hw. rewrite Ej. split; [done|]. exists []. rewrite app_nil_r. split; [done|].
  intros u Hu. by apply not_elem_of_nil in Hu.
Qed.

Lemma calm_refl s : calm s s.
Proof. by apply calm_same. Qed.

Lemma calm_trans s1 s2 s3 : calm s1 s2 → calm s2 s3 → calm s1 s3.
Proof.
  intros [V1 H1' F1] [V2 H2' F2]. split; [| |congruence].
  - intros Hw. destruct (V1 Hw) as (Hw2 & l1 & E1 & N1). destruct (V2 Hw2) as (Hw3 & l2 & E2 & N2).
    split; [done|]. exists (l1 ++ l2). rewrite E2, E1, app_assoc. split; [done|].
    intros u [Hu|Hu]%elem_of_app; [by apply N1|]. apply eq_None_not_Some. intros [j Hj].
    destruct (H1' u j Hj) as (j' & Hj' & _). by rewrite (N2 u Hu) in Hj'.
  - intros t j Hj. destruct (H1' t j Hj) as (j2 & Hj2 & W2 & K2). destruct (H2' t j2 Hj2) as (j3 & Hj3 & W3 & K3).
    exists j3. split; [done|]. split; [congruence|]. intros Hm. destruct (K2 Hm) as [Hm2 E2].
    destruct (K3 Hm2) as [Hm3 E3]. split; [done|congruence].
Qed.

Lemma calm_update s t j' : (∀ j, heap s !! t = Some j → keeps j j') → calm s (set_heap (<[t := j']> (heap s)) s).
Proof.
  intros Hk. split; [exact (calm_view s s (calm_refl s))| |done]. intros u j Hj. cbn [heap set_heap].
  destruct (decide (u = t)) as [->|Hn]; [rewrite lookup_insert_eq|rewrite lookup_insert_ne by done]; eauto using keeps_refl.
Qed.

Lemma update_calm t (f : Job T W → M W (Job T W)) s w : (∀ j w, keeps j (f j w).1) → calm s (update t f s w).1.
Proof.
  intros Hf. unfold update. destruct (heap s !! t) as [j|] eqn:Hj; [|apply calm_refl]. run_M.
  apply calm_update. intros j0. rewrite Hj. intros [= <-]. apply Hf.
Qed.

(** A loop whose body is calm. *)
Lemma range_calm (arr_of : Scheduler T W → list loc) n k body s w :
  (∀ t s w, calm s (body t s w).1) → calm s (range_from arr_of n k body s w).1.
Proof.
  intros Hb. apply (range_inv arr_of (calm s)); [|apply calm_refl]. intros t s1 w1 Hs. by eapply calm_trans, Hb.
Qed.

Lemma over_list_calm l body s w : (∀ t s w, calm s (body t s w).1) → calm s (over_list l body s w).1.
Proof.
  intros Hb. revert s w. induction l as [|t l IH]; intros s w; [apply calm_refl|].
  cbn [over_list]. rewrite M_bind_unfold. eapply calm_trans; [apply Hb|apply IH].
Qed.

Lemma SetTargetState_keeps st j w : keeps j (SetTargetState st j w).1.
Proof. unfold keeps. by destruct (SetTargetState_frame st j w) as [r ->]. Qed.

Lemma remove_job_calm t s w : calm s (remove_job t s w).1.
Proof.
  unfold remove_job. rewrite M_bind_unfold. eapply calm_trans; apply update_calm; intros j w1;
    [by split|apply SetTargetState_keeps].
Qed.

Lemma add_job_calm j s : calm s (add_job j s).
Proof.
  split; [|  |done].
  - intros Hw. split; [by apply Add_wf|]. exists [fresh (dom (heap s))]. split; [by apply Add_view|].
    intros u ->%list_elem_of_singleton. apply not_elem_of_dom, is_fresh.
  - intros t j0 Hj. exists j0. split; [|apply keeps_refl]. unfold add_job. cbn [heap set_jobs set_heap].
    rewrite lookup_insert_ne; [done|]. intros <-.
    apply (is_fresh (dom (heap s))). by eapply elem_of_dom_2.
Qed.

Lemma add_jobs_calm ws s w : calm s (add_jobs ws s w).1.
Proof.
  revert s w. induction ws as [|x ws IH]; intros s w; [apply calm_refl|].
  cbn [add_jobs]. rewrite M_bind_unfold. eapply calm_trans; [|apply IH].
  destruct (createJob x w).1; [apply calm_refl|apply add_job_calm].
Qed.

Lemma handle_input_calm opt s w : calm s (handle_input opt s w).1.
Proof.
  unfold handle_input, for_range. destruct (None_ opt); [apply range_calm, remove_job_calm|].
  rewrite !M_bind_unfold. eapply calm_trans; [apply add_jobs_calm|].
  eapply calm_trans; [|apply over_list_calm, remove_job_calm]. by apply calm_same.
Qed.

Lemma evaluate_job_calm t s w : calm s (evaluate_job t s w).1.
Proof.
  unfold evaluate_job. destruct (heap s !! t) as [j|] eqn:Hj; [|apply calm_refl].
  destruct (IsMarkedForDeletion j) eqn:Hm; [apply calm_refl|]. rewrite M_bind_unfold.
  set (r := (evaluate _ _ w).1). rewrite (update_eq s t j _ _ Hj). cbn [fst]. apply calm_update.
  intros j0. rewrite Hj. intros [= <-]. split; [|by rewrite Hm]. unfold apply_evaluation.
  destruct (Active r); [|apply SetTargetState_keeps]. rewrite M_bind_unfold. cbn [fst mret M_ret].
  match goal with |- context [SetTargetState ?a ?b ?c] => destruct (SetTargetState_keeps a b c) as [Hw _] end.
  by destruct (negb _).
Qed.

Lemma sync_job_calm t s w : calm s (sync_job t s w).1.
Proof.
  unfold sync_job. destruct (pc s); try apply calm_refl. destruct (heap s !! t) as [j|]; [|apply calm_refl].
  destruct (CpuResource_Equal _ _); [apply calm_refl|]. rewrite M_bind_unfold.
  apply (calm_trans _ (poll_resource t (Job_ID j) s w).1).
  { unfold poll_resource. destruct (lookup_future _ _) as [[err|]|]; try apply calm_refl. rewrite M_bind_unfold.
    destruct err; cbn [fst mret M_ret]; [by apply calm_same|].
    eapply calm_trans; [apply (update_calm t (λ j, mret (SetTargetResources (TargetResources j) j)) s w); by split|].
    by apply calm_same. }
  set (s1 := (poll_resource t (Job_ID j) s w).1). destruct (negb _); [apply calm_refl|].
  rewrite M_bind_unfold. destruct (getJobResources _ _).1 as [res|]; [|by apply calm_same].
  destruct (Error res); [apply calm_refl|]. rewrite M_bind_unfold.
  eapply calm_trans; [apply (update_calm t (λ j, mret (SetCurrentResources (RValue res) j)) s1); by split|].
  destruct (CpuResource_Equal _ _); [apply calm_refl|]. by apply calm_same.
Qed.

Lemma handle_resource_calm s w : calm s (handle_resource s w).1.
Proof.
  unfold handle_resource, for_range. eapply calm_trans; [|apply range_calm, sync_job_calm]. by apply calm_same.
Qed.

Lemma handle_evaluation_calm s w : calm s (handle_evaluation s w).1.
Proof.
  unfold handle_evaluation, for_range. rewrite M_bind_unfold. cbn [fst mret M_ret].
  match goal with |- calm s (set_syncs _ _ _ ?s2) => apply (calm_trans s s2); [|by apply calm_same] end.
  eapply calm_trans; [|apply range_calm, evaluate_job_calm]. by apply calm_same.
Qed.

Lemma step_calm s w e s' w' : step (s, w) e (s', w') → e ≠ EExecution → calm s s'.
Proof.
  intros Hs He. inversion Hs; subst; try done; try (by apply calm_same).
  - pose proof (handle_input_calm opt s w) as Hc. by destruct (handle_input opt s w); simplify_eq.
  - unfold handle_profiles. case_bool_decide; [apply calm_refl|by apply calm_same].
  - pose proof (handle_resource_calm s w) as Hc. by destruct (handle_resource s w); simplify_eq.
  - pose proof (handle_evaluation_calm s w) as Hc. by destruct (handle_evaluation s w); simplify_eq.
  - unfold handle_heartbeat. destruct (executionSync s); by apply calm_same.
Qed.

(** ** The execution *)

(** The job of [t], whose workload is [x], waits to be removed. *)
Definition waiting t (x : T) s : Prop :=
  (∃ j, heap s !! t = Some j ∧ workload j = x ∧ IsMarkedForDeletion j = true ∧ CurrentState j ≠ InactiveState) ∧
  current (futures s) !! ID x = None.

(** The executor finds no container of [x], or one that has ended. *)
Definition reported_gone (x : T) : Prop :=
  ∀ w, Error (GetState x w).1 = None ∧ RValue (GetState x w).1 ∈ [UnknownState; ExitedState].

Lemma calm_waiting s s' t x : calm s s' → waiting t x s → waiting t x s'.
Proof.
  intros Hc [(j & Hj & Hw & Hm & Hn) Hf]. split; [|by rewrite (calm_futures s s' Hc)].
  destruct (calm_heap s s' Hc t j Hj) as (j' & Hj' & Hw' & Hk). destruct (Hk Hm) as [Hm' Hc'].
  exists j'. split; [done|]. split; [congruence|]. split; [done|congruence].
Qed.

(** Handling another job changes nothing about [t]. *)
Lemma update_other t u f s w : u ≠ t → heap (update u f s w).1 !! t = heap s !! t.
Proof.
  intros Hn. unfold update. destruct (heap s !! u); [|done]. run_M. by apply lookup_insert_ne.
Qed.

Lemma execute_job_other t u s w : u ≠ t → heap (execute_job u s w).1 !! t = heap s !! t.
Proof.
  intros Hn. destruct (heap s !! u) as [j|] eqn:Hj; [|unfold execute_job; by rewrite Hj].
  destruct (lookup_future (Job_ID j) (futures s)) as [fut|] eqn:Hf.
  { unfold execute_job. rewrite Hj, Hf. unfold poll_job. destruct fut as [res|]; [|done]. run_M.
    cbn [heap set_futures]. destruct (Error res); [done|by apply update_other]. }
  destruct (Error (GetState (workload j) w).1) eqn:He; [by rewrite (execute_job_error s u j w) by (done || by rewrite He)|].
  destruct (execute_job_advance s u j w Hj Hf He) as [w' ->]. unfold advance.
  destruct (removable _); [by apply lookup_insert_ne|]. destruct (negb _); [by apply lookup_insert_ne|].
  rewrite M_bind_unfold. destruct (negb _); [by apply lookup_insert_ne|]. rewrite M_bind_unfold.
  destruct (negb _); cbn [heap set_futures set_heap fst mret M_ret]; by rewrite !lookup_insert_ne.
Qed.

Lemma execute_job_there t u s w : inv s → is_Some (heap s !! t) → is_Some (heap (execute_job u s w).1 !! t).
Proof.
  intros Hi [j Hj]. destruct (decide (u = t)) as [->|Hn]; [|rewrite execute_job_other by done; by exists j].
  destruct (execute_job_effect t j s w Hi Hj) as [He _]. specialize (He t). unfold entry in He. rewrite Hj in He.
  by destruct (heap (execute_job t s w).1 !! t).
Qed.

Lemma execute_job_futures u s w i :
  inv s → i ≠ id_of s u → current (futures (execute_job u s w).1) !! i = current (futures s) !! i.
Proof.
  intros Hi Hn. destruct (heap s !! u) as [j|] eqn:Hj; [|unfold execute_job; by rewrite Hj].
  assert (i ≠ Job_ID j) as Hne by (by unfold id_of in Hn; rewrite Hj in Hn).
  destruct (lookup_future (Job_ID j) (futures s)) as [fut|] eqn:Hf.
  { unfold execute_job. rewrite Hj, Hf. unfold poll_job. destruct fut as [res|]; [|done]. run_M.
    cbn [futures set_futures].
    assert (∀ fs : Futures (GResult JobState), current (finish (Job_ID j) fs) !! i = current fs !! i) as Hfin.
    { intros fs. unfold finish. destruct (current fs !! Job_ID j); [|done]. by apply lookup_delete_ne. }
    rewrite Hfin. destruct (Error res); [done|]. by destruct (update_frame s u (SetCurrentState (RValue res)) w) as [_ ->]. }
  destruct (Error (GetState (workload j) w).1) eqn:He; [by rewrite (execute_job_error s u j w) by (done || by rewrite He)|].
  destruct (execute_job_advance s u j w Hj Hf He) as [w' ->].
  destruct (reported_spec j w) as (Hid & _). unfold advance. rewrite Hid.
  destruct (removable _); [by apply lookup_delete_ne|]. destruct (negb _); [done|].
  rewrite M_bind_unfold. destruct (negb _); [done|]. rewrite M_bind_unfold.
  destruct (negb _); [done|]. by apply lookup_insert_ne.
Qed.

(** Handling [t] itself removes it. *)
Lemma execute_job_removes t x s w :
  inv s → t ∈ view (jobs s) → waiting t x s → reported_gone x → t ∉ view (jobs (execute_job t s w).1).
Proof.
  intros Hi Ht [(j & Hj & Hw & Hm & Hn) Hf] Hg. destruct (Hg w) as [He Hst]. rewrite <-Hw in He, Hst, Hf.
  assert (lookup_future (Job_ID j) (futures s) = None) as Hlf by (unfold lookup_future, Job_ID; by rewrite Hf).
  destruct (execute_job_advance s t j w Hj Hlf He) as [w' ->]. rewrite advance_store.
  destruct (reported_spec j w) as (Hid & Hmk & Htg & _ & Hcs).
  assert (removable (reported j w) = true) as ->.
  { unfold removable. rewrite Hmk, Hm, Hcs. cbn [andb]. apply OneOf_spec. unfold recorded.
    rewrite (bool_decide_eq_false_2 (CurrentState j = InactiveState)) by done.
    rewrite (job_marked j (inv_jobs s Hi t j Hj) Hm).
    rewrite (bool_decide_eq_false_2 (ExitedState = InactiveState)), andb_false_r, orb_false_r by done.
    case_bool_decide; case_bool_decide as Hx; cbn [andb]; set_solver. }
  rewrite (Delete_ids_ext _ (id_of s)).
  - destruct (Delete_spec (id_of s) (jobs s) t (inv_wf s Hi) (inv_distinct s Hi) Ht) as (l1 & l2 & Hv & _ & Hv' & _).
    cbn [jobs set_heap]. rewrite Hv'. pose proof (view_NoDup s Hi) as Hd. rewrite Hv in Hd.
    rewrite elem_of_app. apply list.NoDup_app in Hd as (_ & Hd1 & Hd2). apply list.NoDup_cons in Hd2 as [Hd2 _].
    intros [Hin|Hin]; [|done]. by apply (Hd1 t Hin); left.
  - intros u. by apply (set_heap_id_of s t j).
Qed.

(** A deletion of another job moves [t] at most one place to the front. *)
Lemma Delete_position ids u st t p :
  store_wf st → view st !! p = Some t → ids u ≠ ids t →
  ∃ p', view (Delete ids u st).2 !! p' = Some t ∧ (p' ≤ p)%nat.
Proof.
  intros Hw Hp Hne. destruct (index ids st (ids u)) as [k|] eqn:Ek; [|unfold Delete; rewrite Ek; by exists p].
  rewrite (Delete_view ids u st k) by done. apply index_in_spec in Ek as [(v & Hv & Hid) _].
  destruct (decide (p < k)%nat).
  - exists p. split; [|lia]. rewrite lookup_app_l by (apply lookup_lt_Some in Hv; rewrite length_take; lia).
    by rewrite lookup_take_lt.
  - assert (p ≠ k) by (intros ->; congruence). exists (p - 1)%nat. split; [|lia].
    pose proof (lookup_lt_Some _ _ _ Hv). rewrite lookup_app_r, length_take, lookup_drop by (rewrite length_take; lia).
    replace (S k + (p - 1 - k `min` length (view st)))%nat with p by lia. done.
Qed.

(** *** The loop *)

(** While the loop on [V] is at slot [k]: [t], which started in slot [i], is gone,
    has moved to the front, or is still ahead of the loop. *)
Record ahead (V : list loc) t x i k s : Prop := {
  ahead_loop : looping V s;
  ahead_arr : (length V ≤ length (arr (jobs s)))%nat;
  ahead_heap : is_Some (heap s !! t);
  ahead_place : t ∉ view (jobs s) ∨
    waiting t x s ∧ ∃ p, view (jobs s) !! p = Some t ∧ (p < i ∨ p = i ∧ k ≤ i)%nat
}.

Lemma execute_job_arr u s w :
  store_wf (jobs s) → length (arr (jobs (execute_job u s w).1)) = length (arr (jobs s)) ∧
  (view (jobs (execute_job u s w).1) ⊆ view (jobs s)).
Proof.
  intros Hw. destruct (execute_job_store s u w) as [->|(j & _ & _ & _ & _ & ->)]; [done|].
  split; [|by apply sublist_subseteq, Delete_view_sub]. unfold Delete. destruct (index _ _ _) as [n|] eqn:E; [|done].
  cbn [snd]. apply remove_at_length; [done|]. by eapply index_bound.
Qed.

Lemma ahead_step V t x i k u s w :
  reported_gone x → t ∈ V → (k < length V)%nat → arr (jobs s) !! k = Some u →
  ahead V t x i k s → ahead V t x i (S k) (execute_job u s w).1.
Proof.
  intros Hg HtV Hk Hu [Hl Ha Hh Hp]. pose proof (loop_inv V s Hl) as Hi.
  assert (u ∈ V) as HuV by by eapply loop_slots.
  destruct (execute_job_arr u s w (inv_wf s Hi)) as [Ha' Hsub].
  split; [by apply execute_job_moves|by rewrite Ha'| |].
  - by apply execute_job_there.
  - destruct Hp as [Hgone|[Hw (p & Hp & Hpos)]]; [left; intros Hin; by apply Hgone, Hsub|].
    assert (t ∈ view (jobs s)) as Ht by by eapply list_elem_of_lookup_2.
    destruct (decide (u = t)) as [->|Hn]; [left; by eapply execute_job_removes|]. right.
    assert (id_of s u ≠ id_of s t) as Hid.
    { intros E. apply Hn. by apply (NoDup_map_inj (id_of s) V u t (loop_distinct V s Hl)). }
    assert (ID x = id_of s t) as Hx.
    { destruct Hw as [(j & Hj & <- & _) _]. unfold id_of. by rewrite Hj. }
    split.
    + destruct Hw as [Hj Hf]. split; [by rewrite execute_job_other|]. rewrite execute_job_futures; [done|done|congruence].
    + assert (p ≠ k) as Hpk.
      { intros ->. unfold view in Hp. apply lookup_take_Some in Hp as [Hp _]. congruence. }
      destruct (execute_job_store s u w) as [->|(j & _ & _ & _ & _ & ->)]; [exists p; split; [done|lia]|].
      destruct (Delete_position (id_of s) u (jobs s) t p (inv_wf s Hi) Hp Hid) as (p' & Hp' & Hle).
      exists p'. split; [done|]. lia.
Qed.

Lemma handle_execution_ahead s w t x i :
  inv s → view (jobs s) !! i = Some t → waiting t x s → reported_gone x →
  let s' := (handle_execution s w).1 in
  is_Some (heap s' !! t) ∧
  (t ∉ view (jobs s') ∨ waiting t x s' ∧ ∃ p, view (jobs s') !! p = Some t ∧ (p < i)%nat).
Proof.
  intros Hi Hv Hw Hg. unfold handle_execution. rewrite M_bind_unfold. cbn [fst mret M_ret].
  set (s0 := set_syncs false (resourceSync s) (evaluationSync s) s).
  pose proof (view_length (jobs s) (inv_wf s Hi)) as Hlen. pose proof (lookup_lt_Some _ _ _ Hv) as Hlt.
  unfold for_range. change (jobs s0) with (jobs s). rewrite <-Hlen.
  assert (∀ k s1, (k < 0 + length (view (jobs s)))%nat → ahead (view (jobs s)) t x i k s1 →
    is_Some (arr (jobs s1) !! k)) as Hsome.
  { intros k s1 Hk [_ Ha _ _]. apply lookup_lt_is_Some. lia. }
  assert (ahead (view (jobs s)) t x i 0 s0) as H0'.
  { split; [exact (looping_start s0 (inv_set_syncs _ _ _ _ Hi))| | |].
    - change (jobs s0) with (jobs s). unfold view. rewrite length_take. lia.
    - destruct Hw as [(j & Hj & _) _]. by exists j.
    - right. split; [exact Hw|]. exists i. split; [exact Hv|lia]. }
  pose proof (range_inv_at _ (ahead (view (jobs s)) t x i) execute_job _ 0 s0 w
    (λ k u s1 w1 Hk Hu, ahead_step _ t x i k u s1 w1 Hg (list_elem_of_lookup_2 _ _ _ Hv) Hk Hu) Hsome H0') as [_ _ Hh Hp].
  split; [exact Hh|]. destruct Hp as [?|[Hw' (p & Hp & Hpos)]]; [by left|right]. split; [exact Hw'|].
  exists p. split; [exact Hp|lia].
Qed.

(** A job that is gone stays gone. *)
Lemma execution_keeps_gone t s w :
  inv s → is_Some (heap s !! t) → t ∉ view (jobs s) →
  is_Some (heap (handle_execution s w).1 !! t) ∧ t ∉ view (jobs (handle_execution s w).1).
Proof.
  intros Hi Hh Hn. unfold handle_execution. rewrite M_bind_unfold. cbn [fst mret M_ret heap jobs set_syncs].
  set (s0 := set_syncs false (resourceSync s) (evaluationSync s) s).
  apply (range_inv (λ s, arr (jobs s))
    (λ s1, inv s1 ∧ (is_Some (heap s1 !! t) ∧ t ∉ view (jobs s1)))); [|by split; [apply inv_set_syncs|]].
  intros u s1 w1 [Hi1 [Hh1 Hn1]]. split; [by apply execute_job_inv|].
  destruct (execute_job_arr u s1 w1 (inv_wf s1 Hi1)) as [_ Hsub]. split; [|intros Hin; by apply Hn1, Hsub].
  by apply execute_job_there.
Qed.

(** ** Runs *)
Fixpoint executions (es : list (event T)) : nat :=
  match es with
  | [] => 0
  | EExecution :: es' => S (executions es')
  | _ :: es' => executions es'
  end.

Lemma executions_snoc es e : executions (es ++ [e]) = (executions es + executions [e])%nat.
Proof. induction es as [|e' es IH]; [done|]. cbn [app executions]. rewrite IH. by destruct e'. Qed.

Lemma run_ahead sw es sw' t x i :
  run sw es sw' → inv sw.1 → view (jobs sw.1) !! i = Some t → waiting t x sw.1 → reported_gone x →
  inv sw'.1 ∧ is_Some (heap sw'.1 !! t) ∧
  (t ∉ view (jobs sw'.1) ∨
   waiting t x sw'.1 ∧ ∃ p, view (jobs sw'.1) !! p = Some t ∧ (p + executions es ≤ i)%nat).
Proof.
  intros Hr Hi Hv Hw Hg. induction Hr as [sw|sw1 es [s2 w2] e [s3 w3] _ IH Hs].
  { split; [done|]. destruct Hw as [(j & Hj & ?) ?]. split; [by exists j|]. right.
    split; [split; [by exists j|done]|]. exists i. split; [done|]. simpl. lia. }
  destruct (IH Hi Hv Hw) as (Hi2 & Hh & Hp). cbn [fst] in *. clear IH Hv Hw.
  split; [by eapply step_inv, Hs|]. rewrite executions_snoc. destruct (decide (executions [e] = 0)%nat) as [E|E].
  - assert (calm s2 s3) as Hc by (eapply step_calm; [exact Hs|]; by intros ->).
    destruct (calm_view s2 s3 Hc (inv_wf s2 Hi2)) as (_ & l & Hl & Hfresh).
    destruct Hh as [j Hj]. destruct (calm_heap s2 s3 Hc t j Hj) as (j' & Hj' & _). split; [by exists j'|].
    destruct Hp as [Hn|[Hw (p & Hp & Hle)]].
    + left. rewrite Hl, elem_of_app. intros [?|Hin]; [done|]. rewrite (Hfresh t Hin) in Hj. done.
    + right. split; [by eapply calm_waiting|]. exists p. rewrite Hl. split; [by apply lookup_app_l_Some|lia].
  - destruct e; try done. cbn [executions].
    assert (s3 = (handle_execution s2 w2).1) as -> by (inversion Hs as [ | |s0 w0 ? ? E0| | | | | | |]; by destruct (handle_execution s2 w2); simplify_eq).
    destruct Hp as [Hn|[Hw (p & Hp & Hle)]].
    + destruct (execution_keeps_gone t s2 w2 Hi2 Hh Hn). split; [done|by left].
    + destruct (handle_execution_ahead s2 w2 t x p Hi2 Hp Hw Hg) as [Hh' [Hn|[Hw' (p' & Hp' & Hlt)]]];
        (split; [done|]); [by left|right]. split; [done|]. exists p'. split; [done|lia].
Qed.

(** C27: a job that is marked for deletion, without a reconciliation in progress,
    whose container the executor reports as gone or exited from then on, is
    removed by the time the execution case has run as many times as the job has
    places in the slice up to its own, whatever else happens in between; an
    inactive job is the exception. *)
Theorem removal_completes s w es s' w' t i j :
  reachable s → run (s, w) es (s', w') →
  view (jobs s) !! i = Some t → heap s !! t = Some j → IsMarkedForDeletion j = true →
  CurrentState j ≠ InactiveState → current (futures s) !! Job_ID j = None → reported_gone (workload j) →
  (i < executions es)%nat → t ∉ view (jobs s').
Proof.
  intros Hr Hrun Hv Hj Hm Hn Hf Hg Hlt.
  destruct (run_ahead _ _ _ t (workload j) i Hrun (reachable_inv s Hr) Hv) as (_ & _ & [Hgone|[_ (p & _ & Hle)]]);
    [by split; [exists j|]|done|done|lia].
Qed.
End removal.

(** ** Witness: the first cycle skips the second of three jobs *)
Import TickWorld OneContainer.

Definition three : Scheduler demo Z := (handle_input (MkOption [pod "a"; pod "b"; pod "c"] false) newScheduler 0%Z).1.
Definition all_leave : Scheduler demo Z := (handle_input (MkOption [] false) three 0%Z).1.
Definition cycle (s : Scheduler demo Z) : Scheduler demo Z := (handle_execution (handle_heartbeat s) 100%Z).1.

(** A heartbeat and the execution it asks for. *)
Lemma cycle_run es s0 w0 s :
  run (s0, w0) es (s, 100%Z) → pc s = Looping → executionSync s = false →
  run (s0, w0) ((es ++ [EHeartbeat]) ++ [EExecution]) (cycle s, (handle_execution (handle_heartbeat s) 100%Z).2).
Proof.
  intros Hr Hp He. unfold cycle. rewrite <-surjective_pairing.
  assert (handle_heartbeat s = set_syncs true (resourceSync s) (evaluationSync s) s) as E
    by (unfold handle_heartbeat; by rewrite He).
  eapply run_snoc; [eapply run_snoc; [exact Hr|by apply st_heartbeat]|].
  apply st_execution; by rewrite E.
Qed.

Lemma removal_completes_witness :
  at_ all_leave 1 ∈ view (jobs (cycle all_leave)) ∧ at_ all_leave 1 ∉ view (jobs (cycle (cycle all_leave))).
Proof.
  split; [apply (bool_decide_unpack _); by vm_compute|].
  apply (removal_completes all_leave 100%Z ((((([] ++ [EHeartbeat]) ++ [EExecution]) ++ [EWorld]) ++ [EHeartbeat]) ++ [EExecution])
    _ (handle_execution (handle_heartbeat (cycle all_leave)) 100%Z).2 (at_ all_leave 1) 1
    (job_at all_leave (at_ all_leave 1))).
  - apply reach_input; [apply reach_input; [exact s0_reachable|done]|by vm_compute].
  - apply cycle_run; [|by vm_compute|by vm_compute]. eapply run_snoc; [|apply st_world].
    apply cycle_run; [constructor|by vm_compute|by vm_compute].
  - by vm_compute.
  - apply job_there. by vm_compute.
  - by vm_compute.
  - by vm_compute.
  - by vm_compute.
  - intros w. assert (bool_decide (d_id (workload (job_at all_leave (at_ all_leave 1))) = "lost") = false) as E by by vm_compute.
    cbn [GetState no_engine]. rewrite E. split; [done|left].
  - simpl. lia.
Defined.
