(* ===== verification/ProcessConfig.v ===== *)
(** * The configuration of the process

    [configuration/config.go]: the viper object every getter reads, the binding
    of the command line's flags to it, and the getters.  Viper, pflag, the
    machine identifier and UUIDs are libraries: a class gives their operations
    and [ViperLaws] what their documentation says of them. *)
From Stdlib Require Import Strings.String SpecFloat.
From S2P Require Import Prelude GoStd Interfaces.
Local Open Scope string_scope.
Local Open Scope list_scope.

(** ** The keys *)
Definition prefix : string := "EDGE_DEVICE".
Definition caRoot_key : string := "CA_ROOT".
Definition certFile_key : string := "CERT".
Definition privateKey_key : string := "KEY".
Definition server_key : string := "SERVER".
Definition namespace_key : string := "NAMESPACE".
Definition deviceID_key : string := "DEVICE_ID".
Definition xdg_runtime_dir_key : string := "XDG_RUNTIME_DIR".
Definition kubeConfig_key : string := "KUBECONFIG".
Definition gracefulShutdown_key : string := "GRACEFUL_SHUTDOWN".
Definition defaultGracefulShutdown : Z := 5000000000.
Definition defaultNamespace : string := "default".
Definition defaultHttpTimeout : Z := 5000000000.

(** ** The libraries *)

(** A [pflag.Flag]: its name, the text of its value, and whether it was given. *)
Record Flag := MkFlag { flag_Name : string; flag_Value : string; Changed : bool }.

(** A viper object, its values ([interface{}]), and the world: the file system
    and the environment of the process. *)
Class Viper (V W : Type) := {
  any : Type;
  (** [%v] of a value, and the value that a flag is *)
  any_String : any → string;
  any_flag : string → any;
  any_string : string → any;
  viper_New : M W V;
  SetEnvPrefix : string → V → V;
  AutomaticEnv : V → V;
  SetConfigFile : string → V → V;
  ReadInConfig : V → M W (option error * V);
  BindEnv : string → string → V → V;
  IsSet : V → string → bool;
  Get : V → string → any;
  GetString : V → string → string;
  GetDuration : V → string → Z;
  Set_value : string → any → V → V;
  (** [f.Value.Set] through [cmd.Flags().Set] *)
  flag_Set : Flag → string → Flag;
  (** [os.Getenv] *)
  Getenv : string → M W string;
  machineid_ID : M W (error + string);
  uuid_New : M W string
}.

(** Keys are compared without case; a dot would make a path of them. *)
Definition same_key (k k' : string) : bool := bool_decide (strings_ToLower k = strings_ToLower k').
Definition plain (k : string) : bool := negb (strings_ContainsChar k ".").

Class ViperLaws (V W : Type) `{Viper V W} : Prop := {
  keys_fold : ∀ v k k', same_key k k' = true →
    IsSet v k = IsSet v k' ∧ Get v k = Get v k' ∧ GetString v k = GetString v k';
  (** a value given by the program has priority over every other source *)
  Set_same : ∀ v k x, plain k = true → IsSet (Set_value k x v) k = true ∧ Get (Set_value k x v) k = x;
  Set_other : ∀ v k k' x, plain k = true → plain k' = true → same_key k k' = false →
    IsSet (Set_value k x v) k' = IsSet v k' ∧ Get (Set_value k x v) k' = Get v k';
  BindEnv_other : ∀ v k k' e, plain k = true → plain k' = true → same_key k k' = false →
    IsSet (BindEnv k e v) k' = IsSet v k' ∧ Get (BindEnv k e v) k' = Get v k';
  (** the cast of a value to a string *)
  GetString_Get : ∀ v v' k k', Get v k = Get v' k' → GetString v k = GetString v' k';
  GetString_flag : ∀ v k x, Get v k = any_flag x → GetString v k = x;
  GetString_string : ∀ v k x, Get v k = any_string x → GetString v k = x
}.

Section config.
Context {V W : Type} `{Viper V W}.

(** ** Binding the flags *)

(** The body of the function given to [VisitAll]. *)
Definition bind_flag (f : Flag) (v : V) : Flag * V :=
  let dashed := strings_ContainsChar (flag_Name f) "-" in
  let flagName := if dashed then strings_ReplaceAll (flag_Name f) "-" "_" else flag_Name f in
  let v := if dashed
           then BindEnv (flag_Name f)
                  (prefix +:+ "_" +:+ strings_ToUpper (strings_ReplaceAll (flag_Name f) "-" "_")) v
           else v in
  if negb (Changed f) && IsSet v flagName then (flag_Set f (any_String (Get v flagName)), v)
  else if Changed f && negb (IsSet v flagName) then (f, Set_value flagName (any_flag (flag_Value f)) v)
  else (f, v).

(** [bindFlags], on the flags in the order of the visit. *)
Fixpoint bindFlags (flags : list Flag) (v : V) : list Flag * V :=
  match flags with
  | [] => ([], v)
  | f :: flags' =>
      let '(f, v) := bind_flag f v in
      let '(flags', v) := bindFlags flags' v in
      (f :: flags', v)
  end.

(** [InitConfiguration]: the error, the flags and the viper object after it. *)
Definition InitConfiguration (flags : list Flag) (configFile : string) : M W (option error * (list Flag * V)) :=
  v ← viper_New;
  let v := AutomaticEnv (SetEnvPrefix prefix v) in
  if (0 <? String.length configFile)%nat then
    r ← ReadInConfig (SetConfigFile configFile v);
    mret match r with
         | (Some _, v) => (Some (errorString "fail to read config file"), (flags, v))
         | (None, v) => (None, bindFlags flags v)
         end
  else mret (None, bindFlags flags v).

(** ** The getters *)
Definition GetGracefulShutdownDuration (v : V) : Z :=
  if negb (IsSet v gracefulShutdown_key) then defaultGracefulShutdown else GetDuration v gracefulShutdown_key.
Definition GetHttpRequestTimeout : Z := defaultHttpTimeout.
Definition GetTargetNamespace (v : V) : string :=
  if negb (IsSet v namespace_key) then defaultNamespace else GetString v namespace_key.

(** [GetDeviceID], which saves a generated identifier. *)
Definition GetDeviceID (v : V) : M W (string * V) :=
  if negb (IsSet v deviceID_key) then
    r ← machineid_ID;
    id ← match r with inl _ => uuid_New | inr id => mret id end;
    mret (id, Set_value deviceID_key (any_string id) v)
  else mret (GetString v deviceID_key, v).

Definition GetCARootFile (v : V) : string := GetString v caRoot_key.
Definition GetCertificateFile (v : V) : string := GetString v certFile_key.
Definition GetPrivateKey (v : V) : string := GetString v privateKey_key.
Definition GetServerAddress (v : V) : string := GetString v server_key.
Definition GetXDGRuntimeDir (v : V) : M W string :=
  if IsSet v xdg_runtime_dir_key then mret (GetString v xdg_runtime_dir_key) else Getenv "XDG_RUNTIME_DIR".
Definition GetKubeConfig (v : V) : string := GetString v kubeConfig_key.

(** [GetRepoRetryConfig]: the settings are commented out. *)
Record RetryConfig := MkRetryConfig {
  InitialInterval : Z; Multiplier : float64; MaxInterval : Z; MaxElapsedTime : Z }.
Definition GetRepoRetryConfig : RetryConfig := MkRetryConfig 0 (S754_zero false) 0 0.

(** ** Facts of the keys *)
Context `{!ViperLaws V W}.
Implicit Types (f : Flag) (v : V) (w : W).

(** The key of a flag. *)
Definition key_of f : string := strings_ReplaceAll (flag_Name f) "-" "_".

Lemma bind_flag_eq f v :
  let k := key_of f in
  let v1 := if strings_ContainsChar (flag_Name f) "-"
            then BindEnv (flag_Name f) (prefix +:+ "_" +:+ strings_ToUpper (key_of f)) v else v in
  bind_flag f v =
    if negb (Changed f) && IsSet v1 k then (flag_Set f (any_String (Get v1 k)), v1)
    else if Changed f && negb (IsSet v1 k) then (f, Set_value k (any_flag (flag_Value f)) v1)
    else (f, v1).
Proof.
  intros k v1. unfold bind_flag, v1, k, key_of.
  destruct (strings_ContainsChar (flag_Name f) "-") eqn:E; [done|]. by rewrite !ReplaceAll_absent.
Qed.

Lemma same_key_refl k : same_key k k = true.
Proof. by apply bool_decide_eq_true. Qed.

Lemma key_of_dashless f : strings_ContainsChar (key_of f) "-" = false.
Proof. by apply ReplaceAll_ContainsOld. Qed.

Lemma key_of_plain f : plain (flag_Name f) = true → plain (key_of f) = true.
Proof. unfold plain, key_of. by rewrite ReplaceAll_ContainsNew. Qed.

(** A name with a dash is the key of no flag. *)
Lemma dashed_not_key n k :
  strings_ContainsChar n "-" = true → strings_ContainsChar k "-" = false → same_key n k = false.
Proof.
  intros Hn Hk. apply bool_decide_eq_false. intros E.
  rewrite <-ToLower_ContainsDash, E, ToLower_ContainsDash in Hn. congruence.
Qed.

Notation agree v v' k := (IsSet v k = IsSet v' k ∧ Get v k = Get v' k).

Lemma bind_env_agree f v k :
  plain (flag_Name f) = true → plain k = true → strings_ContainsChar k "-" = false →
  agree (if strings_ContainsChar (flag_Name f) "-"
         then BindEnv (flag_Name f) (prefix +:+ "_" +:+ strings_ToUpper (key_of f)) v else v) v k.
Proof.
  intros Hp Hk Hd. destruct (strings_ContainsChar (flag_Name f) "-") eqn:E; [|done].
  apply BindEnv_other; [done|done|]. by apply dashed_not_key.
Qed.

Lemma bind_flag_other f v k :
  plain (flag_Name f) = true → plain k = true → strings_ContainsChar k "-" = false →
  same_key (key_of f) k = false → agree (bind_flag f v).2 v k.
Proof.
  intros Hp Hk Hd Hs. destruct (bind_env_agree f v k Hp Hk Hd) as [E1 E2].
  rewrite bind_flag_eq. cbv zeta. set (v1 := if strings_ContainsChar _ _ then _ else v) in *.
  destruct (negb (Changed f) && _); [done|]. destruct (Changed f && _); [|done]. cbn [snd].
  rewrite <-E1, <-E2. apply Set_other; [by apply key_of_plain|done|done].
Qed.

(** What binding one flag does, to the flag and under its key. *)
Definition bound v f f' v' : Prop :=
  let k := key_of f in
  if Changed f then
    f' = f ∧ IsSet v' k = true ∧
    if IsSet v k then Get v' k = Get v k else GetString v' k = flag_Value f
  else
    agree v' v k ∧ f' = (if IsSet v k then flag_Set f (any_String (Get v k)) else f).

Lemma bind_flag_bound f v :
  plain (flag_Name f) = true → bound v f (bind_flag f v).1 (bind_flag f v).2.
Proof.
  intros Hp. destruct (bind_env_agree f v (key_of f) Hp (key_of_plain f Hp) (key_of_dashless f)) as [E1 E2].
  rewrite bind_flag_eq. cbv zeta. set (v1 := if strings_ContainsChar _ _ then _ else v) in *.
  unfold bound. rewrite E1. destruct (Changed f); cbn [negb andb].
  - destruct (IsSet v (key_of f)) eqn:Es; cbn [negb fst snd]; [by rewrite E1, E2|].
    destruct (Set_same v1 (key_of f) (any_flag (flag_Value f)) (key_of_plain f Hp)) as [Hs Hg].
    split; [done|]. split; [done|]. by apply GetString_flag.
  - by destruct (IsSet v (key_of f)) eqn:Es; cbn [fst snd]; rewrite E1, E2.
Qed.

Lemma bound_ext v1 v2 v1' v2' f f' :
  agree v1 v2 (key_of f) → agree v1' v2' (key_of f) → bound v1 f f' v1' → bound v2 f f' v2'.
Proof.
  unfold bound. intros [E1 E2] [E1' E2']. rewrite E1, E2, E1', E2'.
  destruct (Changed f); [|done]. by rewrite (GetString_Get v1' v2' (key_of f) (key_of f) E2').
Qed.

Lemma bindFlags_other flags v k :
  Forall (λ f, plain (flag_Name f) = true) flags → plain k = true → strings_ContainsChar k "-" = false →
  Forall (λ f, same_key (key_of f) k = false) flags → agree (bindFlags flags v).2 v k.
Proof.
  intros Hp Hk Hd Hs. revert v. induction flags as [|f flags IH]; intros v; [done|].
  apply Forall_cons_iff in Hp as [Hf Hp], Hs as [Hfs Hs]. cbn [bindFlags].
  pose proof (bind_flag_other f v k Hf Hk Hd Hfs) as [E1 E2].
  destruct (bind_flag f v) as [f1 v1]. specialize (IH Hp Hs v1).
  destruct (bindFlags flags v1) as [fs2 v2]. cbn [snd] in *. destruct IH as [IH1 IH2].
  by rewrite IH1, IH2.
Qed.

(** Flags as cobra gives them: no dot in a name, and no two names that differ
    by case or by a dash for an underscore. *)
Definition flags_ok (flags : list Flag) : Prop :=
  Forall (λ f, plain (flag_Name f) = true) flags ∧
  NoDup (map (λ f, strings_ToLower (key_of f)) flags).

Lemma flags_ok_cons f flags :
  flags_ok (f :: flags) →
  plain (flag_Name f) = true ∧ flags_ok flags ∧ Forall (λ g, same_key (key_of f) (key_of g) = false) flags.
Proof.
  intros [[Hf Hp]%Forall_cons_iff [Hn Hd]%list.NoDup_cons]. split; [done|]. split; [done|].
  apply list.Forall_forall. intros g Hg. apply bool_decide_eq_false. intros E. apply Hn. rewrite E.
  by apply (list_elem_of_fmap_2 (λ f, strings_ToLower (key_of f))).
Qed.

Lemma same_key_sym k k' : same_key k k' = same_key k' k.
Proof. apply bool_decide_ext. by split. Qed.

Lemma bindFlags_bound flags v :
  flags_ok flags → Forall2 (λ f f', bound v f f' (bindFlags flags v).2) flags (bindFlags flags v).1.
Proof.
  revert v. induction flags as [|f flags IH]; intros v Hok; [constructor|].
  apply flags_ok_cons in Hok as (Hf & Hok & Hs). cbn [bindFlags].
  pose proof (bind_flag_bound f v Hf) as Hb.
  assert (Forall (λ g, agree (bind_flag f v).2 v (key_of g)) flags) as Ho.
  { apply list.Forall_forall. intros g Hg. destruct Hok as [Hpl _]. rewrite list.Forall_forall in Hpl.
    rewrite list.Forall_forall in Hs.
    apply bind_flag_other; [done|by apply key_of_plain, Hpl|apply key_of_dashless|by apply Hs]. }
  destruct (bind_flag f v) as [f1 v1]. cbn [fst snd] in *. specialize (IH v1 Hok).
  assert (agree (bindFlags flags v1).2 v1 (key_of f)) as Ha.
  { apply bindFlags_other; [apply Hok|by apply key_of_plain|apply key_of_dashless|].
    eapply list.Forall_impl; [exact Hs|]. intros g. by rewrite same_key_sym. }
  destruct (bindFlags flags v1) as [fs2 v2]. cbn [fst snd] in *. constructor.
  - eapply bound_ext; [| |exact Hb]; [done|]. by destruct Ha as [-> ->].
  - clear -IH Ho ViperLaws0. induction IH as [|g g' gs gs' Hg _ IH]; constructor.
    + apply Forall_cons_iff in Ho as [Hg0 _]. by eapply bound_ext; [exact Hg0| |exact Hg].
    + apply IH. by apply Forall_cons_iff in Ho as [_ ?].
Qed.

(** ** Properties *)

(** C37: binding treats every flag by itself: a flag that was not given takes the
    value of the configuration file or the environment, if there is one, and
    leaves it; the value of a flag that was given is what the getters read when
    no other source has one; when both have one each keeps its own, so that the
    variable of the flag and the getter can differ. *)
Theorem bindFlags_spec flags v :
  flags_ok flags →
  Forall2 (λ f f', bound v f f' (bindFlags flags v).2) flags (bindFlags flags v).1.
Proof. apply bindFlags_bound. Qed.

(** The identifier a device without a configured one gets. *)
Definition generated w : string * W :=
  match (machineid_ID w).1 with
  | inr id => (id, (machineid_ID w).2)
  | inl _ => uuid_New (machineid_ID w).2
  end.

(** C38: the identifier of the device is the configured one, or else that of the
    machine, or else a random one; whichever it is, every later call returns it
    again, without asking the machine, and changes nothing. *)
Theorem device_id_stable v w w' :
  let r := GetDeviceID v w in
  r = (if IsSet v deviceID_key then (GetString v deviceID_key, v, w)
       else ((generated w).1, Set_value deviceID_key (any_string (generated w).1) v, (generated w).2)) ∧
  GetDeviceID r.1.2 w' = (r.1, w').
Proof.
  intros r. unfold r, GetDeviceID, generated. destruct (IsSet v deviceID_key) eqn:E; cbn [negb].
  { split; [done|]. cbn [fst snd mret M_ret]. by rewrite E. }
  rewrite !M_bind_unfold. cbn [fst snd mret M_ret].
  assert (∀ id, GetDeviceID (Set_value deviceID_key (any_string id) v) w' =
    (id, Set_value deviceID_key (any_string id) v, w')) as Hid.
  { intros id. destruct (Set_same v deviceID_key (any_string id) eq_refl) as [Hs Hg].
    unfold GetDeviceID. rewrite Hs. cbn [negb]. by rewrite (GetString_string _ _ id Hg). }
  destruct (machineid_ID w).1; (split; [done|exact (Hid _)]).
Qed.

Lemma InitConfiguration_unreadable flags configFile w :
  let read := ReadInConfig (SetConfigFile configFile (AutomaticEnv (SetEnvPrefix prefix (viper_New w).1))) (viper_New w).2 in
  configFile ≠ "" → read.1.1 ≠ None →
  InitConfiguration flags configFile w =
    (Some (errorString "fail to read config file"), (flags, read.1.2), read.2).
Proof.
  intros read Hc He. unfold InitConfiguration. rewrite M_bind_unfold.
  destruct configFile as [|c s]; [done|]. cbn [String.length Nat.ltb Nat.leb].
  rewrite M_bind_unfold. fold read. destruct read as [[[err|] v] w1]; [done|]. by destruct He.
Qed.

Lemma InitConfiguration_readable flags configFile w :
  let read := ReadInConfig (SetConfigFile configFile (AutomaticEnv (SetEnvPrefix prefix (viper_New w).1))) (viper_New w).2 in
  configFile ≠ "" → read.1.1 = None →
  InitConfiguration flags configFile w = (None, bindFlags flags read.1.2, read.2).
Proof.
  intros read Hc He. unfold InitConfiguration. rewrite M_bind_unfold.
  destruct configFile as [|c s]; [done|]. cbn [String.length Nat.ltb Nat.leb].
  rewrite M_bind_unfold. fold read. destruct read as [[[err|] v] w1]; [done|done].
Qed.

(** when the configuration file cannot be read no flag is bound: flags and
    getters are as if none had been given. *)
Theorem unreadable_file_unbinds flags configFile w :
  let read := ReadInConfig (SetConfigFile configFile (AutomaticEnv (SetEnvPrefix prefix (viper_New w).1))) (viper_New w).2 in
  configFile ≠ "" → read.1.1 ≠ None →
  InitConfiguration flags configFile w =
    (Some (errorString "fail to read config file"), (flags, read.1.2), read.2).
Proof. apply InitConfiguration_unreadable. Qed.
End config.

(** ** Witness: a viper over a map

    The world is the environment and, if it can be read, the configuration file. *)
Module MapViper.
Notation keys := (gmap string string).

#[export] Instance map_viper : Viper keys (keys * option keys) := {|
  any := string; any_String := id; any_flag := id; any_string := id;
  viper_New := λ w, (w.1, w);
  SetEnvPrefix := λ _ v, v; AutomaticEnv := id; SetConfigFile := λ _ v, v;
  ReadInConfig := λ v w, (match w.2 with
                          | Some m => (None, v ∪ m)
                          | None => (Some (errorString "no such file"), v)
                          end, w);
  BindEnv := λ _ _ v, v;
  IsSet := λ v k, bool_decide (is_Some (v !! strings_ToLower k));
  Get := λ v k, default "" (v !! strings_ToLower k);
  GetString := λ v k, default "" (v !! strings_ToLower k);
  GetDuration := λ _ _, 0%Z;
  Set_value := λ k x v, <[strings_ToLower k := x]> v;
  flag_Set := λ f x, MkFlag (flag_Name f) x true;
  Getenv := λ _ w, ("", w);
  machineid_ID := λ w, (inl (errorString "no machine id"), w);
  uuid_New := λ w, ("7f1c", w)
|}.

#[export] Instance map_laws : ViperLaws keys (keys * option keys).
Proof.
  split; simpl; intros.
  - apply bool_decide_eq_true in H. by rewrite H.
  - rewrite lookup_insert_eq. split; [by apply bool_decide_eq_true_2|done].
  - apply bool_decide_eq_false in H1. by rewrite lookup_insert_ne.
  - done.
  - done.
  - done.
  - done.
Qed.

Definition given : list Flag := [MkFlag "ca-root" "" false; MkFlag "server" "https://operator" true].
End MapViper.
Import MapViper.

Lemma given_ok : flags_ok given.
Proof. split; [by repeat constructor|]. apply (bool_decide_unpack _). by vm_compute. Defined.

Lemma bindFlags_spec_witness :
  Forall2 (λ f f', bound ({["ca_root" := "/ca.pem"]} : keys) f f' (bindFlags given {["ca_root" := "/ca.pem"]}).2)
    given (bindFlags given ({["ca_root" := "/ca.pem"]} : keys)).1.
Proof. apply bindFlags_spec. exact given_ok. Defined.

(** Two calls with nothing configured, in two worlds. *)
Lemma device_id_stable_witness :
  let r := GetDeviceID (∅ : keys) (∅ : keys, None : option keys) in
  r.1.1 = "7f1c" ∧ GetDeviceID r.1.2 ({["x" := "y"]} : keys, Some (∅ : keys)) = (r.1, ({["x" := "y"]}, Some ∅)).
Proof.
  destruct (device_id_stable (∅ : keys) (∅ : keys, None) ({["x" := "y"]} : keys, Some (∅ : keys))) as [Hr Hl].
  split; [by rewrite Hr|exact Hl].
Defined.

Lemma unreadable_file_unbinds_witness :
  GetServerAddress (InitConfiguration given "c" (∅, None)).1.2.2 = "".
Proof. rewrite (unreadable_file_unbinds given "c" (∅, None)); [done|done|done]. Defined.
