(* ===== verification/Hardware.v ===== *)
(** * Hardware information

    [internal/entity/hardware.go] (and [mount.go], [enrol.go],
    [registration.go]), the models of the operator's API they are translated to,
    and the translation in [internal/client/http/mapper.go].  A pointer of Go is
    an [option]; the dereference of a nil pointer is the result [None]. *)
From Stdlib Require Import Strings.String SpecFloat.
From S2P Require Import Prelude GoStd.
Local Open Scope string_scope.
Local Open Scope list_scope.

(** ** Entities *)
Record Boot := MkBoot {
  Boot_CurrentBootMode : string; Boot_PxeInterface : string }.

Record CPU_ := MkCPU_ {
  CPU_Architecture : string; CPU_Count : Z; CPU_Flags : list string; CPU_Frequency : float64;
  CPU_ModelName : string }.

Record IoPerf := MkIoPerf {
  IoPerf_SyncDuration : Z }.

Record Disk := MkDisk {
  Disk_Bootable : bool; Disk_ByID : string; Disk_ByPath : string; Disk_DriveType : string;
  Disk_Hctl : string; Disk_ID : string; Disk_IoPerf : option IoPerf;
  Disk_IsInstallationMedia : bool; Disk_Model : string; Disk_Name : string; Disk_Path : string;
  Disk_Serial : string; Disk_SizeBytes : Z; Disk_Smart : string; Disk_Vendor : string;
  Disk_Wwn : string }.

Record Gpu := MkGpu {
  Gpu_Address : string; Gpu_DeviceID : string; Gpu_Name : string; Gpu_Vendor : string;
  Gpu_VendorID : string }.

Record HostDevice := MkHostDevice {
  HostDevice_DeviceType : string; HostDevice_Gid : Z; HostDevice_Major : Z;
  HostDevice_Minor : Z; HostDevice_Path : string; HostDevice_UID : Z }.

Record Interface := MkInterface {
  Interface_Biosdevname : string; Interface_ClientID : string; Interface_Flags : list string;
  Interface_HasCarrier : bool; Interface_IPV4Addresses : list string;
  Interface_IPV6Addresses : list string; Interface_MacAddress : string; Interface_Mtu : Z;
  Interface_Name : string; Interface_Product : string; Interface_SpeedMbps : Z;
  Interface_Vendor : string }.

Record Memory := MkMemory {
  Memory_PhysicalBytes : Z; Memory_UsableBytes : Z }.

Record Mount := MkMount {
  Mount_Device : string; Mount_Directory : string; Mount_Options : string; Mount_Type_ : string }.

Record SystemVendor := MkSystemVendor {
  SystemVendor_Manufacturer : string; SystemVendor_ProductName : string;
  SystemVendor_SerialNumber : string; SystemVendor_Virtual : bool }.

Record HardwareInfo := MkHardwareInfo {
  HardwareInfo_Boot : Boot; HardwareInfo_CPU : CPU_; HardwareInfo_Disks : list Disk;
  HardwareInfo_Gpus : list Gpu; HardwareInfo_HostDevices : list HostDevice;
  HardwareInfo_Hostname : string; HardwareInfo_Interfaces : list Interface;
  HardwareInfo_Memory : Memory; HardwareInfo_Mounts : list Mount;
  HardwareInfo_SystemVendor : SystemVendor }.

Record EnrolmentInfoFeatures := MkEnrolmentInfoFeatures { Hardware : HardwareInfo; ModelName : string }.
Record EnrolementInfo := MkEnrolementInfo { Features : EnrolmentInfoFeatures; TargetNamespace : string }.
Record RegistrationInfo := MkRegistrationInfo { CertificateRequest : string; R_Hardware : HardwareInfo }.

(** [GetHardwareInformation] ([internal/configuration/hardware.go]): the
    collection is commented out, the value is the zero value. *)
Definition GetHardwareInformation : HardwareInfo :=
  MkHardwareInfo (MkBoot "" "") (MkCPU_ "" 0 [] (S754_zero false) "") [] [] [] "" []
    (MkMemory 0 0) [] (MkSystemVendor "" "" "" false).

(** ** Models (flotta-operator/models) *)
Record models_Boot := Mkmodels_Boot {
  mBoot_CurrentBootMode : string; mBoot_PxeInterface : string }.

Record models_CPU_ := Mkmodels_CPU_ {
  mCPU_Architecture : string; mCPU_Count : Z; mCPU_Flags : list string;
  mCPU_Frequency : float64; mCPU_ModelName : string }.

Record models_IoPerf := Mkmodels_IoPerf {
  mIoPerf_SyncDuration : Z }.

Record models_Disk := Mkmodels_Disk {
  mDisk_Bootable : bool; mDisk_ByID : string; mDisk_ByPath : string; mDisk_DriveType : string;
  mDisk_Hctl : string; mDisk_ID : string; mDisk_IoPerf : option models_IoPerf;
  mDisk_IsInstallationMedia : bool; mDisk_Model : string; mDisk_Name : string;
  mDisk_Path : string; mDisk_Serial : string; mDisk_SizeBytes : Z; mDisk_Smart : string;
  mDisk_Vendor : string; mDisk_Wwn : string }.

Record models_Gpu := Mkmodels_Gpu {
  mGpu_Address : string; mGpu_DeviceID : string; mGpu_Name : string; mGpu_Vendor : string;
  mGpu_VendorID : string }.

Record models_HostDevice := Mkmodels_HostDevice {
  mHostDevice_DeviceType : string; mHostDevice_Gid : Z; mHostDevice_Major : Z;
  mHostDevice_Minor : Z; mHostDevice_Path : string; mHostDevice_UID : Z }.

Record models_Interface := Mkmodels_Interface {
  mInterface_Biosdevname : string; mInterface_ClientID : string;
  mInterface_Flags : list string; mInterface_HasCarrier : bool;
  mInterface_IPV4Addresses : list string; mInterface_IPV6Addresses : list string;
  mInterface_MacAddress : string; mInterface_Mtu : Z; mInterface_Name : string;
  mInterface_Product : string; mInterface_SpeedMbps : Z; mInterface_Vendor : string }.

Record models_Memory := Mkmodels_Memory {
  mMemory_PhysicalBytes : Z; mMemory_UsableBytes : Z }.

Record models_Mount := Mkmodels_Mount {
  mMount_Device : string; mMount_Directory : string; mMount_Options : string;
  mMount_Type_ : string }.

Record models_SystemVendor := Mkmodels_SystemVendor {
  mSystemVendor_Manufacturer : string; mSystemVendor_ProductName : string;
  mSystemVendor_SerialNumber : string; mSystemVendor_Virtual : bool }.

Record models_HardwareInfo := Mkmodels_HardwareInfo {
  mHardwareInfo_Boot : option models_Boot; mHardwareInfo_CPU : option models_CPU_;
  mHardwareInfo_Disks : list (option models_Disk);
  mHardwareInfo_Gpus : list (option models_Gpu);
  mHardwareInfo_HostDevices : list (option models_HostDevice); mHardwareInfo_Hostname : string;
  mHardwareInfo_Interfaces : list (option models_Interface);
  mHardwareInfo_Memory : option models_Memory;
  mHardwareInfo_Mounts : list (option models_Mount);
  mHardwareInfo_SystemVendor : option models_SystemVendor }.

Record models_EnrolmentInfoFeatures := Mkmodels_EnrolmentInfoFeatures {
  mHardware : option models_HardwareInfo; mModelName : string }.
Record models_EnrolmentInfo := Mkmodels_EnrolmentInfo {
  mFeatures : option models_EnrolmentInfoFeatures; mTargetNamespace : option string }.
Record models_RegistrationInfo := Mkmodels_RegistrationInfo {
  mCertificateRequest : string; mR_Hardware : option models_HardwareInfo }.

(** ** The translation *)

(** The flags are copied one by one into a new slice. *)
Definition copy_flags (flags : list string) : list string := foldl (λ acc f, acc ++ [f]) [] flags.

Definition gpu2Model (g : Gpu) : models_Gpu :=
  Mkmodels_Gpu (Gpu_Address g) (Gpu_DeviceID g) (Gpu_Name g) (Gpu_Vendor g)
  (Gpu_VendorID g).

Definition hostDevice2Model (h : HostDevice) : models_HostDevice :=
  Mkmodels_HostDevice (HostDevice_DeviceType h) (HostDevice_Gid h) (HostDevice_Major h)
  (HostDevice_Minor h) (HostDevice_Path h) (HostDevice_UID h).

Definition interface2Model (i : Interface) : models_Interface :=
  Mkmodels_Interface (Interface_Biosdevname i) (Interface_ClientID i) (Interface_Flags i)
  (Interface_HasCarrier i) (Interface_IPV4Addresses i) (Interface_IPV6Addresses i)
  (Interface_MacAddress i) (Interface_Mtu i) (Interface_Name i) (Interface_Product i)
  (Interface_SpeedMbps i) (Interface_Vendor i).

Definition mount2Model (m : Mount) : models_Mount :=
  Mkmodels_Mount (Mount_Device m) (Mount_Directory m) (Mount_Options m) (Mount_Type_ m).

(** [d.IoPerf.SyncDuration] panics when [d.IoPerf] is nil. *)
Definition disk2Model (d : Disk) : option models_Disk :=
  p ← Disk_IoPerf d;
  Some (Mkmodels_Disk
    (Disk_Bootable d) (Disk_ByID d) (Disk_ByPath d) (Disk_DriveType d) (Disk_Hctl d)
    (Disk_ID d) (Some (Mkmodels_IoPerf (IoPerf_SyncDuration p)))
    (Disk_IsInstallationMedia d) (Disk_Model d) (Disk_Name d) (Disk_Path d)
    (Disk_Serial d) (Disk_SizeBytes d) (Disk_Smart d) (Disk_Vendor d) (Disk_Wwn d)).

Definition hardwareEntity2Model (e : HardwareInfo) : option models_HardwareInfo :=
  disks ← mapM disk2Model (HardwareInfo_Disks e);
  let boot := HardwareInfo_Boot e in
  let cpu := HardwareInfo_CPU e in
  let memory := HardwareInfo_Memory e in
  let vendor := HardwareInfo_SystemVendor e in
  Some (Mkmodels_HardwareInfo
    (Some (Mkmodels_Boot (Boot_CurrentBootMode boot) (Boot_PxeInterface boot)))
    (Some (Mkmodels_CPU_ (CPU_Architecture cpu) (CPU_Count cpu) (copy_flags (CPU_Flags cpu))
             (CPU_Frequency cpu) (CPU_ModelName cpu)))
    (map Some disks)
    (map (λ g, Some (gpu2Model g)) (HardwareInfo_Gpus e))
    (map (λ h, Some (hostDevice2Model h)) (HardwareInfo_HostDevices e))
    (HardwareInfo_Hostname e)
    (map (λ i, Some (interface2Model i)) (HardwareInfo_Interfaces e))
    (Some (Mkmodels_Memory (Memory_PhysicalBytes memory) (Memory_UsableBytes memory)))
    (map (λ m, Some (mount2Model m)) (HardwareInfo_Mounts e))
    (Some (Mkmodels_SystemVendor (SystemVendor_Manufacturer vendor) (SystemVendor_ProductName vendor)
             (SystemVendor_SerialNumber vendor) (SystemVendor_Virtual vendor)))).

(** [m.Features] has no model name: the mapper does not copy it. *)
Definition enrolInfoEntity2Model (e : EnrolementInfo) : option models_EnrolmentInfo :=
  hardware ← hardwareEntity2Model (Hardware (Features e));
  Some (Mkmodels_EnrolmentInfo (Some (Mkmodels_EnrolmentInfoFeatures (Some hardware) ""))
          (Some (TargetNamespace e))).

Definition registerInfoEntity2Model (e : RegistrationInfo) : option models_RegistrationInfo :=
  h ← hardwareEntity2Model (R_Hardware e);
  Some (Mkmodels_RegistrationInfo (CertificateRequest e) (Some h)).

(** ** Lemmas *)
Lemma copy_flags_app (acc flags : list string) : foldl (λ acc f, acc ++ [f]) acc flags = acc ++ flags.
Proof.
  revert acc. induction flags as [|f l IH]; intros acc; simpl; [by rewrite app_nil_r|].
  by rewrite IH, <-app_assoc.
Qed.

Lemma copy_flags_id flags : copy_flags flags = flags.
Proof. apply copy_flags_app. Qed.

#[export] Instance gpu2Model_inj : Inj (=) (=) gpu2Model.
Proof. intros [] [] E. unfold gpu2Model in E. simpl in E. congruence. Qed.
#[export] Instance hostDevice2Model_inj : Inj (=) (=) hostDevice2Model.
Proof. intros [] [] E. unfold hostDevice2Model in E. simpl in E. congruence. Qed.
#[export] Instance interface2Model_inj : Inj (=) (=) interface2Model.
Proof. intros [] [] E. unfold interface2Model in E. simpl in E. congruence. Qed.
#[export] Instance mount2Model_inj : Inj (=) (=) mount2Model.
Proof. intros [] [] E. unfold mount2Model in E. simpl in E. congruence. Qed.

Lemma disk2Model_inj d d' m : disk2Model d = Some m → disk2Model d' = Some m → d = d'.
Proof.
  unfold disk2Model. destruct d as [? ? ? ? ? ? [[]|]], d' as [? ? ? ? ? ? [[]|]]; simpl; try done.
  intros <- [=]. by subst.
Qed.

Lemma disk2Model_None d : disk2Model d = None ↔ Disk_IoPerf d = None.
Proof. unfold disk2Model. by destruct (Disk_IoPerf d). Qed.

Lemma mapM_inj {A B} (f : A → option B) l l' k :
  (∀ x y z, f x = Some z → f y = Some z → x = y) → mapM f l = Some k → mapM f l' = Some k → l = l'.
Proof.
  intros Hf. rewrite !mapM_Some. intros Hl. revert l'.
  induction Hl as [|x z l k Hx Hl IH]; intros l' Hl'; inversion Hl'; subst; [done|].
  assert (x = x0) as -> by (by eapply Hf). f_equal. by apply IH.
Qed.

Lemma map_Some_inj {A B} (f : A → B) `{!Inj (=) (=) f} l l' :
  map (λ x, Some (f x)) l = map (λ x, Some (f x)) l' → l = l'.
Proof.
  revert l'. induction l as [|x l IH]; intros [|y l']; simpl; intros E; try done.
  injection E as Hx Hl. apply (inj f) in Hx as ->. f_equal. by apply IH.
Qed.

(** ** Properties *)

(** C30: the translation of the hardware information crashes exactly when a disk
    has no I/O performance, and otherwise loses nothing: different hardware
    gives different messages. *)
Theorem hardware_lossless e :
  (hardwareEntity2Model e = None ↔ ∃ d, d ∈ HardwareInfo_Disks e ∧ Disk_IoPerf d = None) ∧
  ∀ e' m, hardwareEntity2Model e = Some m → hardwareEntity2Model e' = Some m → e = e'.
Proof.
  unfold hardwareEntity2Model. split.
  - destruct (mapM disk2Model (HardwareInfo_Disks e)) as [ds|] eqn:E; simpl; split; try done.
    + intros (d & Hd & Hn). apply mapM_Some in E.
      apply list_elem_of_lookup_1 in Hd as [i Hi]. destruct (Forall2_lookup_l _ _ _ _ _ E Hi) as (m & _ & Hm).
      apply disk2Model_None in Hn. congruence.
    + intros _. apply mapM_None, Exists_exists in E as (d & Hd & Hn).
      exists d. split; [by apply list_elem_of_In|]. by apply disk2Model_None.
  - intros e' m He He'.
    destruct (mapM disk2Model (HardwareInfo_Disks e)) as [ds|] eqn:E; [|done].
    destruct (mapM disk2Model (HardwareInfo_Disks e')) as [ds'|] eqn:E'; [|done].
    simpl in He, He'. rewrite <-He in He'. rewrite !copy_flags_id in He'.
    injection He' as Hb1 Hb2 Hc1 Hc2 Hc3 Hc4 Hc5 Hd Hg Hh Hn Hi Hm1 Hm2 Hmo Hs1 Hs2 Hs3 Hs4.
    apply map_Some_inj in Hg, Hh, Hi, Hmo; try exact _.
    assert (ds' = ds) as -> by (by eapply list_fmap_eq_inj; [|exact Hd]; intros ? ? [=]).
    pose proof (mapM_inj disk2Model _ _ _ disk2Model_inj E E') as Hds.
    destruct e as [[] [] ? ? ? ? ? [] ? []], e' as [[] [] ? ? ? ? ? [] ? []]. simpl in *. by subst.
Qed.

Definition hw0 (io : option IoPerf) : HardwareInfo :=
  MkHardwareInfo (MkBoot "uefi" "") (MkCPU_ "x86_64" 4 ["sse"; "avx"] (S754_zero false) "cpu")
    [MkDisk true "" "" "SSD" "" "sda" io false "" "sda" "/dev/sda" "" 1000 "" "" ""]
    [] [] "device" [] (MkMemory 100 90) [] (MkSystemVendor "" "" "" false).

Lemma hardware_lossless_witness : hardwareEntity2Model (hw0 None) = None.
Proof.
  apply (hardware_lossless (hw0 None)).
  exists (MkDisk true "" "" "SSD" "" "sda" None false "" "sda" "/dev/sda" "" 1000 "" "" "").
  split; [left | done].
Defined.
