(* ===== verification/Config.v ===== *)
(** * Configuration

    The configuration message of the device ([internal/entity/configuration.go]),
    its translation from the message of the operator and the translation of a
    heartbeat ([internal/client/http/mapper.go]), and the configuration manager
    ([internal/configuration/manager.go]), which sends the workloads to the
    scheduler and the compiled profiles to the profile manager.  A nil pointer
    that Go would dereference gives [None]. *)
From Stdlib Require Import Strings.String.
From stdpp Require Import sorting.
From S2P Require Import Prelude GoStd Sha256 Lexer Parser Interpreter Entity Interfaces Identity Hardware.
Local Open Scope string_scope.
Local Open Scope list_scope.

(** ** Entities (configuration.go, heartbeat.go) *)
Record OsInformation := MkOsInformation {
  AutomaticallyUpgrade : bool; CommitID : string; HostedObjectsURL : string }.

Record DeviceConfiguration := MkDeviceConfiguration {
  Heartbeat_ : HeartbeatConfiguration;
  Mounts : list Mount;
  OsInfo : OsInformation;
  ConfProfiles : gmap string (gmap string string)
}.

Record DeviceConfigurationMessage := MkDeviceConfigurationMessage {
  Configuration : DeviceConfiguration;
  DeviceID : string;
  Version : string;
  Workloads : list PodWorkload;
  WorkloadsMonitoringInterval : Z
}.

(** [Events], [Upgrade] and [Workloads] are lists of, and pointers to, records
    that are never nil here. *)
Record Heartbeat := MkHeartbeat {
  Events : list EventInfo;
  HB_Hardware : option HardwareInfo;
  HB_Status : HearbeatStatus;
  HB_Version : string;
  HB_Workloads : list WorkloadStatus
}.

(** ** Models

    The elements of [Workloads], [Profiles] and [Conditions] are pointers, nil
    for a [null] of the operator's JSON. *)
Record models_Condition := Mkmodels_Condition { mc_Expression : string; mc_Name : string }.
Record models_Profile := Mkmodels_Profile { mp_Conditions : list (option models_Condition); mp_Name : string }.
Record models_Heartbeat_conf := Mkmodels_Heartbeat_conf {
  mh_HardwareProfile : option bool;   (** its field [Include] *)
  mh_PeriodSeconds : Z }.
Record models_Configuration := Mkmodels_Configuration {
  mconf_Heartbeat : option models_Heartbeat_conf; mconf_Profiles : list (option models_Profile) }.
(** [CPU] is a pointer to a resource: its address and its field [CPU]. *)
Record models_WorkloadCondition := Mkmodels_WorkloadCondition { mwc_CPU : option int64_ptr; mwc_Name : string }.
Record models_WorkloadProfile := Mkmodels_WorkloadProfile {
  mwp_Conditions : list (option models_WorkloadCondition); mwp_Name : string }.
Record models_Workload := Mkmodels_Workload {
  mw_Annotations : gmap string string;
  mw_Configmaps : list string;
  mw_Cron : string;
  mw_ImageRegistries : option string;   (** its field [AuthFile] *)
  mw_Kind : string;
  mw_Labels : option (gmap string string);
  mw_Name : string;
  mw_Namespace : string;
  mw_Profiles : list (option models_WorkloadProfile);
  mw_Rootless : bool;
  mw_Specification : string
}.
Record models_Message := Mkmodels_Message {
  mm_Configuration : option models_Configuration;
  mm_DeviceID : string;
  mm_Version : string;
  mm_Workloads : list (option models_Workload);
  mm_WorkloadsMonitoringInterval : Z
}.
Record models_WorkloadStatus := Mkmodels_WorkloadStatus {
  mws_LastDataUpload : Z; mws_Name : string; mws_Status : string }.
Record models_EventInfo := Mkmodels_EventInfo { mev_Message : string; mev_Reason : string; mev_Type : string }.
Record models_Heartbeat := Mkmodels_Heartbeat {
  mhb_Events : list models_EventInfo;
  mhb_Hardware : option models_HardwareInfo;
  mhb_Status : string;
  mhb_Upgrade : option UpgradeStatus;
  mhb_Version : string;
  mhb_Workloads : list models_WorkloadStatus
}.

(** ** The translations (mapper.go) *)

(** [time.Duration(int(seconds) * int(time.Second))], in 64 bits. *)
Definition seconds_to_duration (seconds : Z) : Z := to_int64 (seconds * 1000000000).

Definition put_condition (profile : string) (m : gmap string (gmap string string)) (c : option models_Condition)
    : option (gmap string (gmap string string)) :=
  c ← c; Some (alter (insert (mc_Name c) (mc_Expression c)) profile m).

Definition profile2Entity (m : gmap string (gmap string string)) (p : option models_Profile)
    : option (gmap string (gmap string string)) :=
  p ← p; fold_option (put_condition (mp_Name p)) (<[mp_Name p := ∅]> m) (mp_Conditions p).

Definition kind2Entity (k : string) : WorkloadKind :=
  if bool_decide (k = "k8s") then K8SKind else PodKind.

Definition condition2Entity (c : option models_WorkloadCondition) : option WorkloadCondition :=
  c ← c; Some (MkWorkloadCondition (mwc_Name c) (mwc_CPU c)).

(** The loops that translate a list and append the results. *)
Definition append_all {A B} (f : A → option B) (l : list A) : option (list B) :=
  fold_option (λ ys x, match f x with Some y => Some (ys ++ [y]) | None => None end) [] l.

Definition workloadProfile2Entity (p : option models_WorkloadProfile) : option WorkloadProfile :=
  p ← p;
  conditions ← append_all condition2Entity (mwp_Conditions p);
  Some (MkWorkloadProfile (mwp_Name p) conditions).

(** [Secrets] is never set. *)
Definition workload2Entity (w : option models_Workload) : option PodWorkload :=
  w ← w;
  profiles ← (if bool_decide (0 < length (mw_Profiles w))%nat
              then append_all workloadProfile2Entity (mw_Profiles w) else Some []);
  Some (MkPodWorkload (mw_Name w) (kind2Entity (mw_Kind w)) (mw_Namespace w) (mw_Cron w) (mw_Rootless w)
    (mw_Annotations w) ∅ (mw_Configmaps w)
    (match mw_ImageRegistries w with Some auth => auth | None => "" end)
    (mw_Labels w) profiles (mw_Specification w)).

Definition configurationModel2Entity (m : models_Message) : option DeviceConfigurationMessage :=
  conf ← mm_Configuration m;
  heartbeat ← mconf_Heartbeat conf;
  include ← mh_HardwareProfile heartbeat;
  profiles ← fold_option profile2Entity ∅ (mconf_Profiles conf);
  let e := MkDeviceConfiguration
    (MkHeartbeatConfiguration (MkHardwareProfileConfiguration include FullScope)
       (seconds_to_duration (mh_PeriodSeconds heartbeat)))
    [] (MkOsInformation false "" "") profiles in
  workloads ← append_all workload2Entity (mm_Workloads m);
  Some (MkDeviceConfigurationMessage e (mm_DeviceID m) "" workloads
    (seconds_to_duration (mm_WorkloadsMonitoringInterval m))).

Definition heartbeatEntity2Model (e : Heartbeat) : option models_Heartbeat :=
  hw ← HB_Hardware e;
  hardware ← hardwareEntity2Model hw;
  Some (Mkmodels_Heartbeat
    (map (λ ev, Mkmodels_EventInfo (EMessage ev) (EReason ev) (EventType_String (EType ev))) (Events e))
    (Some hardware) (HearbeatStatus_String (HB_Status e))
    (Some (MkUpgradeStatus "" "" "")) (HB_Version e)
    (map (λ w, Mkmodels_WorkloadStatus (LastDataUpload w) (WS_Name w) (Status_String (WS_Status w))) (HB_Workloads e))).

(** ** Sorting by identifier (configuration.go)

    Each comparison calls [ID()] of both workloads anew.  [sort.Slice] is the
    insertion sort it ends with on a short slice; its documentation promises a
    sorted slice when the comparisons are consistent, and nothing else. *)
Section sorting.
Context {W : Type} `{MapOrder W}.

Definition id_less (a b : PodWorkload) : M W bool :=
  ida ← ID_call a; idb ← ID_call b; mret (String.ltb ida idb).

(** [w] moves back over the workloads before it, of which the last comes
    first. *)
Fixpoint insert_back (w : PodWorkload) (before : list PodWorkload) : M W (list PodWorkload) :=
  match before with
  | [] => mret [w]
  | x :: before' =>
      less ← id_less w x;
      if less : bool then l ← insert_back w before'; mret (x :: l) else mret (w :: before)
  end.

Fixpoint sort_from (before ws : list PodWorkload) : M W (list PodWorkload) :=
  match ws with
  | [] => mret (rev before)
  | w :: ws' => before ← insert_back w before; sort_from before ws'
  end.

Definition sort_workloads (ws : list PodWorkload) : M W (list PodWorkload) := sort_from [] ws.
End sorting.

(** ** The configuration manager (manager.go) *)
Record ConfManager := MkConfManager {
  conf : DeviceConfigurationMessage;
  hardware : HardwareInfo
}.

Definition defaultConfiguration : DeviceConfigurationMessage :=
  MkDeviceConfigurationMessage
    (MkDeviceConfiguration
       (MkHeartbeatConfiguration (MkHardwareProfileConfiguration true FullScope) 1000000000)
       [] (MkOsInformation false "" "") ∅)
    "" "" [] 0.

(** [New]: no status reader yet. *)
Definition newConfManager : ConfManager := MkConfManager defaultConfiguration GetHardwareInformation.

(** The status of a job in a heartbeat. *)
Definition map_status (state : JobState) : Status :=
  match state with
  | RunningState => Running
  | InactiveState | UnknownState | ReadyState => Stopped
  | _ => Crashed
  end.

(** [statusMapper]; [order] is the order of the range over the map. *)
Definition statusMapper (order : list (string * JobState)) : list WorkloadStatus :=
  map (λ ns, MkWorkloadStatus 0 ns.1 (map_status ns.2)) order.

Section manager.
Context {W : Type} `{MapOrder W}.
(** [json.Marshal] of a configuration and of a workload. *)
Context (json_configuration : DeviceConfiguration → string) (json_workload : PodWorkload → string).
(** [%s] of a duration *)
Context (duration_String : Z → string).

Definition conf_text (m : DeviceConfigurationMessage) : string :=
  DeviceID m +:+ Version m +:+ duration_String (WorkloadsMonitoringInterval m)
  +:+ json_configuration (Configuration m)
  +:+ Strings.String.concat "" (map json_workload (Workloads m)).

Definition set_Workloads (ws : list PodWorkload) (m : DeviceConfigurationMessage) : DeviceConfigurationMessage :=
  MkDeviceConfigurationMessage (Configuration m) (DeviceID m) (Version m) ws (WorkloadsMonitoringInterval m).

(** [DeviceConfigurationMessage.Hash]: the digest, and the message, whose
    workloads it sorts in place. *)
Definition conf_Hash (m : DeviceConfigurationMessage) : M W (string * DeviceConfigurationMessage) :=
  ws ← sort_workloads (Workloads m);
  let m := set_Workloads ws m in
  mret (sha256_hex (conf_text m), m).

(** The conditions of a profile, in the order of the range over them, up to
    the first expression that does not parse ([break]). *)
Fixpoint compile_conditions (conditions : list (string * string)) (acc : list ProfileCondition)
    : list ProfileCondition :=
  match conditions with
  | [] => acc
  | (name, expression) :: conditions' =>
      match New expression with
      | Some (inr intr) => compile_conditions conditions' (acc ++ [MkProfileCondition name [] intr])
      | _ => acc
      end
  end.

(** The range over the profiles. *)
Fixpoint compile_profiles (confProfiles : list (string * gmap string string)) (profiles : gmap string DeviceProfile)
    : M W (gmap string DeviceProfile) :=
  match confProfiles with
  | [] => mret profiles
  | (name, conditions) :: confProfiles' =>
      order ← range_map conditions;
      compile_profiles confProfiles' (<[name := MkDeviceProfile name (compile_conditions order [])]> profiles)
  end.

(** The error result is always nil. *)
Definition createDeviceProfiles (confProfiles : gmap string (gmap string string))
    : M W (GResult (GOption (gmap string DeviceProfile))) :=
  if bool_decide (size confProfiles = 0)%nat then mret (MkResult (MkOption ∅ true) None)
  else
    order ← range_map confProfiles;
    profiles ← compile_profiles order ∅;
    mret (MkResult (MkOption profiles (bool_decide (size profiles = 0)%nat)) None).

(** What [SetConfiguration] sends, and the manager after it. *)
Definition SetConfiguration (newConf : DeviceConfigurationMessage) (c : ConfManager)
    : M W (list (Message PodWorkload) * ConfManager) :=
  new ← conf_Hash newConf;
  current ← conf_Hash (conf c);
  let c := MkConfManager current.2 (hardware c) in
  if bool_decide (new.1 = current.1) then mret ([], c)
  else
    let newConf := new.2 in
    let o := MkOption (Workloads newConf) (bool_decide (length (Workloads newConf) = 0)%nat) in
    let workloads := MkMessage WorkloadConfigurationMessage (PWorkloads o) in
    profiles ← createDeviceProfiles (ConfProfiles (Configuration newConf));
    mret (workloads :: match Error profiles with
                       | Some _ => []
                       | None => [MkMessage ProfileConfigurationMessage (PProfiles (RValue profiles))]
                       end,
          MkConfManager newConf (hardware c)).

(** [Manager.Heartbeat]; [status] is what the status reader returns, if there
    is one. *)
Definition make_Heartbeat (status : option (gmap string JobState)) (c : ConfManager) : M W Heartbeat :=
  order ← range_map (default ∅ status);
  mret (MkHeartbeat [] (Some (hardware c)) Up "" (statusMapper order)).
End manager.

(** ** Sorting *)
Lemma leb_trans a b c : String.leb a b = true → String.leb b c = true → String.leb a c = true.
Proof.
  unfold String.leb. revert b c. induction a as [|x a IH]; intros [|y b] [|z c]; simpl; try done.
  destruct (Ascii.compare x y) eqn:Exy; try done; destruct (Ascii.compare y z) eqn:Eyz; try done;
    unfold Ascii.compare in *; intros H1 H2.
  - apply N.compare_eq in Exy. rewrite Exy, Eyz. by apply (IH b).
  - apply N.compare_eq in Exy. by rewrite Exy, Eyz.
  - apply N.compare_eq in Eyz. by rewrite <-Eyz, Exy.
  - apply N.compare_lt_iff in Exy, Eyz. by rewrite (proj2 (N.compare_lt_iff _ _) (N.lt_trans _ _ _ Exy Eyz)).
Qed.

Lemma ltb_leb a b : String.ltb a b = negb (String.leb b a).
Proof. unfold String.ltb, String.leb. rewrite (String.compare_antisym a b). by destruct (String.compare b a). Qed.

Lemma StronglySorted_snoc {A} (R : A → A → Prop) l x :
  StronglySorted R l → Forall (λ y, R y x) l → StronglySorted R (l ++ [x]).
Proof.
  induction 1 as [|y l Hs IH Hy]; simpl; intros Hx; [by repeat constructor|].
  apply list.Forall_cons in Hx as [Hx Hxs]. constructor; [by apply IH|].
  apply list.Forall_app. by split; [|constructor].
Qed.

Lemma StronglySorted_rev {A} (R : A → A → Prop) l : StronglySorted (flip R) l → StronglySorted R (rev l).
Proof.
  induction 1 as [|y l Hs IH Hy]; simpl; [constructor|].
  apply StronglySorted_snoc; [done|]. by apply Forall_rev.
Qed.

Definition id_le (a b : PodWorkload) : Prop := String.leb (PodWorkload_ID a) (PodWorkload_ID b) = true.

Section sorting_facts.
Context {W : Type} `{MapOrder W}.
Implicit Types (w : W).

Lemma insert_back_perm x l w : (insert_back x l w).1 ≡ₚ x :: l.
Proof.
  revert w. induction l as [|y l IH]; intros w; simpl; [done|]. rewrite M_bind_unfold.
  destruct (id_less x y w).1; [|done]. rewrite M_bind_unfold. cbn [fst mret M_ret]. rewrite IH. apply perm_swap.
Qed.

Lemma sort_from_perm l ws w : (sort_from l ws w).1 ≡ₚ l ++ ws.
Proof.
  revert l w. induction ws as [|x ws IH]; intros l w; simpl.
  { rewrite app_nil_r. symmetry. apply Permutation_rev. }
  rewrite M_bind_unfold, IH, insert_back_perm. apply Permutation_middle.
Qed.

Lemma sort_perm ws w : (sort_workloads ws w).1 ≡ₚ ws.
Proof. apply sort_from_perm. Qed.

Lemma id_less_stable a b w :
  stable a → stable b → (id_less a b w).1 = String.ltb (PodWorkload_ID a) (PodWorkload_ID b).
Proof. intros Ha Hb. unfold id_less. run_M. by rewrite !ID_call_stable. Qed.

Lemma insert_back_sorted x l w :
  Forall stable (x :: l) → StronglySorted (flip id_le) l → StronglySorted (flip id_le) (insert_back x l w).1.
Proof.
  intros Hst Hs. revert w. induction Hs as [|y l Hs IH Hy]; intros w; simpl; [by repeat constructor|].
  apply list.Forall_cons in Hst as [Hx [Hy' Hl]%list.Forall_cons].
  rewrite M_bind_unfold, (id_less_stable x y) by done. rewrite ltb_leb.
  destruct (String.leb (PodWorkload_ID y) (PodWorkload_ID x)) eqn:E; simpl.
  - constructor; [by constructor|]. constructor; [done|].
    eapply list.Forall_impl; [exact Hy|]. intros z Hz. by eapply leb_trans.
  - rewrite M_bind_unfold. cbn [fst mret M_ret]. constructor; [apply IH; by constructor|].
    rewrite insert_back_perm. constructor; [|done].
    unfold flip, id_le. by destruct (String.leb_total (PodWorkload_ID x) (PodWorkload_ID y)); [|congruence].
Qed.

Lemma sort_from_sorted l ws w :
  Forall stable (l ++ ws) → StronglySorted (flip id_le) l → StronglySorted id_le (sort_from l ws w).1.
Proof.
  revert l w. induction ws as [|x ws IH]; intros l w Hst Hs; simpl; [by apply StronglySorted_rev|].
  rewrite M_bind_unfold. apply IH.
  - rewrite insert_back_perm. by rewrite <-Permutation_middle in Hst.
  - apply insert_back_sorted; [|done]. rewrite <-Permutation_middle in Hst. inversion Hst as [|? ? Hx Hr]; subst.
    constructor; [done|]. by apply list.Forall_app in Hr as [? _].
Qed.

Lemma sort_sorted ws w : Forall stable ws → StronglySorted id_le (sort_workloads ws w).1.
Proof. intros Hst. apply sort_from_sorted; [done|constructor]. Qed.

(** A message whose hash does not depend on the order of the calls: its
    workloads have a fixed identifier each, and no two the same. *)
Definition settled (m : DeviceConfigurationMessage) : Prop :=
  Forall stable (Workloads m) ∧ NoDup (map PodWorkload_ID (Workloads m)).

(** Sorting forgets the order of workloads with fixed, distinct identifiers. *)
Lemma sort_unique ws ws' w w' :
  Forall stable ws → NoDup (map PodWorkload_ID ws) → ws ≡ₚ ws' →
  (sort_workloads ws w).1 = (sort_workloads ws' w').1.
Proof.
  intros Hst Hd Hp.
  apply (StronglySorted_unique_strong id_le); [| | |by rewrite !sort_perm].
  - intros x y Hx Hy Hxy Hyx. rewrite sort_perm in Hx, Hy. rewrite <-Hp in Hy.
    eapply (NoDup_map_inj PodWorkload_ID); [exact Hd | done | done |]. by apply String.leb_antisym.
  - by apply sort_sorted.
  - apply sort_sorted. by rewrite <-Hp.
Qed.
End sorting_facts.

(** ** The translated configuration *)
Lemma append_all_Some {A B} (f : A → option B) l ys :
  append_all f l = Some ys ↔ Forall2 (λ x y, f x = Some y) l ys.
Proof. unfold append_all. rewrite fold_option_append, option_fmap_id. apply mapM_Some. Qed.

Lemma append_all_spec {A B} (f : A → option B) (P : A → B → Prop) l ys :
  (∀ x y, f x = Some y ↔ P x y) → append_all f l = Some ys ↔ Forall2 P l ys.
Proof.
  intros HP. rewrite append_all_Some. split; intros Hf; (eapply list.Forall2_impl; [exact Hf|]); intros x y; by rewrite HP.
Qed.

Lemma append_all_is_Some {A B} (f : A → option B) l :
  is_Some (append_all f l) ↔ Forall (λ x, is_Some (f x)) l.
Proof. unfold append_all. rewrite fold_option_append, fmap_is_Some. apply mapM_is_Some. Qed.

(** Nothing the translation dereferences is nil. *)
Definition no_nil (m : models_Message) : Prop :=
  ∃ c h, mm_Configuration m = Some c ∧ mconf_Heartbeat c = Some h ∧ is_Some (mh_HardwareProfile h) ∧
    Forall (λ p, ∃ p', p = Some p' ∧ Forall is_Some (mp_Conditions p')) (mconf_Profiles c) ∧
    Forall (λ w, ∃ w', w = Some w' ∧
      Forall (λ p, ∃ p', p = Some p' ∧ Forall is_Some (mwp_Conditions p')) (mw_Profiles w')) (mm_Workloads m).

(** A map of profiles that holds, under each name, the last profile with that
    name, and for each condition the last expression given to it. *)
Definition conditions_translated (p : models_Profile) (conditions : gmap string string) : Prop :=
  ∀ name, conditions !! name = mc_Expression <$> last_with mc_Name (somes (mp_Conditions p)) name.
Definition profiles_translated (ps : list models_Profile) (m : gmap string (gmap string string)) : Prop :=
  ∀ name, match last_with mp_Name ps name with
          | None => m !! name = None
          | Some p => ∃ conditions, m !! name = Some conditions ∧ conditions_translated p conditions
          end.

Definition workload_translated (w : models_Workload) (p : PodWorkload) : Prop :=
  Name p = mw_Name w ∧ Namespace p = mw_Namespace w ∧
  WKind p = (if bool_decide (mw_Kind w = "k8s") then K8SKind else PodKind) ∧
  CronSpec p = mw_Cron w ∧ Rootless p = mw_Rootless w ∧ Annotations p = mw_Annotations w ∧ Secrets p = ∅ ∧
  Configmaps p = mw_Configmaps w ∧ ImageRegistryAuth p = default "" (mw_ImageRegistries w) ∧
  Labels p = mw_Labels w ∧ Specification p = mw_Specification w ∧
  Forall2 (λ mp wp, ∃ mp', mp = Some mp' ∧ WP_Name wp = mwp_Name mp' ∧
      Forall2 (λ mc wc, ∃ mc', mc = Some mc' ∧ WC_Name wc = mwc_Name mc' ∧ CPU wc = mwc_CPU mc')
        (mwp_Conditions mp') (WP_Conditions wp))
    (mw_Profiles w) (WorkloadProfiles p).

Definition expressions_of (cs : gmap string string) (l : list models_Condition) : gmap string string :=
  foldl (λ m c, <[mc_Name c := mc_Expression c]> m) cs l.

Lemma put_conditions name m l cs :
  Forall is_Some l →
  fold_option (put_condition name) (<[name := cs]> m) l = Some (<[name := expressions_of cs (somes l)]> m).
Proof.
  intros Hl. revert cs. induction Hl as [|x l [c ->] _ IH]; intros cs; [done|].
  cbn [fold_option]. unfold put_condition at 1. simpl. rewrite alter_insert_eq. by rewrite IH.
Qed.

Lemma put_conditions_nil name m l :
  is_Some (fold_option (put_condition name) m l) → Forall is_Some l.
Proof.
  revert m. induction l as [|[c|] l IH]; intros m; simpl; [constructor| |by intros []].
  intros Hl. constructor; [by eexists|]. by eapply IH.
Qed.

Lemma expressions_of_lookup l n :
  expressions_of ∅ l !! n = mc_Expression <$> last_with mc_Name l n.
Proof.
  unfold expressions_of. induction l as [|c l IH] using rev_ind; [done|].
  rewrite foldl_app, last_with_snoc. simpl. rewrite lookup_insert. by case_decide.
Qed.

Lemma profile2Entity_value m p :
  Forall is_Some (mp_Conditions p) →
  profile2Entity m (Some p) = Some (<[mp_Name p := expressions_of ∅ (somes (mp_Conditions p))]> m).
Proof. intros Hp. unfold profile2Entity. simpl. by apply put_conditions. Qed.

Lemma profiles_nil m ps :
  is_Some (fold_option profile2Entity m ps) →
  Forall (λ p, ∃ p', p = Some p' ∧ Forall is_Some (mp_Conditions p')) ps.
Proof.
  revert m. induction ps as [|[p|] ps IH]; intros m; cbn [fold_option]; [constructor| |by intros []].
  destruct (profile2Entity m (Some p)) as [m'|] eqn:E; [|by intros []]. intros Hs.
  constructor; [|by eapply IH]. exists p. split; [done|]. eapply put_conditions_nil.
  unfold profile2Entity in E. simpl in E. by rewrite E.
Qed.

Lemma profiles_value ps :
  Forall (λ p, ∃ p', p = Some p' ∧ Forall is_Some (mp_Conditions p')) ps →
  ∃ m, fold_option profile2Entity ∅ ps = Some m ∧ profiles_translated (somes ps) m.
Proof.
  induction ps as [|p ps IH] using rev_ind; [by exists ∅|].
  intros [Hps Hp]%list.Forall_app. destruct (IH Hps) as (m & Hm & Ht).
  apply list.Forall_singleton in Hp as (p' & -> & Hp).
  exists (<[mp_Name p' := expressions_of ∅ (somes (mp_Conditions p'))]> m).
  rewrite fold_option_snoc, Hm, profile2Entity_value by done. split; [done|].
  intros name. unfold somes. rewrite omap_app. simpl. rewrite last_with_snoc. case_decide as E.
  - subst. eexists. rewrite lookup_insert_eq. split; [done|]. intros n. apply expressions_of_lookup.
  - specialize (Ht name). rewrite lookup_insert_ne by done. done.
Qed.

Lemma condition2Entity_Some c wc :
  condition2Entity c = Some wc ↔ ∃ c', c = Some c' ∧ WC_Name wc = mwc_Name c' ∧ CPU wc = mwc_CPU c'.
Proof.
  destruct c as [c|]; simpl; [|naive_solver]. destruct wc as [n u]. split; [intros [= <- <-]; eauto|].
  intros (c' & [= <-] & Hn & Hu). simpl in *. by subst.
Qed.

Lemma workloadProfile2Entity_Some p wp :
  workloadProfile2Entity p = Some wp ↔
  ∃ p', p = Some p' ∧ WP_Name wp = mwp_Name p' ∧
    Forall2 (λ mc wc, ∃ mc', mc = Some mc' ∧ WC_Name wc = mwc_Name mc' ∧ CPU wc = mwc_CPU mc')
      (mwp_Conditions p') (WP_Conditions wp).
Proof.
  unfold workloadProfile2Entity. destruct p as [p|]; simpl; [|naive_solver].
  pose proof (λ cs, append_all_spec _ _ (mwp_Conditions p) cs condition2Entity_Some) as Ha.
  destruct wp as [n ds]. cbn [WP_Name WP_Conditions]. split.
  - destruct (append_all _ _) as [cs|] eqn:E; simpl; [|done]. intros [= <- <-]. exists p. split_and!; [done..|].
    by apply Ha.
  - intros (p' & [= <-] & -> & Hf). apply Ha in Hf. by rewrite Hf.
Qed.

Lemma workload2Entity_Some w p :
  workload2Entity w = Some p ↔ ∃ w', w = Some w' ∧ workload_translated w' p.
Proof.
  unfold workload2Entity. destruct w as [w|]; simpl; [|naive_solver].
  pose proof (λ ps, append_all_spec _ _ (mw_Profiles w) ps workloadProfile2Entity_Some) as Ha.
  assert ((if bool_decide (0 < length (mw_Profiles w))%nat
           then append_all workloadProfile2Entity (mw_Profiles w) else Some []) =
          append_all workloadProfile2Entity (mw_Profiles w)) as ->.
  { case_bool_decide; [done|]. by destruct (mw_Profiles w); simpl in *; [|lia]. }
  unfold workload_translated, kind2Entity. split.
  - destruct (append_all _ _) as [ps|] eqn:E; simpl; [|done]. intros [= <-]. exists w. split; [done|].
    simpl. split_and!; try done. by apply Ha.
  - intros (w' & [= <-] & Ht). destruct p. simpl in Ht. destruct_and! Ht. subst.
    match goal with Hf : Forall2 _ _ _ |- _ => apply Ha in Hf as -> end. done.
Qed.

(** Which workloads are translated at all. *)
Lemma workloadProfile2Entity_is_Some p :
  is_Some (workloadProfile2Entity p) ↔ ∃ p', p = Some p' ∧ Forall is_Some (mwp_Conditions p').
Proof.
  unfold workloadProfile2Entity. destruct p as [p|]; simpl; [|split; [by intros []|naive_solver]].
  transitivity (is_Some (append_all condition2Entity (mwp_Conditions p))).
  - destruct (append_all _ _); simpl; split; intros [? ?]; first [done | by eexists].
  - rewrite append_all_is_Some, (list.Forall_iff _ _ is_Some); [naive_solver|].
    intros [c|]; simpl; split; intros [? ?]; first [done | by eexists].
Qed.

Lemma workload2Entity_is_Some w :
  is_Some (workload2Entity w) ↔ ∃ w', w = Some w' ∧
    Forall (λ p, ∃ p', p = Some p' ∧ Forall is_Some (mwp_Conditions p')) (mw_Profiles w').
Proof.
  unfold workload2Entity. destruct w as [w|]; simpl; [|split; [by intros []|naive_solver]].
  transitivity (is_Some (append_all workloadProfile2Entity (mw_Profiles w))).
  - case_bool_decide as E.
    + destruct (append_all _ _); simpl; split; intros [? ?]; first [done | by eexists].
    + destruct (mw_Profiles w); simpl in *; [|lia]. split; intros _; by eexists.
  - rewrite append_all_is_Some, (list.Forall_iff _ _ _ workloadProfile2Entity_is_Some). naive_solver.
Qed.

(** C29: the translation of the operator's message crashes exactly when
    something it dereferences is nil: the configuration, its heartbeat or its
    hardware profile, a profile or one of its conditions, a workload, one of its
    profiles or one of their conditions.  Otherwise every workload is
    translated, in order and field by field, with its profiles and conditions;
    and the profiles map holds, under each name, the last profile of that name,
    each of its conditions with the last expression given to it. *)
Theorem configuration_translated m :
  (configurationModel2Entity m = None ↔ ¬ no_nil m) ∧
  ∀ e, configurationModel2Entity m = Some e →
    (∃ c h i, mm_Configuration m = Some c ∧ mconf_Heartbeat c = Some h ∧ mh_HardwareProfile h = Some i ∧
       Heartbeat_ (Configuration e) =
         MkHeartbeatConfiguration (MkHardwareProfileConfiguration i FullScope)
           (to_int64 (mh_PeriodSeconds h * 1000000000)) ∧
       profiles_translated (somes (mconf_Profiles c)) (ConfProfiles (Configuration e))) ∧
    Forall2 (λ w p, ∃ w', w = Some w' ∧ workload_translated w' p) (mm_Workloads m) (Workloads e) ∧
    DeviceID e = mm_DeviceID m ∧ Version e = "" ∧
    WorkloadsMonitoringInterval e = to_int64 (mm_WorkloadsMonitoringInterval m * 1000000000).
Proof.
  pose proof (λ ws, append_all_spec _ _ (mm_Workloads m) ws workload2Entity_Some) as Ha.
  unfold configurationModel2Entity, no_nil. split.
  - rewrite eq_None_not_Some. apply not_iff_compat. pose proof (append_all_is_Some workload2Entity (mm_Workloads m)) as Hw.
    rewrite (list.Forall_iff _ _ _ workload2Entity_is_Some) in Hw. split.
    + intros Hs. destruct (mm_Configuration m) as [c|]; simpl in Hs; [|by destruct Hs].
      destruct (mconf_Heartbeat c) as [h|] eqn:Eh; simpl in Hs; [|by destruct Hs].
      exists c, h. destruct (mh_HardwareProfile h) as [i|]; simpl in Hs; [|by destruct Hs].
      destruct (fold_option profile2Entity ∅ (mconf_Profiles c)) as [ps|] eqn:Ep; simpl in Hs; [|by destruct Hs].
      split_and!; [done..|by eexists|apply (profiles_nil ∅); by rewrite Ep|].
      apply Hw. destruct (append_all _ _); [by eexists|by destruct Hs].
    + intros (c & h & -> & Hh & [i Hi] & Hp & Hws). simpl. rewrite Hh. simpl. rewrite Hi. simpl.
      destruct (profiles_value _ Hp) as (ps & -> & _). apply Hw in Hws as [ws ->]. by eexists.
  - intros e. destruct (mm_Configuration m) as [c|] eqn:Ec; simpl; [|done].
    destruct (mconf_Heartbeat c) as [h|] eqn:Eh; simpl; [|done].
    destruct (mh_HardwareProfile h) as [i|] eqn:Ei; simpl; [|done].
    destruct (fold_option profile2Entity ∅ (mconf_Profiles c)) as [ps|] eqn:Ep; simpl; [|done].
    destruct (append_all workload2Entity (mm_Workloads m)) as [ws|] eqn:Ew; simpl; [|done].
    intros [= <-]. simpl. split; [|split; [by apply Ha|done]].
    exists c, h, i. split_and!; [done..|].
    assert (is_Some (fold_option profile2Entity ∅ (mconf_Profiles c))) as Hp by (by rewrite Ep).
    apply profiles_nil in Hp. destruct (profiles_value _ Hp) as (ps' & Hps & Ht). rewrite Ep in Hps. by injection Hps as <-.
Qed.

(** a heartbeat period or monitoring interval given in seconds is converted
    exactly when it fits in 64 bits of nanoseconds, that is up to 9223372036
    seconds in absolute value, and to another duration otherwise. *)
Theorem seconds_to_duration_spec s :
  (-(2 ^ 63) <= seconds_to_duration s < 2 ^ 63)%Z ∧
  (seconds_to_duration s = s * 1000000000 ↔ -9223372036 <= s <= 9223372036)%Z.
Proof.
  unfold seconds_to_duration, to_int64.
  pose proof (Z.mod_pos_bound (s * 1000000000 + 2 ^ 63) (2 ^ 64) ltac:(lia)) as Hb.
  split; [lia|]. split; intros Hs; [lia|].
  rewrite Z.mod_small; lia.
Qed.

(** ** Compiling the profiles *)
Section compile.
Context {W : Type} `{MapOrder W}.

Definition parses (expression : string) : Prop := ∃ i, New expression = Some (inr i).

(** [c] is the condition compiled from a pair name, expression. *)
Definition compiled (ne : string * string) (c : ProfileCondition) : Prop :=
  PC_Name c = ne.1 ∧ New ne.2 = Some (inr (Expression c)).

(** Compilation stops at the first expression that does not parse. *)
Definition compiled_prefix (order : list (string * string)) (cs : list ProfileCondition) : Prop :=
  ∃ good rest, order = good ++ rest ∧ Forall2 compiled good cs ∧
    (rest = [] ∨ ∃ name e rest', rest = (name, e) :: rest' ∧ ¬ parses e).

Lemma compile_conditions_acc order acc :
  ∃ cs, compile_conditions order acc = acc ++ cs ∧ compiled_prefix order cs.
Proof.
  revert acc. induction order as [|[name e] order IH]; intros acc; simpl.
  - exists []. split; [by rewrite app_nil_r|]. exists [], []. repeat split; [constructor|by left].
  - destruct (New e) as [[err|intr]|] eqn:E.
    + exists []. split; [by rewrite app_nil_r|]. exists [], ((name, e) :: order).
      split; [done|]. split; [constructor|]. right. exists name, e, order. split; [done|].
      intros [i Hi]. congruence.
    + destruct (IH (acc ++ [MkProfileCondition name [] intr])) as (cs & Hcs & good & rest & Ho & Hf & Hr).
      exists (MkProfileCondition name [] intr :: cs). rewrite Hcs, <-app_assoc. split; [done|].
      exists ((name, e) :: good), rest. rewrite Ho. split; [done|]. split; [|done].
      constructor; [by split|done].
    + exists []. split; [by rewrite app_nil_r|]. exists [], ((name, e) :: order).
      split; [done|]. split; [constructor|]. right. exists name, e, order. split; [done|].
      intros [i Hi]. congruence.
Qed.

Lemma compile_conditions_prefix order : compiled_prefix order (compile_conditions order []).
Proof. destruct (compile_conditions_acc order []) as (cs & Hcs & ?). by rewrite Hcs. Qed.

(** Profile [p] is a compilation of [conditions]. *)
Definition profile_of (name : string) (conditions : gmap string string) (p : DeviceProfile) : Prop :=
  DP_Name p = name ∧ ∃ order, order ≡ₚ map_to_list conditions ∧ compiled_prefix order (DP_Conditions p).

Lemma compile_profiles_spec order profiles w :
  NoDup (map fst order) →
  (∀ k, k ∈ map fst order → profiles !! k = None) →
  let res := (compile_profiles order profiles w).1 in
  (∀ k, k ∉ map fst order → res !! k = profiles !! k) ∧
  (∀ k m, (k, m) ∈ order → ∃ p, res !! k = Some p ∧ profile_of k m p).
Proof.
  revert profiles w. induction order as [|[name conds] order IH]; intros profiles w Hd Hn res.
  { split; [done|]. intros k m Hk. by apply not_elem_of_nil in Hk. }
  unfold res. cbn [compile_profiles]. rewrite M_bind_unfold.
  cbn [map fst] in Hd. apply list.NoDup_cons in Hd as [Hname Hd].
  set (p := MkDeviceProfile name (compile_conditions (range_map conds w).1 [])).
  destruct (IH (<[name := p]> profiles) (range_map conds w).2 Hd) as [IHn IHin].
  { intros k Hk. rewrite lookup_insert_ne; [apply Hn; by right|]. by intros <-. }
  split.
  - intros k Hk. apply not_elem_of_cons in Hk as [Hk Hk']. rewrite IHn by done. by rewrite lookup_insert_ne.
  - intros k m Hk. apply elem_of_cons in Hk as [[= -> ->]|Hk]; [|by apply IHin].
    exists p. rewrite IHn by done. rewrite lookup_insert_eq. split; [done|]. split; [done|].
    exists (range_map conds w).1. split; [apply range_map_perm | apply compile_conditions_prefix].
Qed.

Lemma createDeviceProfiles_result confProfiles w :
  let r := (createDeviceProfiles confProfiles w).1 in
  Error r = None ∧ (None_ (RValue r) = true ↔ confProfiles = ∅) ∧
  (∀ name, is_Some (Value (RValue r) !! name) ↔ is_Some (confProfiles !! name)) ∧
  (∀ name conditions, confProfiles !! name = Some conditions →
     ∃ p, Value (RValue r) !! name = Some p ∧ profile_of name conditions p).
Proof.
  intros r. unfold r, createDeviceProfiles. case_bool_decide as Hs.
  { apply map_size_empty_inv in Hs as ->. cbn [fst mret M_ret Error RValue Value None_].
    split; [done|]. split; [by split|].
    split; [intros name; rewrite !lookup_empty; split; by intros []|].
    intros name c Hc. by rewrite lookup_empty in Hc. }
  rewrite !M_bind_unfold. cbn [fst mret M_ret Error RValue Value None_].
  set (order := (range_map confProfiles w).1).
  assert (order ≡ₚ map_to_list confProfiles) as Ho by apply range_map_perm.
  assert (NoDup (map fst order)) as Hd
    by (change (NoDup (order.*1)); rewrite Ho; apply NoDup_fst_map_to_list).
  destruct (compile_profiles_spec order ∅ (range_map confProfiles w).2 Hd) as [Hn Hin];
    [intros; apply lookup_empty|].
  set (res := (compile_profiles order ∅ _).1) in *.
  assert (∀ name c, confProfiles !! name = Some c → ∃ p, res !! name = Some p ∧ profile_of name c p) as Hall.
  { intros name c Hc. apply Hin. by rewrite Ho, elem_of_map_to_list. }
  assert (∀ name, is_Some (res !! name) ↔ is_Some (confProfiles !! name)) as Hdom.
  { intros name. split.
    - intros Hr. destruct (confProfiles !! name) as [c|] eqn:E; [done|]. exfalso.
      rewrite Hn in Hr; [by rewrite lookup_empty in Hr; destruct Hr|].
      change (name ∉ order.*1). rewrite Ho. intros Hk. apply list_elem_of_fmap in Hk as ([k c] & Ek & Hk).
      apply elem_of_map_to_list in Hk. simpl in Ek. congruence.
    - intros [c Hc]. destruct (Hall name c Hc) as (p & -> & _). done. }
  split; [done|]. split; [|done]. rewrite bool_decide_eq_true, map_size_empty_iff.
  split; intros E; apply map_eq; intros k; rewrite lookup_empty; apply eq_None_not_Some; rewrite <-?Hdom;
    [intros Hk | intros Hk%Hdom]; rewrite E, lookup_empty in Hk; by destruct Hk.
Qed.

(** compiling the profiles never reports an error; it gives one profile
    per configured profile, whose conditions are those visited, in the order
    of a range over the map, before the first expression that does not parse:
    the conditions after it are dropped too. *)
Theorem createDeviceProfiles_spec confProfiles w :
  let r := (createDeviceProfiles confProfiles w).1 in
  Error r = None ∧ (None_ (RValue r) = true ↔ confProfiles = ∅) ∧
  (∀ name, is_Some (Value (RValue r) !! name) ↔ is_Some (confProfiles !! name)) ∧
  (∀ name conditions, confProfiles !! name = Some conditions →
     ∃ p, Value (RValue r) !! name = Some p ∧ profile_of name conditions p).
Proof. apply createDeviceProfiles_result. Qed.

(** when every expression parses, each profile has exactly its conditions,
    each compiled from its expression. *)
Theorem createDeviceProfiles_complete confProfiles w name conditions :
  confProfiles !! name = Some conditions → map_Forall (λ _ e, parses e) conditions →
  ∃ p order, Value (RValue (createDeviceProfiles confProfiles w).1) !! name = Some p ∧
    order ≡ₚ map_to_list conditions ∧ Forall2 compiled order (DP_Conditions p).
Proof.
  intros Hc Hp. destruct (createDeviceProfiles_result confProfiles w) as (_ & _ & _ & Hall).
  destruct (Hall name conditions Hc) as (p & Hl & _ & order & Ho & good & rest & -> & Hf & Hr).
  exists p, (good ++ rest). split; [done|]. split; [done|].
  destruct Hr as [->|(n & e & rest' & -> & He)]; [by rewrite app_nil_r|].
  exfalso. apply He. apply (Hp n). apply elem_of_map_to_list. rewrite <-Ho, elem_of_app. right. left.
Qed.

(** ** Applying a configuration *)
Context (json_configuration : DeviceConfiguration → string) (json_workload : PodWorkload → string).
Context (duration_String : Z → string).
Notation SetConf := (SetConfiguration json_configuration json_workload duration_String).
Notation text := (conf_text json_configuration json_workload duration_String).

(** The digest a call of [Hash()] returns. *)
Definition digest (m : DeviceConfigurationMessage) (w : W) : string :=
  (conf_Hash json_configuration json_workload duration_String m w).1.1.

Lemma digest_eq m w : digest m w = sha256_hex (text (set_Workloads (sort_workloads (Workloads m) w).1 m)).
Proof. unfold digest, conf_Hash. by rewrite M_bind_unfold. Qed.

(** What differs in two settled messages with one digest is at most the order
    of their workloads. *)
Lemma digest_perm m m' w w' :
  settled m → Workloads m ≡ₚ Workloads m' → Configuration m = Configuration m' → DeviceID m = DeviceID m' →
  Version m = Version m' → WorkloadsMonitoringInterval m = WorkloadsMonitoringInterval m' →
  digest m w = digest m' w'.
Proof.
  intros [Hst Hd] Hp Hc Hi Hv Hw. rewrite !digest_eq. unfold conf_text, set_Workloads. simpl.
  by rewrite Hc, Hi, Hv, Hw, (sort_unique _ _ w w' Hst Hd Hp).
Qed.

Lemma settled_sorted m w : settled m → settled (set_Workloads (sort_workloads (Workloads m) w).1 m).
Proof. unfold settled. simpl. by rewrite sort_perm. Qed.

Lemma sorted_settled m w w' :
  settled m →
  let m' := set_Workloads (sort_workloads (Workloads m) w).1 m in
  digest m' w' = digest m w ∧ set_Workloads (sort_workloads (Workloads m') w').1 m' = m'.
Proof.
  intros Hm m'. split.
  - symmetry. apply digest_perm; try done. unfold m'. cbn [Workloads set_Workloads]. by rewrite sort_perm.
  - unfold m', set_Workloads. simpl. f_equal. destruct Hm as [Hst Hd]. symmetry.
    apply sort_unique; [done|done|by rewrite sort_perm].
Qed.

Lemma SetConfiguration_eq m c w :
  let w1 := (sort_workloads (Workloads m) w).2 in
  let new := set_Workloads (sort_workloads (Workloads m) w).1 m in
  let old := set_Workloads (sort_workloads (Workloads (conf c)) w1).1 (conf c) in
  let w2 := (sort_workloads (Workloads (conf c)) w1).2 in
  (SetConf m c w).1 =
  if bool_decide (digest m w = digest (conf c) w1) then ([], MkConfManager old (hardware c))
  else ([MkMessage WorkloadConfigurationMessage
           (PWorkloads (MkOption (Workloads new) (bool_decide (length (Workloads new) = 0)%nat)));
         MkMessage ProfileConfigurationMessage
           (PProfiles (RValue (createDeviceProfiles (ConfProfiles (Configuration m)) w2).1))],
        MkConfManager new (hardware c)).
Proof.
  cbv zeta. rewrite !digest_eq. unfold SetConfiguration, conf_Hash. rewrite !M_bind_unfold.
  cbn [fst snd mret M_ret conf hardware]. case_bool_decide; [done|]. rewrite M_bind_unfold.
  cbn [fst snd mret M_ret conf hardware Configuration Workloads set_Workloads].
  match goal with |- context [createDeviceProfiles ?p ?v] =>
    destruct (createDeviceProfiles_result p v) as (-> & _) end. done.
Qed.

(** C28: the hash of a configuration whose workloads have fixed and distinct
    identifiers depends neither on the order of its workloads nor on the order
    in which the calls visit their maps, so that a reordered configuration is
    not applied again: applying it a second time, to the manager the first one
    left, sends nothing and changes nothing. *)
Theorem SetConfiguration_idempotent m m' c w w' :
  settled m → settled (conf c) → Workloads m ≡ₚ Workloads m' →
  Configuration m = Configuration m' → DeviceID m = DeviceID m' → Version m = Version m' →
  WorkloadsMonitoringInterval m = WorkloadsMonitoringInterval m' →
  (∀ v v', digest m v = digest m' v') ∧
  let c' := (SetConf m c w).1.2 in (SetConf m' c' w').1 = ([], c').
Proof.
  intros Hm Hs Hp Hc Hi Hv Hw. split; [intros; by apply digest_perm|].
  assert (∀ v v', digest m v = digest m' v') as Hd by (intros; by apply digest_perm).
  intros c'. rewrite SetConfiguration_eq.
  assert (∃ n v, settled n ∧ digest m' w' = digest n v ∧
            c' = MkConfManager (set_Workloads (sort_workloads (Workloads n) v).1 n) (hardware c)) as (n & v & Hn & E & ->).
  { unfold c'. rewrite SetConfiguration_eq. case_bool_decide as E; cbn [snd].
    - exists (conf c), (sort_workloads (Workloads m) w).2. split; [done|]. split; [|done]. rewrite <-E. by rewrite (Hd w w').
    - exists m, w. split; [done|]. split; [by rewrite (Hd w w')|done]. }
  cbn [conf hardware].
  match goal with |- context [bool_decide (_ = digest _ ?u)] =>
    destruct (sorted_settled n v u Hn) as [E' Es] end.
  rewrite bool_decide_eq_true_2 by congruence. by rewrite Es.
Qed.

Lemma SetConfiguration_result m c w :
  (∀ v v', digest m v ≠ digest (conf c) v') →
  let r := (SetConf m c w).1 in
  ∃ ws profiles, ws ≡ₚ Workloads m ∧
    (∃ w', profiles = RValue (createDeviceProfiles (ConfProfiles (Configuration m)) w').1) ∧
    conf r.2 = set_Workloads ws m ∧ hardware r.2 = hardware c ∧
    r.1 = [MkMessage WorkloadConfigurationMessage (PWorkloads (MkOption ws (bool_decide (Workloads m = []))));
           MkMessage ProfileConfigurationMessage (PProfiles profiles)].
Proof.
  intros Hne r. unfold r. rewrite SetConfiguration_eq, bool_decide_eq_false_2 by apply Hne.
  exists (sort_workloads (Workloads m) w).1. eexists. split; [apply sort_perm|].
  split; [by eexists|]. split; [done|]. split; [done|]. cbn [fst]. do 4 f_equal. apply bool_decide_ext.
  cbn [Workloads set_Workloads]. rewrite sort_perm. destruct (Workloads m); simpl; naive_solver.
Qed.

(** a configuration with another hash sends the scheduler its workloads,
    [None] when there are none, then the profile manager its profiles, and
    becomes the current configuration. *)
Theorem SetConfiguration_sends m c w :
  (∀ v v', digest m v ≠ digest (conf c) v') →
  let r := (SetConf m c w).1 in
  ∃ ws profiles, ws ≡ₚ Workloads m ∧
    (∃ w', profiles = RValue (createDeviceProfiles (ConfProfiles (Configuration m)) w').1) ∧
    conf r.2 = set_Workloads ws m ∧ hardware r.2 = hardware c ∧
    r.1 = [MkMessage WorkloadConfigurationMessage (PWorkloads (MkOption ws (bool_decide (Workloads m = []))));
           MkMessage ProfileConfigurationMessage (PProfiles profiles)].
Proof. apply SetConfiguration_result. Qed.

(** a heartbeat reports each workload of the status reader once, as
    [running] exactly when its job runs, as [stopped] when it is inactive,
    ready or unknown, and as [crashed] otherwise. *)
Theorem heartbeat_reports status c w :
  let hb := (make_Heartbeat status c w).1 in
  NoDup (map WS_Name (HB_Workloads hb)) ∧
  ∀ name st, default ∅ status !! name = Some st →
    ∃ ws, ws ∈ HB_Workloads hb ∧ WS_Name ws = name ∧
      Status_String (WS_Status ws) =
        (if bool_decide (st = RunningState) then "running"
         else if OneOf st [InactiveState; UnknownState; ReadyState] then "stopped" else "crashed").
Proof.
  intros hb. unfold hb, make_Heartbeat. rewrite M_bind_unfold. cbn [fst mret M_ret HB_Workloads].
  set (order := (range_map (default ∅ status) w).1).
  assert (order ≡ₚ map_to_list (default ∅ status)) as Ho by apply range_map_perm.
  unfold statusMapper. split.
  - rewrite map_map. cbn [WS_Name]. change (NoDup (order.*1)). rewrite Ho. apply NoDup_fst_map_to_list.
  - intros name st Hst. exists (MkWorkloadStatus 0 name (map_status st)). split; [|split; [done|]].
    + apply list_elem_of_fmap. exists (name, st). split; [done|]. by rewrite Ho, elem_of_map_to_list.
    + by destruct st.
Qed.
End compile.

(** ** Witnesses *)
Definition one_condition : gmap string string := {["low" := "cpu < 25%"]}.

Definition message0 : models_Message :=
  Mkmodels_Message
    (Some (Mkmodels_Configuration (Some (Mkmodels_Heartbeat_conf (Some true) 5))
             [Some (Mkmodels_Profile [Some (Mkmodels_Condition "cpu < 25%" "low")] "perf")]))
    "device" "1"
    [Some (Mkmodels_Workload ∅ [] "" None "k8s" None "web" "default" [] false "spec")] 10.
Definition null_workload : models_Message :=
  Mkmodels_Message (mm_Configuration message0) "device" "1" [None] 10.

Definition conf0 (names : list string) : DeviceConfigurationMessage :=
  MkDeviceConfigurationMessage (Configuration defaultConfiguration) "device" ""
    (map (λ n, plain_pod n true) names) 0.

Lemma conf0_settled names : NoDup (map (λ n, PodWorkload_ID (plain_pod n true)) names) → settled (conf0 names).
Proof.
  intros Hn. split; cbn [Workloads conf0]; [|by rewrite map_map].
  apply list.Forall_fmap, Forall_true. intros n. apply plain_pod_fixed.
Qed.

Lemma configuration_translated_witness :
  configurationModel2Entity null_workload = None ∧
  ∃ e, configurationModel2Entity message0 = Some e ∧
    ConfProfiles (Configuration e) !! "perf" = Some one_condition ∧
    Forall2 (λ w p, ∃ w', w = Some w' ∧ workload_translated w' p) (mm_Workloads message0) (Workloads e).
Proof.
  split.
  - apply (configuration_translated null_workload). intros (c & h & _ & _ & _ & _ & Hw).
    inversion Hw as [|? ? (w & Hn & _) _]. discriminate.
  - eexists. split; [reflexivity|]. split; [by vm_compute|].
    by apply (configuration_translated message0).
Defined.

Lemma seconds_to_duration_spec_witness : seconds_to_duration 5 = 5000000000%Z.
Proof. apply seconds_to_duration_spec. lia. Defined.

Lemma createDeviceProfiles_spec_witness :
  ∃ p, Value (RValue (createDeviceProfiles {["perf" := one_condition]} tt).1) !! "perf" = Some p ∧
       profile_of "perf" one_condition p.
Proof. apply (createDeviceProfiles_spec {["perf" := one_condition]} tt). by vm_compute. Defined.

Lemma createDeviceProfiles_complete_witness :
  ∃ p order, Value (RValue (createDeviceProfiles {["perf" := one_condition]} tt).1) !! "perf" = Some p ∧
    order ≡ₚ map_to_list one_condition ∧ Forall2 compiled order (DP_Conditions p).
Proof.
  apply createDeviceProfiles_complete; [by vm_compute|].
  apply map_Forall_singleton. exists (interpreter_of "cpu < 25%"). by vm_compute.
Defined.

Lemma SetConfiguration_idempotent_witness :
  digest (λ _, "") Specification (λ _, "0s") (conf0 ["a"; "b"]) tt =
  digest (λ _, "") Specification (λ _, "0s") (conf0 ["b"; "a"]) tt.
Proof.
  apply (SetConfiguration_idempotent (λ _, "") Specification (λ _, "0s") (conf0 ["a"; "b"]) (conf0 ["b"; "a"])
    (MkConfManager defaultConfiguration (hw0 None)) tt tt); [| |apply perm_swap|reflexivity..].
  - apply conf0_settled. apply (bool_decide_unpack _). vm_compute. exact I.
  - split; [constructor|]. constructor.
Defined.

Lemma SetConfiguration_sends_witness :
  ∃ ws, ws ≡ₚ Workloads (conf0 ["b"; "a"]) ∧
    conf (SetConfiguration (λ _, "") Specification (λ _, "0s") (conf0 ["b"; "a"])
      (MkConfManager defaultConfiguration (hw0 None)) tt).1.2 = set_Workloads ws (conf0 ["b"; "a"]).
Proof.
  destruct (SetConfiguration_sends (λ _, "") Specification (λ _, "0s") (conf0 ["b"; "a"])
    (MkConfManager defaultConfiguration (hw0 None)) tt) as (ws & _ & Hp & _ & Hc & _).
  - intros [] []. vm_compute. discriminate.
  - exists ws. split; [exact Hp|exact Hc].
Defined.

Lemma heartbeat_reports_witness :
  ∃ ws, ws ∈ HB_Workloads (make_Heartbeat (Some {["nginx" := ExitedState]})
                             (MkConfManager defaultConfiguration (hw0 None)) tt).1 ∧
    WS_Name ws = "nginx" ∧ Status_String (WS_Status ws) = "crashed".
Proof.
  destruct (heartbeat_reports (Some {["nginx" := ExitedState]})
    (MkConfManager defaultConfiguration (hw0 None)) tt) as [_ Hx].
  apply (Hx "nginx" ExitedState). by vm_compute.
Defined.
