(* ===== verification/Activation.v ===== *)
(** * From conditions to running workloads

    The composition of the configuration manager, the profile manager and the
    scheduler on the activation of a workload: the expressions of the operator
    ([internal/configuration/manager.go]) are compiled, evaluated on the metrics
    ([internal/profile/evaluator.go]) and counted
    ([internal/scheduler/scheduler.go], [evaluate]); what comes out depends on
    the meaning of the expressions alone, not on the order of any map. *)
From Stdlib Require Import Strings.String.
From S2P Require Import Prelude GoStd Lexer Parser Interpreter Entity Interfaces Job Store Profile Evaluate Reconcile.
From S2P Require Import Scheduler SchedulerFacts SchedulerProps SchedulerLoop Config.
Local Open Scope string_scope.
Local Open Scope list_scope.

(** The expression holds on the metrics: it parses, raises no error, and its
    meaning is true. *)
Definition true_on (metrics : variables) (expression : string) : Prop :=
  ∃ i, New expression = Some (inr i) ∧ checked (i_expr i) = true ∧
       condition metrics (i_expr i) = true ∧ holds metrics (i_expr i).

(** The test that decides it. *)
Definition evaluates_true (metrics : variables) (expression : string) : bool :=
  match New expression with
  | Some (inr i) => bool_decide (Evaluate i metrics = (true, None))
  | _ => false
  end.

Lemma evaluates_true_spec metrics e : typed metrics → evaluates_true metrics e = true ↔ true_on metrics e.
Proof.
  intros Ht. unfold evaluates_true, true_on. split.
  - destruct (New e) as [[err|i]|] eqn:E; [done| |done]. intros Hb%bool_decide_eq_true.
    exists i. split; [done|]. by apply (Evaluate_true e).
  - intros (i & E & Hh). rewrite E. apply bool_decide_eq_true_2. by apply (Evaluate_true e).
Qed.

(** The profiles of a configuration, as text. *)
Notation profile_texts := (gmap string (gmap string string)).

(** Condition [c] of profile [p] holds. *)
Definition met (conf : profile_texts) (metrics : variables) (p c : string) : bool :=
  match conf !! p ≫= (.!! c) with Some e => evaluates_true metrics e | None => false end.

Definition profile_met (conf : profile_texts) (metrics : variables) (p : WorkloadProfile) : bool :=
  existsb (λ c, met conf metrics (WP_Name p) (WC_Name c)) (WP_Conditions p).

(** Every expression of the configuration parses. *)
Definition all_parse (conf : profile_texts) : Prop := map_Forall (λ _ conds, map_Forall (λ _ e, parses e) conds) conf.

Section activation.
Context {V : Type} `{MapOrder V}.
Implicit Types (conf : profile_texts) (metrics : variables) (v : V).

(** What the configuration manager sends to the profile manager. *)
Definition device_profiles conf v : gmap string DeviceProfile := Value (RValue (createDeviceProfiles conf v).1).

(** What the profile manager makes of it, visiting the profiles in [order]. *)
Definition reported_results (order : list (string * DeviceProfile)) metrics : list ProfileEvaluationResult :=
  Value (Evaluate_profiles (SetProfiles order) metrics).

Lemma compiled_lookup conf v p profile :
  all_parse conf → device_profiles conf v !! p = Some profile →
  ∃ conds order, conf !! p = Some conds ∧ order ≡ₚ map_to_list conds ∧ Forall2 compiled order (DP_Conditions profile).
Proof.
  intros Hp Hl. destruct (createDeviceProfiles_result conf v) as (_ & _ & Hdom & Hall).
  destruct (conf !! p) as [conds|] eqn:E.
  - destruct (createDeviceProfiles_complete conf v p conds E) as (profile' & order & Hl' & Ho & Hf).
    { exact (Hp p conds E). }
    exists conds, order. unfold device_profiles in Hl. simplify_eq. done.
  - assert (is_Some (conf !! p)) as [? ?] by (apply Hdom; by exists profile). congruence.
Qed.

Lemma reported_true conf v order metrics p c :
  all_parse conf → order ≡ₚ map_to_list (device_profiles conf v) →
  satisfied (reported_results order metrics) p c = met conf metrics p c.
Proof.
  intros Hp Ho. apply eq_iff_eq_true. unfold satisfied.
  destruct (Evaluate_profiles_spec (device_profiles conf v) order metrics Ho) as (_ & _ & Hr).
  rewrite existsb_exists. split.
  - intros (r & Hin%list_elem_of_In & [Hn Hc]%andb_true_iff). apply bool_decide_eq_true in Hn as <-.
    apply existsb_exists in Hc as (cr & Hcr%list_elem_of_In & Ht). unfold reports_true in Ht. bool_to_prop.
    apply Hr in Hin as (profile & Hl & Hf). destruct (compiled_lookup conf v _ _ Hp Hl) as (conds & o & Hconf & Hperm & Hcomp).
    apply list_elem_of_lookup_1 in Hcr as [k Hk].
    destruct (Forall2_lookup_r _ _ _ _ _ Hf Hk) as (pc & Hpc & Hname & He).
    destruct (Forall2_lookup_r _ _ _ _ _ Hcomp Hpc) as ([n e] & Hne & Hname' & Hnew). cbn [fst snd] in *.
    unfold met. rewrite Hconf. cbn [mbind option_bind].
    assert (conds !! c = Some e) as ->.
    { apply elem_of_map_to_list. rewrite <-Hperm. apply list_elem_of_lookup_2 in Hne. congruence. }
    unfold evaluates_true. rewrite Hnew. apply bool_decide_eq_true_2. rewrite <-He. congruence.
  - unfold met. destruct (conf !! p) as [conds|] eqn:Hconf; [|done]. cbn [mbind option_bind].
    destruct (conds !! c) as [e|] eqn:Hc; [|done]. unfold evaluates_true.
    destruct (New e) as [[err|i]|] eqn:Hnew; [done| |done]. intros Ht%bool_decide_eq_true.
    destruct (createDeviceProfiles_complete conf v p conds Hconf (Hp p conds Hconf)) as (profile & o & Hl & Hperm & Hcomp).
    assert ((c, e) ∈ o) as [k Hk]%list_elem_of_lookup_1 by (by rewrite Hperm, elem_of_map_to_list).
    destruct (Forall2_lookup_l _ _ _ _ _ Hcomp Hk) as (pc & Hpc & Hname & Hnew'). cbn [fst snd] in *.
    exists (evaluate_profile (MkProfileEvaluator p profile) metrics). split.
    + apply list_elem_of_In. unfold reported_results, Evaluate_profiles, SetProfiles. cbn [Value].
      rewrite map_map. apply list_elem_of_fmap. exists (p, profile). split; [done|].
      by rewrite Ho, elem_of_map_to_list.
    + cbn [PER_Name evaluate_profile PE_Name]. rewrite bool_decide_eq_true_2 by done. cbn [andb].
      apply existsb_exists. exists (MkConditionResult c true None). split.
      * apply list_elem_of_In. cbn [ConditionsResults evaluate_profile PE_Profile]. apply list_elem_of_fmap.
        exists pc. split; [|by eapply list_elem_of_lookup_2].
        assert (Expression pc = i) as -> by congruence. by rewrite Ht, Hname.
      * unfold reports_true. cbn. by rewrite !bool_decide_eq_true_2.
Qed.

Lemma reported_length conf v order metrics :
  order ≡ₚ map_to_list (device_profiles conf v) → length (reported_results order metrics) = size conf.
Proof.
  intros Ho. unfold reported_results, Evaluate_profiles, SetProfiles. cbn [Value].
  rewrite !length_map, Ho, length_map_to_list, <-!size_dom. f_equal. apply set_eq. intros k.
  rewrite !elem_of_dom. apply (createDeviceProfiles_result conf v).
Qed.

Lemma reported_active conf v order metrics profiles :
  all_parse conf → order ≡ₚ map_to_list (device_profiles conf v) →
  active_profiles (reported_results order metrics) profiles =
    length (filter (λ p, profile_met conf metrics p = true) profiles).
Proof.
  intros Hp Ho. unfold active_profiles. f_equal. induction profiles as [|p ps IH]; [done|].
  rewrite !list.filter_cons, IH.
  assert (profile_active (reported_results order metrics) p = profile_met conf metrics p) as ->; [|done].
  unfold profile_active, profile_met. induction (WP_Conditions p) as [|c cs IHc]; [done|].
  cbn [existsb]. by rewrite IHc, (reported_true conf v).
Qed.
End activation.

(** ** From the text of the conditions to the target of a job *)
Section target.
Context {V : Type} `{MapOrder V}.
Context {T W : Type} `{Workload T} `{Clock W} `{CronLib} `{MapOrder W}.
Context `{Executor T W} `{ResourceManager W} `{RegexpLib}.

(** C5: when the scheduler evaluates a job on the results of the last metrics,
    its target becomes running exactly when it has no profile, the configuration
    has none, or at least as many of its profiles as the configuration has have
    a condition whose expression is true of the metrics; otherwise it becomes
    inactive.  The orders in which the three components visit their maps do not
    matter, and a job marked for deletion is left alone. *)
Theorem activation conf (v : V) metrics order (s : Scheduler T W) (w : W) t j :
  all_parse conf → typed metrics → order ≡ₚ map_to_list (device_profiles conf v) → reachable s →
  t ∈ view (jobs s) → heap s !! t = Some j → IsMarkedForDeletion j = false →
  distinct_names (Profiles (workload j)) →
  let s1 := handle_profiles (reported_results order metrics) s in
  (∀ e, evaluates_true metrics e = true ↔ true_on metrics e) ∧
  ∃ j', heap (handle_evaluation s1 w).1 !! t = Some j' ∧
    TargetState j' =
      if bool_decide (Profiles (workload j) = []) || bool_decide (conf = ∅) ||
         bool_decide (size conf ≤ length (filter (λ p, profile_met conf metrics p = true) (Profiles (workload j))))%nat
      then RunningState else InactiveState.
Proof.
  intros Hp Ht Ho Hr Hin Hj Hm Hd s1. split; [intros; by apply evaluates_true_spec|].
  set (results := reported_results order metrics) in *.
  assert (inv s1 ∧ jobs s1 = jobs s ∧ heap s1 = heap s ∧ profileEvaluationResults s1 = results)
    as (Hi1 & Ej & Eh & Er).
  { unfold s1, handle_profiles. pose proof (reachable_inv s Hr).
    case_bool_decide; [done|]. split; [by apply inv_set_syncs, inv_set_results|done]. }
  destruct (evaluation_effect s1 w t j Hi1) as (j' & Hj' & _ & _ & Hres);
    [by rewrite Ej|by rewrite Eh|done|].
  rewrite Hm, Er in Hres. destruct Hres as [Htarget _]. exists j'. split; [done|]. rewrite Htarget.
  assert (length results = size conf) as Hlen by by apply (reported_length conf v).
  assert (active_profiles results (Profiles (workload j)) =
    length (filter (λ p, profile_met conf metrics p = true) (Profiles (workload j)))) as Hact
    by by apply (reported_active conf v).
  unfold wanted. rewrite Hact, Hlen.
  assert (bool_decide (results = []) = bool_decide (conf = ∅)) as ->; [|done].
  apply bool_decide_ext. by rewrite <-length_zero_iff_nil, Hlen, map_size_empty_iff.
Qed.
End target.

(** ** Witness: a camera that runs while the CPU is idle *)
Module IdleCamera.
Import TickWorld.
#[export] Instance ticks : MapOrder Z := {|
  range_map := λ V m w, (map_to_list m, w);
  range_map_perm := λ V m w, Permutation_refl (map_to_list m)
|}.
Inductive camera := Camera.

#[export] Instance camera_workload : Workload camera := {|
  ID := λ _, "camera"; Kind := λ _, PodKind; Cron := λ _, ""; IsRootless := λ _, true;
  Profiles := λ _, [MkWorkloadProfile "perf" [MkWorkloadCondition "low" None]]; AsPod := λ _, None
|}.

#[export] Instance idle : Executor camera Z := {|
  Remove := λ _ w, (None, w); Run := λ _ w, (None, w); Stop := λ _ w, (None, w);
  GetState := λ _ w, (ok UnknownState, w); Exists := λ _ w, (ok false, w); Sleep := λ w, (tt, w)
|}.
#[export] Instance no_limits : ResourceManager Z := {|
  Set_ := λ _ _ w, (None, w);
  GetCGroup := λ _ _ w, (ok "/sys/fs/cgroup/machine.slice", w);
  GetResources := λ _ w, (ok CpuResource_zero, w)
|}.
#[export] Instance regexps : RegexpLib := {| regexp_compiles := λ _, true |}.

Definition texts : profile_texts := {["perf" := one_condition]}.
Definition idle_cpu : variables := {["cpu" := DInt 10]}.
Definition first : Scheduler camera Z := (handle_input (MkOption [Camera] false) newScheduler 0%Z).1.

Lemma first_reachable : reachable first.
Proof.
  exists 0%Z, ([] ++ [EInput (MkOption [Camera] false)]), (handle_input (MkOption [Camera] false) newScheduler 0%Z).2.
  eapply run_snoc; [constructor|]. unfold first. rewrite <-surjective_pairing. by apply st_input.
Qed.

Definition where_ : loc := default 1%positive (head (view (jobs first))).
Definition order_ : list (string * DeviceProfile) := map_to_list (device_profiles texts tt).
Definition the_job : Job camera Z :=
  default (MkJob Camera ReadyState ReadyState false None None [] CpuResource_zero CpuResource_zero) (heap first !! where_).

Lemma the_job_there : heap first !! where_ = Some the_job.
Proof.
  assert (bool_decide (is_Some (heap first !! where_)) = true) as [j Hj]%bool_decide_eq_true by by vm_compute.
  unfold the_job. by rewrite Hj.
Qed.
End IdleCamera.
Import IdleCamera.

Lemma activation_witness :
  ∃ j', heap (handle_evaluation (W := Z) (handle_profiles (reported_results order_ idle_cpu) first) 0%Z).1 !! where_ = Some j' ∧
    TargetState j' = RunningState.
Proof.
  destruct (activation (V := unit) (W := Z) texts tt idle_cpu order_ first 0%Z where_ the_job) as (_ & j' & Hj' & Ht).
  - apply map_Forall_singleton, map_Forall_singleton. exists (interpreter_of "cpu < 25%"). by vm_compute.
  - by apply map_Forall_singleton.
  - done.
  - exact first_reachable.
  - apply (bool_decide_unpack _). by vm_compute.
  - exact the_job_there.
  - by vm_compute.
  - split; [|repeat constructor]; apply (bool_decide_unpack _); by vm_compute.
  - exists j'. split; [exact Hj'|]. rewrite Ht. by vm_compute.
Defined.
