(* ===== verification/Executor.v ===== *)
(** * Executors

    [internal/executor]: the choice of an executor for a workload
    ([executor.go]), the podman executor and its wrapper of the podman bindings
    ([podman/executor.go], [podman.go], [mapper.go]), the k8s executor
    ([k8s/executor.go]) and the construction of a pod ([common/util.go]).  The
    bindings, the k8s client and the YAML library are parameters.  The names of
    pods are identifiers as [Entity.PodWorkload_ID] gives them: those of every
    call of [ID()] for a workload that is [Entity.stable], which the theorems
    about a whole run suppose ([Identity.FixedPod]). *)
From Stdlib Require Import Strings.String.
From S2P Require Import Prelude GoStd Sha256 Entity Interfaces Job Reconcile.
Local Open Scope string_scope.
Local Open Scope list_scope.

(** ** Pods (common/util.go) *)

(** A container and a pod specification: what the code touches, and the rest. *)
Record Container (R : Type) := MkContainer { Env : list (string * string); c_rest : R }.
Arguments MkContainer {R} _ _.
Arguments Env {R} _.
Arguments c_rest {R} _.
Record PodSpec (R : Type) := MkPodSpec { Containers : list (Container R); spec_rest : R }.
Arguments MkPodSpec {R} _ _.
Arguments Containers {R} _.
Arguments spec_rest {R} _.
Record Pod (R : Type) := MkPod {
  Spec : PodSpec R; PodName : string; PodAnnotations : gmap string string; PodLabels : gmap string string }.
Arguments MkPod {R} _ _ _ _.
Arguments Spec {R} _.
Arguments PodName {R} _.
Arguments PodAnnotations {R} _.
Arguments PodLabels {R} _.

(** [sigs.k8s.io/yaml] *)
Class Yaml (R : Type) := {
  Unmarshal_PodSpec : string → error + PodSpec R;
  Marshal_Pod : Pod R → error + string
}.

Definition set_Labels (l : option (gmap string string)) (p : PodWorkload) : PodWorkload :=
  MkPodWorkload (Name p) (WKind p) (Namespace p) (CronSpec p) (Rootless p) (Annotations p) (Secrets p)
    (Configmaps p) (ImageRegistryAuth p) l (WorkloadProfiles p) (Specification p).

Definition flotta_label : string := "project-flotta.io".

(** [ToPod]: the pod, and the workload after the call.  [pod.Labels] is the map
    of the workload unless that is nil, so the new label is also in the
    workload's own map, which every copy of the workload shares. *)
Definition ToPod {R} `{Yaml R} (deviceID : string) (workload : PodWorkload) : error + (Pod R * PodWorkload) :=
  match Unmarshal_PodSpec (Specification workload) with
  | inl err => inl err
  | inr podSpec =>
      let containers := map (λ c, MkContainer (Env c ++ [("DEVICE_ID", deviceID)]) (c_rest c)) (Containers podSpec) in
      let name := PodWorkload_ID workload in
      let hash := Hash workload in
      let labels := <[flotta_label := hash]> (entries (Labels workload)) in
      inr (MkPod (MkPodSpec containers (spec_rest podSpec)) name (Annotations workload) labels,
           match Labels workload with
           | Some _ => set_Labels (Some labels) workload
           | None => workload
           end)
  end.

Definition ToPodYaml {R} `{Yaml R} (pod : Pod R) (configmaps : list string) : error + string :=
  match Marshal_Pod pod with
  | inl err => inl err
  | inr podYaml =>
      let sep := "---" +:+ String "010" EmptyString in
      let cmYaml := if bool_decide (0 < length configmaps)%nat then strings_Join configmaps sep else "" in
      inr (strings_Join [podYaml; cmYaml] sep)
  end.

(** ** Errors (common/errors.go) *)
Definition ErrDeployingWorkload : error := sentinel "failed to deploy workload".
Definition ErrRunningWorkload : error := sentinel "failed to execute workload".
Definition ErrStoppingWorkload : error := sentinel "failed to stop workload".
Definition ErrRemoveWorkload : error := sentinel "failed to remove workload".

(** The errors of the podman executor, with their formats. *)
Definition deploy_error (name : string) (err : error) : error :=
  wrapError ("[" +:+ error_text ErrDeployingWorkload +:+ "] [" +:+ error_text err +:+ "] workload_name '" +:+ name +:+ "'")
    ErrDeployingWorkload.
Definition play_error (name : string) (err : error) : error :=
  wrapError (error_text ErrDeployingWorkload +:+ " " +:+ error_text err +:+ " workload_name '" +:+ name +:+ "'")
    ErrDeployingWorkload.
Definition start_error (name : string) (err : error) : error :=
  wrapError (error_text ErrRunningWorkload +:+ " workload name '" +:+ name +:+ "', error " +:+ error_text err)
    ErrRunningWorkload.
Definition pod_error (sentinel_ : error) (id : string) (err : error) : error :=
  wrapError (error_text sentinel_ +:+ " " +:+ error_text err +:+ " pod_id: " +:+ id) sentinel_.

(** ** Podman *)
Record WorkloadInfo := MkWorkloadInfo { Id : string; InfoName : string; InfoStatus : string }.
Record ContainerReport := MkContainerReport { IPAddress : string; ContainerId : string; ContainerName : string }.
Record PodReport := MkPodReport { ReportId : string; ReportContainers : list ContainerReport }.

(** The bindings, on a connection.  A listed pod is a name and a status; a
    played pod an identifier and its containers; an inspected container a name
    and the addresses of its networks. *)
Class Bindings (C W : Type) := {
  pods_List : C → M W (error + list (string * string));
  pods_Exists : C → string → M W (GResult bool);
  pods_Remove : C → string → bool → M W (option error);
  pods_Stop : C → string → Z → M W (option error);
  pods_Start : C → string → M W (option error);
  play_Kube : C → string → string → string → gmap string string → M W (error + list (string * list string));
  containers_Inspect : C → string → M W (error + (string * gmap string string))
}.

Section podman.
Context {C W R : Type} `{Bindings C W} `{Yaml R} (deviceID : string).

Definition DefaultNetworkName : string := "podman".
Definition DefaultTimeoutForStoppingInSeconds : Z := 5.

(** *** podman.go *)

(** [podmanConnection] and [NewPodman], on [bindings.NewConnection]: the
    timeout is the constant [DefaultTimeoutForStoppingInSeconds]. *)
Definition podmanConnection (NewConnection : string → error + C) (xdgRuntimeDir : string) : error + C :=
  NewConnection ("unix:" +:+ xdgRuntimeDir +:+ "/podman/podman.sock").
Definition NewPodman (NewConnection : string → error + C) (xdgRuntimeDir : string) : error + C :=
  match podmanConnection NewConnection xdgRuntimeDir with
  | inl err => inl err
  | inr connection => inr connection
  end.

Definition podman_List (p : C) : M W (error + list WorkloadInfo) :=
  podList ← pods_List p;
  mret match podList with
       | inl err => inl err
       | inr l => inr (map (λ ns, MkWorkloadInfo ns.1 ns.1 ns.2) l)
       end.

Definition podman_Exists (p : C) (workloadId : string) : M W (GResult bool) :=
  exists_ ← pods_Exists p workloadId;
  mret match Error exists_ with
       | Some err => MkResult false (Some err)
       | None => MkResult (RValue exists_) None
       end.

Definition podman_Remove (p : C) (workloadId : string) : M W (option error) :=
  exists_ ← podman_Exists p workloadId;
  match Error exists_ with
  | Some err => mret (Some err)
  | None => if RValue exists_ : bool then pods_Remove p workloadId true else mret None
  end.

Definition getContainerDetails (p : C) (containerId : string) : M W (error + ContainerReport) :=
  data ← containers_Inspect p containerId;
  mret match data with
       | inl err => inl err
       | inr (name, networks) =>
           match networks !! DefaultNetworkName with
           | None => inl (errorString ("cannot retrieve container '" +:+ containerId +:+ "' network information"))
           | Some ip => inr (MkContainerReport ip containerId name)
           end
       end.

(** The loop over the containers of a pod: those without details are skipped. *)
Fixpoint container_reports (p : C) (containers : list string) (acc : list ContainerReport)
    : M W (list ContainerReport) :=
  match containers with
  | [] => mret acc
  | c :: containers' =>
      d ← getContainerDetails p c;
      container_reports p containers' (match d with inl _ => acc | inr r => acc ++ [r] end)
  end.

Fixpoint pod_reports (p : C) (pods : list (string * list string)) : M W (list PodReport) :=
  match pods with
  | [] => mret []
  | (id, containers) :: pods' =>
      cs ← container_reports p containers [];
      rest ← pod_reports p pods';
      mret (MkPodReport id cs :: rest)
  end.

Definition podman_Run (p : C) (cgroupParent manifest authFilePath : string) (annotations : gmap string string)
    : M W (error + list PodReport) :=
  report ← play_Kube p manifest authFilePath cgroupParent annotations;
  match report with
  | inl err => mret (inl err)
  | inr pods => podIds ← pod_reports p pods; mret (inr podIds)
  end.

Definition podman_Start (p : C) (workloadId : string) : M W (option error) := pods_Start p workloadId.

Definition podman_Stop (p : C) (workloadId : string) : M W (option error) :=
  exists_ ← (pods_Exists p workloadId : M W (GResult bool));
  match Error exists_ with
  | Some err => mret (Some err)
  | None =>
      err ← (if RValue exists_ : bool then pods_Stop p workloadId DefaultTimeoutForStoppingInSeconds
             else mret None : M W (option error));
      match err with
      | Some err => mret (Some err)
      | None => podman_Remove p workloadId
      end
  end.

(** *** mapper.go *)
Definition mapPodmanStatusToEntity (state : string) : JobState :=
  if bool_decide (state = "Running") then RunningState
  else if bool_decide (state = "Degraded") then DegradedState
  else if bool_decide (state = "Stopped") then StoppedState
  else if bool_decide (state = "Error") then ErrorState
  else if bool_decide (state = "Exited") then ExitedState
  else UnknownState.

(** *** executor.go *)
Definition createPodCGroupParent (w : PodWorkload) : string :=
  if Rootless w then "flotta-" +:+ strings_ReplaceAll (PodWorkload_ID w) "-" "_" +:+ ".slice"
  else "machine-flotta-" +:+ strings_ReplaceAll (PodWorkload_ID w) "-" "_" +:+ ".slice".

(** [PodmanExecutor.Run]: the manifest goes through a temporary file.  [None]
    is the panic of [report[0]] on an empty report.  After [ToPod] the
    identifier of [w] is that of its changed labels. *)
Definition PodmanExecutor_Run (p : C) (workload : PodWorkload) : M W (option (option error) * PodWorkload) :=
  match ToPod (R := R) deviceID workload with
  | inl err => mret (Some (Some (deploy_error (Name workload) err)), workload)
  | inr (pod, workload) =>
      match ToPodYaml pod (Configmaps workload) with
      | inl err => mret (Some (Some (deploy_error (Name workload) err)), workload)
      | inr yaml =>
          report ← podman_Run p (createPodCGroupParent workload) yaml (ImageRegistryAuth workload)
                     (Annotations workload);
          match report with
          | inl err => mret (Some (Some (play_error (Name workload) err)), workload)
          | inr [] => mret (None, workload)
          | inr (r :: _) =>
              err ← podman_Start p (ReportId r);
              mret (Some match err with
                         | Some err => Some (start_error (Name workload) err)
                         | None => None
                         end, workload)
          end
      end
  end.

(** [New] *)
Definition PodmanExecutor_New (NewConnection : string → error + C) (socketPath : string) : error + C :=
  match NewPodman NewConnection socketPath with inl err => inl err | inr podman => inr podman end.

Definition PodmanExecutor_Start (p : C) (id : string) : M W (option error) :=
  err ← podman_Start p id;
  mret match err with
       | Some err => Some (wrapError (error_text ErrRunningWorkload +:+ " workload id '" +:+ id +:+ "', error "
                                      +:+ error_text err) ErrRunningWorkload)
       | None => None
       end.

Definition PodmanExecutor_List (p : C) : M W (list WorkloadInfo * option error) :=
  reports ← podman_List p;
  mret match reports with inl err => ([], Some err) | inr reports => (reports, None) end.

Definition PodmanExecutor_Exists (p : C) (id : string) : M W (GResult bool) := podman_Exists p id.

Definition PodmanExecutor_Stop (p : C) (id : string) : M W (option error) :=
  err ← podman_Stop p id;
  mret match err with Some err => Some (pod_error ErrStoppingWorkload id err) | None => None end.

Definition PodmanExecutor_Remove (p : C) (w : PodWorkload) : M W (option error) :=
  err ← podman_Remove p (PodWorkload_ID w);
  mret match err with Some err => Some (pod_error ErrRemoveWorkload (PodWorkload_ID w) err) | None => None end.

Fixpoint find_info (id : string) (infos : list WorkloadInfo) : JobState :=
  match infos with
  | [] => UnknownState
  | i :: infos' => if bool_decide (Id i = id) then mapPodmanStatusToEntity (InfoStatus i) else find_info id infos'
  end.

Definition PodmanExecutor_GetState (p : C) (w : PodWorkload) : M W (GResult JobState) :=
  info ← PodmanExecutor_List p;
  mret match info with
       | (_, Some err) => MkResult UnknownState (Some err)
       | (infos, None) => MkResult (find_info (PodWorkload_ID w) infos) None
       end.
End podman.

(** ** K8s (k8s/executor.go) *)

(** The deployments of a namespace.  A deployment is its name, the value of the
    label its selector matches and the specification of its pod. *)
Record Deployment (R : Type) := MkDeployment { DName : string; match_id : string; DSpec : PodSpec R }.
Arguments MkDeployment {R} _ _ _.
Arguments DName {R} _.
Arguments match_id {R} _.
Arguments DSpec {R} _.

Class Deployments (K W R : Type) := {
  deployment_Create : K → string → Deployment R → M W (option error);
  deployment_Delete : K → string → string → M W (option error);
  deployment_List : K → string → M W (error + list string)
}.

Section k8s.
Context {K W R : Type} `{Deployments K W R} `{Yaml R} (deviceID : string).

(** [New], on the two constructors of the client library. *)
Definition K8sExecutor_New {Conf} (BuildConfigFromFlags : string → string → error + Conf)
    (NewForConfig : Conf → error + K) (kubeConfigPath : string) : error + K :=
  match BuildConfigFromFlags "" kubeConfigPath with
  | inl err => inl (wrapError ("failed to create k8s config from kubeconfig '" +:+ kubeConfigPath +:+ "': "
                               +:+ error_text err) err)
  | inr config =>
      match NewForConfig config with
      | inl err => inl (wrapError ("failed to create k8s executor: " +:+ error_text err) err)
      | inr clientset => inr clientset
      end
  end.

Definition K8sExecutor_Run (e : K) (workload : PodWorkload) : M W (option error * PodWorkload) :=
  match ToPod (R := R) deviceID workload with
  | inl err => mret (Some err, workload)
  | inr (pod, workload) =>
      let id := PodWorkload_ID workload in
      err ← deployment_Create e (Namespace workload) (MkDeployment id (substring 0 12 id) (Spec pod));
      mret (err, workload)
  end.
Definition not_implemented : error := errorString "not implemented".
Definition K8sExecutor_Exists (e : K) (id : string) : M W (GResult bool) := mret (MkResult false (Some not_implemented)).
Definition K8sExecutor_Stop (e : K) (id : string) : M W (option error) := mret (Some not_implemented).
Definition K8sExecutor_Remove (e : K) (w : PodWorkload) : M W (option error) :=
  deployment_Delete e (Namespace w) (PodWorkload_ID w).
Definition K8sExecutor_GetState (e : K) (w : PodWorkload) : M W (GResult JobState) :=
  list ← deployment_List e (Namespace w);
  mret match list with
       | inl err => MkResult UnknownState (Some err)
       | inr names =>
           if existsb (λ n, bool_decide (n = PodWorkload_ID w)) names
           then MkResult RunningState None else MkResult UnknownState None
       end.
End k8s.

(** ** The executors (executor.go) *)
Inductive executor (C K : Type) :=
  | PodmanEx (c : C)
  | K8sEx (k : K).
Arguments PodmanEx {C K} _.
Arguments K8sEx {C K} _.

Record executorItem (C K : Type) := MkExecutorItem {
  ItemName : string; ItemRootless : bool; ItemKind : WorkloadKind; ItemValue : executor C K }.
Arguments MkExecutorItem {C K} _ _ _ _.
Arguments ItemName {C K} _.
Arguments ItemRootless {C K} _.
Arguments ItemKind {C K} _.
Arguments ItemValue {C K} _.

Section executors.
Context {C K W R : Type} `{Bindings C W} `{Deployments K W R} `{Yaml R} (deviceID : string).

(** [createExecutors], given the configuration and the constructors. *)
Definition createExecutors (xdg kubeConfig : string) (podman_New : string → error + C) (k8s_New : string → error + K)
    : list (executorItem C K) :=
  (if bool_decide (xdg ≠ "") then
     match podman_New xdg with inl _ => [] | inr c => [MkExecutorItem "podman" true PodKind (PodmanEx c)] end
   else []) ++
  match podman_New "/run" with inl _ => [] | inr c => [MkExecutorItem "podman" false PodKind (PodmanEx c)] end ++
  (if bool_decide (kubeConfig ≠ "") then
     match k8s_New kubeConfig with inl _ => [] | inr k => [MkExecutorItem "k8s" false K8SKind (K8sEx k)] end
   else []).

Fixpoint find_executor (ex : list (executorItem C K)) (kind : WorkloadKind) (rootless : bool)
    : option (executor C K) :=
  match ex with
  | [] => None
  | item :: ex' =>
      if bool_decide (ItemKind item = kind) && bool_decide (ItemRootless item = rootless)
      then Some (ItemValue item) else find_executor ex' kind rootless
  end.

Definition getExecutor (ex : list (executorItem C K)) (w : PodWorkload) : error + executor C K :=
  if bool_decide (WKind w = PodKind) then
    match find_executor ex (WKind w) (Rootless w) with
    | None => inl (errorString ("podman executor not found for workload '" +:+ PodWorkload_ID w +:+ "'"))
    | Some i => inr i
    end
  else
    match find_executor ex (WKind w) false with
    | None => inl (errorString ("k8s executor not found for workload '" +:+ PodWorkload_ID w +:+ "'"))
    | Some k => inr k
    end.

(** The operations of [Executor]; [None] is a panic. *)
Definition Executor_Run (ex : list (executorItem C K)) (w : PodWorkload)
    : M W (option (option error) * PodWorkload) :=
  match getExecutor ex w with
  | inl err => mret (Some (Some err), w)
  | inr (PodmanEx c) => PodmanExecutor_Run (R := R) deviceID c w
  | inr (K8sEx k) => r ← K8sExecutor_Run (R := R) deviceID k w; mret (Some r.1, r.2)
  end.

Definition Executor_Stop (ex : list (executorItem C K)) (w : PodWorkload) : M W (option error) :=
  match getExecutor ex w with
  | inl err => mret (Some err)
  | inr (PodmanEx c) => PodmanExecutor_Stop c (PodWorkload_ID w)
  | inr (K8sEx k) => K8sExecutor_Stop k (PodWorkload_ID w)
  end.

Definition Executor_GetState (ex : list (executorItem C K)) (w : PodWorkload) : M W (GResult JobState) :=
  match getExecutor ex w with
  | inl err => mret (MkResult UnknownState (Some err))
  | inr i =>
      st ← match i with
           | PodmanEx c => PodmanExecutor_GetState c w
           | K8sEx k => K8sExecutor_GetState (R := R) k w
           end;
      mret match Error st with
           | Some err => MkResult UnknownState (Some err)
           | None => MkResult (RValue st) None
           end
  end.

Definition Executor_Remove (ex : list (executorItem C K)) (w : PodWorkload) : M W (option error) :=
  match getExecutor ex w with
  | inl err => mret (Some err)
  | inr (PodmanEx c) => PodmanExecutor_Remove c w
  | inr (K8sEx k) => K8sExecutor_Remove (R := R) k w
  end.

Definition Executor_Exists (ex : list (executorItem C K)) (w : PodWorkload) : M W (GResult bool) :=
  match getExecutor ex w with
  | inl err => mret (MkResult false (Some err))
  | inr i =>
      exists_ ← (match i with
                 | PodmanEx c => PodmanExecutor_Exists c (PodWorkload_ID w)
                 | K8sEx k => K8sExecutor_Exists k (PodWorkload_ID w)
                 end : M W (GResult bool));
      mret match Error exists_ with
           | Some err => MkResult false (Some err)
           | None => MkResult (RValue exists_) None
           end
  end.

(** ** Routing *)
Lemma find_executor_Some ex kind rootless e :
  find_executor ex kind rootless = Some e →
  ∃ item, item ∈ ex ∧ ItemKind item = kind ∧ ItemRootless item = rootless ∧ ItemValue item = e.
Proof.
  induction ex as [|item ex IH]; simpl; [done|]. destruct (_ && _) eqn:E.
  - intros [= <-]. apply andb_true_iff in E as [E1 E2].
    apply bool_decide_eq_true in E1, E2. exists item. split; [left|done].
  - intros Hf. destruct (IH Hf) as (i & Hi & ?). exists i. split; [by right|done].
Qed.

Lemma createExecutors_items xdg kube pnew knew item :
  item ∈ createExecutors xdg kube pnew knew →
  match ItemValue item with
  | PodmanEx c => ItemKind item = PodKind ∧ pnew (if ItemRootless item then xdg else "/run") = inr c
  | K8sEx k => ItemKind item = K8SKind ∧ ItemRootless item = false ∧ knew kube = inr k
  end.
Proof.
  unfold createExecutors. rewrite !elem_of_app. intros [Hi|[Hi|Hi]].
  - case_bool_decide; [|by apply not_elem_of_nil in Hi]. destruct (pnew xdg) eqn:E; [by apply not_elem_of_nil in Hi|].
    apply list_elem_of_singleton in Hi as ->. done.
  - destruct (pnew "/run") eqn:E; [by apply not_elem_of_nil in Hi|].
    apply list_elem_of_singleton in Hi as ->. done.
  - case_bool_decide; [|by apply not_elem_of_nil in Hi]. destruct (knew kube) eqn:E; [by apply not_elem_of_nil in Hi|].
    apply list_elem_of_singleton in Hi as ->. done.
Qed.

(** Where the executor given to a workload comes from. *)
Lemma getExecutor_origin xdg kube pnew knew w e :
  getExecutor (createExecutors xdg kube pnew knew) w = inr e →
  match e with
  | PodmanEx c => WKind w = PodKind ∧ pnew (if Rootless w then xdg else "/run") = inr c
  | K8sEx k => WKind w = K8SKind ∧ knew kube = inr k
  end.
Proof.
  intros E. unfold getExecutor in E. case_bool_decide as Hk.
  - destruct (find_executor _ (WKind w) (Rootless w)) as [i|] eqn:Ef; [|done]. injection E as ->.
    apply find_executor_Some in Ef as (item & Hin & Hkind & Hrl & Hv).
    pose proof (createExecutors_items _ _ _ _ _ Hin) as Hi. rewrite Hv, Hkind, Hrl, Hk in Hi.
    destruct e; [tauto|]. by destruct Hi.
  - destruct (find_executor _ (WKind w) false) as [i|] eqn:Ef; [|done]. injection E as ->.
    apply find_executor_Some in Ef as (item & Hin & Hkind & Hrl & Hv).
    pose proof (createExecutors_items _ _ _ _ _ Hin) as Hi. rewrite Hv, Hkind, Hrl in Hi.
    destruct e; [by destruct Hi|tauto].
Qed.

(** C31: a pod is only ever given to the podman of its own privileges, the
    socket of the user for a rootless pod and the system's for a rootful one,
    and a k8s workload only to the cluster, rootless or not; when that
    executor was not created every operation returns an error and changes
    nothing. *)
Theorem routing_correct xdg kube pnew knew w :
  let ex := createExecutors xdg kube pnew knew in
  match getExecutor ex w with
  | inr (PodmanEx c) => WKind w = PodKind ∧ pnew (if Rootless w then xdg else "/run") = inr c
  | inr (K8sEx k) => WKind w = K8SKind ∧ knew kube = inr k
  | inl err => ∀ s : W,
      Executor_Run ex w s = ((Some (Some err), w), s) ∧ Executor_Stop ex w s = (Some err, s) ∧
      Executor_Remove ex w s = (Some err, s) ∧
      Executor_GetState ex w s = (MkResult UnknownState (Some err), s) ∧
      Executor_Exists ex w s = (MkResult false (Some err), s)
  end.
Proof.
  intros ex. destruct (getExecutor ex w) as [err|e] eqn:E; [|by apply getExecutor_origin in E; destruct e].
  intros s. unfold Executor_Run, Executor_Stop, Executor_Remove, Executor_GetState, Executor_Exists.
  by rewrite E.
Qed.
End executors.

(** ** The identifier after a run *)

Lemma ToPod_labels {R} `{Yaml R} deviceID w spec m :
  Unmarshal_PodSpec (Specification w) = inr spec → Labels w = Some m →
  ∃ pod, ToPod deviceID w = inr (pod, set_Labels (Some (<[flotta_label := Hash w]> m)) w) ∧
    PodName pod = PodWorkload_ID w.
Proof. intros Hs Hl. unfold ToPod. rewrite Hs, Hl. by eexists. Qed.

Lemma find_info_ne id name status :
  name ≠ id → find_info id [MkWorkloadInfo name name status] = UnknownState.
Proof. intros Hn. simpl. by rewrite bool_decide_eq_false_2. Qed.

(** [ToPod] writes the flotta label into the workload's own map of labels,
    so running a workload that has labels changes its identifier: the pod is
    named after the old one, and a listing of the pods no longer shows the
    workload under its new one. *)
Theorem ToPod_changes_ID {R} `{Yaml R} spec :
  Unmarshal_PodSpec "spec" = inr spec →
  ∃ w pod w', ToPod "device" w = inr (pod, w') ∧ Labels w = Some {["app" := "camera"]} ∧
    PodName pod = PodWorkload_ID w ∧ PodWorkload_ID w' ≠ PodWorkload_ID w ∧
    find_info (PodWorkload_ID w') [MkWorkloadInfo (PodName pod) (PodName pod) "Running"] = UnknownState.
Proof.
  intros Hs.
  assert (∃ w, Specification w = "spec" ∧ Labels w = Some {["app" := "camera"]} ∧
    PodWorkload_ID (set_Labels (Some (<[flotta_label := Hash w]> {["app" := "camera"]})) w) ≠ PodWorkload_ID w)
    as (w & Hw & Hl & Hne).
  { exists (pod0 {["app" := "camera"]}). split; [reflexivity|]. split; [reflexivity|].
    vm_compute. discriminate. }
  rewrite <-Hw in Hs. destruct (ToPod_labels "device" w spec _ Hs Hl) as (pod & Hp & Hn).
  exists w, pod, (set_Labels (Some (<[flotta_label := Hash w]> {["app" := "camera"]})) w).
  split; [exact Hp|]. split; [exact Hl|]. split; [exact Hn|]. split; [exact Hne|].
  apply find_info_ne. rewrite Hn. intros E. apply Hne. by rewrite E.
Qed.

(** a workload without a map of labels is left as it is by [ToPod]; the pod
    has its name, its annotations and the flotta label, and every container
    gets the device identifier. *)
Theorem ToPod_no_labels {R} `{Yaml R} deviceID w spec :
  Unmarshal_PodSpec (Specification w) = inr spec → Labels w = None →
  ∃ pod, ToPod deviceID w = inr (pod, w) ∧ PodName pod = PodWorkload_ID w ∧
    PodAnnotations pod = Annotations w ∧ PodLabels pod = {[flotta_label := Hash w]} ∧
    Forall2 (λ c c', Env c' = Env c ++ [("DEVICE_ID", deviceID)] ∧ c_rest c' = c_rest c)
      (Containers spec) (Containers (Spec pod)).
Proof.
  intros Hs Hl. unfold ToPod. rewrite Hs, Hl. eexists. split; [reflexivity|].
  cbn [PodName PodAnnotations PodLabels Spec Containers]. split; [done|]. split; [done|]. split; [done|].
  apply Forall2_fmap_r, Forall_Forall2_diag, Forall_true. done.
Qed.

(** ** Witnesses *)
#[local] Instance spec_yaml : Yaml unit := {|
  Unmarshal_PodSpec := λ s, if bool_decide (s = "spec") then inr (MkPodSpec [MkContainer [] tt] tt)
                            else inl (errorString "invalid pod");
  Marshal_Pod := λ pod, inr (PodName pod)
|}.

Lemma ToPod_changes_ID_witness :
  ∃ w pod w', ToPod (R := unit) "device" w = inr (pod, w') ∧ Labels w = Some {["app" := "camera"]} ∧
    PodName pod = PodWorkload_ID w ∧ PodWorkload_ID w' ≠ PodWorkload_ID w ∧
    find_info (PodWorkload_ID w') [MkWorkloadInfo (PodName pod) (PodName pod) "Running"] = UnknownState.
Proof. apply (ToPod_changes_ID (MkPodSpec [MkContainer [] tt] tt)). reflexivity. Defined.

Lemma ToPod_no_labels_witness :
  let w := MkPodWorkload "nginx" PodKind "default" "" false ∅ ∅ [] "" None [] "spec" in
  ∃ pod, ToPod (R := unit) "device" w = inr (pod, w) ∧ PodName pod = PodWorkload_ID w ∧
    PodAnnotations pod = Annotations w ∧ PodLabels pod = {[flotta_label := Hash w]} ∧
    Forall2 (λ c c', Env c' = Env c ++ [("DEVICE_ID", "device")] ∧ c_rest c' = c_rest c)
      [MkContainer [] tt] (Containers (Spec pod)).
Proof.
  intros w. apply (ToPod_no_labels "device" w (MkPodSpec [MkContainer [] tt] tt)); reflexivity.
Defined.
