(* ===== verification/PodmanEngine.v ===== *)
(** * The podman executor implements the interface of the reconciler

    [Reconcile.Engine] states what the reconciliation functions need of a
    container engine.  Here the program's own executor ([internal/executor]),
    from the choice of the executor down to the podman bindings, is shown to
    implement it for a pod whose identifier is the same in every call
    ([Identity.FixedPod]: no labels, at most one annotation and one secret),
    when the bindings do what podman documents; the theorems of Reconcile then
    hold of the whole chain. *)
From S2P Require Import Prelude GoStd Sha256 Entity Interfaces Identity Job Reconcile Executor.
Local Open Scope string_scope.
Local Open Scope list_scope.

(** ** The documented behaviour of podman

    [pods] are the pods of the connection, by name, with their status; [ref]
    resolves an identifier given by [play kube] to a name; [manifest_name] is
    the name [play kube] reads in a manifest.  Nothing is said of stopping,
    removing or starting a pod that is not there: podman answers 404, and the
    program has to ask first. *)
Class PodmanLaws {C W : Type} `{Bindings C W} (c : C) (pods : W → gmap string string)
    (ref : W → string → option string) (manifest_name : string → option string) := {
  list_law : ∀ w, ∃ l, (pods_List c w).1 = inr l ∧ l ≡ₚ map_to_list (pods w) ∧ pods (pods_List c w).2 = pods w;
  exists_law : ∀ n w, (pods_Exists c n w).1 = MkResult (bool_decide (is_Some (pods w !! n))) None ∧
                      pods (pods_Exists c n w).2 = pods w;
  remove_law : ∀ n w, is_Some (pods w !! n) →
               (pods_Remove c n true w).1 = None ∧ pods (pods_Remove c n true w).2 = delete n (pods w);
  stop_law : ∀ n t w, is_Some (pods w !! n) →
               (pods_Stop c n t w).1 = None ∧ pods (pods_Stop c n t w).2 = <[n := "Exited"]> (pods w);
  play_law : ∀ m n auth cg ann w, manifest_name m = Some n → pods w !! n = None →
               ∃ i cs, (play_Kube c m auth cg ann w).1 = inr [(i, cs)] ∧
                 pods (play_Kube c m auth cg ann w).2 = <[n := "Created"]> (pods w) ∧
                 ref (play_Kube c m auth cg ann w).2 i = Some n;
  play_existing_law : ∀ m n auth cg ann w, manifest_name m = Some n → is_Some (pods w !! n) →
               ∃ err, (play_Kube c m auth cg ann w).1 = inl err ∧ pods (play_Kube c m auth cg ann w).2 = pods w;
  inspect_law : ∀ i w, pods (containers_Inspect c i w).2 = pods w ∧
                       ref (containers_Inspect c i w).2 = ref w;
  start_law : ∀ i n w, ref w i = Some n → is_Some (pods w !! n) →
               (pods_Start c i w).1 = None ∧ pods (pods_Start c i w).2 = <[n := "Running"]> (pods w)
}.

(** ** The executor of the program behind [common.Executor] *)

(** A panic of [Run] is out of this interface, which is used for workloads for
    which it does not happen; a [FixedPod] has no map of labels for [Run] to
    change, and its identifier is that of every call of [ID()]
    ([Identity.ID_call_fixed]). *)
Definition program_executor {C K W R : Type} `{Bindings C W} `{Deployments K W R} `{Yaml R}
    (deviceID : string) (ex : list (executorItem C K)) (sleep : M W unit) : Executor FixedPod W := {|
  Remove q := Executor_Remove (R := R) ex (pod_of q);
  Run q := r ← Executor_Run (R := R) deviceID ex (pod_of q); mret (default None r.1);
  Stop q := Executor_Stop ex (pod_of q);
  GetState q := Executor_GetState (R := R) ex (pod_of q);
  Exists q := Executor_Exists ex (pod_of q);
  Sleep := sleep
|}.

Section engine.
Context {C K W R : Type} `{Bindings C W} `{Deployments K W R} `{Yaml R} (deviceID : string).
Context (ex : list (executorItem C K)) (sleep : M W unit).
Context (c : C) (pods : W → gmap string string) (ref : W → string → option string)
        (manifest_name : string → option string).
Context `{!PodmanLaws c pods ref manifest_name}.

(** The state of the container of a workload, as the executor maps it. *)
Definition container_of (p : FixedPod) (w : W) : option JobState :=
  mapPodmanStatusToEntity <$> pods w !! PodWorkload_ID (pod_of p).

(** A workload the executor routes to [c], whose manifest the YAML library and
    podman agree on. *)
Definition deployable (p : FixedPod) : Prop :=
  getExecutor ex (pod_of p) = inr (PodmanEx c) ∧
  ∃ pod yaml, ToPod deviceID (pod_of p) = inr (pod, pod_of p) ∧
    ToPodYaml pod (Configmaps (pod_of p)) = inr yaml ∧ manifest_name yaml = Some (PodWorkload_ID (pod_of p)).

Lemma container_reports_pods i cs acc w :
  pods (container_reports c cs acc w).2 = pods w ∧ ref (container_reports c cs acc w).2 i = ref w i.
Proof.
  revert acc w. induction cs as [|x cs IH]; intros acc w; [done|]. simpl.
  rewrite M_bind_unfold. edestruct IH as [-> ->].
  unfold getContainerDetails. rewrite M_bind_unfold. cbn [snd mret M_ret].
  destruct (inspect_law x w) as [-> ->]. done.
Qed.

Lemma podman_Exists_law n w :
  (podman_Exists c n w).1 = MkResult (bool_decide (is_Some (pods w !! n))) None ∧
  pods (podman_Exists c n w).2 = pods w.
Proof.
  unfold podman_Exists. rewrite M_bind_unfold. destruct (exists_law n w) as [-> ?]. done.
Qed.

Lemma podman_Remove_law n w :
  (podman_Remove c n w).1 = None ∧ pods (podman_Remove c n w).2 = delete n (pods w).
Proof.
  unfold podman_Remove. rewrite M_bind_unfold. destruct (podman_Exists_law n w) as [-> Hp]. cbn [Error RValue].
  case_bool_decide as Hs.
  - destruct (remove_law n (podman_Exists c n w).2) as [-> ->]; by rewrite Hp.
  - rewrite M_ret_unfold. cbn [fst snd]. split; [done|]. rewrite Hp.
    symmetry. apply delete_id. by apply eq_None_not_Some.
Qed.

Lemma podman_Stop_law n w :
  (podman_Stop c n w).1 = None ∧ pods (podman_Stop c n w).2 = delete n (pods w).
Proof.
  unfold podman_Stop. rewrite M_bind_unfold. destruct (exists_law n w) as [-> Hp]. cbn [Error RValue].
  rewrite M_bind_unfold. case_bool_decide as Hs.
  - destruct (stop_law n DefaultTimeoutForStoppingInSeconds (pods_Exists c n w).2) as [-> Hp'].
    { by rewrite Hp. }
    destruct (podman_Remove_law n (pods_Stop c n DefaultTimeoutForStoppingInSeconds (pods_Exists c n w).2).2)
      as [-> ->].
    split; [done|]. rewrite Hp', Hp. apply delete_insert_eq.
  - rewrite M_ret_unfold. cbn [fst snd]. destruct (podman_Remove_law n (pods_Exists c n w).2) as [-> ->].
    by rewrite Hp.
Qed.

Lemma podman_Run_law m n auth cg ann w :
  manifest_name m = Some n → pods w !! n = None →
  ∃ r, (podman_Run c cg m auth ann w).1 = inr [r] ∧
    pods (podman_Run c cg m auth ann w).2 = <[n := "Created"]> (pods w) ∧
    ref (podman_Run c cg m auth ann w).2 (ReportId r) = Some n.
Proof.
  intros Hm Hn. destruct (play_law m n auth cg ann w Hm Hn) as (i & cs & He & Hp & Hr).
  unfold podman_Run. rewrite M_bind_unfold, He. cbn [pod_reports]. run_M.
  destruct (container_reports_pods i cs [] (play_Kube c m auth cg ann w).2) as [Hp' Hr'].
  eexists. split; [done|]. cbn [ReportId]. by rewrite Hp', Hr', Hp, Hr.
Qed.

Lemma find_info_list id (l : list (string * string)) (m : gmap string string) :
  l ≡ₚ map_to_list m →
  find_info id (map (λ ns, MkWorkloadInfo ns.1 ns.1 ns.2) l) =
    default UnknownState (mapPodmanStatusToEntity <$> m !! id).
Proof.
  intros Hl. assert (NoDup l.*1) as Hnd by (rewrite Hl; apply NoDup_fst_map_to_list).
  rewrite <-(list_to_map_to_list m), <-(list_to_map_proper l (map_to_list m)) by done. clear Hl.
  induction l as [|[n st] l IH]; simpl; [done|]. inversion Hnd as [|? ? Hn Hnd']; subst.
  case_bool_decide as E; cbn [Id fst] in *.
  - subst. by rewrite lookup_insert_eq.
  - rewrite lookup_insert_ne by done. by apply IH.
Qed.

(** ** The refinement *)

Lemma engine_GetState p w :
  deployable p →
  (Executor_GetState (R := R) ex (pod_of p) w).1 = ok (default UnknownState (container_of p w)) ∧
  container_of p (Executor_GetState (R := R) ex (pod_of p) w).2 = container_of p w.
Proof.
  intros (Hex & _). unfold Executor_GetState, PodmanExecutor_GetState, PodmanExecutor_List, podman_List.
  rewrite Hex, !M_bind_unfold.
  destruct (list_law w) as (l & El & Hl & Hp).
  cbn [fst snd mret M_ret]. rewrite El. cbn [Error RValue]. unfold container_of. rewrite Hp.
  split; [|done]. by rewrite (find_info_list _ _ _ Hl).
Qed.

Lemma engine_Run p w :
  deployable p → container_of p w = None →
  (Executor_Run (R := R) deviceID ex (pod_of p) w).1 = (Some None, pod_of p) ∧
  container_of p (Executor_Run (R := R) deviceID ex (pod_of p) w).2 = Some RunningState.
Proof.
  intros (Hex & pod & yaml & Hpod & Hyaml & Hm) Hc.
  apply fmap_None in Hc. unfold Executor_Run, PodmanExecutor_Run. rewrite Hex, Hpod, Hyaml, M_bind_unfold.
  destruct (podman_Run_law yaml _ (ImageRegistryAuth (pod_of p)) (createPodCGroupParent (pod_of p)) (Annotations (pod_of p)) w Hm Hc)
    as (r & Er & Hp & Hr).
  rewrite Er, M_bind_unfold. cbn [fst snd mret M_ret]. unfold podman_Start.
  edestruct (start_law (ReportId r) _ _ Hr) as [-> Hs].
  { rewrite Hp, lookup_insert_eq. by eexists. }
  split; [done|]. unfold container_of. by rewrite Hs, lookup_insert_eq.
Qed.

Lemma program_engine p :
  deployable p → (∀ w, pods (sleep w).2 = pods w) →
  Engine (H := program_executor (R := R) deviceID ex sleep) FixedPod W p (container_of p).
Proof.
  intros Hd Hsl. pose proof Hd as (Hex & _).
  split; intros w; cbn [Exists Remove Run Stop Sleep GetState program_executor].
  - unfold Executor_Exists, PodmanExecutor_Exists. rewrite Hex, !M_bind_unfold.
    destruct (podman_Exists_law (PodWorkload_ID (pod_of p)) w) as [-> Hp]. cbn [fst snd mret M_ret Error RValue].
    unfold container_of. rewrite Hp. split; [|done]. unfold ok. f_equal. apply bool_decide_ext.
    by rewrite fmap_is_Some.
  - unfold Executor_Remove, PodmanExecutor_Remove. rewrite Hex, !M_bind_unfold.
    destruct (podman_Remove_law (PodWorkload_ID (pod_of p)) w) as [-> Hp]. cbn [fst snd mret M_ret].
    unfold container_of. by rewrite Hp, lookup_delete_eq.
  - intros Hc. rewrite M_bind_unfold. destruct (engine_Run p w Hd Hc) as [-> ?]. done.
  - unfold Executor_Stop, PodmanExecutor_Stop. rewrite Hex, !M_bind_unfold.
    by destruct (podman_Stop_law (PodWorkload_ID (pod_of p)) w) as [-> _].
  - unfold container_of. by rewrite Hsl.
  - by apply engine_GetState.
Qed.

(** ** The other pods *)
Definition preserves (P : W → Prop) {A} (m : M W A) : Prop := ∀ w, P w → P (m w).2.

Lemma preserves_ret P {A} (a : A) : preserves P (mret a).
Proof. by intros w Hw. Qed.
Lemma preserves_bind P {A B} (m : M W A) (f : A → M W B) :
  preserves P m → (∀ a, preserves P (f a)) → preserves P (m ≫= f).
Proof. intros Hm Hf w Hw. rewrite M_bind_unfold. apply Hf, Hm, Hw. Qed.

(** An invariant of the calls on the executor is one of the reconciliation. *)
Lemma sync_preserves P `{E : Executor FixedPod W} p current target r :
  preserves P (Exists p) → preserves P (Remove p) → preserves P (Run p) → preserves P (Stop p) →
  preserves P (Sleep (T := FixedPod)) → preserves P (GetState p) →
  preserves P (createPodmanSyncFunc (still p current target r)).
Proof.
  intros. unfold createPodmanSyncFunc, wrap, podman_fn, settle, still.
  cbn [Workload_of read_CurrentState read_TargetState].
  repeat first [ assumption | apply preserves_ret | apply preserves_bind; [|intros]
               | match goal with |- preserves P (match ?x with _ => _ end) => destruct x end ].
Qed.

(** The pods but the one of [p]. *)
Definition others (p : FixedPod) (w : W) : gmap string string := delete (PodWorkload_ID (pod_of p)) (pods w).

Lemma Run_others p w :
  deployable p → others p (Executor_Run (R := R) deviceID ex (pod_of p) w).2 = others p w.
Proof.
  intros Hd. destruct (pods w !! PodWorkload_ID (pod_of p)) as [st|] eqn:Hc.
  - destruct Hd as (Hex & pod & yaml & Hpod & Hyaml & Hm).
    unfold Executor_Run, PodmanExecutor_Run. rewrite Hex, Hpod, Hyaml, M_bind_unfold.
    destruct (play_existing_law yaml _ (ImageRegistryAuth (pod_of p)) (createPodCGroupParent (pod_of p)) (Annotations (pod_of p)) w Hm)
      as (err & Ep & Hp); [by eexists|].
    assert (podman_Run c (createPodCGroupParent (pod_of p)) yaml (ImageRegistryAuth (pod_of p)) (Annotations (pod_of p)) w
            = (inl err, (play_Kube c yaml (ImageRegistryAuth (pod_of p)) (createPodCGroupParent (pod_of p)) (Annotations (pod_of p)) w).2)) as ->.
    { unfold podman_Run. by rewrite M_bind_unfold, Ep. }
    cbn [fst snd mret M_ret]. unfold others. by rewrite Hp.
  - destruct Hd as (Hex & pod & yaml & Hpod & Hyaml & Hm).
    unfold Executor_Run, PodmanExecutor_Run. rewrite Hex, Hpod, Hyaml, M_bind_unfold.
    destruct (podman_Run_law yaml _ (ImageRegistryAuth (pod_of p)) (createPodCGroupParent (pod_of p)) (Annotations (pod_of p)) w Hm Hc)
      as (r & Er & Hp & Hr).
    rewrite Er, M_bind_unfold. cbn [fst snd mret M_ret]. unfold podman_Start, others.
    edestruct (start_law (ReportId r) _ _ Hr) as [_ Hs].
    { rewrite Hp, lookup_insert_eq. by eexists. }
    by rewrite Hs, Hp, !delete_insert_eq.
Qed.

Lemma chain_others p current target r w :
  deployable p → (∀ w, pods (sleep w).2 = pods w) →
  let E := program_executor (R := R) deviceID ex sleep in
  others p (createPodmanSyncFunc (H0 := E) (still p current target r) w).2 = others p w.
Proof.
  intros Hd Hsl E. pose proof Hd as (Hex & _).
  apply (sync_preserves (E := E) (λ w', others p w' = others p w)); [..|done];
    intros w' <-; cbn [Exists Remove Run Stop Sleep GetState E program_executor].
  - unfold Executor_Exists, PodmanExecutor_Exists, others. rewrite Hex, !M_bind_unfold.
    destruct (podman_Exists_law (PodWorkload_ID (pod_of p)) w') as [-> Hp]. cbn [fst snd mret M_ret]. by rewrite Hp.
  - unfold Executor_Remove, PodmanExecutor_Remove, others. rewrite Hex, !M_bind_unfold.
    destruct (podman_Remove_law (PodWorkload_ID (pod_of p)) w') as [-> Hp]. cbn [fst snd mret M_ret].
    by rewrite Hp, delete_delete_eq.
  - run_M. by apply Run_others.
  - unfold Executor_Stop, PodmanExecutor_Stop, others. rewrite Hex, !M_bind_unfold.
    destruct (podman_Stop_law (PodWorkload_ID (pod_of p)) w') as [-> Hp]. cbn [fst snd mret M_ret].
    by rewrite Hp, delete_delete_eq.
  - unfold others. by rewrite Hsl.
  - unfold Executor_GetState, PodmanExecutor_GetState, PodmanExecutor_List, podman_List, others. rewrite Hex, !M_bind_unfold.
    destruct (list_law w') as (l & El & Hl & Hp). cbn [fst snd mret M_ret]. by rewrite Hp.
Qed.

Lemma reaches p current target r w :
  deployable p → (∀ w, pods (sleep w).2 = pods w) →
  current ≠ target → target ∈ [RunningState; ExitedState; InactiveState] →
  let E := program_executor (R := R) deviceID ex sleep in
  let res := createPodmanSyncFunc (H0 := E) (still p current target r) w in
  container_of p res.2 = (if bool_decide (target = RunningState) then Some RunningState else None) ∧
  res.1 = ok (default UnknownState (container_of p res.2)).
Proof.
  intros Hd Hsl Hne Ht E res. pose proof (program_engine p Hd Hsl) as He. fold E in He.
  assert (target = RunningState ∨ target = ExitedState ∨ target = InactiveState) as Ht'.
  { rewrite !elem_of_cons in Ht. set_solver. }
  destruct Ht' as [->|Ht'].
  - unfold res. destruct (podman_runs (H0 := E) p (container_of p) current r w Hne) as [-> ->]. done.
  - unfold res. destruct (podman_stops (H0 := E) p (container_of p) current target r w Hne Ht') as [-> ->].
    by destruct Ht'; subst.
Qed.

End engine.

(** ** Witness: a podman with pods in a map *)
Module MapPodman.
Notation Pods := (gmap string string).

(** A manifest is the name of the pod, then the separator. *)
#[export] Instance name_yaml : Yaml unit := {|
  Unmarshal_PodSpec := λ _, inr (MkPodSpec [MkContainer [] tt] tt);
  Marshal_Pod := λ pod, inr (PodName pod)
|}.
Definition name_of (manifest : string) : option string :=
  i ← Strings.String.index 0 "---" manifest; Some (Strings.String.substring 0 i manifest).

#[export] Instance map_podman : Bindings unit Pods := {|
  pods_List := λ _ w, (inr (map_to_list w), w);
  pods_Exists := λ _ n w, (MkResult (bool_decide (is_Some (w !! n))) None, w);
  pods_Remove := λ _ n _ w,
    match w !! n with
    | Some _ => (None, delete n w)
    | None => (Some (errorString "no such pod"), w)
    end;
  pods_Stop := λ _ n _ w,
    match w !! n with
    | Some _ => (None, <[n := "Exited"]> w)
    | None => (Some (errorString "no such pod"), w)
    end;
  pods_Start := λ _ n w,
    match w !! n with
    | Some _ => (None, <[n := "Running"]> w)
    | None => (Some (errorString "no such pod"), w)
    end;
  play_Kube := λ _ m _ _ _ w,
    match name_of m with
    | None => (inl (errorString "no name"), w)
    | Some n =>
        match w !! n with
        | Some _ => (inl (errorString "pod already exists"), w)
        | None => (inr [(n, [])], <[n := "Created"]> w)
        end
    end;
  containers_Inspect := λ _ i w, (inr (i, ∅), w)
|}.

#[export] Instance no_cluster : Deployments unit Pods unit := {|
  deployment_Create := λ _ _ _ w, (None, w);
  deployment_Delete := λ _ _ _ w, (None, w);
  deployment_List := λ _ _ w, (inr [], w)
|}.

#[export] Instance map_podman_laws : PodmanLaws tt (id : Pods → gmap string string) (λ _ i, Some i) name_of.
Proof.
  split; unfold id; simpl; try done.
  - intros w. by exists (map_to_list w).
  - intros n w [st Hst]. by rewrite Hst.
  - intros n _ w [st Hst]. by rewrite Hst.
  - intros m n _ _ _ w -> Hn. exists n, []. by rewrite Hn.
  - intros m n _ _ _ w -> [st Hst]. exists (errorString "pod already exists"). by rewrite Hst.
  - intros i n w [= ->] [st Hst]. by rewrite Hst.
Qed.

Definition plain : FixedPod := fixed_pod_of "nginx" false.
Definition executors : list (executorItem unit unit) :=
  createExecutors "" "" (λ _, inr tt) (λ _, inr tt).

Lemma plain_deployable : deployable (R := unit) "device" executors tt name_of plain.
Proof.
  split; [reflexivity|].
  exists (MkPod (MkPodSpec [MkContainer [("DEVICE_ID", "device")] tt] tt) (ID plain) ∅
            {[flotta_label := Hash (pod_of plain)]}).
  exists (strings_Join [ID plain; ""] ("---" +:+ String "010" EmptyString)).
  split; [reflexivity|]. split; [reflexivity|]. vm_compute. reflexivity.
Qed.
End MapPodman.
Import MapPodman.

