(* ===== verification/Resources.v ===== *)
(** * The resource manager

    [internal/resources/manager.go]: the slices, the parsing of [cpu.max], the
    limits written to it and the search of a cgroup, a goroutine that walks the
    tree while the caller waits on two channels.  The cgroup library and the
    file system are parameters; [NewCPUMax] is read in the vendored
    [containerd/cgroups/v2/cpu.go]. *)
From Stdlib Require Import Strings.String Decimal DecimalString DecimalN.
From stdpp Require Import relations.
From S2P Require Import Prelude GoStd Entity Interfaces Identity Job Reconcile.
Local Open Scope string_scope.
Local Open Scope list_scope.

(** ** Numbers in text *)

(** [strconv.FormatInt(z, 10)] and [strconv.FormatUint(z, 10)] *)
Definition format_digits (z : Z) : string := NilEmpty.string_of_uint (N.to_uint (Z.to_N z)).
Definition FormatInt (z : Z) : string :=
  if (z <? 0)%Z then "-" +:+ format_digits (- z) else format_digits z.

Fixpoint atoi_digits (acc : Z) (s : string) : option Z :=
  match s with
  | EmptyString => Some acc
  | String c s' => if is_digit c then atoi_digits (10 * acc + digit_val c) s' else None
  end.

Definition ErrSyntax : error := sentinel "invalid syntax".
Definition ErrRange : error := sentinel "value out of range".
Definition quoted (s : string) : string := String "034" s +:+ String "034" EmptyString.
(** [strconv.NumError], which wraps its cause. *)
Definition NumError (s : string) (cause : error) : error :=
  wrapError ("strconv.Atoi: parsing " +:+ quoted s +:+ ": " +:+ error_text cause) cause.

(** [strconv.Atoi] in 64 bits. *)
Definition Atoi (s : string) : error + Z :=
  let '(neg, digits) :=
    match s with
    | String c s' =>
        if bool_decide (c = "-"%char) then (true, s')
        else if bool_decide (c = "+"%char) then (false, s') else (false, s)
    | EmptyString => (false, s)
    end in
  if bool_decide (digits = "") then inl (NumError s ErrSyntax)
  else match atoi_digits 0 digits with
       | None => inl (NumError s ErrSyntax)
       | Some n =>
           let n := if neg : bool then (- n)%Z else n in
           if ((- 2 ^ 63 <=? n) && (n <? 2 ^ 63))%Z then inr n else inl (NumError s ErrRange)
       end.

(** [strings.TrimSpace] of ASCII text. *)
Definition is_space (c : ascii) : bool :=
  let n := N_of_ascii c in ((9 <=? n) && (n <=? 13) || (n =? 32))%N.
Fixpoint trim_left (l : list ascii) : list ascii :=
  match l with
  | c :: l' => if is_space c then trim_left l' else l
  | [] => []
  end.
Definition TrimSpace (s : string) : string :=
  string_of_list_ascii (rev (trim_left (rev (trim_left (list_ascii_of_string s))))).

(** The tokens of a [bufio.Scanner]: lines without their end, the last one only
    if it is not empty (lines longer than its buffer are left out). *)
Definition newline : ascii := "010".
Definition drop_cr (s : string) : string :=
  match rev (list_ascii_of_string s) with
  | c :: l => if bool_decide (c = "013"%char) then string_of_list_ascii (rev l) else s
  | [] => s
  end.
Definition scan_lines (s : string) : list string :=
  let pieces := strings_Split newline s in
  map drop_cr (if bool_decide (List.last pieces "" = "") then removelast pieces else pieces).

(** ** [cpu.max] *)

(** [cgroupsv2.NewCPUMax] of a quota that is not nil. *)
Definition NewCPUMax (quota period : Z) : string := strings_Join [FormatInt quota; FormatInt period] " ".

(** The loops of [GetResources] over the lines and their parts: the first part
    that is not blank decides. *)
Fixpoint parse_parts (parts : list string) : GResult CpuResource :=
  match parts with
  | [] => ok CpuResource_zero
  | part :: parts' =>
      let part := TrimSpace part in
      if bool_decide (part ≠ "") then
        if bool_decide (part ≠ "max") then
          match Atoi part with
          | inl err => MkResult CpuResource_zero (Some err)
          | inr val => ok (MkTuple (to_uint64 val) 100000%Z)
          end
        else ok (MkTuple 100000%Z 100000%Z)
      else parse_parts parts'
  end.
Definition parse_cpu_max (content : string) : GResult CpuResource :=
  parse_parts (flat_map (strings_Split " ") (scan_lines content)).

(** ** The cgroup library and the file system *)
Class Cgroups (W : Type) := {
  (** [LoadManager] of a path: the error of a path that is not valid *)
  LoadManager : string → M W (option error);
  LoadSystemd : string → M W (option error);
  (** [Update] of the manager of a path, with only [CPU.Max] *)
  Update_Max : string → string → M W (option error);
  Enable_Controllers : string → list string → M W (option error);
  DeleteSystemd : string → M W (option error);
  (** [NewSystemd] with [CPU.Max], [Cpus] and [Mems] *)
  NewSystemd : string → string → string → string → M W (option error);
  MkdirAll : string → M W (option error);
  (** [os.Open] and the content the scanner reads *)
  Open : string → M W (error + string)
}.

(** What [filepath.Walk] visits below a root, and the error of the first
    directory or entry it cannot read, if any. *)
Record walk_entry := MkWalkEntry { we_path : string; we_name : string; we_dir : bool }.
Class FileTree (W : Type) := { Walk : string → M W (list walk_entry * option error) }.
(** [regexp.MatchString] of a compiled expression *)
Class RegexpMatch := { MatchString : string → string → bool }.

(** ** The operations *)
Inductive SliceType := UserSlice | SystemSlice | MachineSlice.

Definition sys_fs_cgroup : string := "/sys/fs/cgroup".
Definition join_sys (path : string) : string := path_Join_root ("sys/fs/cgroup/" +:+ path).

(** [getRootSlice] *)
Definition root_slice (t : SliceType) : string :=
  match t with
  | UserSlice => "/user.slice/user-1000.slice/user@1000.service"
  | SystemSlice => "/system.slice"
  | MachineSlice => "/machine.slice"
  end.

Definition CPU_Max_default : string := "max 100000".

Section manager.
Context {W T : Type} `{Workload T} `{Cgroups W}.

Definition SliceExists (path : string) : M W bool :=
  err ← LoadSystemd path;
  mret match err with Some _ => false | None => true end.

Definition createSlice (path : string) : M W (option error) := NewSystemd path CPU_Max_default "0" "0".

Definition CreateSlice (w : T) : M W (option error) :=
  let sliceType := if IsRootless w then UserSlice else MachineSlice in
  let cgroupPath := path_Join_root (root_slice sliceType +:+ "/flotta.slice/flotta-"
                                    +:+ strings_ReplaceAll (ID w) "-" "_" +:+ ".slice") in
  err ← MkdirAll (join_sys cgroupPath);
  match err with
  | Some err => mret (Some (wrapError ("failed to create cgroup for workload '" +:+ ID w +:+ "': " +:+ error_text err) err))
  | None =>
      err ← LoadManager cgroupPath;
      match err with
      | Some err => mret (Some err)
      | None => Enable_Controllers cgroupPath ["cpu"; "memory"]
      end
  end.

Definition RemoveSlice (path : string) : M W (option error) :=
  err ← LoadSystemd path;
  match err with
  | Some err => mret (Some err)
  | None => DeleteSystemd path
  end.

(** [Set]: the quota is converted to [int64]. *)
Definition Set_resources (path : string) (resources : CpuResource) : M W (option error) :=
  err ← LoadManager path;
  match err with
  | Some err => mret (Some err)
  | None =>
      let quota := to_int64 (Value1 resources) in
      let period := Value2 resources in
      Update_Max path (NewCPUMax quota period)
  end.

Definition Get_resources (cgroup : string) : M W (GResult CpuResource) :=
  err ← LoadManager cgroup;
  match err with
  | Some err =>
      mret (MkResult CpuResource_zero
        (Some (errorString ("failed to read cgroup '" +:+ cgroup +:+ "': '" +:+ error_text err +:+ "'"))))
  | None =>
      let cpuFilePath := join_sys (cgroup +:+ "/cpu.max") in
      f ← Open cpuFilePath;
      mret match f with
           | inl err =>
               MkResult CpuResource_zero (Some (wrapError
                 (ErrCPUMaxFileNotFound +:+ " failed to open file '" +:+ cpuFilePath +:+ "': '" +:+ error_text err +:+ "'")
                 (sentinel ErrCPUMaxFileNotFound)))
           | inr content => parse_cpu_max content
           end
  end.
End manager.

(** ** Searching a cgroup

    [GetCGroup] starts a goroutine that walks the tree and sends the matching
    directories on [result] and the end of the walk on [errCh], both of capacity
    one, and waits for the first of them. *)
Definition matching `{RegexpMatch} (rxp : string) (fullPath : bool) (e : walk_entry) : option string :=
  if we_dir e && MatchString rxp (we_name e) then Some (if fullPath then we_path e else we_name e) else None.

(** [todo] are the entries the walk has still to visit, [None] for one that does
    not match; [returned] is what the caller returns. *)
Record search := MkSearch {
  todo : list (option string);
  walk_end : option error;
  result : option string;
  errCh : option (option error);
  walk_over : bool;
  cancelled : bool;
  returned : option (GResult string)
}.

Definition new_search (entries : list (option string)) (e : option error) : search :=
  MkSearch entries e None None false false None.

Definition context_canceled : error := errorString "context canceled".
Definition not_found : GResult string := MkResult "" (Some (errorString "failed to found cgroup")).

Inductive search_step : search → search → Prop :=
  (** a match: the send blocks while the buffer is full *)
  | se_send v t e er c r :
      search_step (MkSearch (Some v :: t) e None er false c r) (MkSearch t e (Some v) er false c r)
  (** another entry: the walk goes on unless the context is done *)
  | se_skip t e o er r :
      search_step (MkSearch (None :: t) e o er false false r) (MkSearch t e o er false false r)
  | se_stop t e o er r :
      search_step (MkSearch (None :: t) e o er false true r)
                  (MkSearch [] (Some context_canceled) o er false true r)
  (** the end of the walk *)
  | se_end e o c r :
      search_step (MkSearch [] e o None false c r) (MkSearch [] e o (Some e) true c r)
  (** the caller *)
  | se_found t e v er d c :
      search_step (MkSearch t e (Some v) er d c None) (MkSearch t e None er d true (Some (ok v)))
  | se_failed t e o x d c :
      search_step (MkSearch t e o (Some x) d c None) (MkSearch t e o None d true (Some not_found)).

(** The outcomes the caller can see, and a choice among them by the world. *)
Class Select (W : Type) := { select_first : M W bool }.
Definition GetCGroup_ {W} `{FileTree W} `{RegexpMatch} `{Select W} (rxp : string) (fullPath : bool)
    : M W (GResult string) :=
  walk ← Walk sys_fs_cgroup;
  match omap (matching rxp fullPath) walk.1 with
  | [] => mret not_found
  | [v] => b ← select_first; mret (if b : bool then ok v else not_found)
  | v :: _ => mret (ok v)
  end.

(** [GetRootSlice] *)
Definition GetRootSlice {W} `{FileTree W} `{RegexpMatch} `{Select W} (t : SliceType) : M W string :=
  match t with
  | MachineSlice => mret "machine.slice"
  | SystemSlice => mret "system.slice"
  | UserSlice =>
      cgroup ← GetCGroup_ "user\.slice/user-\d*\.slice" false;
      mret match Error cgroup with Some _ => "" | None => RValue cgroup end
  end.

(** The resource manager behind [common.ResourceManager]. *)
#[export] Instance resource_manager {W} `{Cgroups W} `{FileTree W} `{RegexpMatch} `{Select W}
    : ResourceManager W := {|
  Set_ := Set_resources;
  GetCGroup := GetCGroup_;
  GetResources := Get_resources
|}.

(** ** The outcomes of a search *)
Definition matches (l : list (option string)) : list string := omap id l.
Definition pending (s : search) : list string :=
  match result s with Some v => [v] | None => [] end ++ matches (todo s).

Definition outcome (vs : list string) (r : GResult string) : Prop :=
  match vs with
  | [] => r = not_found
  | [v] => r = ok v ∨ r = not_found
  | v :: _ => r = ok v
  end.

Definition search_inv (vs : list string) (s : search) : Prop :=
  match returned s with
  | Some r => outcome vs r
  | None => pending s = vs ∧ cancelled s = false ∧ walk_over s = bool_decide (is_Some (errCh s)) ∧
            (walk_over s = true → todo s = [])
  end.

Lemma search_inv_step vs s s' : search_inv vs s → search_step s s' → search_inv vs s'.
Proof.
  intros Hi Hs. destruct Hs; unfold search_inv, pending in *; cbn [returned result todo cancelled walk_over errCh] in *.
  - destruct r; [done|]. destruct Hi as (<- & Hc & Hd & Ht). by split.
  - destruct r; [done|]. destruct Hi as (<- & Hc & Hd & Ht). by split.
  - destruct r; [done|]. by destruct Hi as (? & ? & _).
  - destruct r; [done|]. destruct Hi as (<- & Hc & Hd & Ht). done.
  - destruct Hi as (<- & _). simpl. destruct (matches t); [by left|done].
  - destruct Hi as (<- & Hc & Hd & Ht). subst d. rewrite Ht by done. simpl.
    destruct o; [by right|done].
Qed.

Lemma search_inv_rtc vs s s' : search_inv vs s → rtc search_step s s' → search_inv vs s'.
Proof. intros Hi Hs. induction Hs; [done|]. eauto using search_inv_step. Qed.

Lemma new_search_inv es e : search_inv (matches es) (new_search es e).
Proof. unfold search_inv, new_search, pending. cbn. done. Qed.

(** Every outcome happens. *)
Lemma search_skips e o t l :
  matches l = [] →
  rtc search_step (MkSearch (l ++ t) e o None false false None) (MkSearch t e o None false false None).
Proof.
  induction l as [|[v|] l IH]; simpl; intros Hl; [done|done|].
  eapply rtc_l; [apply se_skip|]. by apply IH.
Qed.

Lemma matches_cons v l vs :
  matches l = v :: vs → ∃ l1 l2, l = l1 ++ Some v :: l2 ∧ matches l1 = [] ∧ matches l2 = vs.
Proof.
  induction l as [|[x|] l IH]; simpl; intros Hl; [done| |].
  - injection Hl as -> <-. by exists [], l.
  - destruct (IH Hl) as (l1 & l2 & -> & ? & ?). by exists (None :: l1), l2.
Qed.

Lemma outcome_reached es e r :
  outcome (matches es) r → ∃ s, rtc search_step (new_search es e) s ∧ returned s = Some r.
Proof.
  unfold new_search. destruct (matches es) as [|v vs] eqn:E; simpl.
  - intros ->. eexists. split.
    + etrans; [rewrite <-(app_nil_r es); by apply search_skips|].
      eapply rtc_l; [apply se_end|]. eapply rtc_l; [apply se_failed|]. apply rtc_refl.
    + done.
  - intros Hr. apply matches_cons in E as (l1 & l2 & -> & H1 & H2).
    assert (r = ok v ∨ r = not_found ∧ vs = []) as [->|[-> ->]] by (destruct vs; naive_solver).
    + eexists. split.
      * etrans; [by apply search_skips|]. eapply rtc_l; [apply se_send|].
        eapply rtc_l; [apply se_found|]. apply rtc_refl.
      * done.
    + eexists. split.
      * etrans; [by apply search_skips|]. eapply rtc_l; [apply se_send|].
        etrans; [rewrite <-(app_nil_r l2); by apply search_skips|].
        eapply rtc_l; [apply se_end|]. eapply rtc_l; [apply se_failed|]. apply rtc_refl.
      * done.
Qed.

(** The steps left: they decrease, and a caller that waits has one. *)
Definition search_measure (s : search) : nat :=
  2 * length (todo s) + (if walk_over s then 0 else 1) + (if returned s then 0 else 1).

Lemma search_decreases s s' : search_step s s' → (search_measure s' < search_measure s)%nat.
Proof. destruct 1; unfold search_measure; cbn; repeat case_match; lia. Qed.

Lemma search_progress vs s : search_inv vs s → returned s = None → ∃ s', search_step s s'.
Proof.
  destruct s as [t e o er d c r]. unfold search_inv. simpl. intros Hi ->. destruct Hi as (_ & Hc & Hd & Ht). subst c.
  destruct o as [v|]; [eexists; apply se_found|]. destruct er as [x|]; [eexists; apply se_failed|].
  rewrite bool_decide_eq_false_2 in Hd by (by intros []). subst d.
  destruct t as [|[v|] t]; eexists; [apply se_end | apply se_send | apply se_skip].
Qed.

Lemma matches_map {A} (f : A → option string) l : matches (map f l) = omap f l.
Proof.
  induction l as [|x l IH]; [done|].
  change (matches (map f (x :: l)))
    with (match f x with Some y => y :: matches (map f l) | None => matches (map f l) end).
  by rewrite IH.
Qed.

(** C32: the search of a cgroup, as the walking goroutine and the caller it races
    with: it always ends (its steps are finite, and a caller that has not
    returned can go on); it returns the first matching directory of the walk or
    reports that none was found; with a single match it can do either, when the
    walk ends before the caller looks; and [GetCGroup] returns one of these
    outcomes. *)
Theorem GetCGroup_outcomes {W} `{FileTree W} `{RegexpMatch} `{Select W} rxp fullPath (w : W) :
  let start := new_search (map (matching rxp fullPath) (Walk sys_fs_cgroup w).1.1) (Walk sys_fs_cgroup w).1.2 in
  let found := omap (matching rxp fullPath) (Walk sys_fs_cgroup w).1.1 in
  (∀ r, (∃ s, rtc search_step start s ∧ returned s = Some r) ↔ outcome found r) ∧
  well_founded (flip search_step) ∧
  (∀ s, rtc search_step start s → returned s = None → ∃ s', search_step s s') ∧
  outcome found (GetCGroup_ rxp fullPath w).1.
Proof.
  intros start found. unfold start, found. rewrite <-matches_map.
  set (es := map _ _). set (e := (Walk sys_fs_cgroup w).1.2). split; [|split; [|split]].
  - intros r. split; [|apply outcome_reached]. intros (s & Hs & Hr).
    pose proof (search_inv_rtc _ _ _ (new_search_inv es e) Hs) as Hi. unfold search_inv in Hi. by rewrite Hr in Hi.
  - apply (wf_projected lt search_measure); [|apply lt_wf]. intros s' s Hs. by apply search_decreases.
  - intros s Hs. apply (search_progress (matches es)), (search_inv_rtc _ _ _ (new_search_inv es e) Hs).
  - unfold es, GetCGroup_. rewrite matches_map, M_bind_unfold.
    destruct (omap _ _) as [|v [|v' l]]; [done| |done]. rewrite M_bind_unfold. cbn.
    destruct (select_first _).1; [by left|by right].
Qed.

(** ** Reading back a limit *)
Lemma digit_char (d : ascii) :
  d ∈ ["0"; "1"; "2"; "3"; "4"; "5"; "6"; "7"; "8"; "9"]%char → is_digit d = true.
Proof. intros Hd. repeat (apply elem_of_cons in Hd as [->|Hd]; [done|]). by apply not_elem_of_nil in Hd. Qed.

Fixpoint all_digits (s : string) : bool :=
  match s with EmptyString => true | String c s' => is_digit c && all_digits s' end.

Lemma string_of_uint_digits u : all_digits (NilEmpty.string_of_uint u) = true.
Proof. by induction u. Qed.

(** Reading the digits of [u] after those of [p], and from nothing. *)
Lemma atoi_of_uint_acc u p :
  atoi_digits (Z.pos p) (NilEmpty.string_of_uint u) = Some (Z.pos (Pos.of_uint_acc u p)).
Proof.
  revert p. induction u as [|u IH|u IH|u IH|u IH|u IH|u IH|u IH|u IH|u IH|u IH]; intros p; [done|..];
    cbn [NilEmpty.string_of_uint atoi_digits Pos.of_uint_acc]; rewrite digit_char by set_solver;
    rewrite <-IH; f_equal; unfold digit_val; simpl N_of_ascii; lia.
Qed.

Lemma atoi_of_uint u : atoi_digits 0 (NilEmpty.string_of_uint u) = Some (Z.of_N (Pos.of_uint u)).
Proof. induction u; [done|done|..]; apply atoi_of_uint_acc. Qed.

Lemma atoi_format z : (0 <= z)%Z → atoi_digits 0 (format_digits z) = Some z.
Proof.
  intros Hz. unfold format_digits. rewrite atoi_of_uint. f_equal.
  change (Pos.of_uint (N.to_uint (Z.to_N z))) with (N.of_uint (N.to_uint (Z.to_N z))).
  rewrite DecimalN.Unsigned.of_to. lia.
Qed.

Lemma format_digits_ok z : (0 <= z)%Z → all_digits (format_digits z) = true ∧ format_digits z ≠ "".
Proof.
  intros Hz. split; [apply string_of_uint_digits|]. intros E.
  pose proof (DecimalN.Unsigned.of_to (Z.to_N z)) as Hto. unfold format_digits in E.
  destruct (Z.to_N z) as [|p]; [done|]. destruct (N.to_uint (N.pos p)); done.
Qed.

(** Digits are neither blanks nor signs nor separators. *)
Lemma digit_plain c : is_digit c = true →
  is_space c = false ∧ c ≠ " "%char ∧ c ≠ newline ∧ c ≠ "013"%char ∧ c ≠ "m"%char ∧ c ≠ "-"%char ∧ c ≠ "+"%char.
Proof.
  unfold is_digit, is_space. intros [H1 H2]%andb_true_iff. apply N.leb_le in H1, H2.
  split.
  - apply orb_false_iff. split; [apply andb_false_iff; right|]; [apply N.leb_gt|apply N.eqb_neq]; lia.
  - repeat split; intros ->; vm_compute in H1, H2; congruence.
Qed.

(** Texts without a character. *)
Fixpoint avoids (sep : ascii) (s : string) : Prop :=
  match s with EmptyString => True | String c s' => c ≠ sep ∧ avoids sep s' end.

Lemma avoids_app sep s t : avoids sep (s +:+ t) ↔ avoids sep s ∧ avoids sep t.
Proof. induction s as [|c s IH]; simpl; [tauto|]. rewrite IH. tauto. Qed.

Lemma digits_avoid sep s : all_digits s = true → is_digit sep = false → avoids sep s.
Proof.
  intros Hs Hsep. induction s as [|c s IH]; simpl in *; [done|]. apply andb_true_iff in Hs as [Hc Hs].
  split; [congruence|by apply IH].
Qed.

Lemma split_avoids sep s t : avoids sep s → strings_Split sep (s +:+ String sep t) = s :: strings_Split sep t.
Proof.
  induction s as [|c s IH]; simpl.
  - by rewrite bool_decide_eq_true_2.
  - intros [Hc Hs]. rewrite bool_decide_eq_false_2 by done. by rewrite IH.
Qed.

Lemma split_single sep s : avoids sep s → strings_Split sep s = [s].
Proof.
  induction s as [|c s IH]; [done|]. simpl. intros [Hc Hs]. rewrite bool_decide_eq_false_2 by done. by rewrite IH.
Qed.

Lemma avoids_in sep s c : avoids sep s → c ∈ list_ascii_of_string s → c ≠ sep.
Proof.
  induction s as [|d s IH]; simpl; [intros _ Hc; by apply not_elem_of_nil in Hc|].
  intros [Hd Hs] [->|Hc]%elem_of_cons; [done|]. by apply IH.
Qed.

Lemma drop_cr_avoids s : avoids "013" s → drop_cr s = s.
Proof.
  intros Hs. unfold drop_cr. destruct (rev (list_ascii_of_string s)) as [|c l] eqn:E; [done|].
  rewrite bool_decide_eq_false_2; [done|]. apply (avoids_in _ s); [done|].
  apply list_elem_of_In, in_rev. rewrite E. by left.
Qed.

Lemma trim_left_id l : Forall (λ c, is_space c = false) l → trim_left l = l.
Proof. destruct l as [|c l]; [done|]. inversion 1 as [|? ? Hc]; subst. simpl. by rewrite Hc. Qed.

Lemma TrimSpace_digits s : all_digits s = true → TrimSpace s = s.
Proof.
  intros Hs. unfold TrimSpace.
  assert (Forall (λ c, is_space c = false) (list_ascii_of_string s)) as Hf.
  { induction s as [|c s IH]; simpl in *; [constructor|]. apply andb_true_iff in Hs as [Hc Hs].
    constructor; [by apply digit_plain|by apply IH]. }
  rewrite (trim_left_id _ Hf), trim_left_id by (by apply Forall_rev).
  by rewrite rev_involutive, string_of_list_ascii_of_string.
Qed.

Lemma Atoi_format z : (0 <= z < 2 ^ 63)%Z → Atoi (format_digits z) = inr z.
Proof.
  intros Hz. destruct (format_digits_ok z) as [Hd Hne]; [lia|]. pose proof (atoi_format z ltac:(lia)) as Ha.
  unfold Atoi. destruct (format_digits z) as [|c s]; [done|].
  simpl in Hd. apply andb_true_iff in Hd as [Hc _]. apply digit_plain in Hc as (_ & _ & _ & _ & _ & Hm & Hp).
  rewrite !bool_decide_eq_false_2 by done. rewrite Ha.
  rewrite (proj2 (Z.leb_le _ _)), (proj2 (Z.ltb_lt _ _)) by lia. done.
Qed.

Lemma parse_max_format q p :
  (0 <= q < 2 ^ 63)%Z → (0 <= p)%Z →
  parse_cpu_max (NewCPUMax q p +:+ String newline EmptyString) = ok (MkTuple q 100000%Z).
Proof.
  intros Hq Hp. destruct (format_digits_ok q) as [Hdq Hnq]; [lia|]. destruct (format_digits_ok p) as [Hdp Hnp]; [lia|].
  unfold NewCPUMax, FormatInt. rewrite !(proj2 (Z.ltb_ge _ _)) by lia. unfold strings_Join. simpl.
  set (line := format_digits q +:+ " " +:+ format_digits p).
  assert (∀ c, is_digit c = false → c ≠ " "%char → avoids c line) as Hl.
  { intros c Hc Hs. unfold line. rewrite !avoids_app. simpl. split; [by apply digits_avoid|].
    split; [split; [congruence|done]|by apply digits_avoid]. }
  unfold parse_cpu_max, scan_lines. rewrite (split_avoids newline line) by (by apply Hl). simpl.
  rewrite drop_cr_avoids by (by apply Hl). unfold line at 1.
  change (" " +:+ format_digits p) with (String " " (format_digits p)).
  rewrite split_avoids by (by apply digits_avoid). cbn [app parse_parts].
  rewrite TrimSpace_digits by done. rewrite bool_decide_eq_true_2 by done.
  rewrite bool_decide_eq_true_2 by (intros E; by rewrite E in Hdq).
  rewrite Atoi_format by done. unfold ok, to_uint64. by rewrite Z.mod_small by lia.
Qed.

(** The documented behaviour of the library and of the kernel: a path is valid
    or not whatever the state; [cpu.max] is a file of two values,
    [$MAX $PERIOD] in microseconds, so that both numbers written to it without
    an error are what it then holds, on a line.  The kernel keeps them as
    nanoseconds in 64 bits; nothing is said of larger numbers, nor of a text
    with a single number, which updates [$MAX] only. *)
Definition microseconds (z : Z) : Prop := (0 <= z ∧ 1000 * z < 2 ^ 63)%Z.

Class KernelLaws {W : Type} `{Cgroups W} (cpu_max : W → gmap string string) := {
  load_pure : ∀ p w w', (LoadManager p w).1 = (LoadManager p w').1;
  load_keeps : ∀ p w, cpu_max (LoadManager p w).2 = cpu_max w;
  update_writes : ∀ p quota period w, microseconds quota → microseconds period →
    (Update_Max p (NewCPUMax quota period) w).1 = None →
    cpu_max (Update_Max p (NewCPUMax quota period) w).2 !! join_sys (p +:+ "/cpu.max") =
      Some (NewCPUMax quota period +:+ String newline EmptyString);
  open_reads : ∀ f content w, cpu_max w !! f = Some content → (Open f w).1 = inr content
}.

Section limits.
Context {W T : Type} `{Workload T} `{Cgroups W} `{FileTree W} `{RegexpMatch} `{Select W} `{RegexpLib}.
Context (cpu_max : W → gmap string string) `{!KernelLaws cpu_max}.

(** Whatever the period, it is read back as 100 ms. *)
Lemma Get_after_Set p r w w' :
  microseconds (Value1 r) → microseconds (Value2 r) → (Set_resources p r w).1 = None →
  cpu_max w' = cpu_max (Set_resources p r w).2 →
  (Get_resources p w').1 = ok (MkTuple (Value1 r) 100000%Z).
Proof.
  intros Hq Hp. unfold Set_resources, Get_resources. rewrite !M_bind_unfold.
  destruct ((LoadManager p w).1) eqn:El; [done|]. rewrite (load_pure p w' w), El.
  unfold microseconds in *.
  replace (to_int64 (Value1 r)) with (Value1 r) by (unfold to_int64; rewrite Z.mod_small; lia).
  intros Hs Hw. run_M.
  erewrite open_reads.
  2:{ rewrite load_keeps, Hw. by apply update_writes. }
  apply parse_max_format; lia.
Qed.

(** The directories of the tree that match the job's pattern. *)
Definition found_in (t : T) (w : W) : list string :=
  omap (matching (job_pattern t) true) (Walk sys_fs_cgroup w).1.1.
(** The search of a single match that the end of the walk overtakes. *)
Definition overtaken (t : T) (w : W) : bool :=
  bool_decide (length (found_in t w) = 1%nat) && negb (select_first (Walk sys_fs_cgroup w).2).1.

Lemma search_of t w v vs :
  found_in t w = v :: vs → (GetCGroup_ (job_pattern t) true w).1 = if overtaken t w then not_found else ok v.
Proof.
  intros Hf. unfold overtaken. rewrite Hf. unfold GetCGroup_, found_in in *.
  rewrite M_bind_unfold, Hf. destruct vs as [|v' vs]; [|done].
  rewrite M_bind_unfold. cbn [fst mret M_ret length]. rewrite bool_decide_eq_true_2 by done.
  simpl. by destruct (select_first _).1.
Qed.

Lemma search_keeps t w :
  (∀ w, cpu_max (Walk sys_fs_cgroup w).2 = cpu_max w) → (∀ w, cpu_max (select_first w).2 = cpu_max w) →
  cpu_max (GetCGroup_ (job_pattern t) true w).2 = cpu_max w.
Proof.
  intros Hw Hs. unfold GetCGroup_. rewrite M_bind_unfold.
  destruct (omap _ _) as [|v [|v' vs]]; [apply Hw | |apply Hw].
  rewrite M_bind_unfold. cbn [snd mret M_ret]. by rewrite Hs, Hw.
Qed.

Lemma overtaken_reads t w v vs :
  regexp_compiles (job_pattern t) = true → found_in t w = v :: vs → overtaken t w = true →
  (getJobResources t w).1 = Some (MkResult CpuResource_zero (Error not_found)).
Proof.
  intros Hr Hf Ho. unfold getJobResources. rewrite Hr. cbn [negb]. rewrite M_bind_unfold.
  cbn [GetCGroup resource_manager]. by rewrite (search_of t w v vs Hf), Ho.
Qed.

(** C14: a limit that was set is found: after the resource reconciliation of a
    job has succeeded, reading the resources of the job gives its target limit,
    so that the scheduler does not set it again, as long as the slice of the
    job is the first directory of the tree that matches; only when it is the
    single match can the read fail, with the error of a search whose walk ended
    before its caller looked.  It holds of the limits the scheduler sets (a
    period of 100 ms); of another period only the quota is read back. *)
Theorem limit_settles (t : T) current target q rel w :
  regexp_compiles (job_pattern t) = true → clean_path rel → microseconds q →
  (∀ w, cpu_max (Walk sys_fs_cgroup w).2 = cpu_max w) → (∀ w, cpu_max (select_first w).2 = cpu_max w) →
  let slice := "/sys/fs/cgroup/" +:+ rel in
  let res := createPodResourceReconciliationFunc (still t current target (MkTuple q 100000%Z)) w in
  head (found_in t w) = Some slice → head (found_in t res.2) = Some slice →
  res.1 = Some None →
  (getJobResources t res.2).1 =
    Some (if overtaken t res.2 then MkResult CpuResource_zero (Error not_found) else ok (MkTuple q 100000%Z)).
Proof.
  intros Hr Hc Hq Hwk Hsl slice res Hf Hf' Hs.
  destruct (found_in t w) as [|v vs] eqn:Ef; [done|]. injection Hf as ->.
  destruct (found_in t res.2) as [|v' vs'] eqn:Ef'; [done|]. injection Hf' as ->.
  destruct (overtaken t res.2) eqn:Eo; [by apply (overtaken_reads _ _ _ _ Hr Ef')|].
  assert (overtaken t w = false) as Eo0.
  { destruct (overtaken t w) eqn:E; [|done]. exfalso. revert Hs.
    unfold res, createPodResourceReconciliationFunc. cbn [Workload_of still].
    rewrite Hr. cbn [negb]. rewrite M_bind_unfold. cbn [GetCGroup resource_manager].
    by rewrite (search_of _ _ _ _ Ef), E. }
  pose proof (search_of _ _ _ _ Ef) as Hg. pose proof (search_of _ _ _ _ Ef') as Hg'.
  rewrite Eo0 in Hg. rewrite Eo in Hg'. clear Ef Ef' Eo Eo0. unfold slice in Hg, Hg'.
  destruct (same_cgroup (H0 := resource_manager) (still t current target (MkTuple q 100000%Z)) w rel Hr Hg Hc) as [Hset _].
  destruct (same_cgroup (H0 := resource_manager) (still t current target (MkTuple q 100000%Z)) res.2 rel Hr Hg' Hc) as [_ Hget].
  cbn [Workload_of still GetCGroup GetResources resource_manager] in Hget. rewrite Hget, M_bind_unfold.
  fold res in Hset. cbn [Workload_of still read_TargetResources Set_ GetCGroup resource_manager] in Hset.
  rewrite !M_bind_unfold in Hset. cbn [fst snd mret M_ret] in Hset |- *. rewrite Hset in Hs. injection Hs as Hs.
  erewrite (Get_after_Set _ (MkTuple q 100000%Z)); [done|done|done|exact Hs|].
  rewrite search_keeps by done. by rewrite Hset.
Qed.
End limits.

(** ** Witnesses: files in a map, one slice *)
Module OneSlice.
Notation Files := (gmap string string).

#[export] Instance files : Cgroups Files := {|
  LoadManager := λ _ w, (None, w);
  LoadSystemd := λ _ w, (None, w);
  Update_Max := λ p v w, (None, <[join_sys (p +:+ "/cpu.max") := v +:+ String newline EmptyString]> w);
  Enable_Controllers := λ _ _ w, (None, w);
  DeleteSystemd := λ _ w, (None, w);
  NewSystemd := λ _ _ _ _ w, (None, w);
  MkdirAll := λ _ w, (None, w);
  Open := λ f w, (match w !! f with Some c => inr c | None => inl (errorString "no such file") end, w)
|}.

#[export] Instance tree : FileTree Files := {|
  Walk := λ root w, (([MkWalkEntry root "cgroup" true;
                       MkWalkEntry (root +:+ "/user.slice") "user.slice" true;
                       MkWalkEntry (root +:+ "/user.slice/flotta.slice") "flotta.slice" true], None), w)
|}.
#[export] Instance match_flotta : RegexpMatch := {| MatchString := λ _ n, bool_decide (n = "flotta.slice") |}.
#[export] Instance caller_first : Select Files := {| select_first := λ w, (true, w) |}.
#[export] Instance compiles : RegexpLib := {| regexp_compiles := λ _, true |}.

#[export] Instance files_laws : KernelLaws (λ w : Files, w).
Proof.
  split; try done.
  - intros p q p' w _ _ _. simpl. apply lookup_insert_eq.
  - intros f c w Hf. simpl. by rewrite Hf.
Qed.
End OneSlice.
Import OneSlice.

Lemma limit_settles_witness :
  let res := createPodResourceReconciliationFunc
               (still fixed_pod RunningState RunningState (MkTuple 50000 100000)%Z) (∅ : Files) in
  res.1 = Some None ∧ (getJobResources fixed_pod res.2).1 = Some (ok (MkTuple 50000 100000)%Z).
Proof.
  split; [reflexivity|].
  refine (eq_trans
    (limit_settles (λ w : Files, w) fixed_pod RunningState RunningState 50000 "user.slice/flotta.slice" ∅ _ _ _ _ _ _ _ _) _).
  - reflexivity.
  - repeat constructor; discriminate.
  - split; [discriminate|reflexivity].
  - reflexivity.
  - reflexivity.
  - reflexivity.
  - reflexivity.
  - reflexivity.
  - reflexivity.
Defined.

Lemma GetCGroup_outcomes_witness :
  let es := [MkWalkEntry sys_fs_cgroup "cgroup" true;
             MkWalkEntry (sys_fs_cgroup +:+ "/user.slice") "user.slice" true;
             MkWalkEntry (sys_fs_cgroup +:+ "/user.slice/flotta.slice") "flotta.slice" true] in
  let start := new_search (map (matching "flotta" true) es) None in
  (∀ r, (∃ s, rtc search_step start s ∧ returned s = Some r) ↔
        r = ok "/sys/fs/cgroup/user.slice/flotta.slice" ∨ r = not_found) ∧
  well_founded (flip search_step) ∧
  (∀ s, rtc search_step start s → returned s = None → ∃ s', search_step s s') ∧
  outcome ["/sys/fs/cgroup/user.slice/flotta.slice"] (GetCGroup_ "flotta" true (∅ : Files)).1.
Proof. exact (GetCGroup_outcomes "flotta" true (∅ : Files)). Defined.
