(* ===== verification/Controller.v ===== *)
(** * The edge controller

    [internal/edge/controller.go]: enrolment, registration, then heartbeats and
    configurations, driven by a ticker through channels of capacity one that the
    goroutine of [run] both sends on and receives from.  The client of the
    operator's API and the certificate manager are parameters. *)
From Stdlib Require Import Strings.String.
From stdpp Require Import relations.
From S2P Require Import Prelude GoStd Sha256 Entity Interfaces Hardware Config.
Local Open Scope string_scope.
Local Open Scope list_scope.

(** ** The interfaces of the controller *)

(** [Client] of controller.go.  [None] is a panic (the translation of a message
    without configuration). *)
Class Client (W : Type) := {
  Enrol : string → EnrolementInfo → M W (option error);
  Register : string → RegistrationInfo → M W (error + string);
  SendHeartbeat : string → Heartbeat → M W (option error);
  GetConfiguration : string → M W (option (error + DeviceConfigurationMessage))
}.

(** The methods of [certificate.Manager] used here. *)
Class Certificates (W : Type) := {
  GenerateCSR : string → M W (error + (string * string));
  SetCertificate : string → string → M W (option error);
  WriteCertificate : M W (option error)
}.

(** Which of the two goroutines of an operation runs first. *)
Class Race (W : Type) := { heartbeat_first : M W bool }.

(** ** The state of [run] *)
Inductive channel := EnrolCh | RegisterCh | OpCh | ConfigurationCh.
Inductive ctl_pc :=
  | Running_
  (** sending on a full channel that nothing else receives from *)
  | Blocked (c : channel)
  | Panicked.

(** The requests made, in order, with their success. *)
Inductive request := ReqEnrol (accepted : bool) | ReqRegister (accepted : bool) | ReqOp.

Record Controller := MkController {
  ctl : ctl_pc;
  (** a channel is nil, or holds an element or not *)
  enrol : option bool;
  register : option bool;
  op : bool;
  configuration : option Z;
  (** the period of the ticker, [None] once stopped *)
  ticker : option Z;
  manager : ConfManager;
  (** the messages sent by the configuration manager and the requests made:
      recorded for the proofs, not read by the code *)
  sent : list (Message PodWorkload);
  requests : list request
}.

Definition conf_period (m : DeviceConfigurationMessage) : Z := Period (Heartbeat_ (Configuration m)).

(** The channels and the ticker made by [run]. *)
Definition new_controller (c : ConfManager) : Controller :=
  MkController (if bool_decide (0 < conf_period (conf c))%Z then Running_ else Panicked)
    (Some false) None false None (Some (conf_period (conf c))) c [] [].

Definition set_ctl (x : ctl_pc) (s : Controller) : Controller :=
  MkController x (enrol s) (register s) (op s) (configuration s) (ticker s) (manager s) (sent s) (requests s).
Definition set_enrol (x : option bool) (s : Controller) : Controller :=
  MkController (ctl s) x (register s) (op s) (configuration s) (ticker s) (manager s) (sent s) (requests s).
Definition set_register (x : option bool) (s : Controller) : Controller :=
  MkController (ctl s) (enrol s) x (op s) (configuration s) (ticker s) (manager s) (sent s) (requests s).
Definition set_op (x : bool) (s : Controller) : Controller :=
  MkController (ctl s) (enrol s) (register s) x (configuration s) (ticker s) (manager s) (sent s) (requests s).
Definition set_configuration (x : option Z) (s : Controller) : Controller :=
  MkController (ctl s) (enrol s) (register s) (op s) x (ticker s) (manager s) (sent s) (requests s).
Definition set_ticker (x : option Z) (s : Controller) : Controller :=
  MkController (ctl s) (enrol s) (register s) (op s) (configuration s) x (manager s) (sent s) (requests s).
Definition set_manager (x : ConfManager) (m : list (Message PodWorkload)) (s : Controller) : Controller :=
  MkController (ctl s) (enrol s) (register s) (op s) (configuration s) (ticker s) x (sent s ++ m) (requests s).
Definition log_request (r : request) (s : Controller) : Controller :=
  MkController (ctl s) (enrol s) (register s) (op s) (configuration s) (ticker s) (manager s) (sent s)
    (requests s ++ [r]).

(** [case UnauthorizedAccessError]: the type of the error itself, not of an
    error it wraps. *)
Definition is_Unauthorized (err : error) : bool :=
  match err with sentinel name => bool_decide (name = "UnauthorizedAccessError") | _ => false end.

Section controller.
Context {W : Type} `{MapOrder W} `{Client W} `{Certificates W} `{Race W}.
Context (json_configuration : DeviceConfiguration → string) (json_workload : PodWorkload → string).
Context (duration_String : Z → string).
Context (deviceID targetNamespace : string).
(** [GetWorkloadsStatus] of the status reader, if one is set. *)
Context (status : W → option (gmap string JobState)).

(** [case <-enrol] *)
Definition handle_enrol (s : Controller) : M W Controller :=
  let s := set_enrol (Some false) s in
  err ← Enrol deviceID (MkEnrolementInfo (MkEnrolmentInfoFeatures (hardware (manager s)) "") targetNamespace);
  mret match err with
       | Some _ => log_request (ReqEnrol false) s
       | None => log_request (ReqEnrol true) (set_register (Some false) (set_enrol None s))
       end.

(** [case <-register]; the result of [SetCertificate] is not used. *)
Definition handle_register (s : Controller) : M W Controller :=
  let s := set_register (Some false) s in
  csr ← GenerateCSR "deviceID";
  match csr with
  | inl _ => mret s
  | inr (csr, key) =>
      res ← Register deviceID (MkRegistrationInfo csr (hardware (manager s)));
      match res with
      | inl _ => mret (log_request (ReqRegister false) s)
      | inr signed =>
          _ ← SetCertificate signed key;
          err ← WriteCertificate;
          mret match err with
               | Some _ => log_request (ReqRegister false) s
               | None => log_request (ReqRegister true) (set_register None s)
               end
      end
  end.

(** The goroutine that sends the heartbeat, and its error. *)
Definition heartbeat_goroutine (s : Controller) : M W (option error) :=
  hb ← (λ w, make_Heartbeat (status w) (manager s) w);
  err ← SendHeartbeat deviceID hb;
  mret match err with
       | Some err => Some (wrapError ("cannot send heartbeat: '" +:+ error_text err +:+ "'") err)
       | None => None
       end.

(** The goroutine that gets the configuration: the controller it leaves, and
    its error. *)
Definition configuration_goroutine (s : Controller) : M W (Controller * option error) :=
  r ← GetConfiguration deviceID;
  match r with
  | None => mret (set_ctl Panicked s, None)
  | Some (inl err) => mret (s, Some (wrapError ("cannot get configuration '" +:+ error_text err +:+ "'") err))
  | Some (inr m) =>
      let s :=
        if bool_decide (conf_period m ≠ conf_period (conf (manager s))) then
          match configuration s with
          | None => set_configuration (Some (conf_period m)) s
          | Some _ => set_ctl (Blocked ConfigurationCh) s
          end
        else s in
      match ctl s with
      | Running_ =>
          sc ← SetConfiguration json_configuration json_workload duration_String m (manager s);
          mret (set_manager sc.2 sc.1 s, None)
      | _ => mret (s, None)
      end
  end.

(** [case <-op]: the two goroutines and the first error of the group. *)
Definition handle_op (s : Controller) : M W Controller :=
  let s := log_request ReqOp (set_op false s) in
  first ← heartbeat_first;
  r ← (if first : bool then
         err1 ← heartbeat_goroutine s; r ← configuration_goroutine s;
         mret (r.1, match err1 with Some err => Some err | None => r.2 end)
       else
         r ← configuration_goroutine s; err2 ← heartbeat_goroutine s;
         mret (r.1, match r.2 with Some err => Some err | None => err2 end)
       : M W (Controller * option error));
  mret match ctl r.1, r.2 with
       | Running_, Some err => if is_Unauthorized err then set_enrol (Some false) r.1 else r.1
       | _, _ => r.1
       end.

(** [case heartbeatPeriod := <-configuration]: [Reset] panics on a period that
    is not positive. *)
Definition handle_period (heartbeatPeriod : Z) (s : Controller) : Controller :=
  let s := set_configuration None s in
  if bool_decide (0 < heartbeatPeriod)%Z then set_ticker (Some heartbeatPeriod) s else set_ctl Panicked s.

(** [case <-ticker.C] *)
Definition handle_tick (s : Controller) : Controller :=
  match enrol s with
  | Some full => if full then set_ctl (Blocked EnrolCh) s else set_enrol (Some true) s
  | None =>
      match register s with
      | Some full => if full then set_ctl (Blocked RegisterCh) s else set_register (Some true) s
      | None => if op s then set_ctl (Blocked OpCh) s else set_op true s
      end
  end.

(** [case <-ctx.Done()] and [case d := <-c.done]: the loop goes on. *)
Definition handle_done (s : Controller) : Controller := set_ticker None s.

Inductive ctl_event := CEnrol | CRegister | COp | CPeriod | CTick | CDone | CWorld.

Inductive ctl_step : Controller * W → ctl_event → Controller * W → Prop :=
  | cs_enrol s w : ctl s = Running_ → enrol s = Some true → ctl_step (s, w) CEnrol (handle_enrol s w)
  | cs_register s w : ctl s = Running_ → register s = Some true → ctl_step (s, w) CRegister (handle_register s w)
  | cs_op s w : ctl s = Running_ → op s = true → ctl_step (s, w) COp (handle_op s w)
  | cs_period s w d : ctl s = Running_ → configuration s = Some d → ctl_step (s, w) CPeriod (handle_period d s, w)
  | cs_tick s w : ctl s = Running_ → ticker s ≠ None → ctl_step (s, w) CTick (handle_tick s, w)
  | cs_done s w : ctl s = Running_ → ctl_step (s, w) CDone (handle_done s, w)
  | cs_world s w w' : ctl_step (s, w) CWorld (s, w').

Definition ctl_any (x y : Controller * W) : Prop := ∃ e, ctl_step x e y.
Definition ctl_reachable (c : ConfManager) (s : Controller) : Prop :=
  ∃ w w', rtc ctl_any (new_controller c, w) (s, w').

(** ** The order of the requests *)

(** The requests of a controller: refused enrolments until one is accepted,
    then refused registrations until one is accepted, then operations. *)
Definition in_order (s : Controller) : Prop :=
  ∃ a b n, requests s = replicate a (ReqEnrol false) ++
    match enrol s with
    | Some _ => []
    | None => ReqEnrol true :: replicate b (ReqRegister false) ++
        match register s with
        | Some _ => []
        | None => ReqRegister true :: replicate n ReqOp
        end
    end.

(** Where the channels are nil or empty. *)
Definition channels_ok (s : Controller) : Prop :=
  (is_Some (enrol s) → register s = None ∧ op s = false) ∧ (is_Some (register s) → op s = false).

Definition ctl_inv (s : Controller) : Prop := in_order s ∧ channels_ok s.

Lemma replicate_snoc {A} n (x : A) : replicate n x ++ [x] = replicate (S n) x.
Proof. by rewrite <-replicate_cons_app. Qed.

Lemma configuration_goroutine_frame s w :
  let r := (configuration_goroutine s w).1 in
  enrol r.1 = enrol s ∧ register r.1 = register s ∧ op r.1 = op s ∧ requests r.1 = requests s ∧
  (∀ err, r.2 = Some err → is_Unauthorized err = false).
Proof.
  unfold configuration_goroutine. rewrite M_bind_unfold.
  destruct (GetConfiguration deviceID w).1 as [[err|m]|]; cbn [fst mret M_ret]; [by split_and!; simplify_eq; try intros ? [= <-]| |by split_and!].
  case_bool_decide; [destruct (configuration s)|]; cbn; try (by split_and!);
    destruct (ctl s) eqn:E; cbn; rewrite ?M_bind_unfold; cbn; by split_and!.
Qed.

Lemma heartbeat_goroutine_error s w err :
  (heartbeat_goroutine s w).1 = Some err → is_Unauthorized err = false.
Proof.
  unfold heartbeat_goroutine. run_M. by case_match; intros [= <-].
Qed.

Lemma group_result (s : Controller) (e : option error) :
  (∀ err, e = Some err → is_Unauthorized err = false) →
  match ctl s, e with
  | Running_, Some err => if is_Unauthorized err then set_enrol (Some false) s else s
  | _, _ => s
  end = s.
Proof. intros Hr. destruct (ctl s); [|done..]. destruct e as [err|]; [|done]. by rewrite (Hr err). Qed.

(** No error restarts the enrolment: the errors of the group are wrapped. *)
Lemma handle_op_result s w :
  let s1 := log_request ReqOp (set_op false s) in
  ∃ w1, (handle_op s w).1 = (configuration_goroutine s1 w1).1.1.
Proof.
  intros s1. unfold handle_op. fold s1. run_M.
  destruct (heartbeat_first w).1; rewrite !M_bind_unfold; cbn [fst snd mret M_ret]; eexists; apply group_result;
    intros err He.
  - destruct (heartbeat_goroutine s1 _).1 eqn:Eh in He.
    + injection He as ->. by eapply heartbeat_goroutine_error.
    + by eapply configuration_goroutine_frame.
  - destruct (configuration_goroutine s1 _).1.2 eqn:Ec in He.
    + injection He as ->. by eapply configuration_goroutine_frame.
    + by eapply heartbeat_goroutine_error.
Qed.

Lemma handle_op_frame s w :
  let s' := (handle_op s w).1 in
  enrol s' = enrol s ∧ register s' = register s ∧ op s' = false ∧ requests s' = requests s ++ [ReqOp].
Proof.
  destruct (handle_op_result s w) as [w1 ->].
  destruct (configuration_goroutine_frame (log_request ReqOp (set_op false s)) w1) as (? & ? & ? & ? & _). done.
Qed.

Lemma ctl_inv_step x e y : ctl_inv x.1 → ctl_step x e y → ctl_inv y.1.
Proof.
  intros Hi Hs. pose proof Hi as [(a & b & n & Hr) [He Hg]]. destruct Hs as [s w _ E|s w _ E|s w _ E|s w d _ E|s w _ E|s w _|s w w']; cbn [fst] in *.
  - unfold handle_enrol. run_M. rewrite E in Hr, He.
    destruct He as [Hrg Hop]; [by eexists|]. rewrite app_nil_r in Hr.
    destruct (Enrol _ _ _).1 as [err|].
    + split; [|split; cbn; [by rewrite Hrg | rewrite Hrg; by intros []]].
      unfold in_order. cbn. exists (S a), 0%nat, 0%nat. by rewrite Hr, replicate_snoc, app_nil_r.
    + split; [|split; cbn; [by intros [] | done]]. unfold in_order. cbn. exists a, 0%nat, 0%nat. by rewrite Hr.
  - destruct (enrol s) as [x|] eqn:En; [destruct He as [? _]; [by eexists|congruence]|]. rewrite E, app_nil_r in Hr.
    assert (op s = false) as Hop by (apply Hg; rewrite E; by eexists).
    assert (∀ s', enrol s' = None → register s' = Some false → op s' = false →
              requests s' = requests s ∨ requests s' = requests s ++ [ReqRegister false] → ctl_inv s') as Hkeep.
    { intros s' E1 E2 E3 E4. split; [|split; rewrite ?E1; [by intros []|done]].
      unfold in_order. rewrite E1, E2. destruct E4 as [->| ->].
      - exists a, b, 0%nat. by rewrite Hr, app_nil_r.
      - exists a, (S b), 0%nat. by rewrite Hr, app_nil_r, <-app_assoc, <-replicate_snoc. }
    unfold handle_register. rewrite M_bind_unfold.
    destruct (GenerateCSR _ w).1 as [err|[csr key]]; [apply Hkeep; cbn; auto|]. rewrite M_bind_unfold.
    destruct (Register _ _ _).1 as [err|signed]; [apply Hkeep; cbn; auto|]. rewrite !M_bind_unfold.
    cbn [fst mret M_ret]. destruct (WriteCertificate _).1 as [err|]; [apply Hkeep; cbn; auto|].
    split; [|split; cbn; rewrite ?En; by intros []]. unfold in_order. cbn. rewrite En.
    exists a, b, 0%nat. by rewrite Hr, <-app_assoc.
  - destruct (handle_op_frame s w) as (E1 & E2 & E3 & E4).
    split; [|split; [rewrite E1, E2; intros Hs; split; [by apply He|done]|done]].
    unfold in_order. rewrite E1, E2, E4, Hr.
    destruct (enrol s) as [x|]; [destruct He as [_ ?]; [by eexists|congruence]|].
    destruct (register s) as [x|]; [rewrite Hg in E by (by eexists); congruence|].
    exists a, b, (S n). by rewrite <-app_assoc, <-replicate_snoc, <-!app_comm_cons, <-app_assoc.
  - unfold handle_period. case_bool_decide; exact Hi.
  - unfold handle_tick. destruct (enrol s) as [[]|] eqn:En; [exact Hi| |].
    + destruct He as [Hrg Hop]; [by eexists|].
      split; [unfold in_order; cbn; by exists a, b, n | split; cbn; [by intros _|rewrite Hrg; by intros []]].
    + destruct (register s) as [[]|] eqn:Er; [exact Hi| |].
      * split; [unfold in_order; cbn; exists a, b, n; by rewrite En|split; cbn; rewrite ?En; [by intros []|]].
        intros _. apply Hg. by eexists.
      * destruct (op s); [exact Hi|].
        split; [unfold in_order; cbn; exists a, b, n; by rewrite En, Er|split; cbn; rewrite ?En, ?Er; by intros []].
  - exact Hi.
  - exact Hi.
Qed.

Lemma new_controller_inv c : ctl_inv (new_controller c).
Proof. split; [by exists 0%nat, 0%nat, 0%nat|]. split; [done|by intros []]. Qed.

Lemma ctl_reachable_inv c s : ctl_reachable c s → ctl_inv s.
Proof.
  intros (w & w' & Hs). change s with (s, w').1. pose proof (new_controller_inv c) as Hi.
  change (new_controller c) with (new_controller c, w).1 in Hi. revert Hi. generalize dependent (s, w').
  generalize (new_controller c, w). intros x y Hs Hi. induction Hs as [|x y z [e He] _ IH]; [done|].
  apply IH. by eapply ctl_inv_step.
Qed.

(** C13: in every execution the device enrols until it is accepted, then
    registers until it is accepted, and only then sends heartbeats and gets
    configurations, for ever: whatever the operator answers, it neither enrols
    nor registers a second time. *)
Theorem requests_in_order c s :
  ctl_reachable c s →
  ∃ a b n, requests s = replicate a (ReqEnrol false) ++
    match enrol s with
    | Some _ => []
    | None => ReqEnrol true :: replicate b (ReqRegister false) ++
        match register s with
        | Some _ => []
        | None => ReqRegister true :: replicate n ReqOp
        end
    end.
Proof. intros Hs. apply (ctl_reachable_inv c s Hs). Qed.

(** ** Blocked and crashed *)

(** A controller that is not running never changes again. *)
Lemma stopped_forever s w y : ctl s ≠ Running_ → rtc ctl_any (s, w) y → y.1 = s.
Proof.
  intros Hs Hr. change s with (s, w).1. revert Hs. change s with (s, w).1 at 1. generalize dependent (s, w). clear s w.
  intros x Hr. induction Hr as [|x y z [e He] _ IH]; [done|]. intros Hx.
  assert (y.1 = x.1) as E by (destruct He; cbn in *; congruence). rewrite <-E. apply IH. by rewrite E.
Qed.

(** the controller can stop for ever: a tick that finds the previous one
    unhandled sends on the full channel that the same goroutine should empty;
    after it no enrolment, registration, heartbeat, configuration or shutdown is
    handled. *)
Theorem tick_deadlock s w y :
  ctl s = Running_ → ticker s ≠ None → enrol s = Some true ∨ (enrol s = None ∧ register s = Some true) ∨
    (enrol s = None ∧ register s = None ∧ op s = true) →
  ∃ z, ctl_step (s, w) CTick (z, w) ∧ (∃ ch, ctl z = Blocked ch) ∧
    (rtc ctl_any (z, w) y → y.1 = z).
Proof.
  intros Hc Ht Hf. exists (handle_tick s). split; [by constructor|].
  assert (∃ ch, ctl (handle_tick s) = Blocked ch) as [ch Hb].
  { unfold handle_tick. destruct Hf as [->|[[-> ->]|(-> & -> & ->)]]; by eexists. }
  split; [by exists ch|]. intros Hr. eapply stopped_forever; [|exact Hr]. by rewrite Hb.
Qed.

(** ** Applying a configuration *)
Notation SetConf := (SetConfiguration json_configuration json_workload duration_String).
Notation hash := (conf_Hash json_configuration json_workload duration_String).

(** The client answers [m]. *)
Definition answers (m : DeviceConfigurationMessage) : Prop :=
  ∀ w, (GetConfiguration deviceID w).1 = Some (inr m).

Lemma goroutine_applies m s w :
  answers m → ctl s = Running_ → configuration s = None →
  let r := (configuration_goroutine s w).1 in
  ctl r.1 = Running_ ∧ r.2 = None ∧
  configuration r.1 = (if bool_decide (conf_period m = conf_period (conf (manager s))) then None
                       else Some (conf_period m)) ∧
  ∃ w', manager r.1 = (SetConf m (manager s) w').1.2 ∧ sent r.1 = sent s ++ (SetConf m (manager s) w').1.1.
Proof.
  intros Ha Hc Hf. unfold configuration_goroutine. rewrite M_bind_unfold, Ha.
  destruct (decide (conf_period m = conf_period (conf (manager s)))) as [E|E].
  - rewrite (bool_decide_eq_false_2 (_ ≠ _)), bool_decide_eq_true_2, Hc, M_bind_unfold by tauto. cbn.
    split; [done|]. split; [done|]. split; [done|]. by eexists.
  - rewrite bool_decide_eq_true_2, bool_decide_eq_false_2, Hf by tauto. cbn [ctl set_configuration].
    rewrite Hc, M_bind_unfold. cbn. split; [done|]. split; [done|]. split; [done|]. by eexists.
Qed.

Lemma op_applies m s w :
  answers m → ctl s = Running_ → configuration s = None →
  let s' := (handle_op s w).1 in
  ctl s' = Running_ ∧
  configuration s' = (if bool_decide (conf_period m = conf_period (conf (manager s))) then None
                      else Some (conf_period m)) ∧
  ∃ w', manager s' = (SetConf m (manager s) w').1.2 ∧ sent s' = sent s ++ (SetConf m (manager s) w').1.1.
Proof.
  intros Ha Hc Hf. destruct (handle_op_result s w) as [w1 ->].
  destruct (goroutine_applies m (log_request ReqOp (set_op false s)) w1 Ha Hc Hf) as (? & _ & ? & ?). done.
Qed.

(** a heartbeat period that is not positive crashes the device: when the
    operator answers such a period (a zero, or so many seconds that the
    conversion wraps) and it is not the current one, the operation puts it on
    the channel and receiving it panics in [Ticker.Reset]. *)
Theorem bad_period_crashes m s w :
  answers m → ctl s = Running_ → op s = true → configuration s = None →
  (conf_period m <= 0)%Z → conf_period m ≠ conf_period (conf (manager s)) →
  ∃ s1 w1 s2, ctl_step (s, w) COp (s1, w1) ∧ ctl_step (s1, w1) CPeriod (s2, w1) ∧ ctl s2 = Panicked.
Proof.
  intros Ha Hc Ho Hf Hp Hne. destruct (op_applies m s w Ha Hc Hf) as (H1' & H2' & _).
  rewrite bool_decide_eq_false_2 in H2' by done.
  exists (handle_op s w).1, (handle_op s w).2, (handle_period (conf_period m) (handle_op s w).1).
  split; [|split].
  - destruct (handle_op s w) as [s1 w1] eqn:E. cbn. rewrite <-E. by constructor.
  - by constructor.
  - unfold handle_period. by rewrite bool_decide_eq_false_2 by lia.
Qed.

(** a second change of the period that arrives before the first one is
    handled stops the controller for ever: the goroutine that gets the
    configuration sends on a full channel, and the loop waits for it. *)
Theorem period_deadlock m s w y :
  answers m → ctl s = Running_ → op s = true → is_Some (configuration s) →
  conf_period m ≠ conf_period (conf (manager s)) →
  ∃ z w1, ctl_step (s, w) COp (z, w1) ∧ ctl z = Blocked ConfigurationCh ∧ manager z = manager s ∧
    (rtc ctl_any (z, w1) y → y.1 = z).
Proof.
  intros Ha Hc Ho [d Hd] Hne. exists (handle_op s w).1, (handle_op s w).2.
  assert (ctl (handle_op s w).1 = Blocked ConfigurationCh ∧ manager (handle_op s w).1 = manager s) as [Hb Hm].
  { destruct (handle_op_result s w) as [w1 ->]. unfold configuration_goroutine. rewrite M_bind_unfold, Ha.
    rewrite bool_decide_eq_true_2 by done. cbn [configuration set_op log_request]. by rewrite Hd. }
  split; [|split; [done|split; [done|]]].
  - destruct (handle_op s w) as [s1 w1] eqn:E. cbn. rewrite <-E. by constructor.
  - intros Hr. eapply stopped_forever; [|exact Hr]. by rewrite Hb.
Qed.

(** Shutting down stops the ticker and nothing else: a pending operation is
    still carried out, and a pending period starts the ticker again. *)
Lemma shutdown_keeps_running s :
  ctl s = Running_ →
  ctl (handle_done s) = Running_ ∧ op (handle_done s) = op s ∧ configuration (handle_done s) = configuration s ∧
  ∀ d, (0 < d)%Z → ticker (handle_period d (handle_done s)) = Some d.
Proof.
  intros Hc. repeat (split; [done|]). intros d Hd. unfold handle_period. by rewrite bool_decide_eq_true_2.
Qed.
End controller.

(** ** Witnesses: an operator that accepts everything *)
Module Operator.
(** The default configuration with another heartbeat period. *)
Definition with_period (d : Z) : DeviceConfigurationMessage :=
  MkDeviceConfigurationMessage
    (MkDeviceConfiguration (MkHeartbeatConfiguration (MkHardwareProfileConfiguration true FullScope) d)
       [] (MkOsInformation false "" "") ∅) "device" "" [] 0.

Definition operator (d : Z) : Client unit := {|
  Enrol := λ _ _ w, (None, w);
  Register := λ _ _ w, (inr "certificate", w);
  SendHeartbeat := λ _ _ w, (None, w);
  GetConfiguration := λ _ w, (Some (inr (with_period d)), w)
|}.
#[export] Instance certificates : Certificates unit := {|
  GenerateCSR := λ _ w, (inr ("csr", "key"), w);
  SetCertificate := λ _ _ w, (None, w);
  WriteCertificate := λ w, (None, w)
|}.
#[export] Instance race : Race unit := {| heartbeat_first := λ w, (true, w) |}.

Definition manager0 : ConfManager := MkConfManager defaultConfiguration (hw0 (Some (MkIoPerf 1))).
(** Registered, with an operation and possibly a period to handle. *)
Definition registered (period : option Z) : Controller :=
  MkController Running_ None None true period (Some 1000000000%Z) manager0 []
    [ReqEnrol true; ReqRegister true].
End Operator.
Import Operator.
#[local] Instance zero_period : Client unit := operator 0.

Notation step0 := (ctl_step (λ _, "") (λ _, "") (λ _, "") "device" "default" (λ _ : unit, None)).
Notation any0 := (ctl_any (λ _, "") (λ _, "") (λ _, "") "device" "default" (λ _ : unit, None)).

Lemma requests_in_order_witness :
  let s := (handle_enrol (W := unit) "device" "default" (handle_tick (new_controller manager0)) tt).1 in
  ctl_reachable (λ _, "") (λ _, "") (λ _, "") "device" "default" (λ _ : unit, None) manager0 s ∧
  ∃ a b n, requests s = replicate a (ReqEnrol false) ++
    match enrol s with
    | Some _ => []
    | None => ReqEnrol true :: replicate b (ReqRegister false) ++
        match register s with
        | Some _ => []
        | None => ReqRegister true :: replicate n ReqOp
        end
    end.
Proof.
  intros s.
  assert (ctl_reachable (λ _, "") (λ _, "") (λ _, "") "device" "default" (λ _ : unit, None) manager0 s) as Hr.
  { exists tt, tt. eapply rtc_l; [exists CTick; constructor; [reflexivity|discriminate]|].
    eapply rtc_l; [|apply rtc_refl]. exists CEnrol. exact (cs_enrol _ _ _ _ _ _ (handle_tick (new_controller manager0)) tt eq_refl eq_refl). }
  split; [exact Hr|].
  exact (requests_in_order (λ _, "") (λ _, "") (λ _, "") "device" "default" (λ _ : unit, None) manager0 s Hr).
Defined.

Lemma tick_deadlock_witness :
  let s := handle_tick (new_controller manager0) in
  ∃ z, step0 (s, tt) CTick (z, tt) ∧ (∃ ch, ctl z = Blocked ch) ∧ (rtc any0 (z, tt) (z, tt) → (z, tt).1 = z).
Proof.
  intros s.
  destruct (tick_deadlock (λ _, "") (λ _, "") (λ _, "") "device" "default" (λ _ : unit, None) s tt
              (set_ctl (Blocked EnrolCh) s, tt)) as (z & Hz & Hb & Hf).
  - reflexivity.
  - discriminate.
  - left. reflexivity.
  - exists z. split; [exact Hz|]. split; [exact Hb|]. intros _. reflexivity.
Defined.

Lemma bad_period_crashes_witness :
  ∃ s1 w1 s2, step0 (registered None, tt) COp (s1, w1) ∧ step0 (s1, w1) CPeriod (s2, w1) ∧ ctl s2 = Panicked.
Proof.
  apply (bad_period_crashes (λ _, "") (λ _, "") (λ _, "") "device" "default" (λ _ : unit, None) (with_period 0)).
  - intros w. reflexivity.
  - reflexivity.
  - reflexivity.
  - reflexivity.
  - discriminate.
  - discriminate.
Defined.

Lemma period_deadlock_witness :
  ∃ z w1, step0 (registered (Some 5%Z), tt) COp (z, w1) ∧ ctl z = Blocked ConfigurationCh ∧
    manager z = manager0 ∧ (rtc any0 (z, w1) (z, w1) → (z, w1).1 = z).
Proof.
  destruct (period_deadlock (λ _, "") (λ _, "") (λ _, "") "device" "default" (λ _ : unit, None) (with_period 0)
              (registered (Some 5%Z)) tt (registered None, tt)) as (z & w1 & H1 & H2 & H3 & H4).
  - intros w. reflexivity.
  - reflexivity.
  - reflexivity.
  - by eexists.
  - discriminate.
  - exists z, w1. split; [exact H1|]. split; [exact H2|]. split; [exact H3|]. intros _. reflexivity.
Defined.
