(* ===== verification/ControllerLive.v ===== *)
(** * The controller reaches operation

    Progress of [internal/edge/controller.go]: the loop can block for ever when
    a tick finds the previous one unhandled ([Controller.tick_deadlock]); when
    every tick is handled before the next, and the operator accepts, the device
    is enrolled after one tick, registered after two, and operates from the
    third on, one operation per tick. *)
From Stdlib Require Import Strings.String.
From S2P Require Import Prelude GoStd Entity Interfaces Hardware Config Controller.
Local Open Scope string_scope.
Local Open Scope list_scope.

(** An operator, and a certificate manager, without errors. *)
Class Accepting (W : Type) `{Client W} `{Certificates W} : Prop := {
  Enrol_accepts : ∀ id e w, (Enrol id e w).1 = None;
  CSR_made : ∀ name w, ∃ csr_key, (GenerateCSR name w).1 = inr csr_key;
  Register_accepts : ∀ id r w, ∃ signed, (Register id r w).1 = inr signed;
  Certificate_written : ∀ w, (WriteCertificate w).1 = None
}.

Section live.
Context {W : Type} `{MapOrder W} `{Client W} `{Certificates W} `{Race W} `{!Accepting W}.
Context (json_configuration : DeviceConfiguration → string) (json_workload : PodWorkload → string).
Context (duration_String : Z → string) (deviceID targetNamespace : string).
Context (status : W → option (gmap string JobState)).
Notation step := (ctl_step json_configuration json_workload duration_String deviceID targetNamespace status).
Notation operate := (handle_op json_configuration json_workload duration_String deviceID status).
Implicit Types (s : Controller) (w : W) (x y : Controller * W).

(** Between ticks the world changes and new periods are taken. *)
Definition pause x y : Prop := step x CWorld y ∨ step x CPeriod y.

(** A tick, and then the handling of what it sent. *)
Definition round x y : Prop :=
  ∃ a b c e, rtc pause x a ∧ step a CTick b ∧ rtc pause b c ∧ step c e y ∧ e ∈ [CEnrol; CRegister; COp].

(** The requests made in [n] rounds. *)
Definition served (n : nat) : list request :=
  match n with
  | O => []
  | S O => [ReqEnrol true]
  | S (S k) => ReqEnrol true :: ReqRegister true :: replicate k ReqOp
  end.

(** The channels after [n] rounds, and when the next tick has been sent. *)
Definition phase (n : nat) (full : bool) s : Prop :=
  requests s = served n ∧
  match n with
  | O => enrol s = Some full ∧ register s = None ∧ op s = false
  | S O => enrol s = None ∧ register s = Some full ∧ op s = false
  | S (S _) => enrol s = None ∧ register s = None ∧ op s = full
  end.

Lemma pause_phase n full x y : rtc pause x y → phase n full x.1 → phase n full y.1.
Proof.
  induction 1 as [|x y z Hp _ IH]; [done|]. intros Hx. apply IH.
  destruct Hp as [Hs|Hs]; inversion Hs; subst; [done|].
  unfold handle_period. by case_bool_decide.
Qed.

Lemma tick_phase n s : phase n false s → phase n true (handle_tick s).
Proof.
  unfold phase, handle_tick. intros [Hr Hc].
  destruct n as [|[|n]]; destruct Hc as (E1 & E2 & E3); rewrite E1; cbn; rewrite ?E2, ?E3; cbn; by rewrite ?E1, ?E2.
Qed.

Lemma enrol_phase s w : phase 0 true s → phase 1 false (handle_enrol deviceID targetNamespace s w).1.
Proof.
  intros (Hr & E1 & E2 & E3). unfold handle_enrol. run_M. rewrite Enrol_accepts.
  unfold phase. cbn. by rewrite Hr, E3.
Qed.

Lemma register_phase s w : phase 1 true s → phase 2 false (handle_register deviceID s w).1.
Proof.
  intros (Hr & E1 & E2 & E3). unfold handle_register. rewrite M_bind_unfold.
  destruct (CSR_made "deviceID" w) as [[csr key] ->]. rewrite M_bind_unfold.
  match goal with |- context [Register deviceID ?i ?w'] => destruct (Register_accepts deviceID i w') as [signed ->] end.
  rewrite !M_bind_unfold. cbn [fst mret M_ret]. rewrite Certificate_written.
  unfold phase. cbn. by rewrite Hr, E1, E3.
Qed.

Lemma op_phase n s w : phase (S (S n)) true s → phase (S (S (S n))) false (operate s w).1.
Proof.
  intros (Hr & E1 & E2 & E3).
  destruct (handle_op_frame json_configuration json_workload duration_String deviceID status s w) as (F1 & F2 & F3 & F4).
  unfold phase. rewrite F1, F2, F3, F4, Hr. split; [|done].
  unfold served. by rewrite <-!app_comm_cons, replicate_snoc.
Qed.

Lemma handled_phase n c e y : phase n true c.1 → step c e y → e ∈ [CEnrol; CRegister; COp] → phase (S n) false y.1.
Proof.
  intros Hp Hs He. pose proof Hp as [_ Hc].
  destruct Hs as [s w _ E|s w _ E|s w _ E|s w d _ E|s w _ E|s w _|s w w']; cbn [fst] in *; try set_solver.
  - destruct n as [|[|n]]; destruct Hc as (E1 & E2 & E3); [by apply enrol_phase|congruence|congruence].
  - destruct n as [|[|n]]; destruct Hc as (E1 & E2 & E3); [congruence|by apply register_phase|congruence].
  - destruct n as [|[|n]]; destruct Hc as (E1 & E2 & E3); [congruence|congruence|by apply op_phase].
Qed.

Lemma round_phase n x y : round x y → phase n false x.1 → phase (S n) false y.1.
Proof.
  intros (a & b & c & e & Hxa & Hab & Hbc & Hcy & He) Hx.
  eapply handled_phase; [|exact Hcy|exact He]. eapply pause_phase; [exact Hbc|].
  pose proof (pause_phase n false _ _ Hxa Hx) as Ha. inversion Hab; subst. by apply tick_phase.
Qed.

Lemma rounds_phase n x y : nsteps round n x y → ∀ k, phase k false x.1 → phase (k + n) false y.1.
Proof.
  induction 1 as [|n x y z Hr _ IH]; intros k Hx; [by rewrite Nat.add_0_r|].
  rewrite Nat.add_succ_r. change (S (k + n)) with (S k + n). apply IH. by eapply round_phase.
Qed.

(** While the loop runs with a ticker a round can be made. *)
Lemma tick_frame s : phase 0 false s ∨ phase 1 false s ∨ (∃ n, phase (S (S n)) false s) →
  ctl (handle_tick s) = ctl s ∧ ticker (handle_tick s) = ticker s.
Proof.
  unfold handle_tick. intros [(_ & E1 & E2 & E3)|[(_ & E1 & E2 & E3)|[n (_ & E1 & E2 & E3)]]];
    rewrite E1; cbn; rewrite ?E2; cbn; by rewrite ?E3.
Qed.

Lemma round_by e s w y :
  ctl s = Running_ → ticker s ≠ None → step (handle_tick s, w) e y → e ∈ [CEnrol; CRegister; COp] → round (s, w) y.
Proof.
  intros Hc Ht Hs He. exists (s, w), (handle_tick s, w), (handle_tick s, w), e.
  split; [apply rtc_refl|]. split; [by constructor|]. split; [apply rtc_refl|done].
Qed.

(** C34: when the operator accepts, the [n] first ticks, each handled before the
    next, make an enrolment, a registration and then operations, one per tick
    and nothing else; and the first three can be made, so the device reaches
    operation. *)
Theorem reaches_operation c w :
  (0 < conf_period (conf c))%Z →
  (∃ y, nsteps round 3 (new_controller c, w) y) ∧
  ∀ n y, nsteps round n (new_controller c, w) y → requests y.1 = served n.
Proof.
  intros Hp. assert (phase 0 false (new_controller c)) as H0' by done.
  split; [|intros n y Hn; by apply (rounds_phase n _ _ Hn 0 H0')].
  assert (ctl (new_controller c) = Running_) as C0 by (cbn; by rewrite bool_decide_eq_true_2).
  assert (ticker (new_controller c) ≠ None) as T0 by done.
  assert (enrol (handle_tick (new_controller c)) = Some true) as F0 by done.
  revert H0' C0 T0 F0. generalize (new_controller c) as s0. intros s0 H0' C0 T0 F0.
  destruct (tick_frame s0 (or_introl H0')) as [Ct0 Tt0].
  assert (step (handle_tick s0, w) CEnrol (handle_enrol deviceID targetNamespace (handle_tick s0) w)) as S1
    by (constructor; [by rewrite Ct0|done]).
  pose proof (round_by _ _ _ _ C0 T0 S1 ltac:(set_solver)) as R1. pose proof (round_phase _ _ _ R1 H0') as P1.
  destruct (handle_enrol _ _ _ w) as [s1 w1] eqn:E1.
  assert (ctl s1 = Running_ ∧ ticker s1 ≠ None) as [C1 T1].
  { unfold handle_enrol in E1. rewrite M_bind_unfold, Enrol_accepts in E1. injection E1 as <- _. cbn. by rewrite Ct0, Tt0. }
  destruct (tick_frame s1 (or_intror (or_introl P1))) as [Ct1 Tt1].
  assert (step (handle_tick s1, w1) CRegister (handle_register deviceID (handle_tick s1) w1)) as S2
    by (constructor; [by rewrite Ct1|apply (tick_phase 1 s1 P1)]).
  pose proof (round_by _ _ _ _ C1 T1 S2 ltac:(set_solver)) as R2. pose proof (round_phase _ _ _ R2 P1) as P2.
  destruct (handle_register _ _ w1) as [s2 w2] eqn:E2.
  assert (ctl s2 = Running_ ∧ ticker s2 ≠ None) as [C2 T2].
  { apply (f_equal fst) in E2. cbn [fst] in E2. rewrite <-E2. unfold handle_register. rewrite M_bind_unfold.
    destruct (CSR_made "deviceID" w1) as [[csr key] ->]. rewrite M_bind_unfold.
    match goal with |- context [Register deviceID ?i ?w'] => destruct (Register_accepts deviceID i w') as [signed ->] end.
    rewrite !M_bind_unfold. cbn [fst mret M_ret]. rewrite Certificate_written. cbn. by rewrite Ct1, Tt1. }
  destruct (tick_frame s2 (or_intror (or_intror (ex_intro _ 0%nat P2)))) as [Ct2 _].
  assert (step (handle_tick s2, w2) COp (operate (handle_tick s2) w2)) as S3
    by (constructor; [by rewrite Ct2|apply (tick_phase 2 s2 P2)]).
  pose proof (round_by _ _ _ _ C2 T2 S3 ltac:(set_solver)) as R3.
  eexists. eapply nsteps_l; [exact R1|]. eapply nsteps_l; [exact R2|]. eapply nsteps_l; [exact R3|]. constructor.
Qed.
End live.

(** ** Witness *)
Import Operator.
#[local] Instance second_period : Client unit := operator 1000000000.

#[export] Instance operator_accepts : Accepting unit.
Proof. split; intros; cbn; eauto. Qed.

Lemma reaches_operation_witness :
  ∃ y, nsteps (round (λ _, "") (λ _, "") (λ _, "") "device" "default" (λ _ : unit, None)) 3 (new_controller manager0, tt) y ∧
    requests y.1 = [ReqEnrol true; ReqRegister true; ReqOp].
Proof.
  destruct (reaches_operation (λ _, "") (λ _, "") (λ _, "") "device" "default" (λ _ : unit, None) manager0 tt)
    as [[y Hy] Hn].
  - cbn. lia.
  - exists y. split; [exact Hy|]. exact (Hn 3%nat y Hy).
Defined.
