(* ===== verification/Certificate.v ===== *)
(** * The certificate manager

    [internal/certificate/manager.go]: the client certificate and its private
    key, the certificate request made with a new key, and the files both are
    written to.  PEM, X.509, the generation of keys and the file system are
    parameters. *)
From Stdlib Require Import Strings.String.
From S2P Require Import Prelude GoStd Entity Interfaces Hardware Config Controller.
Local Open Scope string_scope.
Local Open Scope list_scope.

Definition ecPrivateKeyBlockType : string := "EC PRIVATE KEY".
Definition rsaPrivateKeyBlockType : string := "RSA PRIVATE KEY".

(** ** Libraries *)

(** A [crypto.PrivateKey] is an [*ecdsa.PrivateKey] or an [*rsa.PrivateKey]. *)
Inductive PrivateKey (EC RSA : Type) :=
  | ECKey (k : EC)
  | RSAKey (k : RSA).
Arguments ECKey {EC RSA} _.
Arguments RSAKey {EC RSA} _.

Record Block := MkBlock { BType : string; Bytes : string }.

(** [pem] and [x509] on bytes. *)
Class Crypto (Cert EC RSA : Type) := {
  pem_Decode : string → option Block;
  pem_Encode : Block → string;
  ParseCertificate : string → error + Cert;
  Raw : Cert → string;
  CertSignature : Cert → string;
  ParseECPrivateKey : string → error + EC;
  ParsePKCS1PrivateKey : string → error + RSA;
  MarshalECPrivateKey : EC → string;
  MarshalPKCS1PrivateKey : RSA → string
}.

(** The source of keys and the files. *)
Class Device (EC RSA W : Type) := {
  ecdsa_GenerateKey : M W (error + EC);
  rsa_GenerateKey : Z → M W (error + RSA);
  CreateCertificateRequest : string → PrivateKey EC RSA → M W (error + string);
  (** [os.Create], which truncates; [pem.Encode] into the open file, and its
      [Close], by the path it was opened with; [ioutil.WriteFile] *)
  os_Create : string → M W (option error);
  pem_Encode_to : string → Block → M W (option error);
  file_Close : string → M W (option error);
  WriteFile : string → string → M W (option error)
}.

(** ** The manager *)
(** [rootCA] is the system's pool and the blocks appended to it. *)
Record CertManager (Cert EC RSA : Type) := MkCertManager {
  rootCA : list string;
  cert : option Cert;
  privateKey : option (PrivateKey EC RSA);
  privateKeyType : string
}.
Arguments MkCertManager {Cert EC RSA} _ _ _ _.
Arguments rootCA {Cert EC RSA} _.
Arguments cert {Cert EC RSA} _.
Arguments privateKey {Cert EC RSA} _.
Arguments privateKeyType {Cert EC RSA} _.

Section manager.
Context {Cert EC RSA W : Type} `{Crypto Cert EC RSA} `{Device EC RSA W}.
Notation CertManager := (CertManager Cert EC RSA).
Notation PrivateKey := (PrivateKey EC RSA).

(** The key of a block, by its type. *)
Definition parse_key (block : Block) : error + PrivateKey :=
  if bool_decide (BType block = ecPrivateKeyBlockType) then
    match ParseECPrivateKey (Bytes block) with inl err => inl err | inr k => inr (ECKey k) end
  else if bool_decide (BType block = rsaPrivateKeyBlockType) then
    match ParsePKCS1PrivateKey (Bytes block) with inl err => inl err | inr k => inr (RSAKey k) end
  else inl (errorString "unknown block type").

(** [Manager.SetCertificate]: the error, and the manager after the call. *)
Definition SetCertificate_ (certPEM keyPEM : string) (c : CertManager) : option error * CertManager :=
  match pem_Decode certPEM with
  | None => (Some (errorString "cannot decode certificate from pem"), c)
  | Some certPem =>
      match ParseCertificate (Bytes certPem) with
      | inl err => (Some (wrapError ("cannot parse certificate: " +:+ error_text err) err), c)
      | inr newCert =>
          match pem_Decode keyPEM with
          | None => (Some (errorString "cannot private key"), c)
          | Some block =>
              match parse_key block with
              | inl err => (Some (wrapError ("cannot decode private key: " +:+ error_text err) err), c)
              | inr key => (None, MkCertManager (rootCA c) (Some newCert) (Some key) (BType block))
              end
          end
      end
  end.

(** [New]; [system] is the error of [x509.SystemCertPool], if any. *)
Definition new_manager (system : option error) (caRootBlock : list string) (certPEM keyPEM : string)
    : error + CertManager :=
  match system with
  | Some err => inl (wrapError ("cannot copy system certificate pool: " +:+ error_text err) err)
  | None =>
      match SetCertificate_ certPEM keyPEM (MkCertManager caRootBlock None None "") with
      | (Some err, _) => inl err
      | (None, c) => inr c
      end
  end.

(** [GetCertificates] *)
Definition GetCertificates (c : CertManager) : list string * option Cert * option PrivateKey :=
  (rootCA c, cert c, privateKey c).

(** [None] is the panic of a nil certificate. *)
Definition Signature (c : CertManager) : option string := CertSignature <$> cert c.

Definition marshalKeyToPem (key : PrivateKey) : string :=
  match key with
  | ECKey k => pem_Encode (MkBlock ecPrivateKeyBlockType (MarshalECPrivateKey k))
  | RSAKey k => pem_Encode (MkBlock rsaPrivateKeyBlockType (MarshalPKCS1PrivateKey k))
  end.

Definition generateKey (keyType : string) : M W (error + PrivateKey) :=
  if bool_decide (keyType = ecPrivateKeyBlockType) then
    k ← ecdsa_GenerateKey; mret match k with inl err => inl err | inr k => inr (ECKey k) end
  else if bool_decide (keyType = rsaPrivateKeyBlockType) then
    k ← rsa_GenerateKey 4096; mret match k with inl err => inl err | inr k => inr (RSAKey k) end
  else mret (inl (errorString "unknown algorithm to create the key")).

Definition GenerateCSR_ (deviceID : string) (c : CertManager) : M W (error + (string * string)) :=
  key ← generateKey (privateKeyType c);
  match key with
  | inl err => mret (inl err)
  | inr key =>
      csrCertificate ← CreateCertificateRequest deviceID key;
      mret match csrCertificate with
           | inl err => inl err
           | inr csr => inr (pem_Encode (MkBlock "CERTIFICATE REQUEST" csr), marshalKeyToPem key)
           end
  end.

(** [WriteCertificate]; the outer [None] is the panic on a nil certificate,
    after the file was truncated; the key of a manager without one is written
    empty.  The errors of [pem.Encode] and of [Close] are not looked at. *)
Definition WriteCertificate_ (certPath keyPath : string) (c : CertManager) : M W (option (option error)) :=
  err ← os_Create certPath;
  match err with
  | Some err => mret (Some (Some err))
  | None =>
      match cert c with
      | None => mret None
      | Some ct =>
          _ ← pem_Encode_to certPath (MkBlock "CERTIFICATE" (Raw ct));
          _ ← file_Close certPath;
          err ← WriteFile keyPath (match privateKey c with Some k => marshalKeyToPem k | None => "" end);
          mret (Some err)
      end
  end.

(** ** The type of the key *)

(** The certificate is there, and the recorded type is the one of the key. *)
Definition key_ok (c : CertManager) : Prop :=
  is_Some (cert c) ∧
  match privateKey c with
  | Some (ECKey _) => privateKeyType c = ecPrivateKeyBlockType
  | Some (RSAKey _) => privateKeyType c = rsaPrivateKeyBlockType
  | None => False
  end.

Lemma parse_key_type block key :
  parse_key block = inr key →
  BType block = match key with ECKey _ => ecPrivateKeyBlockType | RSAKey _ => rsaPrivateKeyBlockType end.
Proof.
  unfold parse_key. repeat case_bool_decide; try done; case_match; by intros [= <-].
Qed.

(** Either nothing changes, or certificate, key and type do together. *)
Lemma SetCertificate_result certPEM keyPEM c :
  let r := SetCertificate_ certPEM keyPEM c in
  (r.1 ≠ None ∧ r.2 = c) ∨ (r.1 = None ∧ key_ok r.2).
Proof.
  unfold SetCertificate_. destruct (pem_Decode certPEM) as [cb|]; [|by left].
  destruct (ParseCertificate _) as [err|ct]; [by left|]. destruct (pem_Decode keyPEM) as [kb|]; [|by left].
  destruct (parse_key kb) as [err|key] eqn:Ek; [by left|]. right. split; [done|].
  apply parse_key_type in Ek. split; [by eexists|]. by destruct key.
Qed.

Lemma key_ok_after certPEM keyPEM c : key_ok c → key_ok (SetCertificate_ certPEM keyPEM c).2.
Proof. intros Hk. by destruct (SetCertificate_result certPEM keyPEM c) as [[_ ->]|[_ ?]]. Qed.

Lemma new_manager_ok system roots certPEM keyPEM c : new_manager system roots certPEM keyPEM = inr c → key_ok c.
Proof.
  unfold new_manager. destruct system; [done|].
  pose proof (SetCertificate_result certPEM keyPEM (MkCertManager roots None None "")) as Hr.
  destruct (SetCertificate_ _ _ _) as [[err|] c']; [done|]. intros [= <-]. cbn in Hr. naive_solver.
Qed.

(** ** Renewing the certificate *)

(** The documented behaviour of the libraries: decoding and parsing undo
    encoding and marshalling, [Raw] is the certificate; a file is empty after
    [Create], holds what was there and a prefix of what is written, all of it
    when no error is reported, and keeps it when it is closed without one. *)
Class CryptoLaws := {
  decode_encode : ∀ b, BType b ∈ ["CERTIFICATE"; ecPrivateKeyBlockType; rsaPrivateKeyBlockType] →
    pem_Decode (pem_Encode b) = Some b;
  parse_raw : ∀ ct, ParseCertificate (Raw ct) = inr ct;
  parse_marshal_EC : ∀ k, ParseECPrivateKey (MarshalECPrivateKey k) = inr k;
  parse_marshal_RSA : ∀ k, ParsePKCS1PrivateKey (MarshalPKCS1PrivateKey k) = inr k
}.
Class FileLaws (files : W → gmap string string) := {
  create_law : ∀ p w, (os_Create p w).1 = None → files (os_Create p w).2 = <[p := ""]> (files w);
  encode_law : ∀ p b s w, files w !! p = Some s →
    ∃ t rest, pem_Encode b = t +:+ rest ∧ files (pem_Encode_to p b w).2 = <[p := s +:+ t]> (files w) ∧
      ((pem_Encode_to p b w).1 = None → rest = "");
  close_law : ∀ p w, (file_Close p w).1 = None → files (file_Close p w).2 = files w;
  write_law : ∀ p t w, (WriteFile p t w).1 = None → files (WriteFile p t w).2 = <[p := t]> (files w)
}.

Lemma parse_marshal `{!CryptoLaws} key :
  ∃ b, pem_Decode (marshalKeyToPem key) = Some b ∧ parse_key b = inr key.
Proof.
  destruct key as [k|k]; simpl; rewrite decode_encode by set_solver; eexists; (split; [done|]); unfold parse_key; cbn [BType Bytes].
  - by rewrite bool_decide_eq_true_2, parse_marshal_EC.
  - by rewrite bool_decide_eq_false_2, bool_decide_eq_true_2, parse_marshal_RSA.
Qed.

Lemma set_marshalled `{!CryptoLaws} certPEM b ct key c :
  pem_Decode certPEM = Some b → ParseCertificate (Bytes b) = inr ct →
  SetCertificate_ certPEM (marshalKeyToPem key) c =
    (None, MkCertManager (rootCA c) (Some ct) (Some key)
             match key with ECKey _ => ecPrivateKeyBlockType | RSAKey _ => rsaPrivateKeyBlockType end).
Proof.
  intros Hb Hct. destruct (parse_marshal key) as (kb & Hk & Hp). unfold SetCertificate_.
  rewrite Hb, Hct, Hk, Hp. by rewrite (parse_key_type _ _ Hp).
Qed.

Lemma generateKey_type (c : CertManager) w key :
  (generateKey (privateKeyType c) w).1 = inr key →
  privateKeyType c = match key with ECKey _ => ecPrivateKeyBlockType | RSAKey _ => rsaPrivateKeyBlockType end.
Proof.
  unfold generateKey. repeat case_bool_decide; rewrite ?M_bind_unfold, ?M_ret_unfold; cbn [fst]; try done;
    case_match; by intros [= <-].
Qed.

(** The two errors [WriteCertificate] does not look at did not happen. *)
Definition certificate_written (certPath : string) (ct : Cert) (w : W) : Prop :=
  let w1 := (os_Create certPath w).2 in
  let encoded := pem_Encode_to certPath (MkBlock "CERTIFICATE" (Raw ct)) w1 in
  encoded.1 = None ∧ (file_Close certPath encoded.2).1 = None.

Lemma append_empty_r s : s +:+ "" = s.
Proof. induction s as [|c s IH]; [done|]. change (String c (s +:+ "") = String c s). by rewrite IH. Qed.

Lemma WriteCertificate_files (files : W → gmap string string) `{!FileLaws files} certPath keyPath c ct key w :
  cert c = Some ct → privateKey c = Some key → certPath ≠ keyPath →
  let wr := WriteCertificate_ certPath keyPath c w in
  wr.1 = Some None → certificate_written certPath ct w →
  files wr.2 !! certPath = Some (pem_Encode (MkBlock "CERTIFICATE" (Raw ct))) ∧
  files wr.2 !! keyPath = Some (marshalKeyToPem key).
Proof.
  intros Hct Hk Hne wr. unfold wr, WriteCertificate_, certificate_written. rewrite M_bind_unfold, Hct, Hk.
  destruct (os_Create certPath w).1 as [err|] eqn:Ec; [done|]. run_M. intros [= Hw] [He Hcl].
  rewrite (write_law _ _ _ Hw), (close_law _ _ Hcl).
  destruct (encode_law certPath (MkBlock "CERTIFICATE" (Raw ct)) "" (os_Create certPath w).2) as (t & rest & Ht & Hf & Hr).
  { rewrite (create_law _ _ Ec). apply lookup_insert_eq. }
  rewrite Hf, Ht, (Hr He), append_empty_r.
  split; [rewrite lookup_insert_ne by done; apply lookup_insert_eq | apply lookup_insert_eq].
Qed.

(** C15: the renewal of the certificate: a request is made with a new key of the
    type of the current one; when the operator's answer parses, it is accepted
    with that key and the type does not change; and what is then written to
    the two files without an error, of the key file or of the two calls on the
    certificate file whose errors the code drops, loads after a restart as the
    same manager. *)
Theorem renewal_roundtrip `{!CryptoLaws} (files : W → gmap string string) `{!FileLaws files}
    deviceID (c : CertManager) w csr keyPEM signed b ct w1 certPath keyPath :
  (GenerateCSR_ deviceID c w).1 = inr (csr, keyPEM) →
  pem_Decode signed = Some b → ParseCertificate (Bytes b) = inr ct → certPath ≠ keyPath →
  let r := SetCertificate_ signed keyPEM c in
  r.1 = None ∧ cert r.2 = Some ct ∧ privateKeyType r.2 = privateKeyType c ∧ key_ok r.2 ∧
  let wr := WriteCertificate_ certPath keyPath r.2 w1 in
  (wr.1 = Some None → certificate_written certPath ct w1 →
   ∃ certText keyText, files wr.2 !! certPath = Some certText ∧ files wr.2 !! keyPath = Some keyText ∧
     new_manager None (rootCA c) certText keyText = inr r.2).
Proof.
  intros Hg Hb Hct Hne. unfold GenerateCSR_ in Hg. rewrite M_bind_unfold in Hg.
  destruct (generateKey (privateKeyType c) w).1 as [err|key] eqn:Ek; [done|]. rewrite M_bind_unfold in Hg.
  apply generateKey_type in Ek. cbn [fst mret M_ret] in Hg. destruct (CreateCertificateRequest _ _ _).1; [done|].
  injection Hg as _ <-. intros r. unfold r. rewrite (set_marshalled _ _ _ _ _ Hb Hct). cbn [fst snd].
  split; [done|]. split; [done|]. split; [done|]. split; [split; [by eexists|by destruct key]|].
  intros Hw Hcw.
  match type of Hw with (WriteCertificate_ _ _ ?c' _).1 = _ =>
    destruct (WriteCertificate_files files certPath keyPath c' ct key w1) as [Hc Hk]; [done..|] end.
  eexists _, _. split; [exact Hc|]. split; [exact Hk|].
  unfold new_manager. rewrite (set_marshalled _ (MkBlock "CERTIFICATE" (Raw ct)) ct);
    [done | apply decode_encode; set_solver | apply parse_raw].
Qed.

(** ** The manager behind the controller *)

(** The methods of a shared manager, with the paths of the configuration. *)
#[local] Instance shared_manager (certPath keyPath : string) : Certificates (CertManager * W) := {|
  GenerateCSR := λ id cw, let '(r, w') := GenerateCSR_ id cw.1 cw.2 in (r, (cw.1, w'));
  SetCertificate := λ ct k cw, let '(r, c') := SetCertificate_ ct k cw.1 in (r, (c', cw.2));
  WriteCertificate := λ cw, let '(r, w') := WriteCertificate_ certPath keyPath cw.1 cw.2 in
                            (default None r, (cw.1, w'))
|}.

(** an answer of the operator that is not a certificate is taken for a
    successful registration: the error of [SetCertificate] is dropped, the old
    certificate and key are written again, and the device goes on with them. *)
Theorem bad_certificate_registers `{!Client (CertManager * W)} deviceID certPath keyPath s c w csr keyPEM signed :
  key_ok c →
  (GenerateCSR_ "deviceID" c w).1 = inr (csr, keyPEM) →
  (∀ cw, (Register deviceID (MkRegistrationInfo csr (hardware (manager s))) cw) = (inr signed, cw)) →
  pem_Decode signed = None →
  (∀ w, (WriteCertificate_ certPath keyPath c w).1 = Some None) →
  let r := handle_register (H1 := shared_manager certPath keyPath) deviceID s (c, w) in
  register r.1 = None ∧ requests r.1 = requests s ++ [ReqRegister true] ∧ r.2.1 = c.
Proof.
  intros Hk Hg Hreg Hs Hw r. unfold r, handle_register. rewrite M_bind_unfold. cbn [GenerateCSR shared_manager fst snd].
  destruct (GenerateCSR_ "deviceID" c w) as [g w1]. cbn in Hg. subst g. cbn [fst snd].
  rewrite M_bind_unfold. cbn [manager set_register]. rewrite Hreg. cbn [fst snd].
  rewrite !M_bind_unfold. cbn [SetCertificate shared_manager fst snd]. unfold SetCertificate_. rewrite Hs. cbn [fst snd].
  cbn [WriteCertificate shared_manager fst snd]. specialize (Hw w1). destruct (WriteCertificate_ certPath keyPath c w1) as [wr w2].
  cbn in Hw. subst wr. cbn. done.
Qed.
End manager.

(** ** Witnesses: texts as certificates and keys *)
Module TextCrypto.
Notation World := (gmap string string).

(** A block is its type, a colon and its bytes. *)
Fixpoint split_block (s : string) : option Block :=
  match s with
  | EmptyString => None
  | String c s' =>
      if bool_decide (c = ":"%char) then Some (MkBlock "" s')
      else match split_block s' with
           | Some b => Some (MkBlock (String c (BType b)) (Bytes b))
           | None => None
           end
  end.

#[export] Instance text_crypto : Crypto string string string := {|
  pem_Decode := split_block;
  pem_Encode := λ b, BType b +:+ ":" +:+ Bytes b;
  ParseCertificate := inr;
  Raw := λ s, s;
  CertSignature := λ s, s;
  ParseECPrivateKey := inr;
  ParsePKCS1PrivateKey := inr;
  MarshalECPrivateKey := λ s, s;
  MarshalPKCS1PrivateKey := λ s, s
|}.

#[export] Instance text_device : Device string string World := {|
  ecdsa_GenerateKey := λ w, (inr "new", w);
  rsa_GenerateKey := λ _ w, (inr "new", w);
  CreateCertificateRequest := λ _ _ w, (inr "csr", w);
  os_Create := λ p w, (None, <[p := ""]> w);
  pem_Encode_to := λ p b w, (None, <[p := default "" (w !! p) +:+ pem_Encode b]> w);
  file_Close := λ _ w, (None, w);
  WriteFile := λ p t w, (None, <[p := t]> w)
|}.

#[export] Instance text_files : FileLaws (λ w : World, w).
Proof.
  split; try done. intros p b s w Hs. exists (pem_Encode b), "". simpl. rewrite Hs.
  by rewrite append_empty_r.
Qed.

(** The same device once the disk is full of what is not the key. *)
Definition full_disk : Device string string World := {|
  ecdsa_GenerateKey := λ w, (inr "new", w);
  rsa_GenerateKey := λ _ w, (inr "new", w);
  CreateCertificateRequest := λ _ _ w, (inr "csr", w);
  os_Create := λ p w, (None, <[p := ""]> w);
  pem_Encode_to := λ p b w, (Some (errorString "no space left on device"), w);
  file_Close := λ _ w, (None, w);
  WriteFile := λ p t w, (None, <[p := t]> w)
|}.

Definition current : CertManager string string string :=
  MkCertManager [] (Some "old") (Some (ECKey "k")) ecPrivateKeyBlockType.
End TextCrypto.
Import TextCrypto.

#[local] Instance text_laws : CryptoLaws (Cert := string) (EC := string) (RSA := string).
Proof.
  split; try done. intros [ty bytes]. cbn [BType]. intros Hty.
  repeat (apply elem_of_cons in Hty as [->|Hty]; [reflexivity|]). by apply not_elem_of_nil in Hty.
Qed.

Lemma renewal_roundtrip_witness :
  let w : World := ∅ in
  let r := SetCertificate_ "CERTIFICATE:signed" "EC PRIVATE KEY:new" current in
  (r.1 = None ∧ cert r.2 = Some "signed" ∧ privateKeyType r.2 = privateKeyType current ∧ key_ok r.2 ∧
   let wr := WriteCertificate_ "cert.pem" "key.pem" r.2 w in
   (wr.1 = Some None → certificate_written "cert.pem" "signed" w →
    ∃ certText keyText, wr.2 !! "cert.pem" = Some certText ∧ wr.2 !! "key.pem" = Some keyText ∧
      new_manager None (rootCA current) certText keyText = inr r.2)).
Proof.
  intros w. apply (renewal_roundtrip (λ w : World, w) "deviceID" current w "CERTIFICATE REQUEST:csr" "EC PRIVATE KEY:new"
    "CERTIFICATE:signed" (MkBlock "CERTIFICATE" "signed") "signed" w "cert.pem" "key.pem").
  - reflexivity.
  - reflexivity.
  - reflexivity.
  - discriminate.
Defined.

(** the error of writing the certificate is dropped: a device whose files
    behave as documented can report that the certificate and the key are
    written while the certificate's file is empty, and does not start again. *)
Theorem write_error_dropped :
  ∃ dev : Device string string World, FileLaws (H0 := dev) (λ w : World, w) ∧
    let wr := WriteCertificate_ (H0 := dev) "cert.pem" "key.pem" current (∅ : World) in
    wr.1 = Some None ∧ wr.2 !! "cert.pem" = Some "" ∧ wr.2 !! "key.pem" = Some "EC PRIVATE KEY:k" ∧
    ∃ err, new_manager (Cert := string) (EC := string) (RSA := string) None [] "" "EC PRIVATE KEY:k" = inl err.
Proof.
  exists full_disk. split; [|split; [done|split; [done|split; [done|by eexists]]]].
  split; try done. intros p b s w Hs. exists "", (pem_Encode b). split; [done|]. split; [|done].
  simpl. rewrite append_empty_r. by rewrite insert_id.
Qed.

(** The operator answers a text without a block. *)
#[local] Instance bad_operator : Client (CertManager string string string * World) := {|
  Enrol := λ _ _ w, (None, w);
  Register := λ _ _ w, (inr "garbage", w);
  SendHeartbeat := λ _ _ w, (None, w);
  GetConfiguration := λ _ w, (None, w)
|}.

Lemma bad_certificate_registers_witness :
  let s := set_register (Some true) (set_enrol None (new_controller Operator.manager0)) in
  let r := handle_register (H1 := shared_manager "cert.pem" "key.pem") "device" s (current, ∅ : World) in
  register r.1 = None ∧ requests r.1 = requests s ++ [ReqRegister true] ∧ r.2.1 = current.
Proof.
  intros s. apply (bad_certificate_registers "device" "cert.pem" "key.pem" s current (∅ : World)
    "CERTIFICATE REQUEST:csr" "EC PRIVATE KEY:new" "garbage").
  - split; [by eexists | reflexivity].
  - reflexivity.
  - intros cw. reflexivity.
  - reflexivity.
  - intros w. reflexivity.
Defined.
