(* ===== verification/Client.v ===== *)
(** * The HTTP client of the operator's API

    [internal/client/http]: the requests ([request.go]), the client and its
    transport, made again when the certificate changes ([client.go]), and the
    extraction of the answer ([utils.go]).  JSON, the TLS library, identifiers
    and the transport itself are parameters. *)
From Stdlib Require Import Strings.String.
From S2P Require Import Prelude GoStd Entity Interfaces Hardware Config Controller Certificate.
Local Open Scope string_scope.
Local Open Scope list_scope.

(** ** Requests (request.go) *)
Inductive requestType := postDataMessageForDeviceType | getDataMessageForDeviceType.
Inductive actionType := enrolActionType | registerActionType | heartbeatActionType | configurationActionType.

(** The dynamic types of a body. *)
Inductive body_value :=
  | NilBody
  | EnrolBody (e : EnrolementInfo)
  | RegisterBody (r : RegistrationInfo)
  | HeartbeatBody (h : Heartbeat).

Record RequestBuilder := MkRequestBuilder {
  rb_action : actionType;
  rb_type : requestType;
  rb_body : body_value;
  rb_url : string;
  rb_header : gmap string string
}.

Definition newRequestBuilder : RequestBuilder :=
  MkRequestBuilder enrolActionType postDataMessageForDeviceType NilBody "" ∅.
Definition with_type (t : requestType) (rb : RequestBuilder) : RequestBuilder :=
  MkRequestBuilder (rb_action rb) t (rb_body rb) (rb_url rb) (rb_header rb).
Definition with_action (a : actionType) (rb : RequestBuilder) : RequestBuilder :=
  MkRequestBuilder a (rb_type rb) (rb_body rb) (rb_url rb) (rb_header rb).
Definition with_url (u : string) (rb : RequestBuilder) : RequestBuilder :=
  MkRequestBuilder (rb_action rb) (rb_type rb) (rb_body rb) u (rb_header rb).
Definition with_body (b : body_value) (rb : RequestBuilder) : RequestBuilder :=
  MkRequestBuilder (rb_action rb) (rb_type rb) b (rb_url rb) (rb_header rb).
Definition with_header (key value : string) (rb : RequestBuilder) : RequestBuilder :=
  MkRequestBuilder (rb_action rb) (rb_type rb) (rb_body rb) (rb_url rb) (<[key := value]> (rb_header rb)).

(** [models.Message] *)
Inductive content :=
  | EnrolContent (c : models_EnrolmentInfo)
  | RegisterContent (c : models_RegistrationInfo)
  | HeartbeatContent (c : models_Heartbeat).
Record envelope := MkEnvelope { Directive : string; Content : content; MessageID : string; EnvType : string }.

Record Request := MkRequest {
  method : string; request_url : string; request_body : option string; headers : gmap string string }.
Record Response := MkResponse { StatusCode : Z; response_body : error + string }.

(** JSON values, and what the client does with them. *)
Class Json (J : Type) := {
  Marshal_envelope : envelope → error + string;
  (** a message response: its content *)
  Unmarshal_response : string → error + J;
  as_map : J → option (gmap string J);
  as_string : J → option string;
  (** [transformToConfiguration] *)
  to_configuration : gmap string J → error + models_Message
}.

(** What a transport is made of: the roots, the certificate and its key. *)
Record Transport (Cert EC RSA : Type) := MkTransport {
  t_roots : list string; t_cert : Cert; t_key : option (PrivateKey EC RSA) }.
Arguments MkTransport {Cert EC RSA} _ _ _.
Arguments t_roots {Cert EC RSA} _.
Arguments t_cert {Cert EC RSA} _.
Arguments t_key {Cert EC RSA} _.

(** Identifiers, and the check of [http.NewRequestWithContext]. *)
Class Http (Cert EC RSA W : Type) := {
  uuid_New : M W string;
  request_error : string → string → option error;
  (** [tls.X509KeyPair] on the certificate and key, encoded *)
  X509KeyPair : Cert → option (PrivateKey EC RSA) → option error;
  (** the round trip over a transport, [None] the default one *)
  Do : option (Transport Cert EC RSA) → Request → M W (error + Response)
}.

(** The request made of a builder; [None] is a panic of the translation. *)
Section build.
Context {J Cert EC RSA W : Type} `{Json J} `{Http Cert EC RSA W}.

(** The [switch rb.action]: the data of the message, [inl] an error. *)
Definition request_data (rb : RequestBuilder) : M W (option (error + option envelope)) :=
  match rb_action rb with
  | enrolActionType =>
      match rb_body rb with
      | EnrolBody enrolInfo =>
          match enrolInfoEntity2Model enrolInfo with
          | None => mret None
          | Some m => id ← uuid_New; mret (Some (inr (Some (MkEnvelope "enrolment" (EnrolContent m) id "command"))))
          end
      | _ => mret (Some (inl (errorString "EnrolmentInfo type body is required for this type of request")))
      end
  | registerActionType =>
      match rb_body rb with
      | RegisterBody registrationInfo =>
          match registerInfoEntity2Model registrationInfo with
          | None => mret None
          | Some m => id ← uuid_New; mret (Some (inr (Some (MkEnvelope "registration" (RegisterContent m) id "command"))))
          end
      | _ => mret (Some (inl (errorString "RegistrationInfo type body is required for this type of request")))
      end
  | heartbeatActionType =>
      match rb_body rb with
      | HeartbeatBody heartbeatInfo =>
          id ← uuid_New;
          mret match heartbeatEntity2Model heartbeatInfo with
               | None => None
               | Some m => Some (inr (Some (MkEnvelope "heartbeat" (HeartbeatContent m) id "")))
               end
      | _ => mret (Some (inl (errorString "Heartbeat type body is required for this type of request")))
      end
  | configurationActionType => mret (Some (inr None))
  end.

Definition Build (rb : RequestBuilder) : M W (option (error + Request)) :=
  let method := match rb_type rb with postDataMessageForDeviceType => "POST" | _ => "GET" end in
  data ← request_data rb;
  mret match data with
       | None => None
       | Some (inl err) => Some (inl err)
       | Some (inr data) =>
           match match data with
                 | Some d => match Marshal_envelope d with inl err => inl err | inr payload => inr (Some payload) end
                 | None => inr None
                 end with
           | inl err => Some (inl (wrapError ("cannot marshal for enrol action type '" +:+ error_text err +:+ "'") err))
           | inr body =>
               match request_error method (rb_url rb) with
               | Some err => Some (inl (wrapError ("cannot create request '" +:+ error_text err +:+ "'") err))
               | None => Some (inr (MkRequest method (rb_url rb) body (rb_header rb)))
               end
           end
       end.
End build.

(** ** The client (client.go) *)
Definition certificateKey : string := "certificate".
Definition rootUrl : string := "/api/flotta-management/v1".

Record HttpClient (Cert EC RSA : Type) := MkHttpClient {
  serverURL : string;
  certificateSignature : string;
  transport : option (Transport Cert EC RSA)
}.
Arguments MkHttpClient {Cert EC RSA} _ _ _.
Arguments serverURL {Cert EC RSA} _.
Arguments certificateSignature {Cert EC RSA} _.
Arguments transport {Cert EC RSA} _.

Section client.
Context {J Cert EC RSA W : Type} `{Json J} `{Crypto Cert EC RSA} `{Http Cert EC RSA W}.
Notation CertManager := (CertManager Cert EC RSA).
Notation HttpClient := (HttpClient Cert EC RSA).
Notation State := (HttpClient * CertManager * W)%type.

(** [New], without transport wrappers. *)
Definition new_client (url_Parse : string → error + string) (path : string) (certManager : option CertManager)
    : error + HttpClient :=
  match certManager with
  | None => inl (errorString "Certificate manager is missing")
  | Some _ =>
      match url_Parse path with
      | inl err => inl (errorString ("Server address error: " +:+ error_text err))
      | inr url => inr (MkHttpClient url "" None)
      end
  end.

(** [createTransport] with [createTLSConfig]. *)
Definition createTransport (cm : CertManager) (ct : Cert) : error + Transport Cert EC RSA :=
  match X509KeyPair ct (privateKey cm) with
  | Some err => inl (wrapError ("cannot create x509 key pair: " +:+ error_text err) err)
  | None => let '(caRoot, _, key) := GetCertificates cm in inr (MkTransport caRoot ct key)
  end.

(** [getClient]: the outer [None] is the panic on a manager without certificate. *)
Definition getClient (c : HttpClient) (cm : CertManager)
    : option ((error + option (Transport Cert EC RSA)) * HttpClient) :=
  match cert cm with
  | None => None
  | Some ct =>
      if bool_decide (certificateSignature c ≠ CertSignature ct) then
        match createTransport cm ct with
        | inl err => Some (inl err, c)
        | inr t => Some (inr (Some t), MkHttpClient (serverURL c) (CertSignature ct) (Some t))
        end
      else Some (inr (transport c), c)
  end.

(** Computations of the client: [None] is a panic. *)
Definition CM (A : Type) : Type := M State (option A).

Definition do_ (request : Request) : CM (error + Response) := λ '(c, cm, w),
  match getClient c cm with
  | None => (None, (c, cm, w))
  | Some (inl err, c) => (Some (inl err), (c, cm, w))
  | Some (inr t, c) => let '(r, w) := Do t request w in (Some r, (c, cm, w))
  end.

Definition build_ (rb : HttpClient → RequestBuilder) : CM (error + Request) := λ '(c, cm, w),
  let '(r, w) := Build (rb c) w in (r, (c, cm, w)).

(** Build, then send: the part the methods share.  [wrap_build] and [wrap_do]
    are the errors they make. *)
Definition send_ (rb : HttpClient → RequestBuilder) (wrap_build wrap_do : string) : CM (error + Response) :=
  request ← build_ rb;
  match request with
  | None => mret None
  | Some (inl err) => mret (Some (inl (wrapError (wrap_build +:+ " '" +:+ error_text err +:+ "'") err)))
  | Some (inr request) =>
      response ← do_ request;
      mret match response with
           | None => None
           | Some (inl err) => Some (inl (wrapError (wrap_do +:+ " '" +:+ error_text err +:+ "'") err))
           | Some (inr response) => Some (inr response)
           end
  end.

Definition device_url (c : HttpClient) (deviceID direction : string) : string :=
  serverURL c +:+ "/" +:+ rootUrl +:+ "/data/" +:+ deviceID +:+ "/" +:+ direction.

(** [%d] of a status code *)
Context (show_code : Z → string).

(** ** The answer (utils.go) *)
Definition extractData {T S} (response : Response) (extractKey : string) (cast : J → option T)
    (tranformFunc : T → error + S) : error + S :=
  match response_body response with
  | inl err => inl (wrapError ("cannot read response body '" +:+ error_text err +:+ "'") err)
  | inr data =>
      match Unmarshal_response data with
      | inl err => inl (wrapError ("cannot read marshal body into message response '" +:+ error_text err +:+ "'") err)
      | inr message =>
          match as_map message with
          | None => inl (errorString "payload content is not a map")
          | Some content =>
              match (if bool_decide (extractKey ≠ "") then content !! extractKey else Some message) with
              | None => inl (errorString "cannot find configuration data in payload")
              | Some d =>
                  match cast d with
                  | None => inl (errorString "cannot extract data from content. wrong type")
                  | Some res =>
                      match tranformFunc res with
                      | inl err => inl (wrapError ("error applying transformation function " +:+ error_text err) err)
                      | inr result => inr result
                      end
                  end
              end
          end
      end
  end.

(** ** The methods *)
Definition json_header : RequestBuilder → RequestBuilder := with_header "Content-Type" "application/json".

Definition Client_Enrol (deviceID : string) (enrolInfo : EnrolementInfo) : CM (option error) :=
  response ← send_ (λ c, with_body (EnrolBody enrolInfo) (with_url (device_url c deviceID "out")
                   (json_header (with_action enrolActionType (with_type postDataMessageForDeviceType newRequestBuilder)))))
              "cannot create enrollment request" "cannot enrol device";
  mret match response with
       | None => None
       | Some (inl err) => Some (Some err)
       | Some (inr response) =>
           if (400 <=? StatusCode response)%Z
           then Some (Some (errorString ("cannot enrol device. code: " +:+ show_code (StatusCode response))))
           else Some None
       end.

Definition Client_Register (deviceID : string) (registerInfo : RegistrationInfo) : CM (error + string) :=
  response ← send_ (λ c, with_body (RegisterBody registerInfo) (with_url (device_url c deviceID "out")
                   (json_header (with_action registerActionType (with_type postDataMessageForDeviceType newRequestBuilder)))))
              "cannot create registration request" "cannot register device";
  mret match response with
       | None => None
       | Some (inl err) => Some (inl err)
       | Some (inr response) => Some (extractData response certificateKey as_string inr)
       end.

Definition Client_Heartbeat (deviceID : string) (heartbeat : Heartbeat) : CM (option error) :=
  response ← send_ (λ c, json_header (with_body (HeartbeatBody heartbeat) (with_url (device_url c deviceID "out")
                   (with_action heartbeatActionType (with_type postDataMessageForDeviceType newRequestBuilder)))))
              "cannot create heartbeat request" "cannot send heartbeat";
  mret match response with
       | None => None
       | Some (inl err) => Some (Some err)
       | Some (inr response) =>
           if (400 <=? StatusCode response)%Z
           then Some (Some (errorString ("cannot send heartbeat. code: " +:+ show_code (StatusCode response))))
           else Some None
       end.

(** The status code is not looked at. *)
Definition Client_GetConfiguration (deviceID : string) : CM (error + DeviceConfigurationMessage) :=
  response ← send_ (λ c, with_url (device_url c deviceID "in")
                   (json_header (with_action configurationActionType (with_type getDataMessageForDeviceType newRequestBuilder))))
              "cannot create configuration request" "cannot get configuration";
  mret match response with
       | None => None
       | Some (inl err) => Some (inl err)
       | Some (inr response) =>
           match extractData response "" as_map to_configuration with
           | inl err => Some (inl err)
           | inr data => match configurationModel2Entity data with None => None | Some m => Some (inr m) end
           end
       end.
End client.

(** ** Requests *)
Definition directive (a : actionType) : string :=
  match a with
  | enrolActionType => "enrolment"
  | registerActionType => "registration"
  | heartbeatActionType => "heartbeat"
  | configurationActionType => ""
  end.

(** The body is of the type the action requires. *)
Definition body_fits (rb : RequestBuilder) : Prop :=
  match rb_action rb, rb_body rb with
  | enrolActionType, EnrolBody _ | registerActionType, RegisterBody _ | heartbeatActionType, HeartbeatBody _
  | configurationActionType, _ => True
  | _, _ => False
  end.

(** The translation of the body panics. *)
Definition body_panics (rb : RequestBuilder) : Prop :=
  match rb_action rb, rb_body rb with
  | enrolActionType, EnrolBody e => enrolInfoEntity2Model e = None
  | registerActionType, RegisterBody r => registerInfoEntity2Model r = None
  | heartbeatActionType, HeartbeatBody h => heartbeatEntity2Model h = None
  | _, _ => False
  end.

Section requests.
Context {J Cert EC RSA W : Type} `{Json J} `{Http Cert EC RSA W}.

Lemma request_data_spec rb w :
  match (request_data rb w).1 with
  | Some (inr None) => rb_action rb = configurationActionType
  | Some (inr (Some d)) => body_fits rb ∧ rb_action rb ≠ configurationActionType ∧ Directive d = directive (rb_action rb)
  | Some (inl _) => ¬ body_fits rb
  | None => body_panics rb
  end.
Proof.
  unfold request_data, body_fits, body_panics. destruct (rb_action rb); [..|done];
    (destruct (rb_body rb) as [|e|r|h]; try (cbn; tauto)).
  - destruct (enrolInfoEntity2Model e); [|done]. by rewrite M_bind_unfold.
  - destruct (registerInfoEntity2Model r); [|done]. by rewrite M_bind_unfold.
  - rewrite M_bind_unfold. cbn. by destruct (heartbeatEntity2Model h).
Qed.

(** the request made of a builder, on every branch: the method of the type,
    the address and the headers of the builder, no body exactly for a
    configuration, and otherwise the message of the action; an error when the
    body has another type than the action requires, or when encoding it or the
    address fails; a panic only of the translation of the body. *)
Theorem Build_spec rb w :
  match (Build rb w).1 with
  | Some (inr req) =>
      method req = match rb_type rb with postDataMessageForDeviceType => "POST" | getDataMessageForDeviceType => "GET" end ∧
      request_url req = rb_url rb ∧ headers req = rb_header rb ∧ body_fits rb ∧
      match request_body req with
      | None => rb_action rb = configurationActionType
      | Some payload => rb_action rb ≠ configurationActionType ∧
          ∃ d, Marshal_envelope d = inr payload ∧ Directive d = directive (rb_action rb)
      end
  | Some (inl err) => ¬ body_fits rb ∨
      ∃ msg cause, err = wrapError msg cause ∧
        ((∃ d, Marshal_envelope d = inl cause) ∨ (∃ m, request_error (Cert := Cert) m (rb_url rb) = Some cause))
  | None => body_panics rb
  end.
Proof.
  unfold Build. run_M.
  pose proof (request_data_spec rb w) as Hd. destruct (request_data rb w).1 as [[err|[d|]]|]; [by left| | |done].
  - destruct Hd as (Hf & Ha & Hdir). destruct (Marshal_envelope d) as [err|payload] eqn:Em.
    { right. eexists _, _. split; [done|]. left. by exists d. }
    destruct (request_error _ _) eqn:Er.
    { right. eexists _, _. split; [done|]. right. by eexists. }
    cbn. split_and!; try done; by exists d.
  - assert (body_fits rb) as Hf by (unfold body_fits; by rewrite Hd).
    destruct (request_error _ _) eqn:Er.
    { right. eexists _, _. split; [done|]. right. by eexists. }
    cbn. by split_and!.
Qed.
End requests.

(** ** The transport *)
Section transport.
Context {J Cert EC RSA W : Type} `{Json J} `{Crypto Cert EC RSA} `{Http Cert EC RSA W}.
Notation CertManager := (CertManager Cert EC RSA).
Notation HttpClient := (HttpClient Cert EC RSA).

(** The recorded signature is the one of the certificate of the transport. *)
Definition client_ok (c : HttpClient) : Prop :=
  certificateSignature c = match transport c with Some t => CertSignature (t_cert t) | None => "" end.

Lemma new_client_ok url_Parse path (cm : option CertManager) c : new_client url_Parse path cm = inr c → client_ok c.
Proof. unfold new_client. destruct cm; [|done]. case_match; by intros [= <-]. Qed.

Lemma getClient_result (c : HttpClient) (cm : CertManager) r c' :
  client_ok c → getClient c cm = Some (r, c') →
  client_ok c' ∧ ∃ ct, cert cm = Some ct ∧
    match r with
    | inr t => CertSignature ct = match t with Some t => CertSignature (t_cert t) | None => "" end ∧ transport c' = t
    | inl _ => c' = c
    end.
Proof.
  unfold getClient, createTransport. intros Hc. destruct (cert cm) as [ct|]; [|done]. case_bool_decide as E.
  - destruct (X509KeyPair _ _); intros [= <- <-]; (split; [done|]); by exists ct.
  - intros [= <- <-]. split; [done|]. exists ct. unfold client_ok in Hc. split; [done|]. split; [|done]. by rewrite <-E.
Qed.

Lemma do_keeps_ok request (c : HttpClient) (cm : CertManager) (w : W) :
  client_ok c → let s := (do_ request (c, cm, w)).2 in client_ok s.1.1 ∧ s.1.2 = cm.
Proof.
  intros Hc. unfold do_. destruct (getClient c cm) as [[[err|t] c']|] eqn:E; [..|done].
  - by destruct (getClient_result c cm _ _ Hc E) as [? _].
  - destruct (getClient_result c cm _ _ Hc E) as [? _]. by destruct (Do t request w).
Qed.

Lemma send_keeps_ok rb wb wd (c : HttpClient) (cm : CertManager) (w : W) :
  client_ok c → let s := (send_ rb wb wd (c, cm, w)).2 in client_ok s.1.1 ∧ s.1.2 = cm.
Proof.
  intros Hc. unfold send_, build_. rewrite M_bind_unfold.
  destruct (Build (rb c) w) as [[[err|request]|] w1]; [done| |done].
  cbn [fst snd]. rewrite M_bind_unfold. by apply do_keeps_ok.
Qed.

(** C16: every request is made with the current certificate: the round trip
    happens over a transport whose certificate has the signature of the one the
    manager holds at that moment, so that the first request after a
    registration uses the new certificate; or it does not happen, because that
    certificate and its key do not match, and the client is left as it was, to
    try again with the next request. *)
Theorem requests_use_current_certificate (c : HttpClient) (cm : CertManager) (w : W) request ct :
  client_ok c → cert cm = Some ct →
  let r := do_ request (c, cm, w) in
  client_ok r.2.1.1 ∧ r.2.1.2 = cm ∧
  ((∃ t, r.1 = Some (Do t request w).1 ∧ r.2.2 = (Do t request w).2 ∧
         match t with Some t => CertSignature (t_cert t) | None => "" end = CertSignature ct) ∨
   (∃ cause err, X509KeyPair ct (privateKey cm) = Some cause ∧ r = (Some (inl err), (c, cm, w)))).
Proof.
  intros Hc Hct r. destruct (do_keeps_ok request c cm w Hc) as [H1' H2']. split; [done|]. split; [done|].
  unfold r, do_. destruct (getClient c cm) as [[[err|t] c']|] eqn:E.
  - right. destruct (getClient_result c cm _ _ Hc E) as (_ & _ & _ & ->).
    unfold getClient, createTransport in E. rewrite Hct in E. case_bool_decide; [|done].
    destruct (X509KeyPair ct (privateKey cm)) as [cause|]; [|done]. by exists cause, err.
  - left. destruct (getClient_result c cm _ _ Hc E) as (_ & ct' & Hct' & Hs & _). simplify_eq.
    exists t. destruct (Do t request w). by split_and!.
  - unfold getClient in E. rewrite Hct in E. case_bool_decide; [|done]. by case_match.
Qed.

(** ** The errors of the client *)
Context (show_code : Z → string).

Definition plain_error (err : error) : Prop := is_Unauthorized err = false.

Lemma send_error (rb : HttpClient → RequestBuilder) wb wd s err :
  (send_ rb wb wd s).1 = Some (inl err) → plain_error err.
Proof.
  unfold send_. rewrite M_bind_unfold. destruct (build_ rb s).1 as [[e|request]|]; [|rewrite M_bind_unfold|];
    cbn [fst mret M_ret]; [by intros [= <-]| |done].
  destruct (do_ _ _).1 as [[e|response]|]; by intros [= <-].
Qed.

Lemma extractData_error {T S} response key (cast : J → option T) (f : T → error + S) err :
  extractData response key cast f = inl err → plain_error err.
Proof. unfold extractData. repeat (case_match; try done); by intros [= <-]. Qed.

(** no method of the client returns an [UnauthorizedAccessError], whatever
    the operator answers, so that the controller cannot tell a refused
    certificate from another failure. *)
Theorem client_never_unauthorized deviceID e r h s err :
  (Client_Enrol show_code deviceID e s).1 = Some (Some err) ∨
  (Client_Register deviceID r s).1 = Some (inl err) ∨
  (Client_Heartbeat show_code deviceID h s).1 = Some (Some err) ∨
  (Client_GetConfiguration deviceID s).1 = Some (inl err) →
  is_Unauthorized err = false.
Proof.
  unfold Client_Enrol, Client_Register, Client_Heartbeat, Client_GetConfiguration.
  run_M. intros [Hr|[Hr|[Hr|Hr]]];
    match goal with Hx : match (send_ ?rb ?wb ?wd s).1 with _ => _ end = _ |- _ =>
      destruct (send_ rb wb wd s).1 as [[e'|response]|] eqn:E; [|try (case_match; simplify_eq/=; done)|done] end;
    try (injection Hr as ->; by eapply send_error).
  - injection Hr as Hr. by eapply extractData_error.
  - destruct (extractData _ _ _ _) eqn:Ex; [injection Hr as ->; by eapply extractData_error|by case_match].
Qed.
End transport.

(** ** Witnesses: an operator that refuses *)
Module Refusal.
#[export] Instance no_json : Json unit := {|
  Marshal_envelope := λ d, inr (Directive d);
  Unmarshal_response := λ _, inr tt;
  as_map := λ _, None;
  as_string := λ _, None;
  to_configuration := λ _, inl (errorString "no configuration")
|}.
#[export] Instance refusing : Http string string string unit := {|
  uuid_New := λ w, ("id", w);
  request_error := λ _ _, None;
  X509KeyPair := λ _ _, None;
  Do := λ _ _ w, (inr (MkResponse 401 (inr "{}")), w)
|}.
Definition client0 : HttpClient string string string := MkHttpClient "https://operator" "" None.
End Refusal.
Import Refusal TextCrypto.

Lemma requests_use_current_certificate_witness :
  let request := MkRequest "GET" "https://operator" None ∅ in
  let r := do_ (W := unit) request (client0, current, tt) in
  client_ok r.2.1.1 ∧ r.2.1.2 = current ∧
  ((∃ t, r.1 = Some (Do t request tt).1 ∧ r.2.2 = (Do t request tt).2 ∧
         match t with
         | Some t => CertSignature (EC := string) (RSA := string) (t_cert t)
         | None => ""
         end = CertSignature (EC := string) (RSA := string) "old") ∨
   (∃ cause err, X509KeyPair (W := unit) "old" (privateKey current) = Some cause ∧
      r = (Some (inl err), (client0, current, tt)))).
Proof.
  intros request.
  exact (requests_use_current_certificate (W := unit) client0 current tt request "old" eq_refl eq_refl).
Defined.

Lemma client_never_unauthorized_witness :
  let err := errorString "payload content is not a map" in
  (Client_GetConfiguration (J := unit) (W := unit) "device" (client0, current, tt)).1 = Some (inl err) ∧ is_Unauthorized err = false.
Proof.
  intros err. split; [reflexivity|].
  apply (client_never_unauthorized (J := unit) (W := unit) (λ _, "401") "device"
           (MkEnrolementInfo (MkEnrolmentInfoFeatures (hw0 None) "") "default")
           (MkRegistrationInfo "csr" (hw0 None)) (MkHeartbeat [] None Up "" []) (client0, current, tt)).
  right; right; right. reflexivity.
Defined.
