(* ===== verification/LogTransport.v ===== *)
(** * The transport that logs

    [internal/client/http/log_wrapper.go]: a round tripper that reads the body
    of the request, logs the request, passes it to the next round tripper, and
    does the same with the response.  Readers are consumed by reading, and
    requests and responses are shared with the caller and changed in place, so
    all three live in a memory.  The wrapper is not installed (the lines of
    [New] that would are commented out); what it promises is that installing it
    changes nothing but the log. *)
From Stdlib Require Import Strings.String.
From S2P Require Import Prelude GoStd Interfaces.
Local Open Scope string_scope.
Local Open Scope list_scope.

(** ** The memory *)

(** Pointers. *)
Notation Loc := nat.

(** An [io.ReadCloser]: what is left to read, the error reading meets after it
    and the error of [Close].  [nop] is that of [ioutil.NopCloser], which
    closing does not affect; reading another reader after closing it fails. *)
Record Reader := MkReader {
  content : string;
  read_error : option error;
  close_error : option error;
  nop : bool
}.
Definition NopCloser (body : string) : Reader := MkReader body None None true.
Definition ErrClosed : error := errorString "http: invalid Read on closed Body".
Definition closed (r : Reader) : Reader :=
  if nop r then r else MkReader "" (Some ErrClosed) (close_error r) false.

Definition Header : Type := gmap string (list string).

Record HttpRequest := MkHttpRequest {
  rq_Method : string; rq_URL : string; rq_Host : string; rq_Header : Header; rq_Body : option Loc }.
Record HttpResponse := MkHttpResponse {
  rs_Proto : string; rs_Status : string; rs_Code : Z; rs_Header : Header; rs_Body : option Loc }.

Definition with_request_body (b : option Loc) (r : HttpRequest) : HttpRequest :=
  MkHttpRequest (rq_Method r) (rq_URL r) (rq_Host r) (rq_Header r) b.
Definition with_response_body (b : option Loc) (r : HttpResponse) : HttpResponse :=
  MkHttpResponse (rs_Proto r) (rs_Status r) (rs_Code r) (rs_Header r) b.

Record Memory := MkMemory {
  readers : gmap Loc Reader;
  requests : gmap Loc HttpRequest;
  responses : gmap Loc HttpResponse
}.
Definition set_readers (x : gmap Loc Reader) (m : Memory) : Memory := MkMemory x (requests m) (responses m).
Definition set_requests (x : gmap Loc HttpRequest) (m : Memory) : Memory := MkMemory (readers m) x (responses m).
Definition set_responses (x : gmap Loc HttpResponse) (m : Memory) : Memory := MkMemory (readers m) (requests m) x.

(** The lines of the log. *)
Inductive line := Debug (text : string) | DebugHeader (key value : string) | ErrorLine (text : string).

(** [http.RoundTripper], on the pointer of a request: a response, an error, or
    both. *)
Definition RoundTripper (W : Type) : Type := Loc → M (Memory * W) (option Loc * option error).

(** The logger, and [mime.ParseMediaType]. *)
Class Logging (W : Type) := {
  log : line → M W unit;
  ParseMediaType : string → error + string
}.

Section wrapper.
Context {W : Type} `{MapOrder W} `{Logging W}.

(** A loop that logs the elements of a list. *)
Fixpoint log_all (ls : list line) : M W unit :=
  match ls with [] => mret tt | l :: ls' => _ ← log l; log_all ls' end.

(** [logBody]: the error of the content type, then the body, whatever its type. *)
Definition body_lines (header : Header) (body : string) : list line :=
  let contentType := match header !! "Content-Type" with Some (v :: _) => v | _ => "" end in
  (if bool_decide (contentType ≠ "") then
     match ParseMediaType contentType with
     | inl err => [ErrorLine ("Can't parse content type '" +:+ contentType +:+ "': " +:+ error_text err)]
     | inr _ => []
     end
   else []) ++ [Debug body].

(** The loop over the header, in the order of the range. *)
Definition header_lines (order : list (string * list string)) : list line :=
  concat (map (λ kv, map (DebugHeader kv.1) kv.2) order).

Definition logRequest (request : HttpRequest) (body : option string) : M W unit :=
  _ ← log (Debug ("Request method is: " +:+ rq_Method request));
  _ ← log (Debug ("Request URL is: " +:+ rq_URL request));
  _ ← (if bool_decide (rq_Host request ≠ "")
       then log (Debug ("Request host: " +:+ rq_Host request)) else mret tt);
  order ← range_map (rq_Header request);
  _ ← log_all (header_lines order);
  match body with
  | Some body =>
      _ ← log (Debug "Request body follows"); log_all (body_lines (rq_Header request) body)
  | None => mret tt
  end.

Definition logResponse (response : HttpResponse) (body : option string) : M W unit :=
  _ ← log (Debug ("Response protocol is: " +:+ rs_Proto response));
  _ ← log (Debug ("Response status is: " +:+ rs_Status response));
  order ← range_map (rs_Header response);
  _ ← log_all (header_lines order);
  match body with
  | Some body =>
      _ ← log (Debug "Response body follows"); log_all (body_lines (rs_Header response) body)
  | None => mret tt
  end.

(** ** The operations on the memory *)
Notation State := (Memory * W)%type.

(** A call that touches the world only. *)
Definition lift {A} (m : M W A) : M State A := λ s, ((m s.2).1, (s.1, (m s.2).2)).

Definition ErrNoReader : error := errorString "no such reader".

(** [ioutil.ReadAll]: nothing is left to read. *)
Definition ReadAll (l : Loc) : M State (error + string) := λ s,
  match readers s.1 !! l with
  | None => (inl ErrNoReader, s)
  | Some r =>
      (match read_error r with Some err => inl err | None => inr (content r) end,
       (set_readers (<[l := MkReader "" (read_error r) (close_error r) (nop r)]> (readers s.1)) s.1, s.2))
  end.

Definition Close (l : Loc) : M State (option error) := λ s,
  match readers s.1 !! l with
  | None => (Some ErrNoReader, s)
  | Some r => (close_error r, (set_readers (<[l := closed r]> (readers s.1)) s.1, s.2))
  end.

(** [ioutil.NopCloser(bytes.NewBuffer(body))] *)
Definition NewReader (body : string) : M State Loc := λ s,
  let l := fresh (dom (readers s.1)) in
  (l, (set_readers (<[l := NopCloser body]> (readers s.1)) s.1, s.2)).

(** [request.Body = ..] and [response.Body = ..] *)
Definition set_request_body (q b : Loc) : M State unit := λ s,
  (tt, (set_requests (alter (with_request_body (Some b)) q (requests s.1)) s.1, s.2)).
Definition set_response_body (q b : Loc) : M State unit := λ s,
  (tt, (set_responses (alter (with_response_body (Some b)) q (responses s.1)) s.1, s.2)).

(** The fields of a request and of a response; [None] is a nil pointer. *)
Definition get_request (q : Loc) : M State (option HttpRequest) := λ s, (requests s.1 !! q, s).
Definition get_response (q : Loc) : M State (option HttpResponse) := λ s, (responses s.1 !! q, s).

(** ** The round trip *)

(** [ioutil.ReadAll] and [Close] of a body: the content, or the first error. *)
Definition drain (b : Loc) : M State (error + string) :=
  r ← ReadAll b;
  match r with
  | inl err => mret (inl err)
  | inr body =>
      err ← Close b;
      mret match err with Some err => inl err | None => inr body end
  end.

(** The response of the next round tripper. *)
Definition read_response (p : Loc) : M State (option (option Loc * option error)) :=
  response ← get_response p;
  match response with
  | None => mret None
  | Some response =>
      match rs_Body response with
      | Some b =>
          body ← drain b;
          match body with
          | inl err => mret (Some (Some p, Some err))
          | inr body =>
              _ ← lift (logResponse response (Some body));
              l ← NewReader body; _ ← set_response_body p l;
              mret (Some (Some p, None))
          end
      | None => _ ← lift (logResponse response None); mret (Some (Some p, None))
      end
  end.

Definition send (next : RoundTripper W) (q : Loc) : M State (option (option Loc * option error)) :=
  r ← next q;
  match r with
  | (response, Some err) => mret (Some (response, Some err))
  | (None, None) => mret None
  | (Some p, None) => read_response p
  end.

(** [RoundTrip] of the wrapper around [next], on the pointer [q] of a request.
    The response is a named result: it is returned beside the error of its
    body.  [None] is the panic on a nil request, or on a round tripper that
    returns neither. *)
Definition RoundTrip (next : RoundTripper W) (q : Loc) : M State (option (option Loc * option error)) :=
  request ← get_request q;
  match request with
  | None => mret None
  | Some request =>
      match rq_Body request with
      | Some b =>
          body ← drain b;
          match body with
          | inl err => mret (Some (None, Some err))
          | inr body =>
              _ ← lift (logRequest request (Some body));
              l ← NewReader body; _ ← set_request_body q l;
              send next q
          end
      | None => _ ← lift (logRequest request None); send next q
      end
  end.
End wrapper.

(** ** What a caller sees *)

(** What reading and closing a body would give. *)
Definition body_view (m : Memory) (l : Loc) : error + string :=
  match readers m !! l with
  | None => inl ErrNoReader
  | Some r =>
      match read_error r, close_error r with
      | Some err, _ | None, Some err => inl err
      | None, None => inr (content r)
      end
  end.

(** A request and a response with the body a pointer leads to. *)
Definition request_view (m : Memory) (q : Loc) : option (HttpRequest * option (error + string)) :=
  (λ r, (with_request_body None r, body_view m <$> rq_Body r)) <$> requests m !! q.
Definition response_view (m : Memory) (p : Loc) : option (HttpResponse * option (error + string)) :=
  (λ r, (with_response_body None r, body_view m <$> rs_Body r)) <$> responses m !! p.

(** An answer, with the response read in the memory after the call; the inner
    [None] is a pointer to nothing. *)
Notation answer := (option (option (HttpResponse * option (error + string))) * option error)%type.
Definition view {W} (r : (option Loc * option error) * (Memory * W)) : answer :=
  (response_view r.2.1 <$> r.1.1, r.1.2).
Definition outcome {W} (r : option (option Loc * option error) * (Memory * W)) : option answer :=
  (λ a, view (a, r.2)) <$> r.1.

(** What the wrapper makes of an answer: the same, except that an unreadable
    body is reported as an error beside its response, which is then empty. *)
Definition wrapped (a : answer) (o : option answer) : Prop :=
  match a with
  | (response, Some err) => o = Some (response, Some err)
  | (None, None) | (Some None, None) => o = None
  | (Some (Some (fields, Some (inl err))), None) => ∃ body, o = Some (Some (Some (fields, body)), Some err)
  | (Some (Some response), None) => o = Some (Some (Some response), None)
  end.

(** ** Transparency *)

(** What the log does not touch: the rest of the world. *)
Class Unobserved {W X : Type} `{MapOrder W} `{Logging W} (rest : W → X) : Prop := {
  log_rest : ∀ l w, rest (log l w).2 = rest w;
  range_rest : ∀ V (m : gmap string V) w, rest (range_map m w).2 = rest w
}.

(** A round tripper sees of a request its fields and what can be read of its
    body, and of the world what the log does not touch. *)
Definition sees_only {W X : Type} (rest : W → X) (next : RoundTripper W) : Prop :=
  ∀ q m w m' w', request_view m q = request_view m' q → rest w = rest w' →
    view (next q (m, w)) = view (next q (m', w')) ∧
    rest (next q (m, w)).2.2 = rest (next q (m', w')).2.2.

Section transparency.
Context {W X : Type} `{MapOrder W} `{Logging W} (rest : W → X) `{!Unobserved rest}.
Implicit Types (w : W) (s : Memory * W).

Lemma log_all_rest ls w : rest (log_all ls w).2 = rest w.
Proof.
  revert w. induction ls as [|l ls IH]; intros w; [done|]. cbn [log_all].
  rewrite M_bind_unfold, IH. apply log_rest.
Qed.

Lemma body_log_rest header (body : option string) label w :
  rest ((match body with
         | Some body => _ ← log (Debug label); log_all (body_lines header body)
         | None => mret tt
         end : M W unit) w).2 = rest w.
Proof. destruct body; [|done]. by rewrite M_bind_unfold, log_all_rest, log_rest. Qed.

Lemma logRequest_rest request body w : rest (logRequest request body w).2 = rest w.
Proof.
  unfold logRequest. rewrite !M_bind_unfold, body_log_rest, log_all_rest, range_rest.
  case_bool_decide; cbn [snd mret M_ret]; by rewrite ?log_rest.
Qed.

Lemma logResponse_rest response body w : rest (logResponse response body w).2 = rest w.
Proof.
  unfold logResponse. by rewrite !M_bind_unfold, body_log_rest, log_all_rest, range_rest, !log_rest.
Qed.

(** Reading and closing a body consumes its reader and touches nothing else. *)
Lemma drain_result b m w :
  (drain b (m, w)).1 = body_view m b ∧ (drain b (m, w)).2.2 = w ∧
  requests (drain b (m, w)).2.1 = requests m ∧ responses (drain b (m, w)).2.1 = responses m.
Proof.
  unfold drain, ReadAll, Close, body_view. rewrite M_bind_unfold. cbn [fst snd].
  destruct (readers m !! b) as [r|]; [|done]. cbn [fst snd].
  destruct (read_error r) as [err|]; [done|]. rewrite M_bind_unfold. cbn [fst snd readers set_readers].
  rewrite lookup_insert_eq. cbn [fst snd mret M_ret close_error requests responses set_readers].
  by destruct (close_error r).
Qed.

(** The reader put in the place of a body that was read gives it again. *)
Lemma new_body_view body s :
  let r := NewReader body s in
  body_view r.2.1 r.1 = inr body ∧ r.2.2 = s.2 ∧ requests r.2.1 = requests s.1 ∧ responses r.2.1 = responses s.1.
Proof.
  unfold NewReader, body_view. cbn [fst snd readers set_readers]. by rewrite lookup_insert_eq.
Qed.

(** Reading the response: its body is put back, or its error returned. *)
Lemma readable_response p m w r :
  responses m !! p = Some r → (∀ b err, rs_Body r = Some b → body_view m b ≠ inl err) →
  ∃ m' w', read_response p (m, w) = (Some (Some p, None), (m', w')) ∧
    response_view m' p = response_view m p ∧ rest w' = rest w.
Proof.
  intros Hr Hb. unfold read_response, get_response. rewrite M_bind_unfold. cbn [fst snd]. rewrite Hr.
  destruct (rs_Body r) as [b|] eqn:Eb.
  - destruct (drain_result b m w) as (Hd & Hw & _ & Hrs). rewrite M_bind_unfold.
    destruct (drain b (m, w)) as [[err|body] [m1 w1]]; cbn [fst snd] in *; [by destruct (Hb b err)|].
    subst w1. rewrite M_bind_unfold. unfold lift. cbn [fst snd].
    pose proof (logResponse_rest r (Some body) w) as Hl. destruct (logResponse r (Some body) w) as [u w2].
    cbn [fst snd] in *. rewrite M_bind_unfold.
    destruct (new_body_view body (m1, w2)) as (Hv & Hw2 & _ & Hr2).
    destruct (NewReader body (m1, w2)) as [l [m2 w3]]. cbn [fst snd] in *. subst w3.
    rewrite M_bind_unfold. cbn [fst snd set_response_body mret M_ret]. do 2 eexists. split; [done|]. split; [|done].
    unfold response_view. cbn [responses set_responses]. rewrite lookup_alter_eq, Hr2, Hrs, Hr.
    cbn. rewrite Eb. cbn. do 3 f_equal. rewrite <-Hd. exact Hv.
  - rewrite M_bind_unfold. unfold lift. cbn [fst snd mret M_ret]. do 2 eexists. split; [done|]. split; [done|].
    apply logResponse_rest.
Qed.

Lemma unreadable_response p m w r b err :
  responses m !! p = Some r → rs_Body r = Some b → body_view m b = inl err →
  ∃ m', read_response p (m, w) = (Some (Some p, Some err), (m', w)) ∧ responses m' = responses m.
Proof.
  intros Hr Eb Hb. unfold read_response, get_response. rewrite M_bind_unfold. cbn [fst snd]. rewrite Hr, Eb.
  destruct (drain_result b m w) as (Hd & Hw & _ & Hrs). rewrite M_bind_unfold. rewrite Hb in Hd.
  destruct (drain b (m, w)) as [d [m1 w1]]. cbn [fst snd] in *. subst. by exists m1.
Qed.

Lemma read_response_result p s :
  wrapped (view ((Some p, None), s)) (outcome (read_response p s)) ∧ rest (read_response p s).2.2 = rest s.2.
Proof.
  destruct s as [m w]. unfold view at 1. cbn [fst snd fmap option_fmap option_map].
  destruct (responses m !! p) as [r|] eqn:Er.
  2:{ unfold read_response, get_response, response_view. rewrite M_bind_unfold. cbn [fst snd]. by rewrite Er. }
  assert ((∀ b err, rs_Body r = Some b → body_view m b ≠ inl err) ∨
          ∃ b err, rs_Body r = Some b ∧ body_view m b = inl err) as [Hb|(b & err & Eb & Hb)].
  { destruct (rs_Body r) as [b|]; [|by left]. destruct (body_view m b) eqn:E; [right; by eauto|left; congruence]. }
  - destruct (readable_response p m w r Er Hb) as (m' & w' & -> & Hv & Hw).
    unfold outcome, view. cbn [fst snd fmap option_fmap option_map]. rewrite Hv. split; [|done].
    unfold response_view. rewrite Er. cbn. destruct (rs_Body r) as [b|]; [|done]. cbn.
    destruct (body_view m b) eqn:E; [by destruct (Hb b e)|done].
  - destruct (unreadable_response p m w r b err Er Eb Hb) as (m' & -> & Hm). split; [|done].
    unfold outcome, view, response_view. cbn. rewrite Hm, Er. cbn. rewrite Eb. cbn. rewrite Hb. by eexists.
Qed.

Lemma send_result next q s :
  wrapped (view (next q s)) (outcome (send next q s)) ∧ rest (send next q s).2.2 = rest (next q s).2.2.
Proof.
  unfold send. rewrite M_bind_unfold.
  destruct (next q s) as [[[p|] [err|]] s1]; [| |done..].
  { unfold outcome, view. cbn. by destruct (response_view s1.1 p) as [[? [[]|]]|]. }
  apply read_response_result.
Qed.

(** The state in which the next round tripper is called: the request has the
    fields and the body it had, the log has changed. *)
Lemma sending next q m w r :
  requests m !! q = Some r →
  (∀ b err, rq_Body r = Some b → body_view m b ≠ inl err) →
  ∃ m1 w1, RoundTrip next q (m, w) = send next q (m1, w1) ∧
    request_view m1 q = request_view m q ∧ rest w1 = rest w.
Proof.
  intros Hr Hb. unfold RoundTrip, get_request. rewrite M_bind_unfold. cbn [fst snd]. rewrite Hr.
  destruct (rq_Body r) as [b|] eqn:Eb.
  - destruct (drain_result b m w) as (Hd & Hw & Hrq & _). rewrite M_bind_unfold.
    destruct (drain b (m, w)) as [[err|body] [m1 w1]]; cbn [fst snd] in *; [by destruct (Hb b err)|].
    subst w1. rewrite M_bind_unfold. unfold lift. cbn [fst snd].
    pose proof (logRequest_rest r (Some body) w) as Hl. destruct (logRequest r (Some body) w) as [u w2].
    cbn [fst snd] in *. rewrite M_bind_unfold.
    destruct (new_body_view body (m1, w2)) as (Hv & Hw2 & Hr2 & _).
    destruct (NewReader body (m1, w2)) as [l [m2 w3]]. cbn [fst snd] in *. subst w3.
    rewrite M_bind_unfold. cbn [fst snd set_request_body]. do 2 eexists. split; [done|]. split; [|done].
    unfold request_view. cbn [requests set_requests]. rewrite lookup_alter_eq, Hr2, Hrq, Hr.
    cbn. rewrite Eb. cbn. do 3 f_equal. rewrite <-Hd. exact Hv.
  - rewrite M_bind_unfold. unfold lift. cbn [fst snd]. do 2 eexists. split; [done|]. split; [done|].
    apply logRequest_rest.
Qed.

(** C39: the wrapper is transparent: when the body of the request can be read it
    returns what the next round tripper answers to that request, the response
    with a body that gives what its own gave, and the world is as without it but
    for the log: both bodies were consumed and put back.  When the body of the
    request cannot be read its error is returned, the next one is not called
    and nothing is logged; the error of a response body is returned beside the
    response. *)
Theorem log_transparent next q m w r :
  sees_only rest next → requests m !! q = Some r →
  match body_view m <$> rq_Body r with
  | Some (inl err) => (RoundTrip next q (m, w)).1 = Some (None, Some err) ∧ (RoundTrip next q (m, w)).2.2 = w
  | _ =>
      wrapped (view (next q (m, w))) (outcome (RoundTrip next q (m, w))) ∧
      rest (RoundTrip next q (m, w)).2.2 = rest (next q (m, w)).2.2
  end.
Proof.
  intros Hs Hr.
  assert ((∀ b err, rq_Body r = Some b → body_view m b ≠ inl err) →
    wrapped (view (next q (m, w))) (outcome (RoundTrip next q (m, w))) ∧
    rest (RoundTrip next q (m, w)).2.2 = rest (next q (m, w)).2.2) as Hsent.
  { intros Hb. destruct (sending next q m w r Hr Hb) as (m1 & w1 & -> & Hv & Hw).
    destruct (send_result next q (m1, w1)) as [H1 H2]. rewrite H2.
    destruct (Hs q m1 w1 m w Hv Hw) as [E1 E2]. by rewrite E1 in H1. }
  destruct (rq_Body r) as [b|] eqn:Eb; cbn [fmap option_fmap option_map]; [|apply Hsent; congruence].
  destruct (body_view m b) as [err|body] eqn:Ev; [|apply Hsent; congruence].
  unfold RoundTrip, get_request. rewrite M_bind_unfold. cbn [fst snd]. rewrite Hr, Eb, M_bind_unfold.
  destruct (drain_result b m w) as (Hd & Hw & _). rewrite Ev in Hd.
  destruct (drain b (m, w)) as [d [m1 w1]]. cbn [fst snd] in *. by subst.
Qed.
End transparency.

(** ** Witness: an echo behind the wrapper, with a log in memory *)
Module Echo.
Notation World := (list line * nat)%type.

#[export] Instance echo_order : MapOrder World := {|
  range_map := λ V m w, (map_to_list m, w);
  range_map_perm := λ V m w, Permutation_refl (map_to_list m)
|}.
#[export] Instance memory_log : Logging World := {|
  log := λ l w, (tt, (w.1 ++ [l], w.2));
  ParseMediaType := λ t, inr t
|}.
#[export] Instance count_unobserved : Unobserved (snd : World → nat).
Proof. split; done. Qed.

(** It counts the requests, reads the body of each and answers its text in a
    response at address 0, with a reader at address 0. *)
Definition echo : RoundTripper World := λ q s,
  let body := match requests s.1 !! q with
              | Some r => match rq_Body r with Some b => body_view s.1 b | None => inr "" end
              | None => inr ""
              end in
  let text := match body with inr text => text | inl _ => "" end in
  ((Some 0, None),
   (MkMemory {[0 := NopCloser text]} ∅ {[0 := MkHttpResponse "HTTP/1.1" "200 OK" 200 ∅ (Some 0)]},
    (s.2.1, S s.2.2))).

(** A request at address 0, whose body is a file at address 7. *)
Definition memory : Memory :=
  MkMemory {[7 := MkReader "hello" None None false]}
    {[0 := MkHttpRequest "POST" "/" "host" {["Content-Type" := ["text/plain"]]} (Some 7)]} ∅.

Lemma echo_sees_only : sees_only (snd : World → nat) echo.
Proof.
  intros q m w m' w' Hv Hw.
  assert ((match requests m !! q with
           | Some r => match rq_Body r with Some b => body_view m b | None => inr "" end
           | None => inr ""
           end : error + string) =
          match requests m' !! q with
          | Some r => match rq_Body r with Some b => body_view m' b | None => inr "" end
          | None => inr ""
          end) as E.
  { unfold request_view in Hv. destruct (requests m !! q) as [r|], (requests m' !! q) as [r'|]; try done.
    injection Hv as _ _ _ _ Hb. by destruct (rq_Body r), (rq_Body r'); simplify_eq/=. }
  unfold echo. cbn [fst snd] in *. rewrite E. split; [done|]. by rewrite Hw.
Qed.
End Echo.
Import Echo.

Lemma log_transparent_witness :
  wrapped (view (echo 0 (memory, ([], 0)))) (outcome (RoundTrip echo 0 (memory, ([], 0)))) ∧
  (RoundTrip echo 0 (memory, ([], 0))).2.2.2 = 1.
Proof.
  apply (log_transparent (snd : list line * nat → nat) echo 0 memory ([], 0)
    (MkHttpRequest "POST" "/" "host" {["Content-Type" := ["text/plain"]]} (Some 7))).
  - exact echo_sees_only.
  - reflexivity.
Defined.

(** the request of the caller is changed: behind a round tripper that leaves
    the memory alone its body is no longer the one the caller put there, which
    is consumed. *)
Theorem request_body_replaced :
  let s := (RoundTrip (λ _ s, ((None, Some (errorString "down")), s)) 0 (memory, ([], 0) : list line * nat)).2.1 in
  (∃ r l, requests s !! 0 = Some r ∧ rq_Body r = Some l ∧ l ≠ 7 ∧ body_view s l = inr "hello") ∧
  body_view s 7 = inl ErrClosed.
Proof. vm_compute. split; [|done]. do 2 eexists. split; [done|]. split; [done|]. done. Qed.
