(* ===== verification/Startup.v ===== *)
(** * The start of the process

    [cmd/root.go]: the flags of the command line, the certificate manager made
    of files, and the body of the command: it builds every component, starts
    their goroutines in order, waits for a signal and shuts down.  The file
    system, the parser of log levels and the constructors of the libraries are
    parameters. *)
From Stdlib Require Import Strings.String.
From S2P Require Import Prelude GoStd Entity Interfaces Profile Hardware Config Executor Certificate Client ProcessConfig.
Local Open Scope string_scope.
Local Open Scope list_scope.

(** ** The command line *)

(** [init]: the flags with their defaults, sorted as [VisitAll] visits them;
    [help] is added by cobra, which does not run the command when it is given. *)
Definition default_flags : list (string * string) :=
  [("ca-root", ""); ("cert", ""); ("config", "c"); ("help", "false"); ("key", ""); ("log-level", "info");
   ("namespace", "default"); ("server", "")].

(** The flags after the command line gave values to some. *)
Definition parse_flags (given : gmap string string) : list Flag :=
  map (λ nd, match given !! nd.1 with Some x => MkFlag nd.1 x true | None => MkFlag nd.1 nd.2 false end)
    default_flags.

(** The variable bound to a flag: [StringVar] makes it the flag's value. *)
Fixpoint variable_of (name : string) (flags : list Flag) : string :=
  match flags with
  | [] => ""
  | f :: flags' => if bool_decide (flag_Name f = name) then flag_Value f else variable_of name flags'
  end.

Inductive log_level := DebugLevel | InfoLevel | WarnLevel | ErrorLevel | FatalLevel.

(** What the command does to the components once they are built. *)
Inductive action :=
  | ControllerStart | SchedulerStart | ProfileManagerStart
  | AwaitSignal | Cancel | ControllerShutdown | ProfileManagerShutdown.

(** ** The command *)
Class Startup (Cert EC RSA C K W : Type) := {
  ReadFile : string → M W (error + string);
  (** [zap.ParseAtomicLevel], and the error of [Config.Build] *)
  ParseAtomicLevel : string → error + log_level;
  logger_error : log_level → option error;
  (** [x509.SystemCertPool] *)
  SystemCertPool : M W (option error);
  url_Parse : string → error + string;
  NewConnection : string → error + C;
  k8s_Conf : Type;
  BuildConfigFromFlags : string → string → error + k8s_Conf;
  NewForConfig : k8s_Conf → error + K
}.

(** The components of a started device. *)
Record Started (Cert EC RSA C K V : Type) := MkStarted {
  st_level : log_level;
  st_certificates : CertManager Cert EC RSA;
  st_client : HttpClient Cert EC RSA;
  st_executors : list (executorItem C K);
  st_manager : ConfManager;
  (** the reader given to [SetWorkloadStatusReader], if it is called *)
  st_statusReader : option (gmap string JobState);
  st_viper : V;
  st_actions : list action
}.
Arguments MkStarted {Cert EC RSA C K V} _ _ _ _ _ _ _ _.
Arguments st_level {Cert EC RSA C K V} _.
Arguments st_certificates {Cert EC RSA C K V} _.
Arguments st_client {Cert EC RSA C K V} _.
Arguments st_executors {Cert EC RSA C K V} _.
Arguments st_manager {Cert EC RSA C K V} _.
Arguments st_statusReader {Cert EC RSA C K V} _.
Arguments st_viper {Cert EC RSA C K V} _.
Arguments st_actions {Cert EC RSA C K V} _.

Section startup.
Context {Cert EC RSA C K V W : Type} `{Crypto Cert EC RSA} `{Startup Cert EC RSA C K W} `{Viper V W}.
Notation CertManager := (CertManager Cert EC RSA).
Notation Started := (Started Cert EC RSA C K V).

(** [setupLogger]: the level, or the error it panics with. *)
Definition setupLogger (logLevel : string) : error + log_level :=
  let level := match ParseAtomicLevel logLevel with inr l => l | inl _ => InfoLevel end in
  match logger_error level with Some err => inl err | None => inr level end.

(** [initCertificateManager] *)
Definition initCertificateManager (caroot certFile keyFile : string) : M W (error + CertManager) :=
  caRoot ← ReadFile caroot;
  match caRoot with
  | inl err => mret (inl err)
  | inr caRoot =>
      cert ← ReadFile certFile;
      match cert with
      | inl err => mret (inl err)
      | inr cert =>
          privateKey ← ReadFile keyFile;
          match privateKey with
          | inl err => mret (inl err)
          | inr privateKey =>
              system ← SystemCertPool;
              mret match new_manager system [caRoot] cert privateKey with
                   | inl err => inl err
                   | inr certManager => inr certManager
                   end
          end
      end
  end.

(** [executor.New] *)
Definition executor_New (v : V) : M W (list (executorItem C K)) :=
  xdg ← GetXDGRuntimeDir v;
  mret (createExecutors xdg (GetKubeConfig v) (PodmanExecutor_New NewConnection)
          (K8sExecutor_New BuildConfigFromFlags NewForConfig)).

(** The function [Run] of the command: [inl] is the error of a panic. *)
Definition Run (flags : list Flag) : M W (error + Started) :=
  match setupLogger (variable_of "log-level" flags) with
  | inl err => mret (inl err)
  | inr level =>
      r ← InitConfiguration flags (variable_of "config" flags);
      let '(_, (flags, v)) := r in
      certManager ← initCertificateManager (variable_of "ca-root" flags) (variable_of "cert" flags)
                      (variable_of "key" flags);
      match certManager with
      | inl err => mret (inl err)
      | inr certManager =>
          match new_client url_Parse (GetServerAddress v) (Some certManager) with
          | inl err => mret (inl err)
          | inr httpClient =>
              executors ← executor_New v;
              mret (inr (MkStarted level certManager httpClient executors
                           newConfManager None v
                           [ControllerStart; SchedulerStart; ProfileManagerStart; AwaitSignal;
                            Cancel; ControllerShutdown; ProfileManagerShutdown]))
          end
      end
  end.

(** ** Facts *)
Lemma Run_result flags w :
  let level := setupLogger (variable_of "log-level" flags) in
  let '(_, (flags', v), w1) := InitConfiguration flags (variable_of "config" flags) w in
  let '(certificates, w2) := initCertificateManager (variable_of "ca-root" flags') (variable_of "cert" flags')
                               (variable_of "key" flags') w1 in
  (Run flags w).1 =
    match level, certificates with
    | inl err, _ | _, inl err => inl err
    | inr level, inr cm =>
        match new_client url_Parse (GetServerAddress v) (Some cm) with
        | inl err => inl err
        | inr client =>
            inr (MkStarted level cm client (executor_New v w2).1 newConfManager None v
                   [ControllerStart; SchedulerStart; ProfileManagerStart; AwaitSignal;
                    Cancel; ControllerShutdown; ProfileManagerShutdown])
        end
    end.
Proof.
  cbv zeta. unfold Run. destruct (setupLogger _) as [err|level].
  { by repeat (case_match; try done). }
  rewrite M_bind_unfold. destruct (InitConfiguration flags _ w) as [[e [flags' v]] w1]. cbn [fst snd].
  rewrite M_bind_unfold. destruct (initCertificateManager _ _ _ w1) as [[err|cm] w2]; cbn [fst snd]; [done|].
  destruct (new_client _ _ _); [done|]. by rewrite M_bind_unfold.
Qed.

(** What is the same in every device that starts. *)
Lemma Run_started flags w d :
  (Run flags w).1 = inr d →
  st_statusReader d = None ∧ st_manager d = newConfManager ∧
  st_actions d = [ControllerStart; SchedulerStart; ProfileManagerStart; AwaitSignal;
                  Cancel; ControllerShutdown; ProfileManagerShutdown].
Proof.
  intros Hr. pose proof (Run_result flags w) as Hs. cbv zeta in Hs.
  destruct (InitConfiguration flags _ w) as [[e [flags' v]] w1].
  destruct (initCertificateManager _ _ _ w1) as [[err|cm] w2]; rewrite Hr in Hs; [by destruct (setupLogger _)|].
  destruct (setupLogger _); [done|]. destruct (new_client _ _ _); [done|]. by injection Hs as ->.
Qed.

(** The variable of a flag of the command line. *)
Lemma variable_given given name dflt :
  (name, dflt) ∈ default_flags → variable_of name (parse_flags given) = default dflt (given !! name).
Proof.
  unfold parse_flags. assert (NoDup (map fst default_flags)) as Hd by (apply (bool_decide_unpack _); by vm_compute).
  revert Hd. generalize default_flags as l. induction l as [|[n d] l IH]; intros Hd Hin;
    [by apply not_elem_of_nil in Hin|]. cbn [map fst snd] in *. apply list.NoDup_cons in Hd as [Hn Hd].
  assert (flag_Name (match given !! n with Some x => MkFlag n x true | None => MkFlag n d false end) = n) as E
    by by destruct (given !! n).
  cbn [variable_of]. rewrite E. apply elem_of_cons in Hin as [[= -> ->]|Hin].
  - rewrite bool_decide_eq_true_2 by done. by destruct (given !! n).
  - rewrite bool_decide_eq_false_2; [by apply IH|]. intros ->. apply Hn. by apply (list_elem_of_fmap_2 fst _ (name, dflt)).
Qed.

(** The flags of the command are as binding needs them. *)
Lemma parse_flags_ok given : flags_ok (parse_flags given).
Proof.
  assert (∀ A (g : string → A), map (λ f, g (flag_Name f)) (parse_flags given) = map (λ nd, g nd.1) default_flags) as E.
  { intros A g. unfold parse_flags. rewrite map_map. apply map_ext. intros [n d]. cbn [fst snd]. by destruct (given !! n). }
  split.
  - apply (Forall_map (λ f, plain (flag_Name f)) (λ b, b = true)). rewrite E.
    apply (bool_decide_unpack _). by vm_compute.
  - unfold key_of. rewrite (E _ (λ n, strings_ToLower (strings_ReplaceAll n "-" "_"))).
    apply (bool_decide_unpack _). by vm_compute.
Qed.

Lemma server_bound `{!ViperLaws V W} given v :
  let v' := (bindFlags (parse_flags given) v).2 in
  GetServerAddress v' =
    match given !! "server", IsSet v server_key with
    | Some x, false => x
    | _, _ => GetServerAddress v
    end.
Proof.
  cbv zeta. pose proof (bindFlags_bound (parse_flags given) v (parse_flags_ok given)) as Hb.
  set (v' := (bindFlags (parse_flags given) v).2) in *.
  assert (∃ f f', bound v f f' v' ∧
    f = match given !! "server" with Some x => MkFlag "server" x true | None => MkFlag "server" "" false end)
    as (f & f' & Hf & Ef).
  { eapply Forall2_lookup_l in Hb as (f' & _ & Hf'); [by eauto|exact (eq_refl : parse_flags given !! 7%nat = Some _)]. }
  assert (same_key "server" server_key = true) as Hk by done.
  destruct (keys_fold v _ _ Hk) as (Es & Eg & _), (keys_fold v' _ _ Hk) as (Es' & Eg' & El').
  unfold GetServerAddress. rewrite <-Es. unfold bound in Hf.
  assert (key_of f = "server") as Ek by (rewrite Ef; by destruct (given !! "server")).
  rewrite Ek in Hf. destruct (given !! "server") as [x|]; rewrite Ef in Hf; cbn [Changed flag_Value] in Hf.
  - destruct Hf as (_ & _ & Hx). destruct (IsSet v "server").
    + apply GetString_Get. by rewrite <-Eg', <-Eg.
    + by rewrite <-El'.
  - destruct Hf as [[_ Hx] _]. apply GetString_Get. by rewrite <-Eg', <-Eg.
Qed.

(** ** Properties *)

(** the process panics exactly when the logger, a certificate file, the
    certificate or the address of the operator is wrong, with the first of these
    errors; otherwise it starts the controller, the scheduler and the profile
    manager in this order, with the certificate manager of the files that the
    flags name and a client of the address the configuration has; the error of
    the configuration itself is dropped. *)
Theorem Run_spec flags w :
  let level := setupLogger (variable_of "log-level" flags) in
  let '(_, (flags', v), w1) := InitConfiguration flags (variable_of "config" flags) w in
  let '(certificates, w2) := initCertificateManager (variable_of "ca-root" flags') (variable_of "cert" flags')
                               (variable_of "key" flags') w1 in
  (Run flags w).1 =
    match level, certificates with
    | inl err, _ | _, inl err => inl err
    | inr level, inr cm =>
        match new_client url_Parse (GetServerAddress v) (Some cm) with
        | inl err => inl err
        | inr client =>
            inr (MkStarted level cm client (executor_New v w2).1 newConfManager None v
                   [ControllerStart; SchedulerStart; ProfileManagerStart; AwaitSignal;
                    Cancel; ControllerShutdown; ProfileManagerShutdown])
        end
    end.
Proof. apply Run_result. Qed.

(** C35: the flag [--config] has the default value [c]: unless it is given, or a
    file of that name can be read, the address of the operator given with
    [--server] has no effect at all. *)
Theorem server_flag_ignored given x w :
  given !! "config" = None →
  (ReadInConfig (SetConfigFile "c" (AutomaticEnv (SetEnvPrefix prefix (viper_New w).1))) (viper_New w).2).1.1 ≠ None →
  (Run (parse_flags (<["server" := x]> given)) w).1 = (Run (parse_flags given) w).1.
Proof.
  intros Hc He.
  assert (∀ name dflt, (name, dflt) ∈ default_flags → name ≠ "server" →
    variable_of name (parse_flags (<["server" := x]> given)) = variable_of name (parse_flags given)) as Hv.
  { intros name dflt Hin Hn. rewrite !(variable_given _ name dflt Hin). by rewrite lookup_insert_ne. }
  assert (variable_of "config" (parse_flags given) = "c") as Econfig.
  { rewrite (variable_given given "config" "c"); [by rewrite Hc|]. apply (bool_decide_unpack _). by vm_compute. }
  pose proof (Run_result (parse_flags (<["server" := x]> given)) w) as H1'.
  pose proof (Run_result (parse_flags given) w) as H2'. cbv zeta in *.
  rewrite (Hv "config" "c"), Econfig in H1' by (done || (apply (bool_decide_unpack _); by vm_compute)).
  rewrite Econfig in H2'. rewrite InitConfiguration_unreadable in H1', H2' by done.
  rewrite (Hv "log-level" "info"), (Hv "ca-root" ""), (Hv "cert" ""), (Hv "key" "") in H1'
    by (done || (apply (bool_decide_unpack _); by vm_compute)).
  destruct (initCertificateManager _ _ _ _) as [cm w2]. by rewrite H1', H2'.
Qed.

(** C36: with a configuration file that can be read, the requests of the device
    go to the address of [--server] when the file and the environment have none,
    and otherwise to theirs, whatever was given. *)
Theorem server_address `{!ViperLaws V W} given c w d :
  let read := ReadInConfig (SetConfigFile c (AutomaticEnv (SetEnvPrefix prefix (viper_New w).1))) (viper_New w).2 in
  given !! "config" = Some c → c ≠ "" → read.1.1 = None →
  (Run (parse_flags given) w).1 = inr d →
  url_Parse match given !! "server", IsSet read.1.2 server_key with
            | Some x, false => x
            | _, _ => GetServerAddress read.1.2
            end = inr (serverURL (st_client d)).
Proof.
  intros read Hc Hn He Hr. pose proof (Run_result (parse_flags given) w) as Hs. cbv zeta in Hs.
  rewrite (variable_given given "config" "c"), Hc in Hs by (apply (bool_decide_unpack _); by vm_compute).
  rewrite <-(server_bound given read.1.2). change (default "c" (Some c)) with c in Hs.
  rewrite InitConfiguration_readable in Hs by done. fold read in Hs.
  destruct (bindFlags (parse_flags given) read.1.2) as [flags' v']. cbn [snd].
  destruct (initCertificateManager _ _ _ _) as [[err|cm] w2]; rewrite Hr in Hs; [by destruct (setupLogger _)|].
  destruct (setupLogger _); [done|]. unfold new_client in Hs.
  destruct (url_Parse (GetServerAddress v')) as [|url]; [done|]. by injection Hs as ->.
Qed.

(** a started device reports no workload in its heartbeats, whatever runs:
    the call that gives the configuration manager its status reader is
    commented out; and its hardware information is empty, which the mapper
    translates without a crash. *)
Theorem heartbeats_without_workloads `{MapOrder W'} flags w d (w' : W') :
  (Run flags w).1 = inr d →
  let heartbeat := (make_Heartbeat (st_statusReader d) (st_manager d) w').1 in
  HB_Workloads heartbeat = [] ∧ is_Some (heartbeatEntity2Model heartbeat).
Proof.
  intros Hr. destruct (Run_started flags w d Hr) as (-> & -> & _).
  unfold make_Heartbeat. rewrite M_bind_unfold. cbn [fst mret M_ret HB_Workloads default].
  assert ((range_map (∅ : gmap string JobState) w').1 = []) as ->.
  { apply Permutation_nil. symmetry. rewrite range_map_perm. by rewrite map_to_list_empty. }
  split; [done|]. by eexists.
Qed.

(** the process does not end by itself: the last thing it does when it is
    interrupted is the shutdown of the profile manager, which does not return
    normally. *)
Theorem interrupt_never_exits {T} flags w d es (m : Profile.Manager) :
  (Run flags w).1 = inr d → Profile.manager_run (T := T) Profile.newManager es m →
  (∃ before, st_actions d = before ++ [ProfileManagerShutdown]) ∧
  Profile.Shutdown Profile.new_cancelFunc m ≠ Profile.ShutdownReturns.
Proof.
  intros Hr _. split.
  - destruct (Run_started flags w d Hr) as (_ & _ & ->).
    by exists [ControllerStart; SchedulerStart; ProfileManagerStart; AwaitSignal; Cancel; ControllerShutdown].
  - unfold Profile.Shutdown, Profile.new_cancelFunc. by destruct (Profile.server m) as [[]|].
Qed.

(** the executors of a started device: a rootless pod is only given to the
    podman behind the socket of the user, a rootful one only to that of the
    system, and a k8s workload only to the cluster of the configured file. *)
Theorem started_sockets v w p :
  let xdg := (GetXDGRuntimeDir v w).1 in
  match getExecutor (executor_New v w).1 p with
  | inr (PodmanEx c) =>
      WKind p = PodKind ∧
      NewConnection (if Rootless p then "unix:" +:+ xdg +:+ "/podman/podman.sock"
                     else "unix:/run/podman/podman.sock") = inr c
  | inr (K8sEx k) =>
      WKind p = K8SKind ∧ ∃ conf, BuildConfigFromFlags "" (GetKubeConfig v) = inr conf ∧ NewForConfig conf = inr k
  | inl _ => True
  end.
Proof.
  cbv zeta. unfold executor_New. rewrite M_bind_unfold. cbn [fst mret M_ret].
  destruct (getExecutor _ p) as [err|[c|k]] eqn:E; [done| |].
  - apply getExecutor_origin in E as [Hk Hn]. split; [done|].
    unfold PodmanExecutor_New, NewPodman, podmanConnection in Hn.
    destruct (Rootless p); repeat (case_match; try done); by simplify_eq.
  - apply getExecutor_origin in E as [Hk Hn]. split; [done|].
    unfold K8sExecutor_New in Hn. destruct (BuildConfigFromFlags "" (GetKubeConfig v)) as [err|conf]; [done|].
    exists conf. split; [done|]. by destruct (NewForConfig conf); simplify_eq.
Qed.
End startup.

(** ** Witness: a device with every file, and one without a configuration file *)
Module Boot.
Import TextCrypto MapViper.
#[export] Instance files : Startup string string string string unit (keys * option keys) := {|
  ReadFile := λ p w, (inr ("EC PRIVATE KEY:" +:+ p), w);
  ParseAtomicLevel := λ _, inr InfoLevel;
  logger_error := λ _, None;
  SystemCertPool := λ w, (None, w);
  url_Parse := inr;
  NewConnection := inr;
  k8s_Conf := unit;
  BuildConfigFromFlags := λ _ _, inr tt;
  NewForConfig := inr
|}.

Definition line : gmap string string :=
  {["ca-root" := "/ca.pem"; "cert" := "/cert.pem"; "key" := "/key.pem"]}.
Definition environment : keys * option keys := ({["server" := "https://operator"]}, None).

Definition device : Started string string string string unit keys :=
  match (Run (parse_flags line) environment).1 with
  | inr d => d
  | inl _ => MkStarted InfoLevel current (MkHttpClient "" "" None) [] newConfManager None ∅ []
  end.
End Boot.
Import TextCrypto MapViper Boot.

Lemma server_flag_ignored_witness :
  (Run (parse_flags (<["server" := "https://other"]> line)) environment).1 = (Run (parse_flags line) environment).1 ∧
  serverURL (st_client device) = "https://operator".
Proof.
  split; [|by vm_compute].
  apply (server_flag_ignored line "https://other" environment); [by vm_compute|done].
Defined.

Lemma server_address_witness :
  ∃ d : Started string string string string unit keys,
    (Run (parse_flags (<["config" := "device.yaml"]> (<["server" := "https://operator"]> line))) (∅ : keys, Some (∅ : keys))).1 = inr d ∧
    serverURL (st_client d) = "https://operator".
Proof.
  eexists. split; [by vm_compute|].
  assert (∀ x y : string, inr (A := error) x = inr y → y = x) as Hinj by (intros ? ? [= ->]; done).
  apply Hinj. rewrite <-(server_address (<["config" := "device.yaml"]> (<["server" := "https://operator"]> line))
    "device.yaml" (∅ : keys, Some (∅ : keys)) _); [..|by vm_compute]; by vm_compute.
Defined.

Lemma heartbeats_without_workloads_witness :
  HB_Workloads (make_Heartbeat (W := unit) (st_statusReader device) (st_manager device) tt).1 = [].
Proof.
  apply (heartbeats_without_workloads (parse_flags line) environment device tt). by vm_compute.
Defined.

Lemma interrupt_never_exits_witness :
  Profile.Shutdown Profile.new_cancelFunc Profile.newManager ≠ Profile.ShutdownReturns.
Proof.
  apply (interrupt_never_exits (T := unit) (parse_flags line) environment device [] Profile.newManager);
    [by vm_compute|constructor].
Defined.
