(* ===== verification/System.v ===== *)
(** * The composition of the components

    A configuration from the operator's answer to the jobs: the controller gets
    it, the configuration manager sends it, and the goroutine of the scheduler
    receives what was sent.  The workloads are those whose identifier is the
    same in every call ([Identity.FixedPod]). *)
From Stdlib Require Import Strings.String.
From S2P Require Import Prelude GoStd Entity Interfaces Identity Job Store Profile Evaluate Reconcile Scheduler.
From S2P Require Import SchedulerFacts SchedulerProps Hardware Config Controller.
Local Open Scope string_scope.
Local Open Scope list_scope.

Section system.
(** The world of the controller, and that of the scheduler. *)
Context {V : Type} `{MapOrder V} `{Client V} `{Certificates V} `{Race V}.
Context (json_configuration : DeviceConfiguration → string) (json_workload : PodWorkload → string).
Context (duration_String : Z → string) (deviceID : string) (status : V → option (gmap string JobState)).
Context {W : Type} `{Clock W} `{CronLib} `{MapOrder W}.
Context `{Executor FixedPod W} `{ResourceManager W} `{RegexpLib}.
Notation digest := (digest json_configuration json_workload duration_String).
Notation operate := (handle_op json_configuration json_workload duration_String deviceID status).

(** What the scheduler does with the workloads of a configuration. *)
Lemma workloads_scheduled ws (qs : list FixedPod) (sc : Scheduler FixedPod W) w :
  reachable sc → NoDup (map PodWorkload_ID ws) → map pod_of qs ≡ₚ ws →
  let sc' := (handle_input (MkOption qs (bool_decide (ws = []))) sc w).1 in
  (∀ q, pod_of q ∈ ws → creatable q → ID q ∈ ids_of sc') ∧
  (∀ t j, t ∈ view (jobs sc) → heap sc !! t = Some j →
     heap sc' !! t = Some (if bool_decide (Job_ID j ∈ map PodWorkload_ID ws) then j else removed_job j)).
Proof.
  intros Hr Hd Hp sc'. unfold sc'. clear sc'. case_bool_decide as E.
  - subst ws. apply Permutation_sym, Permutation_nil in Hp.
    apply map_eq_nil in Hp as ->. split; [intros q Hq; by apply not_elem_of_nil in Hq|].
    intros t j Ht Hj. rewrite bool_decide_eq_false_2 by apply not_elem_of_nil.
    by apply no_workloads_marks_all.
  - assert (map ID qs ≡ₚ map PodWorkload_ID ws) as Hids.
    { change (map ID qs) with (map (λ q, PodWorkload_ID (pod_of q)) qs).
      rewrite <-(map_map pod_of PodWorkload_ID). by apply Permutation_map. }
    destruct (input_effect qs sc w (reachable_inv sc Hr)) as (_ & Hk & Hc). split.
    + intros q Hin Hcr. apply (Hc q); [|done]. apply last_with_unique; [by rewrite Hids|].
      rewrite <-Hp in Hin. by apply (list_elem_of_fmap_inj_2 pod_of) in Hin.
    + intros t j Ht Hj. rewrite (Hk t j Ht Hj). f_equal.
      assert (Job_ID j ∈ map ID qs ↔ Job_ID j ∈ map PodWorkload_ID ws) as Hiff by (by rewrite Hids).
      by rewrite (bool_decide_ext _ _ Hiff).
Qed.

(** C2: from the operator to the jobs: when an operation gets a configuration
    whose hash differs from that of the current one and whose workloads have
    fixed and distinct identifiers, the first message it sends is a permutation
    of its workloads, and receiving it makes the scheduler have a job for every
    workload with an acceptable cron specification, mark the jobs of all other
    workloads for deletion, and keep the rest as they are. *)
Theorem configuration_reaches_jobs m s v (sc : Scheduler FixedPod W) w :
  answers deviceID m → ctl s = Running_ → configuration s = None →
  (∀ v1 v2 : V, digest m v1 ≠ digest (conf (manager s)) v2) →
  Forall fixed (Workloads m) → NoDup (map PodWorkload_ID (Workloads m)) → reachable sc →
  ∃ workloads profiles opt (qs : list FixedPod),
    sent (operate s v).1 = sent s ++ [workloads; profiles] ∧ MKind profiles = ProfileConfigurationMessage ∧
    forward workloads = Some opt ∧ Value opt = map pod_of qs ∧ Value opt ≡ₚ Workloads m ∧
    let sc' := (handle_input (MkOption qs (None_ opt)) sc w).1 in
    (∀ q, pod_of q ∈ Workloads m → creatable q → ID q ∈ ids_of sc') ∧
    (∀ t j, t ∈ view (jobs sc) → heap sc !! t = Some j →
       heap sc' !! t =
         Some (if bool_decide (Job_ID j ∈ map PodWorkload_ID (Workloads m)) then j else removed_job j)).
Proof.
  intros Ha Hc Hf Hne Hfix Hd Hr.
  destruct (op_applies json_configuration json_workload duration_String deviceID status m s v Ha Hc Hf)
    as (_ & _ & v' & _ & Hs).
  destruct (SetConfiguration_result json_configuration json_workload duration_String m (manager s) v' Hne)
    as (ws & ps & Hp & _ & _ & _ & Hm).
  assert (Forall fixed ws) as Hws by (by rewrite Hp).
  destruct (fixed_list ws Hws) as [qs Hq].
  rewrite Hm in Hs. do 3 eexists. exists qs. split; [exact Hs|]. split; [done|]. split; [done|].
  split; [done|]. split; [done|]. apply (workloads_scheduled (Workloads m)); [done|done|by rewrite Hq].
Qed.
End system.

(** ** Witness: two pods from an empty device *)
Module TwoPods.
Import TickWorld.
Definition answer : DeviceConfigurationMessage := conf0 ["camera"; "radio"].

#[export] Instance fixed_operator : Client unit := {|
  Enrol := λ _ _ w, (None, w);
  Register := λ _ _ w, (inr "certificate", w);
  SendHeartbeat := λ _ _ w, (None, w);
  GetConfiguration := λ _ w, (Some (inr answer), w)
|}.
#[export] Instance ticks : MapOrder Z := {|
  range_map := λ V m w, (map_to_list m, w);
  range_map_perm := λ V m w, Permutation_refl (map_to_list m)
|}.
#[export] Instance idle : Executor FixedPod Z := {|
  Remove := λ _ w, (None, w); Run := λ _ w, (None, w); Stop := λ _ w, (None, w);
  GetState := λ _ w, (ok UnknownState, w); Exists := λ _ w, (ok false, w); Sleep := λ w, (tt, w)
|}.
#[export] Instance no_limits : ResourceManager Z := {|
  Set_ := λ _ _ w, (None, w);
  GetCGroup := λ _ _ w, (ok "/sys/fs/cgroup/machine.slice", w);
  GetResources := λ _ w, (ok CpuResource_zero, w)
|}.
#[export] Instance regexps : RegexpLib := {| regexp_compiles := λ _, true |}.

Definition empty : Scheduler FixedPod Z := newScheduler.
Lemma empty_reachable : reachable empty.
Proof. exists 0%Z, [], 0%Z. constructor. Qed.
End TwoPods.
Import TwoPods TickWorld Operator.

Lemma configuration_reaches_jobs_witness :
  ∃ workloads profiles opt (qs : list FixedPod),
    sent (handle_op (λ _, "") (λ _, "") (λ _, "") "device" (λ _ : unit, None) (registered None) tt).1
      = [] ++ [workloads; profiles] ∧
    MKind profiles = ProfileConfigurationMessage ∧ forward workloads = Some opt ∧
    Value opt = map pod_of qs ∧ Value opt ≡ₚ Workloads answer ∧
    let sc' := (handle_input (MkOption qs (None_ opt)) empty 0%Z).1 in
    (∀ q, pod_of q ∈ Workloads answer → creatable q → ID q ∈ ids_of sc') ∧
    (∀ t j, t ∈ view (jobs empty) → heap empty !! t = Some j →
       heap sc' !! t =
         Some (if bool_decide (Job_ID j ∈ map PodWorkload_ID (Workloads answer)) then j else removed_job j)).
Proof.
  apply (configuration_reaches_jobs (λ _, "") (λ _, "") (λ _, "") "device" (λ _ : unit, None) answer
           (registered None) tt empty 0%Z).
  - intros w. reflexivity.
  - reflexivity.
  - reflexivity.
  - intros [] []. vm_compute. discriminate.
  - repeat constructor; apply plain_pod_fixed.
  - apply (bool_decide_unpack _). vm_compute. exact I.
  - exact empty_reachable.
Defined.
